(** * A shallow embedding of the request pipeline of the users service

    The development follows the source tree: [middleware/security.js]
    (rate limiters, content sanitizer, injection pattern detector, size
    guard, header hardener), [middleware/validators.js] (field rules and the
    [validate] collector), [routes/users.js] (the CRUD handlers and the
    dynamic update builder of PATCH) and [app.js] (the order in which the
    stages are mounted).

    JavaScript strings are held as Rocq strings (byte sequences, UTF-8).
    All patterns of the source that are modelled here are ASCII patterns
    without the [u] flag, so they act on the bytes of the encoding exactly as
    they act on the code units of the JavaScript string; the one place where
    a non-ASCII character matters (the line terminators U+2028 and U+2029,
    which [.] does not cross) is spelled out on the encoded bytes. *)

From Stdlib Require Import ZArith Ascii.
From stdpp Require Import base list strings gmap pretty.

Local Open Scope Z_scope.

(** ** Characters and substrings *)

Module Chars.

Definition code (c : ascii) : nat := nat_of_ascii c.

Definition in_range (lo hi : nat) (c : ascii) : bool :=
  (lo <=? code c)%nat && (code c <=? hi)%nat.

Definition is_digit (c : ascii) : bool := in_range 48 57 c.
Definition is_upper (c : ascii) : bool := in_range 65 90 c.
Definition is_lower (c : ascii) : bool := in_range 97 122 c.

(** [\w] without the [u] flag: [A-Za-z0-9_]. *)
Definition is_word (c : ascii) : bool :=
  is_upper c || is_lower c || is_digit c || Ascii.eqb c "_".

(** Canonicalisation of the [i] flag on the ASCII letters. *)
Definition upcase (c : ascii) : ascii :=
  if is_lower c then ascii_of_nat (code c - 32) else c.

Definition eqb_ci (a b : ascii) : bool := Ascii.eqb (upcase a) (upcase b).

(** [\s] restricted to the one-byte white space characters:
    TAB, LF, VT, FF, CR and SPACE. *)
Definition is_space (c : ascii) : bool :=
  in_range 9 13 c || Ascii.eqb c " ".

End Chars.

Module Text.

Definition chars (s : string) : list ascii := String.list_ascii_of_string s.

(** [starts eq p s]: the pattern [p] matches at the head of [s]. *)
Fixpoint starts (eq : ascii -> ascii -> bool) (p s : list ascii) : bool :=
  match p, s with
  | [], _ => true
  | _ :: _, [] => false
  | a :: p', b :: s' => eq a b && starts eq p' s'
  end.

(** [drop_prefix eq p s]: what is left of [s] after the pattern [p]. *)
Fixpoint drop_prefix (eq : ascii -> ascii -> bool) (p s : list ascii)
  : option (list ascii) :=
  match p, s with
  | [], _ => Some s
  | _ :: _, [] => None
  | a :: p', b :: s' => if eq a b then drop_prefix eq p' s' else None
  end.

(** [occurs p s]: the literal [p] occurs somewhere in [s]. *)
Fixpoint occurs (p s : list ascii) : bool :=
  starts Ascii.eqb p s ||
  match s with
  | [] => false
  | _ :: s' => occurs p s'
  end.

Definition contains (p s : string) : bool := occurs (chars p) (chars s).

Definition has_char (f : ascii -> bool) (s : string) : bool :=
  existsb f (chars s).

(** The two texts are equal up to the case of their ASCII letters. *)
Fixpoint same_ci (a b : list ascii) : bool :=
  match a, b with
  | [], [] => true
  | x :: a', y :: b' => Chars.eqb_ci x y && same_ci a' b'
  | _, _ => false
  end.

Definition equal_ci (a b : string) : bool := same_ci (chars a) (chars b).

End Text.

(** ** Request data

    The values that [express.json], [express.urlencoded] and the query
    parser put into [req.body], [req.query] and [req.params]. An object is
    the list of its own enumerable properties in enumeration order. *)

#[local] Set Warnings "-register-all".

Inductive value : Type :=
  | VUndefined
  | VNull
  | VBool (b : bool)
  | VNum (n : Z)
  | VNaN
  | VStr (s : string)
  | VArr (items : list value)
  | VObj (props : list (string * value)).

Module Js.

Inductive type_tag := TUndefined | TObject | TBoolean | TNumber | TString.

Definition typeof (v : value) : type_tag :=
  match v with
  | VUndefined => TUndefined
  | VNull | VArr _ | VObj _ => TObject
  | VBool _ => TBoolean
  | VNum _ | VNaN => TNumber
  | VStr _ => TString
  end.

Definition truthy (v : value) : bool :=
  match v with
  | VUndefined | VNull | VNaN => false
  | VBool b => b
  | VNum n => negb (n =? 0)
  | VStr s => negb (String.eqb s "")
  | VArr _ | VObj _ => true
  end.

(** The decimal spelling of an array index, as [for ... in] yields it. *)
Definition index_key (i : nat) : string := pretty i.

Fixpoint indexed {A} (i : nat) (l : list A) : list (string * A) :=
  match l with
  | [] => []
  | x :: l' => (index_key i, x) :: indexed (S i) l'
  end.

Definition one_char (c : ascii) : value := VStr (String c EmptyString).

(** The own enumerable properties of a value as pairs [(key, obj[key])],
    in the order in which [for (const key in obj)], [Object.keys],
    [Object.values] and [Object.entries] visit them. On a string primitive
    these are its indices and one-character strings; any other primitive
    has none. *)
Definition own_entries (v : value) : list (string * value) :=
  match v with
  | VObj props => props
  | VArr items => indexed 0 items
  | VStr s => indexed 0 (map one_char (Text.chars s))
  | _ => []
  end.

(** The object has an own property named [hasOwnProperty]. The two
    [for ... in] loops of security.js guard their body by the method call
    [obj.hasOwnProperty(key)] on the object they walk; in an object parsed
    from a request the own property of that name is not a function, so
    the call throws a TypeError at the first key of the loop. Arrays and
    primitives of a request have no such property. *)
Definition shadowed (v : value) : bool :=
  match v with
  | VObj props => existsb (String.eqb "hasOwnProperty") (map fst props)
  | _ => false
  end.

(** [obj[key]] for an own property; [undefined] when there is none. *)
Fixpoint get (props : list (string * value)) (key : string) : value :=
  match props with
  | [] => VUndefined
  | (k, v) :: rest => if String.eqb k key then v else get rest key
  end.

Definition keys (props : list (string * value)) : list string := map fst props.

End Js.

(** ** HTTP requests and responses *)

(** The methods that reach the routes. An OPTIONS request is answered by
    the cors package and never gets that far. *)
Inductive Method := GET | HEAD | POST | PUT | PATCH | DELETE.

(** [path] is the request path cut at its slashes, the leading one
    dropped and percent escapes left as they are: /api/users/7 is
    [api; users; 7] and /health/ is [health] followed by the empty
    segment. [originalUrl] is its text with the query string, [ip] the
    client address the limiters key on, [now] the arrival time in
    milliseconds. *)
Record Req := mkReq {
  method : Method;
  originalUrl : string;
  path : list string;
  ip : string;
  now : Z;
  headers : gmap string string;
  body : value;
  query : value;
  params : value
}.

Record Response := mkResponse {
  status : nat;
  payload : value;
  sent_headers : list (string * string)
}.

(** A failure recorded by a validation chain, as [validationResult(req)]
    lists it. *)
Record ValidationError := mkValidationError {
  err_path : string;
  err_msg : string;
  err_value : value
}.

(** An exception handed to [next(err)]. *)
Record Error := mkError {
  e_status : option nat;
  e_name : string;
  e_code : string;
  e_message : string;
  e_stack : string;
  e_details : option value
}.

(** A request in flight: the request object, the validation failures the
    chains have attached to it, and the headers already set on the response
    object. *)
Record Ctx := mkCtx {
  req : Req;
  found : list ValidationError;
  res_headers : list (string * string)
}.

Inductive Step :=
  | Next (c : Ctx)
  | Send (r : Response)
  | Throw (c : Ctx) (e : Error).

(** The TypeError of the call [obj.hasOwnProperty(key)] on an object
    whose own property of that name is not a function. *)
Definition guardError : Error :=
  {| e_status := None; e_name := "TypeError"; e_code := "";
     e_message := "obj.hasOwnProperty is not a function"; e_stack := "";
     e_details := None |}.

Definition with_req (c : Ctx) (r : Req) : Ctx :=
  {| req := r; found := found c; res_headers := res_headers c |}.

Definition with_found (c : Ctx) (errs : list ValidationError) : Ctx :=
  {| req := req c; found := errs; res_headers := res_headers c |}.

Definition with_headers (c : Ctx) (h : list (string * string)) : Ctx :=
  {| req := req c; found := found c; res_headers := h |}.

Definition with_body (r : Req) (b : value) : Req :=
  mkReq (method r) (originalUrl r) (path r) (ip r) (now r) (headers r) b (query r) (params r).

Definition with_params (r : Req) (p : value) : Req :=
  mkReq (method r) (originalUrl r) (path r) (ip r) (now r) (headers r) (body r) (query r) p.

Definition without (name : string) (h : list (string * string))
  : list (string * string) :=
  List.filter (fun x => negb (String.eqb (fst x) name)) h.

(** [res.setHeader(name, value)]. Names are compared as they are written;
    Node compares them without regard to the case of their letters, and
    the source writes no header under two spellings. *)
Definition setHeader (name v : string) (c : Ctx) : Ctx :=
  with_headers c ((name, v) :: without name (res_headers c)).

Definition removeHeader (name : string) (c : Ctx) : Ctx :=
  with_headers c (without name (res_headers c)).

(** [res.status(code).json(payload)] *)
Definition json (c : Ctx) (code : nat) (p : value) : Response :=
  {| status := code; payload := p; sent_headers := res_headers c |}.

(** ** middleware/security.js: the injection pattern detector *)

Module Sql.

Import Chars Text.

Definition keywords : list string :=
  ["SELECT"; "INSERT"; "UPDATE"; "DELETE"; "DROP"; "CREATE"; "ALTER";
   "EXEC"; "UNION"; "SCRIPT"].

Definition connectives : list string := ["OR"; "AND"].

(** [\b] after a word: the end of the input or a non-word character. *)
Definition word_end (rest : list ascii) : bool :=
  match rest with
  | [] => true
  | c :: _ => negb (is_word c)
  end.

(** A line terminator starts here: LF, CR, or the encodings of U+2028
    and U+2029. The dot of a pattern does not match these. *)
Definition line_terminator_at (s : list ascii) : bool :=
  match s with
  | c :: rest =>
      (code c =? 10)%nat || (code c =? 13)%nat ||
      ((code c =? 226)%nat &&
       match rest with
       | c1 :: c2 :: _ =>
           (code c1 =? 128)%nat && ((code c2 =? 168)%nat || (code c2 =? 169)%nat)
       | _ => false
       end)
  | [] => false
  end.

(** [.*=] : an equals sign further on the same line. *)
Fixpoint eq_on_line (s : list ascii) : bool :=
  match s with
  | [] => false
  | c :: rest =>
      if Ascii.eqb c "=" then true
      else if line_terminator_at s then false
      else eq_on_line rest
  end.

(** [(W1|W2|...)\b tail] matched at the head of [s], letters compared
    without regard to case. *)
Definition word_here (words : list string) (tail : list ascii -> bool)
    (s : list ascii) : bool :=
  existsb (fun w =>
             match drop_prefix eqb_ci (chars w) s with
             | Some rest => word_end rest && tail rest
             | None => false
             end) words.

(** [\b(W1|W2|...)\b tail] searched from every position; [prev_word]
    tells whether the character before the position is a word character. *)
Fixpoint word_search (words : list string) (tail : list ascii -> bool)
    (prev_word : bool) (s : list ascii) : bool :=
  match s with
  | [] => false
  | c :: rest =>
      (negb prev_word && word_here words tail s)
      || word_search words tail (is_word c) rest
  end.

(** First pattern: one of the ten keywords as a whole word, flag [i]. *)
Definition pattern_keyword (s : string) : bool :=
  word_search keywords (fun _ => true) false (chars s).

(** Second pattern: a semicolon, two hyphens, or either comment
    delimiter of the block comment. *)
Definition pattern_syntax (s : string) : bool :=
  contains ";" s || contains "--" s || contains "/*" s || contains "*/" s.

(** Third pattern: OR or AND as a whole word, flag [i], followed on the
    same line by an equals sign. *)
Definition pattern_tautology (s : string) : bool :=
  word_search connectives eq_on_line false (chars s).

(** Fourth pattern: the literal 1=1 or 1=0. *)
Definition pattern_constant (s : string) : bool :=
  contains "1=1" s || contains "1=0" s.

Definition is_quote (c : ascii) : bool :=
  Ascii.eqb c "'" || Ascii.eqb c "034".

(** The last pattern of the list: an alternation of the apostrophe, the
    doubled apostrophe, the double quote (character 34) and the doubled
    double quote. Its first and third alternatives match one quote
    character on their own, so the pattern matches exactly the strings
    that hold a quote character. *)
Definition pattern_quote (s : string) : bool := has_char is_quote s.

Definition sqlPatterns : list (string -> bool) :=
  [pattern_keyword; pattern_syntax; pattern_tautology; pattern_constant;
   pattern_quote].

Definition detectSQLInjection (v : value) : bool :=
  match v with
  | VStr s => existsb (fun pattern => pattern s) sqlPatterns
  | _ => false
  end.

Definition currentPath (path key : string) : string :=
  if String.eqb path "" then key else path +:+ "." +:+ key.

(** What a scan says: nothing found, the dotted path of the first
    offending string, or the TypeError of the loop guard. *)
Inductive Verdict :=
  | Clean
  | Offends (field : string)
  | Fails.

(** [checkObject] on what an entry holds: the first event of the scan, in
    [for ... in] order and depth first, is either a string that matches a
    pattern or an object on which the guard of the loop throws. The source
    returns the response it has just sent; the response is built from the
    path by [sqlInjectionProtection] below. *)
Fixpoint checkValue (path key : string) (v : value) {struct v} : Verdict :=
  let here := currentPath path key in
  match v with
  | VStr s => if detectSQLInjection (VStr s) then Offends here else Clean
  | VObj props =>
      if Js.shadowed (VObj props) then Fails
      else
        (fix loop (l : list (string * value)) : Verdict :=
           match l with
           | [] => Clean
           | (k, x) :: rest =>
               match checkValue here k x with
               | Clean => loop rest
               | stop => stop
               end
           end) props
  | VArr items =>
      (fix loop (i : nat) (l : list value) : Verdict :=
         match l with
         | [] => Clean
         | x :: rest =>
             match checkValue here (Js.index_key i) x with
             | Clean => loop (S i) rest
             | stop => stop
             end
         end) 0%nat items
  | _ => Clean
  end.

Fixpoint checkEntries (path : string) (l : list (string * value)) : Verdict :=
  match l with
  | [] => Clean
  | (k, x) :: rest =>
      match checkValue path k x with
      | Clean => checkEntries path rest
      | stop => stop
      end
  end.

Definition checkObject (obj : value) (path : string) : Verdict :=
  if Js.shadowed obj then Fails
  else checkEntries path (Js.own_entries obj).

Definition sources (r : Req) : list value := [body r; query r; params r].

Fixpoint firstViolation (srcs : list value) : Verdict :=
  match srcs with
  | [] => Clean
  | data :: rest =>
      if Js.truthy data then
        match checkObject data "" with
        | Clean => firstViolation rest
        | stop => stop
        end
      else firstViolation rest
  end.

Definition rejection (field : string) : value :=
  VObj [("error", VStr "Potential SQL injection detected");
        ("field", VStr field)].

Definition sqlInjectionProtection (c : Ctx) : Step :=
  match firstViolation (sources (req c)) with
  | Offends field => Send (json c 400 (rejection field))
  | Clean => Next c
  | Fails => Throw c guardError
  end.

End Sql.

(** ** JavaScript white space and [parseInt] *)

Module Space.

Import Chars.

Definition byte_is (n : nat) (c : ascii) : bool := (code c =? n)%nat.

(** The number of bytes of the white space character ([\s], and the
    [StrWhiteSpaceChar] of [parseInt]) that starts [s]; 0 when [s] does
    not start with one. The multi-byte cases are the encodings of U+00A0,
    U+1680, U+2000..U+200A, U+2028, U+2029, U+202F, U+205F, U+3000 and
    U+FEFF. *)
Definition space_len (s : list ascii) : nat :=
  match s with
  | [] => 0
  | c0 :: rest =>
      if is_space c0 then 1
      else match rest with
           | [] => 0
           | c1 :: rest1 =>
               if byte_is 194 c0 && byte_is 160 c1 then 2
               else match rest1 with
                    | [] => 0
                    | c2 :: _ =>
                        if byte_is 225 c0 && byte_is 154 c1 && byte_is 128 c2 then 3
                        else if byte_is 226 c0 && byte_is 128 c1 &&
                                (in_range 128 138 c2 || in_range 168 169 c2 || byte_is 175 c2)
                        then 3
                        else if byte_is 226 c0 && byte_is 129 c1 && byte_is 159 c2 then 3
                        else if byte_is 227 c0 && byte_is 128 c1 && byte_is 128 c2 then 3
                        else if byte_is 239 c0 && byte_is 187 c1 && byte_is 191 c2 then 3
                        else 0
                    end
           end
  end%nat.

(** Leading white space removed; [fuel] bounds the number of characters. *)
Fixpoint skip (fuel : nat) (s : list ascii) : list ascii :=
  match fuel with
  | O => s
  | S fuel' =>
      match space_len s with
      | O => s
      | n => skip fuel' (drop n s)
      end
  end.

Definition trim_start (s : list ascii) : list ascii := skip (length s) s.

(** The input up to its trailing white space: a character is kept when
    something other than white space follows it. *)
Fixpoint keep (fuel : nat) (s : list ascii) : list ascii :=
  match fuel with
  | O => []
  | S fuel' =>
      match trim_start s with
      | [] => []
      | _ :: _ =>
          match space_len s with
          | O => match s with
                 | [] => []
                 | c :: rest => c :: keep fuel' rest
                 end
          | n => take n s ++ keep fuel' (drop n s)
          end
      end
  end.

Definition trim_end (s : list ascii) : list ascii := keep (length s) s.

(** [str.trim()], and validator's [trim] without a character list. *)
Definition trim (s : list ascii) : list ascii := trim_end (trim_start s).

(** [str.replace(/\s+/g, ' ')]: every maximal run of white space becomes
    one space. [in_run] tells that the previous character was white. *)
Fixpoint squeeze (fuel : nat) (in_run : bool) (s : list ascii) : list ascii :=
  match fuel with
  | O => []
  | S fuel' =>
      match s with
      | [] => []
      | c :: rest =>
          match space_len s with
          | O => c :: squeeze fuel' false rest
          | n => (if in_run then [] else [" "%char]) ++ squeeze fuel' true (drop n s)
          end
      end
  end.

Definition collapse (s : list ascii) : list ascii := squeeze (length s) false s.

End Space.

Module Num.

Import Chars.

Definition digit_value (radix : Z) (c : ascii) : option Z :=
  let v :=
    if is_digit c then Some (Z.of_nat (code c) - 48)
    else if in_range 97 122 c then Some (Z.of_nat (code c) - 87)
    else if in_range 65 90 c then Some (Z.of_nat (code c) - 55)
    else None in
  match v with
  | Some d => if d <? radix then Some d else None
  | None => None
  end.

(** The longest prefix of digits of the radix, read from the left;
    [None] when the prefix is empty. *)
Fixpoint digits (radix : Z) (acc : option Z) (s : list ascii) : option Z :=
  match s with
  | [] => acc
  | c :: rest =>
      match digit_value radix c with
      | Some d => digits radix (Some (radix * default 0 acc + d)) rest
      | None => acc
      end
  end.

Definition signed (s : list ascii) : Z * list ascii :=
  match s with
  | c :: rest =>
      if Ascii.eqb c "-" then (-1, rest)
      else if Ascii.eqb c "+" then (1, rest)
      else (1, s)
  | [] => (1, s)
  end.

Definition hex_prefix (s : list ascii) : option (list ascii) :=
  match s with
  | c0 :: c1 :: rest =>
      if Ascii.eqb c0 "0" && (Ascii.eqb c1 "x" || Ascii.eqb c1 "X")
      then Some rest else None
  | _ => None
  end.

(** [parseInt(str)] and [parseInt(str, 10)] up to the last step of the
    language definition: the signed integer the digits spell (its
    [mathInt] with the sign), [None] for NaN. The Number that JavaScript
    returns is this integer rounded to a double: the integer itself up to
    2^53 in magnitude, a neighbour of it or an infinity above. Rounding is
    monotone and leaves the integers up to 2^53 alone, so the Number and
    the integer compare alike with every integer up to 2^53. *)
Definition parseInt_radix (radix : option Z) (str : string) : option Z :=
  let '(sign, s) := signed (Space.trim_start (Text.chars str)) in
  let '(r, s) :=
    match radix with
    | Some r => (r, s)
    | None => match hex_prefix s with
              | Some rest => (16, rest)
              | None => (10, s)
              end
    end in
  match digits r None s with
  | Some n => Some (sign * n)
  | None => None
  end.

Definition parseInt (str : string) : option Z := parseInt_radix None str.

End Num.

(** ** middleware/security.js: size guard and header hardener *)

Definition maxSize : Z := 10 * 1024 * 1024.

Definition tooLarge : value :=
  VObj [("error", VStr "Request entity too large"); ("maxSize", VStr "10MB")].

Definition exceeds (n : option Z) (bound : Z) : bool :=
  match n with
  | Some k => bound <? k
  | None => false
  end.

Definition requestSizeLimiter (c : Ctx) : Step :=
  match headers (req c) !! "content-length" with
  | Some h =>
      if negb (String.eqb h "") && exceeds (Num.parseInt h) maxSize
      then Send (json c 413 tooLarge)
      else Next c
  | None => Next c
  end.

Definition securityHeaders (c : Ctx) : Step :=
  Next (setHeader "Permissions-Policy" "geolocation=(), microphone=(), camera=()"
       (setHeader "Referrer-Policy" "strict-origin-when-cross-origin"
       (setHeader "X-XSS-Protection" "1; mode=block"
       (setHeader "X-Frame-Options" "DENY"
       (setHeader "X-Content-Type-Options" "nosniff"
       (removeHeader "X-Powered-By" c)))))).

(** ** Strings of values *)

Module Conv.

Fixpoint join (sep : string) (l : list string) : string :=
  match l with
  | [] => ""
  | [x] => x
  | x :: rest => x +:+ sep +:+ join sep rest
  end.

(** [String(v)] *)
Fixpoint String_ (v : value) : string :=
  match v with
  | VUndefined => "undefined"
  | VNull => "null"
  | VBool true => "true"
  | VBool false => "false"
  | VNum n => pretty n
  | VNaN => "NaN"
  | VStr s => s
  | VArr items =>
      join ","
        ((fix each (l : list value) : list string :=
            match l with
            | [] => []
            | x :: rest =>
                match x with
                | VUndefined | VNull => ""
                | _ => String_ x
                end :: each rest
            end) items)
  | VObj _ => "[object Object]"
  end.

(** The element of [Array.prototype.join]: empty for null and undefined. *)
Definition joined (v : value) : string :=
  match v with
  | VUndefined | VNull => ""
  | _ => String_ v
  end.

(** The string a standard validator or sanitizer of express-validator
    sees: the first element of a non-empty array, the empty string for
    undefined, null and NaN, the JavaScript string otherwise. *)
Definition shallow (v : value) : string :=
  match v with
  | VUndefined | VNull | VNaN => ""
  | _ => String_ v
  end.

Definition toString (v : value) : string :=
  match v with
  | VArr (x :: _) => shallow x
  | _ => shallow v
  end.

Definition text (l : list ascii) : string := String.string_of_list_ascii l.

End Conv.

(** ** What the service takes from its environment

    The functions of validator.js that are too large to restate, the HTML
    sanitizer DOMPurify with the options the source passes to it, the
    decoding of a route parameter by Express ([decodeURIComponent], which
    fails on a malformed escape), the header sets of the helmet and cors
    packages, the body parsers and the two request rewriters hpp and
    express-mongo-sanitize, the clock rendering and the process facts.
    Every result below holds for all of them, unless it names what it
    asks of one. *)

Class Externals := {
  isEmail : string -> bool;
  normalizeEmail : string -> value;
  purify : string -> string;
  decodeParam : string -> option string;
  helmet : Ctx -> Step;
  corsHeaders : Req -> list (string * string);
  jsonParser : Ctx -> Step;
  urlencodedParser : Ctx -> Step;
  hpp : Ctx -> Step;
  mongoSanitize : Ctx -> Step;
  toISOString : Z -> string;
  uptime : Z -> value;
  development : bool
}.

(** ** middleware/security.js: the content sanitizer *)

Module Xss.

Section WithExternals.

Context `{Externals}.

(** What [sanitizeObject] leaves under a key: a string is replaced by
    what [DOMPurify.sanitize] returns for it, an object or array is
    walked, anything else stays. [None] when the guard of the loop throws
    on an object on the way. *)
Fixpoint sanitizeValue (v : value) : option value :=
  match v with
  | VStr s => Some (VStr (purify s))
  | VObj props =>
      if Js.shadowed (VObj props) then None
      else
        VObj <$>
          (fix walk (l : list (string * value)) : option (list (string * value)) :=
             match l with
             | [] => Some []
             | (k, x) :: rest =>
                 match sanitizeValue x with
                 | Some x' => cons (k, x') <$> walk rest
                 | None => None
                 end
             end) props
  | VArr items =>
      VArr <$>
        (fix walk (l : list value) : option (list value) :=
           match l with
           | [] => Some []
           | x :: rest =>
               match sanitizeValue x with
               | Some x' => cons x' <$> walk rest
               | None => None
               end
           end) items
  | _ => Some v
  end.

(** [sanitizeObject(obj)]: guarded by [obj && typeof obj === 'object'],
    so a primitive at the root is left as it is. *)
Definition sanitizeObject (obj : value) : option value :=
  match obj with
  | VObj _ | VArr _ => sanitizeValue obj
  | _ => Some obj
  end.

Definition sanitizeSource (data : value) : option value :=
  if Js.truthy data then sanitizeObject data else Some data.

(** The sanitizer rewrites body, query and params in place, in that
    order, and goes on. When the guard throws, the exception leaves the
    middleware; what had been rewritten by then is read by nobody. *)
Definition xssProtection (c : Ctx) : Step :=
  let r := req c in
  match sanitizeSource (body r), sanitizeSource (query r),
        sanitizeSource (params r) with
  | Some b, Some q, Some p =>
      Next (with_req c
              (mkReq (method r) (originalUrl r) (path r) (ip r) (now r)
                     (headers r) b q p))
  | _, _, _ => Throw c guardError
  end.

End WithExternals.

End Xss.

(** ** middleware/security.js: the rate limiters *)

Module RateLimit.

Record Options := mkOptions {
  windowMs : Z;
  max : Z;
  message : string
}.

(** Per client: the hits counted in the current window and the time at
    which that window ends. *)
Record Entry := mkEntry {
  totalHits : Z;
  resetTime : Z
}.

(** Modelled from the spec: [express-rate-limit] with its memory store is
    a dependency of the service and not part of its source tree. The spec
    describes each limiter as a counter keyed by the client address that
    counts every request of a window of fixed duration, successful or
    not, and resets when the window is over. *)
Definition increment (o : Options) (key : string) (t : Z)
    (store : gmap string Entry) : Entry :=
  match store !! key with
  | Some e =>
      if t <? resetTime e
      then {| totalHits := totalHits e + 1; resetTime := resetTime e |}
      else {| totalHits := 1; resetTime := t + windowMs o |}
  | None => {| totalHits := 1; resetTime := t + windowMs o |}
  end.

Definition remaining (o : Options) (e : Entry) : Z :=
  Z.max 0 (max o - totalHits e).

Definition resetSeconds (t : Z) (e : Entry) : Z :=
  (resetTime e - t + 999) / 1000.

Definition quotaHeaders (o : Options) (t : Z) (e : Entry) (c : Ctx) : Ctx :=
  setHeader "RateLimit-Reset" (pretty (resetSeconds t e))
 (setHeader "RateLimit-Remaining" (pretty (remaining o e))
 (setHeader "RateLimit-Limit" (pretty (max o)) c)).

(** Modelled from the spec: the middleware [rateLimit(options)] returns.
    It counts the request, puts the quota metadata (limit, remaining,
    reset) on the response, and answers 429 with the configured message
    once the count of the window exceeds the limit. Neither
    [skipSuccessfulRequests] nor [skipFailedRequests] is set, so a count
    is never taken back. *)
Definition rateLimit (o : Options) (c : Ctx) (store : gmap string Entry)
  : Step * gmap string Entry :=
  let key := ip (req c) in
  let e := increment o key (now (req c)) store in
  let c' := quotaHeaders o (now (req c)) e c in
  let store' := <[key := e]> store in
  if max o <? totalHits e
  then (Send (json c' 429 (VObj [("error", VStr (message o))])), store')
  else (Next c', store').

Definition createRateLimit (windowMs max : Z) (message : string) : Options :=
  {| windowMs := windowMs; max := max; message := message |}.

Definition generalLimiter : Options :=
  createRateLimit (15 * 60 * 1000) 100
    "Too many requests from this IP, please try again after 15 minutes".

Definition strictLimiter : Options :=
  createRateLimit (15 * 60 * 1000) 5
    "Too many attempts, please try again after 15 minutes".

Definition apiLimiter : Options :=
  createRateLimit (60 * 60 * 1000) 1000
    "API rate limit exceeded, please try again after an hour".

End RateLimit.


(** ** The validation chains of express-validator *)

Module Chain.

Inductive Location := InBody | InParams.

(** One link of a chain. A standard validator is a predicate of
    validator.js on the string form of the value, with the message given
    by [withMessage]; a custom validator fails by throwing, and yields
    the message of what it throws.
    A custom sanitizer is the source's own function, which may throw
    ([None]). *)
Inductive Item :=
  | Standard (test : string -> bool) (msg : string)
  | Custom (test : value -> Req -> option string)
  | Sanitizer (f : string -> value)
  | CustomSanitizer (f : value -> option value).

(** [field] is empty for [body()], the chain on the whole body. *)
Record t := mk {
  location : Location;
  field : string;
  optional : bool;
  items : list Item
}.

Definition data (l : Location) (r : Req) : value :=
  match l with
  | InBody => body r
  | InParams => params r
  end.

Definition select (ch : t) (r : Req) : value :=
  if String.eqb (field ch) "" then data (location ch) r
  else match data (location ch) r with
       | VObj props => Js.get props (field ch)
       | _ => VUndefined
       end.

Fixpoint assign (props : list (string * value)) (key : string) (v : value)
  : list (string * value) :=
  match props with
  | [] => [(key, v)]
  | (k, x) :: rest =>
      if String.eqb k key then (k, v) :: rest else (k, x) :: assign rest key v
  end.

Definition put (l : Location) (r : Req) (d : value) : Req :=
  match l with
  | InBody => with_body r d
  | InParams => with_params r d
  end.

(** The sanitized value written back to the request. *)
Definition store (ch : t) (r : Req) (v : value) : Req :=
  if String.eqb (field ch) "" then put (location ch) r v
  else match data (location ch) r with
       | VObj props => put (location ch) r (VObj (assign props (field ch) v))
       | _ => r
       end.

Definition each (v : value) : list value :=
  match v with
  | VArr items => items
  | _ => [v]
  end.

Definition failure (ch : t) (msg : string) (v : value) : ValidationError :=
  {| err_path := field ch; err_msg := msg; err_value := v |}.

(** Modelled from the spec: express-validator is a dependency of the
    service and not part of its source tree. Every link of a chain runs,
    in order, whether or not an earlier link has failed; a failing
    validator adds one entry (field, message, rejected value) to the
    failures of the request, a sanitizer replaces the value, in the chain
    and on the request. *)
Definition link (ch : t) (it : Item) (st : value * Ctx) : Ctx + value * Ctx :=
  let '(v, c) := st in
  match it with
  | Standard test msg =>
      let bad := List.filter (fun x => negb (test (Conv.toString x))) (each v) in
      inr (v, with_found c (found c ++ map (failure ch msg) bad))
  | Custom test =>
      match test v (req c) with
      | None => inr (v, c)
      | Some msg => inr (v, with_found c (found c ++ [failure ch msg v]))
      end
  | Sanitizer f =>
      let v' := match v with
                | VArr items => VArr (map (fun x => f (Conv.toString x)) items)
                | _ => f (Conv.toString v)
                end in
      inr (v', with_req c (store ch (req c) v'))
  | CustomSanitizer f =>
      match f v with
      | Some v' => inr (v', with_req c (store ch (req c) v'))
      | None => inl c
      end
  end.

Fixpoint links (ch : t) (l : list Item) (st : value * Ctx) : Ctx + value * Ctx :=
  match l with
  | [] => inr st
  | it :: rest =>
      match link ch it st with
      | inr st' => links ch rest st'
      | inl c => inl c
      end
  end.

Definition typeError : Error :=
  {| e_status := None; e_name := "TypeError"; e_code := "";
     e_message := "value.replace is not a function"; e_stack := "";
     e_details := None |}.

(** The chain as a middleware: an optional chain is skipped when its
    field is undefined; an exception goes to [next(err)]. *)
Definition run (ch : t) (c : Ctx) : Step :=
  let v := select ch (req c) in
  if optional ch && match v with VUndefined => true | _ => false end
  then Next c
  else match links ch (items ch) (v, c) with
       | inr (_, c') => Next c'
       | inl c' => Throw c' typeError
       end.

End Chain.

(** ** middleware/validators.js *)

Module Rules.

Import Chars Text.

(** validator.js [isLength]: the number of characters, a surrogate pair
    (four bytes here) counting once and the variation selectors U+FE0E
    and U+FE0F not at all. *)
Definition continuation (c : ascii) : bool := in_range 128 191 c.

Fixpoint selectors (s : list ascii) : nat :=
  match s with
  | [] => 0
  | c0 :: rest =>
      (match rest with
       | c1 :: c2 :: _ =>
           if Space.byte_is 239 c0 && Space.byte_is 184 c1 && in_range 142 143 c2
           then 1 else 0
       | _ => 0
       end + selectors rest)%nat
  end.

Definition char_count (s : list ascii) : nat :=
  (length (List.filter (fun c => negb (continuation c)) s) - selectors s)%nat.

Definition isLength (lo hi : nat) (s : string) : bool :=
  let n := char_count (chars s) in (lo <=? n)%nat && (n <=? hi)%nat.

Definition trim (s : string) : value :=
  VStr (Conv.text (Space.trim (chars s))).

(** validator.js [escape] *)
Definition entity (c : ascii) : list ascii :=
  match code c with
  | 38 => chars "&amp;"
  | 34 => chars "&quot;"
  | 39 => chars "&#x27;"
  | 60 => chars "&lt;"
  | 62 => chars "&gt;"
  | 47 => chars "&#x2F;"
  | 92 => chars "&#x5C;"
  | 96 => chars "&#96;"
  | _ => [c]
  end%nat.

Definition escape (s : string) : value :=
  VStr (Conv.text (flat_map entity (chars s))).

(** The letters of the two named scripts, U+0590..U+05FF and
    U+0600..U+06FF, in their two-byte encodings. *)
Definition script_letter (c0 c1 : ascii) : bool :=
  (Space.byte_is 214 c0 && in_range 144 191 c1) ||
  (in_range 215 219 c0 && in_range 128 191 c1).

(** The bytes of the character of the class that starts [s]; 0 when [s]
    does not start with one. The class holds the Latin letters, white
    space, the two scripts, dot and hyphen, and what [extra] adds. *)
Definition class_len (extra : ascii -> bool) (s : list ascii) : nat :=
  match s with
  | [] => 0
  | c0 :: rest =>
      if is_upper c0 || is_lower c0 || Ascii.eqb c0 "." || Ascii.eqb c0 "-" || extra c0
      then 1
      else match Space.space_len s with
           | O => match rest with
                  | c1 :: _ => if script_letter c0 c1 then 2 else 0
                  | [] => 0
                  end
           | n => n
           end
  end%nat.

Fixpoint all_class (fuel : nat) (extra : ascii -> bool) (s : list ascii) : bool :=
  match fuel with
  | O => match s with [] => true | _ => false end
  | S fuel' =>
      match s with
      | [] => true
      | _ :: _ =>
          match class_len extra s with
          | O => false
          | n => all_class fuel' extra (drop n s)
          end
      end
  end.

Definition in_class (extra : ascii -> bool) (s : string) : bool :=
  match chars s with
  | [] => false
  | l => all_class (length l) extra l
  end.

(** The charset of [name], [city] and [country]. *)
Definition lettersOnly (s : string) : bool := in_class (fun _ => false) s.

(** The charset of [address]: digits and the comma as well. *)
Definition addressChars (s : string) : bool :=
  in_class (fun c => is_digit c || Ascii.eqb c ",") s.

(** The phone pattern: +9725 and eight digits, nothing else. *)
Definition phonePattern (s : string) : bool :=
  match drop_prefix Ascii.eqb (chars "+9725") (chars s) with
  | Some rest => (length rest =? 8)%nat && forallb is_digit rest
  | None => false
  end.

(** validator.js [isInt] with bounds: an optional sign and digits, and
    the number within the bounds. *)
Definition isInt (lo hi : Z) (s : string) : bool :=
  let '(sign, ds) := Num.signed (chars s) in
  match ds with
  | [] => false
  | _ :: _ =>
      forallb is_digit ds &&
      match Num.digits 10 None ds with
      | Some n => (lo <=? sign * n) && (sign * n <=? hi)
      | None => false
      end
  end.

(** validator.js [toInt]: [parseInt(str, 10)]. The number is the integer
    the digits spell; this is the Number JavaScript yields as long as the
    integer is at most 2^53 in magnitude, which covers every id the rule
    of the by-id routes accepts. *)
Definition toInt (s : string) : value :=
  match Num.parseInt_radix (Some 10) s with
  | Some n => VNum n
  | None => VNaN
  end.

(** [occurs_ci p s]: the literal [p] occurs in [s], letters compared
    without regard to case. *)
Fixpoint occurs_ci (p s : list ascii) : bool :=
  starts eqb_ci p s ||
  match s with
  | [] => false
  | _ :: s' => occurs_ci p s'
  end.

Definition contains_ci (p s : string) : bool := occurs_ci (chars p) (chars s).

(** [.*p] : the literal [p] further on the same line. *)
Fixpoint later_on_line (p s : list ascii) : bool :=
  starts eqb_ci p s ||
  match s with
  | [] => false
  | _ :: s' => if Sql.line_terminator_at s then false else later_on_line p s'
  end.

(** [first.*second], searched from every position. *)
Fixpoint first_then (first second s : list ascii) : bool :=
  match drop_prefix eqb_ci first s with
  | Some rest => later_on_line second rest
  | None => false
  end ||
  match s with
  | [] => false
  | _ :: s' => first_then first second s'
  end.

Definition forbiddenInId (c : ascii) : bool :=
  match code c with
  | 39 | 34 | 96 | 59 | 92 | 45 => true
  | _ => false
  end%nat.

Definition suspiciousEmail (s : string) : bool :=
  first_then (chars "+") (chars "script") (chars s)
  || contains_ci "javascript:" s
  || contains_ci "data:" s
  || first_then (chars "<") (chars ">") (chars s).

(** The script element pattern: the opening tag up to its first closing
    bracket, then the closing tag further on the same line. *)
Fixpoint after_bracket (s : list ascii) : option (list ascii) :=
  match s with
  | [] => None
  | c :: rest => if Ascii.eqb c ">" then Some rest else after_bracket rest
  end.

Fixpoint script_element (s : list ascii) : bool :=
  match drop_prefix eqb_ci (chars "<script") s with
  | Some rest =>
      match after_bracket rest with
      | Some inner => later_on_line (chars "</script>") inner
      | None => false
      end
  | None => false
  end ||
  match s with
  | [] => false
  | _ :: s' => script_element s'
  end.

Fixpoint skip_word (s : list ascii) : list ascii :=
  match s with
  | c :: rest => if is_word c then skip_word rest else s
  | [] => []
  end.

Definition next_is (ch : ascii) (s : list ascii) : bool :=
  match Space.trim_start s with
  | c :: _ => Ascii.eqb c ch
  | [] => false
  end.

(** The handler attribute pattern: [on], one or more word characters,
    optional white space, an equals sign. *)
Fixpoint handler_attribute (s : list ascii) : bool :=
  match drop_prefix eqb_ci (chars "on") s with
  | Some (c :: rest) => is_word c && next_is "=" (skip_word rest)
  | _ => false
  end ||
  match s with
  | [] => false
  | _ :: s' => handler_attribute s'
  end.

(** The expression pattern: the word, optional white space, an opening
    parenthesis. *)
Fixpoint expression_call (s : list ascii) : bool :=
  match drop_prefix eqb_ci (chars "expression") s with
  | Some rest => next_is "(" rest
  | None => false
  end ||
  match s with
  | [] => false
  | _ :: s' => expression_call s'
  end.

Definition dangerous (s : string) : bool :=
  script_element (chars s)
  || contains_ci "javascript:" s
  || handler_attribute (chars s)
  || expression_call (chars s)
  || contains_ci "vbscript:" s
  || contains_ci "data:text/html" s.

End Rules.

Module Validators.

Import Chain.

Definition detail (e : ValidationError) : value :=
  VObj [("field", VStr (err_path e));
        ("message", VStr (err_msg e));
        ("value", err_value e)].

Definition validationFailed (errs : list ValidationError) : value :=
  VObj [("error", VStr "Validation failed");
        ("details", VArr (map detail errs))].

(** [validate]: answers 400 with every recorded failure, or goes on. *)
Definition validate (c : Ctx) : Step :=
  match found c with
  | [] => Next c
  | errs => Send (json c 400 (validationFailed errs))
  end.

Definition allowedFields : list string :=
  ["name"; "email"; "phone"; "address"; "city"; "country"].

Definition includes (l : list string) (key : string) : bool :=
  existsb (String.eqb key) l.

Definition idCharacters (v : value) (_ : Req) : option string :=
  if Text.has_char Rules.forbiddenInId (Conv.String_ v)
  then Some "Invalid characters in ID" else None.

Definition validateIdChain : Chain.t :=
  Chain.mk InParams "id" false
    [Standard (Rules.isInt 1 2147483647)
       "ID must be a positive integer within valid range";
     Sanitizer Rules.toInt;
     Custom idCharacters].

(** [value.replace(/\s+/g, ' ').trim()]: a method call on the value,
    which throws when the value is not a string. *)
Definition tidy (v : value) : option value :=
  match v with
  | VStr s => Some (VStr (Conv.text (Space.trim (Space.collapse (Text.chars s)))))
  | _ => None
  end.

(** [value.replace(/[^\d+]/g, '')] *)
Definition digitsAndPlus (v : value) : option value :=
  match v with
  | VStr s =>
      Some (VStr (Conv.text
              (List.filter (fun c => Chars.is_digit c || Ascii.eqb c "+")
                           (Text.chars s))))
  | _ => None
  end.

(** [value ? f(value) : value] *)
Definition whenTruthy (f : value -> option value) (v : value) : option value :=
  if Js.truthy v then f v else Some v.

Definition textChain (optional : bool) (field : string) (lo hi : nat)
    (lengthMsg : string) (charset : string -> bool) (charsetMsg : string)
    (clean : value -> option value) : Chain.t :=
  Chain.mk InBody field optional
    [Sanitizer Rules.trim;
     Standard (Rules.isLength lo hi) lengthMsg;
     Standard charset charsetMsg;
     Sanitizer Rules.escape;
     CustomSanitizer clean].

Definition lettersMsg (what : string) : string :=
  what +:+ " can only contain letters, spaces, dots, hyphens, and Hebrew/Arabic characters".

Definition nameChain (optional : bool) (clean : value -> option value) :=
  textChain optional "name" 2 100 "Name must be between 2 and 100 characters"
    Rules.lettersOnly (lettersMsg "Name") clean.

Definition addressChain (optional : bool) (clean : value -> option value) :=
  textChain optional "address" 5 255 "Address must be between 5 and 255 characters"
    Rules.addressChars "Address contains invalid characters" clean.

Definition cityChain (optional : bool) (clean : value -> option value) :=
  textChain optional "city" 2 100 "City must be between 2 and 100 characters"
    Rules.lettersOnly (lettersMsg "City") clean.

Definition countryChain (optional : bool) (clean : value -> option value) :=
  textChain optional "country" 2 100 "Country must be between 2 and 100 characters"
    Rules.lettersOnly (lettersMsg "Country") clean.

Definition phoneMsg : string :=
  "Must be a valid Israeli phone number (+9725xxxxxxxx)".

Definition suspiciousEmailCheck (v : value) (_ : Req) : option string :=
  if Rules.suspiciousEmail (Conv.String_ v)
  then Some "Email contains suspicious content" else None.

(** [Object.values] and [Object.keys] throw on undefined and null. *)
Definition nullish (v : value) : bool :=
  match v with
  | VUndefined | VNull => true
  | _ => false
  end.

Definition conversionError : string :=
  "Cannot convert undefined or null to object".

Definition suspiciousContent (_ : value) (r : Req) : option string :=
  if nullish (body r) then Some conversionError
  else
    let allValues :=
      Conv.join " " (map (fun kv => Conv.joined (snd kv)) (Js.own_entries (body r))) in
    if Rules.dangerous allValues
    then Some "Suspicious content detected in request" else None.

Definition atLeastOneField (_ : value) (r : Req) : option string :=
  if nullish (body r) then Some conversionError
  else
    let providedFields :=
      List.filter (includes allowedFields) (map fst (Js.own_entries (body r))) in
    match providedFields with
    | [] => Some "At least one field must be provided for update"
    | _ :: _ => None
    end.

Section WithExternals.

Context `{Externals}.

Definition emailItems : list Item :=
  [Sanitizer Rules.trim;
   Standard isEmail "Must be a valid email address";
   Standard (Rules.isLength 0 254) "Email address too long";
   Sanitizer normalizeEmail].

Definition idChains : list Chain.t := [validateIdChain].

Definition userChains : list Chain.t :=
  [nameChain false tidy;
   Chain.mk InBody "email" false (emailItems ++ [Custom suspiciousEmailCheck]);
   Chain.mk InBody "phone" false
     [Sanitizer Rules.trim;
      Standard Rules.phonePattern phoneMsg;
      CustomSanitizer digitsAndPlus;
      Standard (Rules.isLength 13 13) "Phone number must be exactly 13 characters"];
   addressChain false tidy;
   cityChain false tidy;
   countryChain false tidy;
   Chain.mk InBody "" false [Custom suspiciousContent]].

Definition updateChains : list Chain.t :=
  [nameChain true (whenTruthy tidy);
   Chain.mk InBody "email" true emailItems;
   Chain.mk InBody "phone" true
     [Sanitizer Rules.trim;
      Standard Rules.phonePattern phoneMsg;
      CustomSanitizer (whenTruthy digitsAndPlus)];
   addressChain true (whenTruthy tidy);
   cityChain true (whenTruthy tidy);
   countryChain true (whenTruthy tidy);
   Chain.mk InBody "" false [Custom atLeastOneField]].

(** Each exported rule set is an array: its chains, then [validate]. *)
Definition validateId : list (Ctx -> Step) :=
  map Chain.run idChains ++ [validate].

Definition validateUser : list (Ctx -> Step) :=
  map Chain.run userChains ++ [validate].

Definition validateUserUpdate : list (Ctx -> Step) :=
  map Chain.run updateChains ++ [validate].

End WithExternals.

End Validators.

(** ** The relational store *)

Module Store.

(** A row of the users table: its columns and their values. *)
Definition Row := list (string * value).

Inductive Clause :=
  | Assign (column : string) (param : nat)
  | Stamp.

(** The statements the handlers send, each with the text it stands for. *)
Inductive Statement :=
  | SelectAll             (* SELECT * FROM users ORDER BY id ASC *)
  | SelectById            (* SELECT * FROM users WHERE id = $1 *)
  | SelectIdByEmail       (* SELECT id FROM users WHERE email = $1 *)
  | SelectIdByEmailOther  (* SELECT id FROM users WHERE email = $1 AND id != $2 *)
  | InsertUser            (* INSERT INTO users (six columns) VALUES ($1..$6) RETURNING * *)
  | UpdateUser            (* UPDATE users SET six columns, updated_at WHERE id = $7 RETURNING * *)
  | UpdateFields (clauses : list Clause) (filter_param : nat)
                          (* UPDATE users SET clauses WHERE id = $filter_param RETURNING * *)
  | DeleteById.           (* DELETE FROM users WHERE id = $1 *)

Definition renderClause (cl : Clause) : string :=
  match cl with
  | Assign column param => column +:+ " = $" +:+ pretty param
  | Stamp => "updated_at = CURRENT_TIMESTAMP"
  end.

(** The text of the dynamic statement, as the template literal of the
    PATCH handler builds it (white space aside). *)
Definition renderUpdate (clauses : list Clause) (filter_param : nat) : string :=
  "UPDATE users SET " +:+ Conv.join ", " (map renderClause clauses)
  +:+ " WHERE id = $" +:+ pretty filter_param +:+ " RETURNING *".

Record Db := mkDb {
  rows : list Row;
  next_id : Z;
  journal : list (Statement * list value)
}.

Inductive Result :=
  | Rows (found : list Row)
  | Raise (code : string).

Definition param (values : list value) (i : nat) : value :=
  default VNull (values !! (i - 1)%nat).

Definition column (r : Row) (name : string) : value := Js.get r name.

Definition nullish (v : value) : bool :=
  match v with
  | VUndefined | VNull => true
  | _ => false
  end.

(** Equality of a column and a parameter, on their text. *)
Definition same (a b : value) : bool :=
  negb (nullish a) && negb (nullish b) &&
  String.eqb (Conv.String_ a) (Conv.String_ b).

Definition columns : list string :=
  ["name"; "email"; "phone"; "address"; "city"; "country"].

Definition applyClause (values : list value) (t : Z) (r : Row) (cl : Clause) : Row :=
  match cl with
  | Assign column p => Chain.assign r column (param values p)
  | Stamp => Chain.assign r "updated_at" (VNum t)
  end.

Definition applyClauses (clauses : list Clause) (values : list value) (t : Z)
    (r : Row) : Row :=
  fold_left (applyClause values t) clauses r.

Definition update (clauses : list Clause) (values : list value) (t : Z)
    (key : value) (r : Row) : Row :=
  if same (column r "id") key then applyClauses clauses values t r else r.

Definition taken (email : value) (except : value) (table : list Row) : bool :=
  existsb (fun r => same (column r "email") email
                    && negb (same (column r "id") except)) table.

Definition fullUpdate : list Clause :=
  [Assign "name" 1; Assign "email" 2; Assign "phone" 3; Assign "address" 4;
   Assign "city" 5; Assign "country" 6; Stamp].

Definition newRow (id t : Z) (values : list value) : Row :=
  [("id", VNum id);
   ("name", param values 1); ("email", param values 2);
   ("phone", param values 3); ("address", param values 4);
   ("city", param values 5); ("country", param values 6);
   ("created_at", VNum t); ("updated_at", VNum t)].

Definition runUpdate (clauses : list Clause) (filter_param : nat)
    (values : list value) (t : Z) (d : Db) : Result * list Row :=
  let key := param values filter_param in
  let table := map (update clauses values t key) (rows d) in
  let hit := List.filter (fun r => same (column r "id") key) table in
  let incomplete :=
    existsb (fun r => existsb (fun name => nullish (column r name)) columns) hit in
  if incomplete then (Raise "23502", rows d)
  else if existsb (fun r => taken (column r "email") (column r "id") table) hit
  then (Raise "23505", rows d)
  else (Rows hit, table).

(** Modelled from the spec: the users table and its SQL dialect are an
    external collaborator, reached through parameterized statements only.
    The table keeps its rows in ascending order of the generated [id];
    [email] is unique among the rows and a write that would break this
    raises a conflict (code 23505); the six columns are required
    (code 23502). *)
Definition execute (s : Statement) (values : list value) (t : Z) (d : Db)
  : Result * list Row * Z :=
  match s with
  | SelectAll => (Rows (rows d), rows d, next_id d)
  | SelectById =>
      (Rows (List.filter (fun r => same (column r "id") (param values 1)) (rows d)),
       rows d, next_id d)
  | SelectIdByEmail =>
      (Rows (map (fun r => [("id", column r "id")])
               (List.filter (fun r => same (column r "email") (param values 1)) (rows d))),
       rows d, next_id d)
  | SelectIdByEmailOther =>
      (Rows (map (fun r => [("id", column r "id")])
               (List.filter (fun r => same (column r "email") (param values 1)
                                      && negb (same (column r "id") (param values 2)))
                            (rows d))),
       rows d, next_id d)
  | InsertUser =>
      if existsb (fun i => nullish (param values i)) (seq 1 6)
      then (Raise "23502", rows d, next_id d)
      else if existsb (fun r => same (column r "email") (param values 2)) (rows d)
      then (Raise "23505", rows d, next_id d)
      else let r := newRow (next_id d) t values in
           (Rows [r], rows d ++ [r], next_id d + 1)
  | UpdateUser =>
      let '(res, table) := runUpdate fullUpdate 7 values t d in
      (res, table, next_id d)
  | UpdateFields clauses filter_param =>
      let '(res, table) := runUpdate clauses filter_param values t d in
      (res, table, next_id d)
  | DeleteById =>
      (Rows [],
       List.filter (fun r => negb (same (column r "id") (param values 1))) (rows d),
       next_id d)
  end.

(** [pool.query(text, values)]: the statement is executed and recorded. *)
Definition query (s : Statement) (values : list value) (t : Z) (d : Db)
  : Result * Db :=
  let '(res, table, next) := execute s values t d in
  (res, {| rows := table; next_id := next; journal := journal d ++ [(s, values)] |}).

End Store.

(** ** routes/users.js *)

Module Users.

Import Store.

Definition World := Db.

(** [obj.key] and destructuring: a property read throws on undefined and
    null ([None]); on any other value without the property it yields
    undefined. *)
Definition prop (obj : value) (key : string) : option value :=
  match obj with
  | VUndefined | VNull => None
  | VObj props => Some (Js.get props key)
  | _ => Some VUndefined
  end.

Definition ok (c : Ctx) (p : value) : Response := json c 200 p.

Definition failure (c : Ctx) (what : string) : Response :=
  json c 500 (VObj [("error", VStr "Internal server error");
                    ("message", VStr what)]).

Definition notFound (c : Ctx) (id : value) : Response :=
  json c 404 (VObj [("error", VStr "User not found");
                    ("message", VStr ("No user found with ID: " +:+ Conv.String_ id))]).

Definition emailExists (c : Ctx) (message : string) : Response :=
  json c 409 (VObj [("error", VStr "Email already exists");
                    ("message", VStr message)]).

Definition first (l : list Row) : value :=
  match l with
  | r :: _ => VObj r
  | [] => VUndefined
  end.

Definition paramId (c : Ctx) : value :=
  default VUndefined (prop (params (req c)) "id").

(** GET / *)
Definition getAll (c : Ctx) (d : Db) : Response * Db :=
  match query SelectAll [] (now (req c)) d with
  | (Rows l, d1) =>
      (ok c (VObj [("success", VBool true);
                   ("count", VNum (Z.of_nat (length l)));
                   ("data", VArr (map VObj l))]), d1)
  | (Raise _, d1) => (failure c "Failed to retrieve users", d1)
  end.

(** GET /:id *)
Definition getOne (c : Ctx) (d : Db) : Response * Db :=
  let id := paramId c in
  match query SelectById [id] (now (req c)) d with
  | (Rows [], d1) => (notFound c id, d1)
  | (Rows l, d1) => (ok c (VObj [("success", VBool true); ("data", first l)]), d1)
  | (Raise _, d1) => (failure c "Failed to retrieve user", d1)
  end.

Definition fields (b : value) : option (list value) :=
  match b with
  | VUndefined | VNull => None
  | _ => Some (map (fun name => default VUndefined (prop b name)) columns)
  end.

(** POST / *)
Definition create (c : Ctx) (d : Db) : Response * Db :=
  let t := now (req c) in
  let oops := failure c "Failed to create user" in
  let conflict := emailExists c "A user with this email address already exists" in
  match fields (body (req c)) with
  | None => (oops, d)
  | Some vals =>
      let email := param vals 2 in
      match query SelectIdByEmail [email] t d with
      | (Raise _, d1) => (oops, d1)
      | (Rows (_ :: _), d1) => (conflict, d1)
      | (Rows [], d1) =>
          match query InsertUser vals t d1 with
          | (Rows l, d2) =>
              (json c 201 (VObj [("success", VBool true);
                                 ("message", VStr "User created successfully");
                                 ("data", first l)]), d2)
          | (Raise code, d2) =>
              if String.eqb code "23505" then (conflict, d2)
              else if String.eqb code "23502"
              then (json c 400 (VObj [("error", VStr "Missing required field");
                                      ("message", VStr "All required fields must be provided")]),
                    d2)
              else (oops, d2)
          end
      end
  end.

Definition updated (c : Ctx) (l : list Row) : Response :=
  ok c (VObj [("success", VBool true);
              ("message", VStr "User updated successfully");
              ("data", first l)]).

Definition otherEmail : string :=
  "Another user with this email address already exists".

Definition updateFailure (c : Ctx) (code : string) : Response :=
  if String.eqb code "23505" then emailExists c otherEmail
  else failure c "Failed to update user".

(** PUT /:id *)
Definition replace (c : Ctx) (d : Db) : Response * Db :=
  let t := now (req c) in
  let id := paramId c in
  match fields (body (req c)) with
  | None => (failure c "Failed to update user", d)
  | Some vals =>
      match query SelectById [id] t d with
      | (Raise code, d1) => (updateFailure c code, d1)
      | (Rows [], d1) => (notFound c id, d1)
      | (Rows (_ :: _), d1) =>
          match query SelectIdByEmailOther [param vals 2; id] t d1 with
          | (Raise code, d2) => (updateFailure c code, d2)
          | (Rows (_ :: _), d2) => (emailExists c otherEmail, d2)
          | (Rows [], d2) =>
              match query UpdateUser (vals ++ [id]) t d2 with
              | (Rows l, d3) => (updated c l, d3)
              | (Raise code, d3) => (updateFailure c code, d3)
              end
          end
      end
  end.

Definition allowedFields : list string :=
  ["name"; "email"; "phone"; "address"; "city"; "country"].

Definition includes (l : list string) (key : string) : bool :=
  existsb (String.eqb key) l.

(** The loop of the dynamic update builder over [Object.entries(updates)],
    with its three variables. *)
Fixpoint collect (entries : list (string * value))
    (updateFields : list Clause) (values : list value) (paramCount : nat)
  : list Clause * list value * nat :=
  match entries with
  | [] => (updateFields, values, paramCount)
  | (key, v) :: rest =>
      if includes allowedFields key
      then collect rest (updateFields ++ [Assign key paramCount])
                   (values ++ [v]) (S paramCount)
      else collect rest updateFields values paramCount
  end.

(** The statement and the values array handed to [pool.query]; [None]
    when no recognized field was supplied. *)
Definition buildUpdate (updates : value) (id : value)
  : option (list Clause * nat * list value) :=
  let '(updateFields, values, paramCount) :=
    collect (Js.own_entries updates) [] [] 1 in
  match updateFields with
  | [] => None
  | _ :: _ => Some (updateFields ++ [Stamp], paramCount, values ++ [id])
  end.

Definition noValidFields (c : Ctx) : Response :=
  json c 400 (VObj [("error", VStr "No valid fields to update");
                    ("message", VStr "Please provide at least one valid field to update")]).

(** The PATCH handler from the dynamic builder on. *)
Definition patchBuild (c : Ctx) (updates id : value) (d : Db) : Response * Db :=
  match buildUpdate updates id with
  | None => (noValidFields c, d)
  | Some (clauses, filter_param, values) =>
      match query (UpdateFields clauses filter_param) values (now (req c)) d with
      | (Rows l, d1) => (updated c l, d1)
      | (Raise code, d1) => (updateFailure c code, d1)
      end
  end.

(** PATCH /:id *)
Definition patch (c : Ctx) (d : Db) : Response * Db :=
  let t := now (req c) in
  let id := paramId c in
  let updates := body (req c) in
  match query SelectById [id] t d with
  | (Raise code, d1) => (updateFailure c code, d1)
  | (Rows [], d1) => (notFound c id, d1)
  | (Rows (_ :: _), d1) =>
      match prop updates "email" with
      | None => (failure c "Failed to update user", d1)
      | Some email =>
          if Js.truthy email then
            match query SelectIdByEmailOther [email; id] t d1 with
            | (Raise code, d2) => (updateFailure c code, d2)
            | (Rows (_ :: _), d2) => (emailExists c otherEmail, d2)
            | (Rows [], d2) => patchBuild c updates id d2
            end
          else patchBuild c updates id d1
      end
  end.

(** DELETE /:id *)
Definition remove (c : Ctx) (d : Db) : Response * Db :=
  let t := now (req c) in
  let id := paramId c in
  let oops := failure c "Failed to delete user" in
  match query SelectById [id] t d with
  | (Raise _, d1) => (oops, d1)
  | (Rows [], d1) => (notFound c id, d1)
  | (Rows (_ :: _), d1) =>
      match query DeleteById [id] t d1 with
      | (Rows _, d2) =>
          (ok c (VObj [("success", VBool true);
                       ("message", VStr "User deleted successfully")]), d2)
      | (Raise _, d2) => (oops, d2)
      end
  end.

End Users.

(** ** app.js: the mounted chain *)

Module App.

Import RateLimit.

Record World := mkWorld {
  general : gmap string Entry;
  api : gmap string Entry;
  strict : gmap string Entry;
  db : Store.Db
}.

Definition Middleware := Ctx -> World -> Step * World.

(** A stage that looks at the request and the response only. *)
Definition pure (f : Ctx -> Step) : Middleware := fun c w => (f c, w).

(** Only the counters of the general limiter may differ. *)
Definition same_but_general (w1 w2 : World) : Prop :=
  api w2 = api w1 /\ strict w2 = strict w1 /\ db w2 = db w1.

(** A stage that leaves the state of the process as it is. *)
Definition Stateless (m : Middleware) : Prop :=
  forall c w, snd (m c w) = w.

Inductive Limiter := General | Api | Strict.

Definition options (l : Limiter) : Options :=
  match l with
  | General => generalLimiter
  | Api => apiLimiter
  | Strict => strictLimiter
  end.

Definition hits (l : Limiter) (w : World) : gmap string Entry :=
  match l with
  | General => general w
  | Api => api w
  | Strict => strict w
  end.

Definition with_hits (l : Limiter) (w : World) (s : gmap string Entry) : World :=
  match l with
  | General => mkWorld s (api w) (strict w) (db w)
  | Api => mkWorld (general w) s (strict w) (db w)
  | Strict => mkWorld (general w) (api w) s (db w)
  end.

Definition limit (l : Limiter) : Middleware :=
  fun c w =>
    let '(step, s) := rateLimit (options l) c (hits l w) in
    (step, with_hits l w s).

Definition handler (h : Ctx -> Store.Db -> Response * Store.Db) : Middleware :=
  fun c w =>
    let '(r, d) := h c (db w) in
    (Send r, mkWorld (general w) (api w) (strict w) d).

(** The stages of a stack run in order until one of them answers or
    throws. *)
Fixpoint run (stack : list Middleware) (c : Ctx) (w : World) : Step * World :=
  match stack with
  | [] => (Next c, w)
  | m :: rest =>
      match m c w with
      | (Next c', w') => run rest c' w'
      | stop => stop
      end
  end.

Definition is_read (m : Method) : bool :=
  match m with
  | GET | HEAD => true
  | _ => false
  end.

Definition bind_id (c : Ctx) (segment : string) : Ctx :=
  with_req c (with_params (req c) (VObj [("id", VStr segment)])).

(** Express compares a segment with a literal of a route path without
    regard to the case of the ASCII letters (the patterns are compiled
    with the flag [i] and without [u]). *)
Definition named (literal segment : string) : bool :=
  Text.equal_ci literal segment.

(** Routing is not strict: where a route path ends the request path may
    end too, or go on with one slash and nothing after it. *)
Definition ends (rest : list string) : bool :=
  match rest with
  | [] => true
  | [last] => String.eqb last ""
  | _ => false
  end.

(** What is left of the path below a mount point. The pattern of a mount
    path takes one slash after its last segment when another slash or
    the end of the path follows, so an empty segment right below the
    mount point is not handed on. *)
Definition handedOn (below : list string) : list string :=
  match below with
  | first :: rest => if String.eqb first "" then rest else below
  | [] => []
  end.

(** What the users router is handed of the request path, if the path
    lies at or below the mount point /api/users. *)
Definition mounted (p : list string) : option (list string) :=
  match p with
  | first :: second :: below =>
      if named "api" first && named "users" second then Some (handedOn below)
      else None
  | _ => None
  end.

(** The two route paths of routes/users.js: / and /:id, the parameter
    being one segment that is not empty. *)
Inductive Target :=
  | Collection
  | Item (segment : string).

Definition target (below : list string) : option Target :=
  if ends below then Some Collection
  else match below with
       | segment :: rest =>
           if negb (String.eqb segment "") && ends rest
           then Some (Item segment) else None
       | [] => None
       end.

(** The URIError Express raises for a route parameter it cannot decode. *)
Definition decodeError (segment : string) : Error :=
  {| e_status := Some 400%nat; e_name := "URIError"; e_code := "";
     e_message := "Failed to decode param '" +:+ segment +:+ "'";
     e_stack := ""; e_details := None |}.

(** What the router finds for a request: no route, a parameter that
    cannot be decoded, or the stack of a route with the context it runs
    in. *)
Inductive Routed :=
  | NoRoute
  | Undecoded (e : Error)
  | Matched (stack : list Middleware) (c : Ctx).

Section WithExternals.

Context `{Externals}.

Definition validateId := map pure Validators.validateId.
Definition validateUser := map pure Validators.validateUser.
Definition validateUserUpdate := map pure Validators.validateUserUpdate.

(** The routes of routes/users.js on the collection and on one user. *)
Definition collectionStack (m : Method) : option (list Middleware) :=
  match m with
  | GET | HEAD => Some [handler Users.getAll]
  | POST => Some (limit Strict :: validateUser ++ [handler Users.create])
  | _ => None
  end.

Definition itemStack (m : Method) : option (list Middleware) :=
  match m with
  | GET | HEAD => Some (validateId ++ [handler Users.getOne])
  | PUT =>
      Some (limit Strict :: validateId ++ validateUser ++ [handler Users.replace])
  | PATCH =>
      Some (limit Strict :: validateId ++ validateUserUpdate
              ++ [handler Users.patch])
  | DELETE => Some (limit Strict :: validateId ++ [handler Users.remove])
  | POST => None
  end.

(** The route of routes/users.js that takes the method and the path below
    the mount point, with the route parameter decoded and bound. Express
    decodes the parameter when the path matches /:id, before it looks at
    the method, and hands a failure to the error handler. *)
Definition route (m : Method) (below : list string) (c : Ctx) : Routed :=
  match target below with
  | None => NoRoute
  | Some Collection =>
      match collectionStack m with
      | Some stack => Matched stack c
      | None => NoRoute
      end
  | Some (Item segment) =>
      match decodeParam segment with
      | None => Undecoded (decodeError segment)
      | Some id =>
          match itemStack m with
          | Some stack => Matched stack (bind_id c id)
          | None => NoRoute
          end
      end
  end.

Definition usersRouter (below : list string) : Middleware :=
  fun c w =>
    match route (method (req c)) below c with
    | Matched stack c' =>
        match run stack c' w with
        | (Next _, w') => (Next c, w')
        | stop => stop
        end
    | Undecoded e => (Throw c e, w)
    | NoRoute => (Next c, w)
    end.

(** [app.use('/api/users', security.apiLimiter, usersRouter)] *)
Definition mountUsers : Middleware :=
  fun c w =>
    match mounted (path (req c)) with
    | Some below => run [limit Api; usersRouter below] c w
    | None => (Next c, w)
    end.

(** [app.get('/health', ...)] *)
Definition atHealth (p : list string) : bool :=
  match p with
  | first :: rest => named "health" first && ends rest
  | [] => false
  end.

Definition health : Middleware :=
  fun c w =>
    if atHealth (path (req c)) && is_read (method (req c)) then
      (Send (json c 200
               (VObj [("status", VStr "OK");
                      ("timestamp", VStr (toISOString (now (req c))));
                      ("uptime", uptime (now (req c)))])), w)
    else (Next c, w).

Definition methodName (m : Method) : string :=
  match m with
  | GET => "GET" | HEAD => "HEAD" | POST => "POST"
  | PUT => "PUT" | PATCH => "PATCH" | DELETE => "DELETE"
  end.

(** The 404 handler *)
Definition notFound : Middleware :=
  fun c w =>
    (Send (json c 404
             (VObj [("error", VStr "Not Found");
                    ("message", VStr ("Cannot " +:+ methodName (method (req c))
                                      +:+ " " +:+ originalUrl (req c)))])), w).

(** The global error handler *)
Definition errorHandler (c : Ctx) (e : Error) : Response :=
  if bool_decide (e_status e = Some 429%nat) then
    json c 429 (VObj [("error", VStr "Too Many Requests");
                      ("message", VStr "Rate limit exceeded, please try again later")])
  else if String.eqb (e_name e) "ValidationError" then
    json c 400 (VObj [("error", VStr "Validation Error");
                      ("details", default (VStr (e_message e)) (e_details e))])
  else if String.eqb (e_code e) "ECONNREFUSED" then
    json c 503 (VObj [("error", VStr "Service Unavailable");
                      ("message", VStr "Database connection failed")])
  else
    json c (match e_status e with
            | Some 0%nat | None => 500%nat
            | Some n => n
            end)
      (VObj [("error", VStr (if bool_decide (e_status e = Some 500%nat)
                             then "Internal Server Error" else e_message e));
             ("message", VStr (if development then e_message e
                               else "Something went wrong"));
             ("stack", if development then VStr (e_stack e) else VUndefined)]).

(** The cors package on a request that is not a preflight: it adds its
    headers and goes on. *)
Definition cors (c : Ctx) : Step :=
  Next (with_headers c (res_headers c ++ corsHeaders (req c))).

(** The stages mounted ahead of the size guard. *)
Definition hardening : list Middleware :=
  [pure securityHeaders; pure helmet; pure cors].

(** The stages between the size guard and the injection pattern detector. *)
Definition intake : list Middleware :=
  [pure jsonParser;
   pure urlencodedParser;
   pure hpp;
   pure mongoSanitize;
   pure Xss.xssProtection].

(** The stages mounted ahead of the injection pattern detector. *)
Definition ahead : list Middleware :=
  hardening ++ pure requestSizeLimiter :: intake.

(** The stages mounted behind it. *)
Definition behind : list Middleware :=
  [limit General; mountUsers; health; notFound].

Definition stages : list Middleware :=
  ahead ++ pure Sql.sqlInjectionProtection :: behind.

Definition finish (out : Step * World) : Response * World :=
  match out with
  | (Send r, w) => (r, w)
  | (Throw c e, w) => (errorHandler c e, w)
  | (Next c, w) => (json c 404 VUndefined, w)
  end.

Definition arrival (r : Req) : Ctx :=
  {| req := r; found := []; res_headers := [("X-Powered-By", "Express")] |}.

(** The service: a request and the state of the process give a
    response and the next state. *)
Definition app (r : Req) (w : World) : Response * World :=
  finish (run stages (arrival r) w).

End WithExternals.

End App.

(** ** The claims in their own words

    What follows is written after the wording of the specification, to be
    compared with the definitions taken from the source. *)

Module Spec.

(** The string leaves below [key], each with the keys that lead to it
    from the root of its source, in enumeration order. *)
Fixpoint leavesUnder (above : list string) (key : string) (v : value) {struct v}
  : list (list string * string) :=
  let here := above ++ [key] in
  match v with
  | VStr s => [(here, s)]
  | VObj props =>
      (fix each (l : list (string * value)) : list (list string * string) :=
         match l with
         | [] => []
         | (k, x) :: rest => leavesUnder here k x ++ each rest
         end) props
  | VArr items =>
      (fix each (i : nat) (l : list value) : list (list string * string) :=
         match l with
         | [] => []
         | x :: rest => leavesUnder here (Js.index_key i) x ++ each (S i) rest
         end) 0%nat items
  | _ => []
  end.

(** The string leaves of one input source. *)
Definition leavesOf (data : value) : list (list string * string) :=
  if Js.truthy data
  then flat_map (fun kv => leavesUnder [] (fst kv) (snd kv)) (Js.own_entries data)
  else [].

(** Body, then query, then params. *)
Definition requestLeaves (r : Req) : list (list string * string) :=
  leavesOf (body r) ++ leavesOf (query r) ++ leavesOf (params r).

(** The keys of a path without the empty keys it starts with. *)
Fixpoint significant (keys : list string) : list string :=
  match keys with
  | key :: rest => if String.eqb key "" then significant rest else keys
  | [] => []
  end.

(** The dotted path of a leaf: its keys joined by dots, as in
    address.street. Empty keys at the head of the path are not written. *)
Definition dotted (keys : list string) : string :=
  Conv.join "." (significant keys).

(** No object in the value, at any depth, has an own property named
    hasOwnProperty. *)
Fixpoint walkable (v : value) : bool :=
  match v with
  | VObj props =>
      negb (Js.shadowed (VObj props))
      && (fix all (l : list (string * value)) : bool :=
            match l with
            | [] => true
            | (_, x) :: rest => walkable x && all rest
            end) props
  | VArr items =>
      (fix all (l : list value) : bool :=
         match l with
         | [] => true
         | x :: rest => walkable x && all rest
         end) items
  | _ => true
  end.

(** The string matches one of the fixed patterns. *)
Definition suspicious (s : string) : bool :=
  Sql.pattern_keyword s || Sql.pattern_syntax s || Sql.pattern_tautology s
  || Sql.pattern_constant s || Sql.pattern_quote s.

Definition offending (leaf : list string * string) : bool := suspicious (snd leaf).

(** What a scan that meets no guarded object says of the first leaf it
    finds to match. *)
Definition verdictOf (found : option (list string * string)) : Sql.Verdict :=
  match found with
  | Some leaf => Sql.Offends (dotted (fst leaf))
  | None => Sql.Clean
  end.

(** The stages mounted ahead of the content sanitizer. *)
Definition beforeSanitizer `{Externals} : list App.Middleware :=
  App.hardening
  ++ [App.pure requestSizeLimiter; App.pure jsonParser; App.pure urlencodedParser;
      App.pure hpp; App.pure mongoSanitize].

(** The first leaf, in scan order, that matches a pattern. *)
Definition firstOffender (r : Req) : option (list string * string) :=
  List.find offending (requestLeaves r).

(** The state-mutating operations: create, full update, partial update
    and delete. *)
Definition sensitive (m : Method) : bool :=
  match m with
  | POST | PUT | PATCH | DELETE => true
  | GET | HEAD => false
  end.

(** What the sensitive limiter holds for the client of [c] once it has
    counted the request. *)
Definition entryAfter (c : Ctx) (w : App.World) : RateLimit.Entry :=
  RateLimit.increment RateLimit.strictLimiter (ip (req c)) (now (req c))
    (App.strict w).

(** The stages mounted ahead of the users resource: everything up to the
    general limiter. *)
Definition upstream `{Externals} : list App.Middleware :=
  App.ahead ++ [App.pure Sql.sqlInjectionProtection; App.limit App.General].

(** How far the request [r], arriving in the state [w], gets towards the
    users router: when the stages mounted ahead hand it on, its path lies
    below the mount point and the resource-API limiter admits it, the
    router meets it with the path under the mount point, as the context
    and in the state given here. *)
Definition reached `{Externals} (r : Req) (w : App.World)
    : option (list string * Ctx * App.World) :=
  match App.run upstream (App.arrival r) w with
  | (Next c1, w1) =>
      match App.mounted (path (req c1)) with
      | Some below =>
          match App.limit App.Api c1 w1 with
          | (Next c, w') => Some (below, c, w')
          | _ => None
          end
      | None => None
      end
  | _ => None
  end.

(** The state of the service after it has handled the requests of the
    list, one after the other. *)
Definition handled `{Externals} (reqs : list Req) (w : App.World) : App.World :=
  fold_left (fun w r => snd (App.app r w)) reqs w.

(** The answers of the service to the requests of the list, handled one
    after the other. *)
Fixpoint answers `{Externals} (reqs : list Req) (w : App.World) : list Response :=
  match reqs with
  | [] => []
  | r :: rest => fst (App.app r w) :: answers rest (snd (App.app r w))
  end.

(** A route of the router takes the request. *)
Definition routed `{Externals} (below : list string) (c : Ctx) : bool :=
  match App.route (method (req c)) below c with
  | App.Matched _ _ => true
  | _ => false
  end.

(** Arriving in the state [w], the request reaches the users router as a
    sensitive operation of the client [who] that a route takes, at a time
    from [start] on and less than a window later. *)
Definition sensitiveAt `{Externals} (who : string) (start : Z) (r : Req)
    (w : App.World) : Prop :=
  match reached r w with
  | Some (below, c, _) =>
      sensitive (method (req c)) = true
      /\ routed below c = true
      /\ ip (req c) = who
      /\ (start <= now (req c) < start + RateLimit.windowMs RateLimit.strictLimiter)%Z
  | None => False
  end.

(** The supplied entries whose key is on the whitelist, in the order in
    which they were supplied. *)
Definition recognized (updates : value) : list (string * value) :=
  List.filter (fun kv => Users.includes Users.allowedFields (fst kv))
              (Js.own_entries updates).

(** The [id] column of every row of the table, in table order. *)
Definition ids (d : Store.Db) : list value :=
  map (fun r => Store.column r "id") (Store.rows d).

(** The column a clause assigns, if it takes it from the request. *)
Definition assigned (cl : Store.Clause) : option string :=
  match cl with
  | Store.Assign column _ => Some column
  | Store.Stamp => None
  end.

Definition spares_id (cl : Store.Clause) : Prop := assigned cl <> Some "id".

(** The request after the chains of the list have run on it, one after
    the other; [None] when one of them throws. *)
Fixpoint through (chains : list Chain.t) (c : Ctx) : option Ctx :=
  match chains with
  | [] => Some c
  | ch :: rest =>
      match Chain.run ch c with
      | Next c' => through rest c'
      | _ => None
      end
  end.

(** The failures a chain records on the request of [c] when none has
    been recorded before. *)
Definition ownFailures (ch : Chain.t) (c : Ctx) : list ValidationError :=
  match Chain.run ch (with_found c []) with
  | Next c' => found c'
  | _ => []
  end.

(** The failures of the chains of the list, each chain taken on its own,
    on the request as the chains before it have left it. *)
Fixpoint collected (chains : list Chain.t) (c : Ctx) : list ValidationError :=
  match chains with
  | [] => []
  | ch :: rest =>
      match Chain.run ch c with
      | Next c' => ownFailures ch c ++ collected rest c'
      | _ => []
      end
  end.

(** A stack of field rules: chains, then the collector. *)
Definition ruleStack (chains : list Chain.t) : list App.Middleware :=
  map (fun ch => App.pure (Chain.run ch)) chains ++ [App.pure Validators.validate].

(** The first entry under a key. *)
Fixpoint entry (key : string) (l : list (string * value)) : option value :=
  match l with
  | [] => None
  | (k, x) :: rest => if String.eqb k key then Some x else entry key rest
  end.

(** The member of an object or array under a key. *)
Definition child (v : value) (key : string) : option value :=
  match v with
  | VObj props => entry key props
  | VArr items => entry key (Js.indexed 0 items)
  | _ => None
  end.

(** The value found by following a path of keys, at any depth. *)
Fixpoint at_path (v : value) (p : list string) : option value :=
  match p with
  | [] => Some v
  | key :: rest =>
      match child v key with
      | Some x => at_path x rest
      | None => None
      end
  end.

(** An object or an array. *)
Definition container (v : value) : Prop :=
  match v with
  | VObj _ | VArr _ => True
  | _ => False
  end.

(** Neither a string nor an object nor an array. *)
Definition plain (v : value) : Prop :=
  match v with
  | VStr _ | VObj _ | VArr _ => False
  | _ => True
  end.

(** The names stored in the table, in table order. *)
Definition names (w : App.World) : list value :=
  map (fun r => Store.column r "name") (Store.rows (App.db w)).

(** No opening angle bracket occurs in the text. *)
Definition noBracket (l : list ascii) : Prop := ~ In "<"%char l.

(** No string of the value, at any depth, holds an opening angle
    bracket. *)
Fixpoint cleanValue (v : value) : Prop :=
  match v with
  | VStr s => noBracket (Text.chars s)
  | VArr items =>
      (fix all (l : list value) : Prop :=
         match l with
         | [] => True
         | x :: rest => cleanValue x /\ all rest
         end) items
  | VObj props =>
      (fix all (l : list (string * value)) : Prop :=
         match l with
         | [] => True
         | (_, x) :: rest => cleanValue x /\ all rest
         end) props
  | _ => True
  end.

(** Modelled from the spec: DOMPurify is a dependency of the service and
    not part of its source tree. Called with no allowed tag and no allowed
    attribute it returns text: what it returns holds no opening angle
    bracket, a stray one of the input being written as an entity. *)
Definition stripsMarkup (sanitize : string -> string) : Prop :=
  forall s, noBracket (Text.chars (sanitize s)).

(** Modelled from the spec: a string without an opening angle bracket
    holds no markup, and DOMPurify returns it as it is. *)
Definition keepsText (sanitize : string -> string) : Prop :=
  forall s, noBracket (Text.chars s) -> sanitize s = s.

(** Modelled from the spec: validator.js is a dependency of the service
    and not part of its source tree. Its normalizeEmail rewrites the two
    parts of an address and adds no opening angle bracket to it. *)
Definition addsNoMarkup (normalize : string -> value) : Prop :=
  forall s, noBracket (Text.chars s) -> cleanValue (normalize s).

(** [req.body[name]], undefined when the body is not an object. *)
Definition bodyField (c : Ctx) (name : string) : value :=
  match body (req c) with
  | VObj props => Js.get props name
  | _ => VUndefined
  end.

(** The writable columns that hold free text or the phone number: all
    but the email. *)
Definition textColumns : list string :=
  ["name"; "phone"; "address"; "city"; "country"].

(** The fields of the body under the names of [columns] are clean. *)
Definition textClean (columns : list string) (c : Ctx) : Prop :=
  forall name, In name columns -> cleanValue (bodyField c name).

(** A statement with its values writes no opening angle bracket into a
    column of [columns]. The insert and the full update take the value of
    the i-th writable column as their i-th parameter. *)
Definition cleanEntry (columns : list string) (e : Store.Statement * list value)
    : Prop :=
  match fst e with
  | Store.InsertUser | Store.UpdateUser =>
      forall i column,
        Store.columns !! i = Some column -> In column columns ->
        cleanValue (Store.param (snd e) (S i))
  | Store.UpdateFields clauses _ =>
      forall column p,
        In (Store.Assign column p) clauses -> In column columns ->
        cleanValue (Store.param (snd e) p)
  | _ => True
  end.

(** From [d] to [d'] the journal of the store has only grown, and by
    statements that are clean in this sense. *)
Definition cleanWrites (columns : list string) (d d' : Store.Db) : Prop :=
  exists new,
    Store.journal d' = Store.journal d ++ new /\ Forall (cleanEntry columns) new.

(** The keys of the body, when it is an object, are distinct, as the keys
    of a JavaScript object are. *)
Definition distinctKeys (c : Ctx) : Prop :=
  forall props, body (req c) = VObj props -> NoDup (map fst props).

(** The value [v] a chain on the field [name] carries is what the body
    holds under that name. *)
Definition holdsField (name : string) (v : value) (c : Ctx) : Prop :=
  forall props, body (req c) = VObj props -> Js.get props name = v.

(** A link that leaves the value and the request as they are. *)
Definition isCheck (it : Chain.Item) : Prop :=
  match it with
  | Chain.Standard _ _ | Chain.Custom _ => True
  | _ => False
  end.

(** A link whose result is clean whatever it is given. *)
Definition cleans (it : Chain.Item) : Prop :=
  match it with
  | Chain.Sanitizer f => forall s, cleanValue (f s)
  | Chain.CustomSanitizer f => forall v v', f v = Some v' -> cleanValue v'
  | _ => False
  end.

(** A link whose result is clean when what it is given is. *)
Definition keepsClean (it : Chain.Item) : Prop :=
  match it with
  | Chain.Standard _ _ | Chain.Custom _ => True
  | Chain.Sanitizer f => forall s, noBracket (Text.chars s) -> cleanValue (f s)
  | Chain.CustomSanitizer f =>
      forall v v', cleanValue v -> f v = Some v' -> cleanValue v'
  end.

(** The chain leaves the field [name] of the body clean: it is a chain on
    that field whose last sanitizers are a cleaning one followed by ones
    that keep clean. *)
Definition settles (name : string) (ch : Chain.t) : Prop :=
  Chain.location ch = Chain.InBody /\ Chain.field ch = name /\ name <> ""
  /\ exists pre cl post,
       Chain.items ch = pre ++ cl :: post /\ cleans cl /\ Forall keepsClean post.

(** The chain leaves the field [name] of the body clean when it finds it
    clean: it is a chain on that field whose links all keep clean. *)
Definition carries (name : string) (ch : Chain.t) : Prop :=
  Chain.location ch = Chain.InBody /\ Chain.field ch = name /\ name <> ""
  /\ Forall keepsClean (Chain.items ch).

(** The chain never replaces the body as a whole. *)
Definition tame (ch : Chain.t) : Prop :=
  Chain.location ch = Chain.InParams
  \/ Forall isCheck (Chain.items ch)
  \/ Chain.field ch <> "".

(** The chain does not write the field [name] of the body. *)
Definition spares (name : string) (ch : Chain.t) : Prop :=
  Chain.location ch = Chain.InParams
  \/ Forall isCheck (Chain.items ch)
  \/ (Chain.field ch <> "" /\ Chain.field ch <> name).

(** A reserved keyword together with a statement terminator. *)
Definition keywordAndTerminator (s : string) : bool :=
  Sql.pattern_keyword s && Text.contains ";" s.

Definition hasQuote (s : string) : bool :=
  Text.has_char (fun c => Ascii.eqb c "'" || Ascii.eqb c "034") s.

End Spec.

(** ** Sample inputs *)

Module Sample.

Inductive Mode :=
  | InText
  | InTag (script : bool)
  | InScript.

(** An opening angle bracket starts a tag when a letter, a slash, an
    exclamation mark or a question mark follows it. *)
Definition opens_tag (s : list ascii) : bool :=
  match s with
  | c :: _ =>
      Chars.is_upper c || Chars.is_lower c || Ascii.eqb c "/" || Ascii.eqb c "!"
      || Ascii.eqb c "?"
  | [] => false
  end.

(** The tag that starts after an opening bracket is the opening tag of a
    script element. *)
Definition opens_script (s : list ascii) : bool :=
  match Text.drop_prefix Chars.eqb_ci (Text.chars "script") s with
  | Some rest => Sql.word_end rest
  | None => false
  end.

Definition closes_script (s : list ascii) : bool :=
  Text.starts Chars.eqb_ci (Text.chars "</script") s.

(** A stand-in for [DOMPurify.sanitize] in the sample runs. A string
    without an opening angle bracket comes back as it is. In any other, a
    tag goes, from its opening angle bracket to the next closing one; a
    script element goes with what it holds; the text around and between
    tags stays, its ampersands and stray angle brackets written as
    entities. On the texts of the samples this is what the library
    returns. The stand-in does not read quoted attribute values, comments
    or character references. *)
Fixpoint strip (m : Mode) (s : list ascii) : list ascii :=
  match s with
  | [] => []
  | c :: rest =>
      match m with
      | InText =>
          if Ascii.eqb c "<" then
            if opens_tag rest then strip (InTag (opens_script rest)) rest
            else Text.chars "&lt;" ++ strip InText rest
          else if Ascii.eqb c ">" then Text.chars "&gt;" ++ strip InText rest
          else if Ascii.eqb c "&" then Text.chars "&amp;" ++ strip InText rest
          else c :: strip InText rest
      | InTag script =>
          if Ascii.eqb c ">" then strip (if script then InScript else InText) rest
          else strip (InTag script) rest
      | InScript =>
          if closes_script s then strip (InTag false) rest
          else strip InScript rest
      end
  end.

Definition sanitize (s : string) : string :=
  if Text.contains "<" s then Conv.text (strip InText (Text.chars s)) else s.

Definition externals : Externals := {|
  isEmail := Text.contains "@";
  normalizeEmail := VStr;
  purify := sanitize;
  decodeParam := Some;
  helmet := Next;
  corsHeaders := fun _ => [];
  jsonParser := Next;
  urlencodedParser := Next;
  hpp := Next;
  mongoSanitize := Next;
  toISOString := fun _ => "1970-01-01T00:00:01.000Z";
  uptime := fun _ => VNum 1;
  development := false
|}.

Definition client : string := "203.0.113.7".

Definition request (m : Method) (url : string) (segments : list string)
    (t : Z) (b : value) : Req :=
  {| method := m; originalUrl := url; path := segments; ip := client;
     now := t; headers := ∅; body := b; query := VObj []; params := VObj [] |}.

Definition fresh : App.World :=
  App.mkWorld ∅ ∅ ∅ (Store.mkDb [] 1 []).

Definition person (name email : string) : value :=
  VObj [("name", VStr name); ("email", VStr email);
        ("phone", VStr "+972501234567"); ("address", VStr "12 Herzl St");
        ("city", VStr "Haifa"); ("country", VStr "Israel")].

Definition createUser (t : Z) (b : value) : Req :=
  request POST "/api/users" ["api"; "users"] t b.

Definition patchUser (t : Z) (id : string) (b : value) : Req :=
  request PATCH ("/api/users/" +:+ id) ["api"; "users"; id] t b.

(** A POST that declares [declared] as its Content-Length. *)
Definition upload (t : Z) (declared : string) (b : value) : Req :=
  {| method := POST; originalUrl := "/api/users"; path := ["api"; "users"];
     ip := client; now := t; headers := {[ "content-length" := declared ]};
     body := b; query := VObj []; params := VObj [] |}.

(** The request as it reaches the size guard. *)
Definition hardened (r : Req) (w : App.World) : Ctx :=
  match fst (App.run (App.hardening (H := externals)) (App.arrival r) w) with
  | Next c => c
  | _ => App.arrival r
  end.

Definition getHealth (t : Z) : Req :=
  request GET "/health" ["health"] t VUndefined.

(** The request as it reaches the content sanitizer. *)
Definition parsed (r : Req) (w : App.World) : Ctx :=
  match fst (App.run (Spec.beforeSanitizer (H := externals)) (App.arrival r) w) with
  | Next c => c
  | _ => App.arrival r
  end.

(** The request as it reaches the injection pattern detector. *)
Definition reaching (r : Req) (w : App.World) : Ctx :=
  match fst (App.run (App.ahead (H := externals)) (App.arrival r) w) with
  | Next c => c
  | _ => App.arrival r
  end.

(** GET /health?note=O'Brien *)
Definition getHealthQuoted (t : Z) : Req :=
  {| method := GET; originalUrl := "/health?note=O'Brien"; path := ["health"];
     ip := client; now := t; headers := ∅; body := VUndefined;
     query := VObj [("note", VStr "O'Brien")]; params := VObj [] |}.

(** The state after the client has asked for /health a hundred times
    within a quarter of an hour. *)
Definition busy : App.World :=
  Nat.iter 100 (fun w => snd (App.app (H := externals) (getHealth 1000) w)) fresh.

(** The request as it leaves the general limiter. *)
Definition admitted (r : Req) (w : App.World) : Ctx :=
  match fst (App.run (App.ahead (H := externals)
                      ++ [App.pure Sql.sqlInjectionProtection; App.limit App.General])
               (App.arrival r) w) with
  | Next c => c
  | _ => App.arrival r
  end.

Definition deleteUser (t : Z) (id : string) : Req :=
  request DELETE ("/api/users/" +:+ id) ["api"; "users"; id] t VUndefined.

(** Four more sensitive operations after a first one: a create that fails
    validation, a partial update, a delete of a missing user and a create
    that succeeds. *)
Definition fourMore : list Req :=
  [createUser 61000 (VObj [("name", VStr "x")]);
   patchUser 122000 "1" (VObj [("city", VStr "Akko")]);
   deleteUser 183000 "77";
   createUser 244000 (person "Noa Peretz" "noa@example.com")].

(** Five creates of one client within five minutes, the name of each
    holding an apostrophe. *)
Definition fiveQuoted : list Req :=
  map (fun t => createUser t (person "O'Brien" "ob@example.com"))
      [1000; 61000; 122000; 183000; 244000].

(** A PATCH as its handler meets it, the route parameter bound and
    converted. *)
Definition patchCtx (t : Z) (id : Z) (b : value) : Ctx :=
  {| req := {| method := PATCH; originalUrl := "/api/users/" +:+ pretty id;
               path := ["api"; "users"; pretty id]; ip := client; now := t;
               headers := ∅; body := b; query := VObj [];
               params := VObj [("id", VNum id)] |};
     found := []; res_headers := [] |}.

(** A create with a name that is too short, an email without an at sign
    and a malformed phone. *)
Definition threeBadFields : Ctx :=
  App.arrival
    (createUser 5000
       (VObj [("name", VStr "x"); ("email", VStr "dana.example.com");
              ("phone", VStr "12345"); ("address", VStr "12 Herzl St");
              ("city", VStr "Haifa"); ("country", VStr "Israel")])).

(** A create whose name is too short and whose address is an array. *)
Definition shortAndArray : Req :=
  createUser 5000
    (VObj [("name", VStr "x"); ("email", VStr "dana@example.com");
           ("phone", VStr "+972501234567");
           ("address", VArr [VStr "12 Herzl St"]);
           ("city", VStr "Haifa"); ("country", VStr "Israel")]).

(** A create whose name carries a script element. *)
Definition scripted : Req :=
  createUser 1000 (person "<script>alert(1)</script>John" "john@example.com").

(** A body with a script element two levels down. *)
Definition nested : value :=
  VObj [("name", VStr "<script>alert(1)</script>John");
        ("age", VNum 41);
        ("address", VObj [("street", VStr "<b>12</b> Herzl St");
                          ("tags", VArr [VStr "a<i>b</i>"; VBool true])])].

(** A body whose second entry holds, one level down, a street that
    carries a statement terminator. *)
Definition streetwise : value :=
  VObj [("name", VStr "Dana Levi");
        ("address", VObj [("city", VStr "Haifa");
                          ("street", VStr "12 Herzl St; DROP TABLE users")])].

(** A partial update whose note, as sent, holds a reserved keyword and a
    statement terminator between angle brackets. *)
Definition marked : Req :=
  patchUser 2000 "1"
    (VObj [("name", VStr "Dana Levy"); ("note", VStr "<DROP TABLE users;>")]).

(** A create whose name, as sent, holds quotes inside a tag. *)
Definition quotedMarkup : Req :=
  createUser 2000 (person "Noa <b title='x'>Peretz</b>" "noa@example.com").

(** A create whose body has a key named hasOwnProperty. *)
Definition shadowing : Req :=
  createUser 2000
    (VObj [("hasOwnProperty", VStr "x"); ("name", VStr "O'Brien; DROP TABLE users")]).

(** The state after one user has been created. *)
Definition seeded : App.World :=
  snd (App.app (H := externals) (createUser 1000 (person "Dana Levi" "dana@example.com")) fresh).

End Sample.

(** ** db/seed.js and the test helpers *)

Module Seed.

(** [generateIsraeliPhoneNumber], with the seven digits that
    [faker.string.numeric(7)] draws as its argument. *)
Definition generateIsraeliPhoneNumber (randomDigits : string) : string :=
  "+9725" +:+ randomDigits.

End Seed.

(** ** Notions about the users table *)

Module Table.

Import Store.

(** The row is the one a filter [WHERE id = $n] selects for the value
    [id]. *)
Definition hasId (id : value) (r : Row) : bool := same (column r "id") id.

(** The rows with that id. *)
Definition lookup (id : value) (d : Db) : list Row :=
  List.filter (hasId id) (rows d).

(** Every id in the table is a number the sequence has already handed
    out. *)
Definition keyed (d : Db) : Prop :=
  forall r, In r (rows d) ->
            exists k, column r "id" = VNum k /\ (k < next_id d)%Z.

(** The ids of the table are distinct and below the sequence. *)
Definition sound (d : Db) : Prop :=
  keyed d /\ NoDup (map (fun r => column r "id") (rows d)).

(** The column a clause of an UPDATE writes, and what it writes there. *)
Definition target (cl : Clause) : string :=
  match cl with
  | Assign column _ => column
  | Stamp => "updated_at"
  end.

Definition written (values : list value) (t : Z) (cl : Clause) : value :=
  match cl with
  | Assign _ p => param values p
  | Stamp => VNum t
  end.

(** What a statement with the filter [WHERE id = $n] may do to the table:
    the sequence stays where it is, every row stays in its place, no
    [protected] column of any row changes, and a row with another id is
    untouched. *)
Definition addressed (id : value) (protected : string -> Prop) (d d' : Db) : Prop :=
  next_id d' = next_id d
  /\ length (rows d') = length (rows d)
  /\ forall i r, rows d !! i = Some r ->
       exists r', rows d' !! i = Some r'
         /\ (forall col, protected col -> column r' col = column r col)
         /\ (hasId id r = false -> r' = r).

End Table.

(** ** Response headers *)

Module Headers.

(** The value the response holds under exactly that name, if any. *)
Fixpoint get (name : string) (h : list (string * string)) : option string :=
  match h with
  | [] => None
  | (k, v) :: rest => if String.eqb k name then Some v else get name rest
  end.

(** How many values the response holds for the header. *)
Definition count (name : string) (h : list (string * string)) : nat :=
  length (List.filter (fun x => String.eqb (fst x) name) h).

(** The headers [securityHeaders] pins. *)
Definition pinned : list (string * string) :=
  [("X-Content-Type-Options", "nosniff");
   ("X-Frame-Options", "DENY");
   ("X-XSS-Protection", "1; mode=block");
   ("Referrer-Policy", "strict-origin-when-cross-origin");
   ("Permissions-Policy", "geolocation=(), microphone=(), camera=()")].

End Headers.

(** ** What the rules leave of a value they accept *)

Module Accepted.

(** A text field: outer white space removed, then every run of white
    space made one space. *)
Definition text (s : string) : string :=
  Conv.text (Space.trim (Space.collapse (Space.trim (Text.chars s)))).

(** The phone number: outer white space removed. *)
Definition phone (s : string) : string :=
  Conv.text (Space.trim (Text.chars s)).

End Accepted.

(** ** More sample inputs *)

Module Examples.

(** The table after Dana Levi has been created. *)
Definition one : Store.Db := App.db Sample.seeded.

(** The table after Noa Peretz has been created as well. *)
Definition two : Store.Db :=
  App.db (snd (App.app (H := Sample.externals)
                 (Sample.createUser 2000 (Sample.person "Noa Peretz" "noa@example.com"))
                 Sample.seeded)).

(** A request as a by-id handler meets it: the id converted, the body
    validated. *)
Definition byId (id : Z) (b : value) : Ctx := Sample.patchCtx 5000 id b.

(** A create as the router meets it. *)
Definition posted (b : value) : Ctx := App.arrival (Sample.createUser 5000 b).

Definition fieldsOf (name email : string) : list value :=
  [VStr name; VStr email; VStr "+972501234567"; VStr "12 Herzl St";
   VStr "Haifa"; VStr "Israel"].

(** A user with a phone number of the seed script. *)
Definition seededUser : value :=
  VObj [("name", VStr "Noa Peretz"); ("email", VStr "noa@example.com");
        ("phone", VStr (Seed.generateIsraeliPhoneNumber "1234567"));
        ("address", VStr "12 Herzl St");
        ("city", VStr "Haifa"); ("country", VStr "Israel")].

(** The request after the chains of a rule set, when none of them
    throws. *)
Definition after (chains : list Chain.t) (c : Ctx) : Ctx :=
  default c (Spec.through chains c).

End Examples.

(** * Properties *)

(** ** Induction over request data *)

Lemma value_nested_ind (P : value -> Prop) :
  P VUndefined -> P VNull -> (forall b, P (VBool b)) -> (forall n, P (VNum n)) ->
  P VNaN -> (forall s, P (VStr s)) ->
  (forall items, Forall P items -> P (VArr items)) ->
  (forall props, Forall (fun kv => P (snd kv)) props -> P (VObj props)) ->
  forall v, P v.
Proof.
  intros Hu Hn Hb Hz Hnan Hs Ha Ho.
  fix IH 1. intros [| | b | n | | s | items | props].
  - exact Hu.
  - exact Hn.
  - apply Hb.
  - apply Hz.
  - exact Hnan.
  - apply Hs.
  - apply Ha. induction items as [|x l IHl]; constructor; [apply IH | exact IHl].
  - apply Ho. induction props as [|[k x] l IHl]; constructor; [apply IH | exact IHl].
Qed.

(** ** Strings *)

Lemma chars_text (l : list ascii) : Text.chars (Conv.text l) = l.
Proof. apply String.list_ascii_of_string_of_list_ascii. Qed.

Lemma text_chars (s : string) : Conv.text (Text.chars s) = s.
Proof. apply String.string_of_list_ascii_of_string. Qed.

Lemma chars_app (s1 s2 : string) :
  Text.chars (s1 +:+ s2) = Text.chars s1 ++ Text.chars s2.
Proof. induction s1 as [|c s1 IH]; simpl; [reflexivity | now rewrite <- IH]. Qed.

Lemma text_app (l1 l2 : list ascii) :
  Conv.text (l1 ++ l2) = Conv.text l1 +:+ Conv.text l2.
Proof. induction l1 as [|c l1 IH]; simpl; [reflexivity | now rewrite IH]. Qed.

Lemma append_assoc (s1 s2 s3 : string) : (s1 +:+ s2) +:+ s3 = s1 +:+ (s2 +:+ s3).
Proof.
  induction s1 as [|c s1 IH]; [reflexivity|].
  exact (f_equal (String c) IH).
Qed.

Lemma append_empty (s1 s2 : string) : s1 +:+ s2 = "" -> s1 = "".
Proof. destruct s1; [reflexivity | discriminate]. Qed.

(** ** Dotted paths *)

Lemma join_snoc (sep : string) (l : list string) (k : string) :
  l <> [] -> Conv.join sep (l ++ [k]) = Conv.join sep l +:+ sep +:+ k.
Proof.
  induction l as [|x [|y l] IH]; intros Hne; [contradiction | reflexivity|].
  change (Conv.join sep ((x :: y :: l) ++ [k]))
    with (x +:+ sep +:+ Conv.join sep ((y :: l) ++ [k])).
  rewrite IH by discriminate.
  change (Conv.join sep (x :: y :: l)) with (x +:+ sep +:+ Conv.join sep (y :: l)).
  now rewrite !append_assoc.
Qed.

Lemma join_empty (sep : string) (k : string) (rest : list string) :
  Conv.join sep (k :: rest) = "" -> k = "".
Proof. destruct rest; simpl; [auto | apply append_empty]. Qed.

Lemma significant_head (keys : list string) (k : string) (rest : list string) :
  Spec.significant keys = k :: rest -> k <> "".
Proof.
  induction keys as [|k0 l IH]; simpl; [discriminate|].
  destruct (String.eqb k0 "") eqn:He; [exact IH|].
  intros [= <- _]. now apply String.eqb_neq.
Qed.

Lemma significant_snoc (keys : list string) (k : string) :
  Spec.significant (keys ++ [k])
  = match Spec.significant keys with
    | [] => Spec.significant [k]
    | l => l ++ [k]
    end.
Proof.
  induction keys as [|k0 l IH]; [simpl; now destruct (String.eqb k "")|].
  simpl. destruct (String.eqb k0 ""); [exact IH | reflexivity].
Qed.

(** The path the detector builds key by key is the dotted path. *)
Lemma dotted_snoc (above : list string) (key : string) :
  Sql.currentPath (Spec.dotted above) key = Spec.dotted (above ++ [key]).
Proof.
  unfold Spec.dotted, Sql.currentPath. rewrite significant_snoc.
  destruct (Spec.significant above) as [|k rest] eqn:Hs.
  - simpl. destruct (String.eqb key "") eqn:He; [|reflexivity].
    now apply String.eqb_eq in He.
  - destruct (String.eqb (Conv.join "." (k :: rest)) "") eqn:He.
    + apply String.eqb_eq, join_empty in He.
      now elim (significant_head _ _ _ Hs).
    + now rewrite join_snoc by discriminate.
Qed.

Lemma dotted_named (key : string) (rest : list string) :
  key <> "" -> Spec.dotted (key :: rest) = Conv.join "." (key :: rest).
Proof.
  intros Hne. unfold Spec.dotted. simpl.
  apply String.eqb_neq in Hne. now rewrite Hne.
Qed.

(** ** The injection pattern detector *)

Section Detector.

Import Sql Spec.

Lemma detect_suspicious s : detectSQLInjection (VStr s) = suspicious s.
Proof.
  unfold detectSQLInjection, suspicious, sqlPatterns. simpl.
  now rewrite orb_false_r, !orb_assoc.
Qed.

Lemma find_app_first {A} (f : A -> bool) (l1 l2 : list A) :
  List.find f (l1 ++ l2) =
  match List.find f l1 with
  | Some x => Some x
  | None => List.find f l2
  end.
Proof.
  induction l1 as [|a l1 IH]; simpl; [reflexivity|].
  destruct (f a); [reflexivity | exact IH].
Qed.

Lemma checkValue_find above key v :
  walkable v = true ->
  checkValue (dotted above) key v
  = verdictOf (List.find offending (leavesUnder above key v)).
Proof.
  revert above key.
  induction v as [| | b | n | | s | items IH | props IH] using value_nested_ind;
    intros above key Hw; cbn [checkValue leavesUnder]; try reflexivity.
  - rewrite detect_suspicious, dotted_snoc. cbn [List.find]. unfold offending at 1.
    cbn [snd]. destruct (suspicious s); reflexivity.
  - rewrite dotted_snoc. cbn [walkable] in Hw. revert Hw. generalize 0%nat as i.
    induction IH as [|x l Hx _ IHl]; intros i Hw; [reflexivity|].
    apply andb_prop in Hw as [Hwx Hwl].
    rewrite find_app_first, (Hx _ _ Hwx).
    destruct (List.find offending (leavesUnder _ _ x)); [reflexivity|].
    cbn [verdictOf]. now apply IHl.
  - rewrite dotted_snoc. cbn [walkable] in Hw.
    apply andb_prop in Hw as [Hsh Hw]. apply negb_true_iff in Hsh. rewrite Hsh.
    clear Hsh. induction IH as [|[k x] l Hx _ IHl]; [reflexivity|].
    apply andb_prop in Hw as [Hwx Hwl]. cbn [snd] in Hx.
    rewrite find_app_first, (Hx _ _ Hwx).
    destruct (List.find offending (leavesUnder _ k x)); [reflexivity|].
    cbn [verdictOf]. now apply IHl.
Qed.

Lemma checkEntries_find (l : list (string * value)) :
  forallb (fun kv => walkable (snd kv)) l = true ->
  checkEntries "" l
  = verdictOf (List.find offending
                 (flat_map (fun kv => leavesUnder [] (fst kv) (snd kv)) l)).
Proof.
  induction l as [|[k x] l IH]; intros Hw; [reflexivity|].
  cbn [forallb snd] in Hw. apply andb_prop in Hw as [Hwx Hwl].
  cbn [checkEntries flat_map fst snd].
  rewrite find_app_first. change "" with (dotted []) at 1.
  rewrite (checkValue_find [] k x Hwx).
  destruct (List.find offending (leavesUnder [] k x)); [reflexivity|].
  cbn [verdictOf]. now apply IH.
Qed.

Lemma walkable_entries (data : value) :
  walkable data = true ->
  Js.shadowed data = false
  /\ forallb (fun kv => walkable (snd kv)) (Js.own_entries data) = true.
Proof.
  destruct data as [| | b | n | | s | items | props]; intros Hw;
    try (split; reflexivity).
  - split; [reflexivity|]. cbn [Js.own_entries].
    generalize 0%nat as i. induction (Text.chars s) as [|c l IH]; intros i;
      [reflexivity | apply IH].
  - split; [reflexivity|]. cbn [Js.own_entries walkable] in *. revert Hw.
    generalize 0%nat as i. induction items as [|x l IH]; intros i Hw; [reflexivity|].
    apply andb_prop in Hw as [Hx Hl]. cbn [Js.indexed forallb snd].
    rewrite Hx. now apply IH.
  - cbn [walkable] in Hw. apply andb_prop in Hw as [Hsh Hw].
    split; [now apply negb_true_iff|]. cbn [Js.own_entries]. clear Hsh.
    induction props as [|[k x] l IH]; [reflexivity|].
    apply andb_prop in Hw as [Hx Hl]. cbn [forallb snd]. rewrite Hx. exact (IH Hl).
Qed.

Lemma firstViolation_find (srcs : list value) :
  forallb walkable srcs = true ->
  firstViolation srcs = verdictOf (List.find offending (flat_map leavesOf srcs)).
Proof.
  induction srcs as [|data rest IH]; intros Hw; [reflexivity|].
  cbn [forallb] in Hw. apply andb_prop in Hw as [Hd Hrest].
  cbn [firstViolation flat_map]. rewrite find_app_first. unfold leavesOf at 1.
  destruct (Js.truthy data); [|now apply IH].
  destruct (walkable_entries data Hd) as [Hsh Hent].
  unfold checkObject. rewrite Hsh, (checkEntries_find _ Hent).
  destruct (List.find offending (flat_map _ (Js.own_entries data)));
    [reflexivity | now apply IH].
Qed.

End Detector.

Lemma find_none_Forall {A} (f : A -> bool) (l : list A) :
  List.find f l = None <-> Forall (fun x => f x = false) l.
Proof.
  induction l as [|a l IH]; simpl.
  - split; [constructor | reflexivity].
  - destruct (f a) eqn:Ha.
    + split; [discriminate | intros Hall; inversion Hall; congruence].
    + rewrite IH. split; [now constructor | intros Hall; now inversion Hall].
Qed.

Lemma find_some_exists {A} (f : A -> bool) (l : list A) (x : A) :
  In x l -> f x = true -> exists y, List.find f l = Some y.
Proof.
  intros Hin Hx. destruct (List.find f l) as [y|] eqn:Hf; [eauto|].
  apply find_none_Forall in Hf. rewrite Forall_forall in Hf.
  rewrite (Hf x) in Hx; [discriminate|]. now apply list_elem_of_In.
Qed.

(** ** What the sanitizer hands on *)

Section Walked.

Context `{Externals}.

Lemma sanitized_walkable (v v' : value) :
  Xss.sanitizeValue v = Some v' -> Spec.walkable v' = true.
Proof.
  revert v'.
  induction v as [| | b | n | | s | items IH | props IH] using value_nested_ind;
    intros v'; cbn [Xss.sanitizeValue]; try (intros [= <-]; reflexivity).
  - match goal with |- context [fmap VArr ?t] => destruct t as [l|] eqn:Hl end;
      [|discriminate].
    intros [= <-]. cbn [Spec.walkable]. revert l Hl.
    induction IH as [|x rest Hx _ IHl]; intros l.
    + now intros [= <-].
    + destruct (Xss.sanitizeValue x) as [x'|]; [|discriminate].
      match goal with |- context [fmap (cons x') ?t] => destruct t as [l'|] eqn:Hl' end;
        [|discriminate].
      intros [= <-]. rewrite (Hx x' eq_refl). now apply IHl.
  - destruct (Js.shadowed (VObj props)) eqn:Hsh; [discriminate|].
    match goal with |- context [fmap VObj ?t] => destruct t as [l|] eqn:Hl end;
      [|discriminate].
    intros [= <-]. cbn [Spec.walkable].
    assert (Hkeys : map fst l = map fst props /\
                    (fix all (l0 : list (string * value)) : bool :=
                       match l0 with
                       | [] => true
                       | (_, x) :: rest => Spec.walkable x && all rest
                       end) l = true).
    { clear Hsh. revert l Hl.
      induction IH as [|[k x] rest Hx _ IHl]; intros l.
      - now intros [= <-].
      - cbn [snd] in Hx. destruct (Xss.sanitizeValue x) as [x'|]; [|discriminate].
        match goal with |- context [fmap (cons (k, x')) ?t] =>
          destruct t as [l'|] eqn:Hl' end; [|discriminate].
        intros [= <-]. destruct (IHl l' eq_refl) as [Hk Hw]. cbn [map fst].
        rewrite Hk, (Hx x' eq_refl), Hw. now split. }
    destruct Hkeys as [Hk ->]. cbn [Js.shadowed] in *. rewrite Hk, Hsh. reflexivity.
Qed.

Lemma sanitizedSource_walkable (data data' : value) :
  Xss.sanitizeSource data = Some data' -> Spec.walkable data' = true.
Proof.
  unfold Xss.sanitizeSource, Xss.sanitizeObject.
  destruct (Js.truthy data) eqn:Ht; [|intros [= <-]; now destruct data].
  destruct data; try (intros [= <-]; reflexivity); apply sanitized_walkable.
Qed.

(** The three sources of a request the sanitizer has handed on hold no
    object on which the guard of the detector's loop would throw. *)
Lemma handed_on_walkable (c0 c : Ctx) :
  Xss.xssProtection c0 = Next c ->
  forallb Spec.walkable (Sql.sources (req c)) = true.
Proof.
  unfold Xss.xssProtection.
  destruct (Xss.sanitizeSource (body (req c0))) as [b|] eqn:Hb; [|discriminate].
  destruct (Xss.sanitizeSource (query (req c0))) as [q|] eqn:Hq; [|discriminate].
  destruct (Xss.sanitizeSource (params (req c0))) as [p|] eqn:Hp; [|discriminate].
  intros [= <-]. cbn [Sql.sources req with_req body query params forallb].
  now rewrite (sanitizedSource_walkable _ _ Hb), (sanitizedSource_walkable _ _ Hq),
    (sanitizedSource_walkable _ _ Hp).
Qed.

End Walked.

Lemma detector_outcome (c : Ctx) :
  forallb Spec.walkable (Sql.sources (req c)) = true ->
  Sql.sqlInjectionProtection c =
  match Spec.firstOffender (req c) with
  | Some leaf => Send (json c 400 (Sql.rejection (Spec.dotted (fst leaf))))
  | None => Next c
  end.
Proof.
  intros Hw. unfold Sql.sqlInjectionProtection.
  rewrite (firstViolation_find _ Hw).
  unfold Spec.firstOffender, Spec.requestLeaves, Sql.sources. cbn [flat_map].
  rewrite app_nil_r. destruct (List.find _ _); reflexivity.
Qed.



Lemma quote_is_suspicious s : Spec.hasQuote s = true -> Spec.suspicious s = true.
Proof.
  intros Hq. unfold Spec.suspicious.
  assert (Sql.pattern_quote s = true) as -> by exact Hq.
  now rewrite !orb_true_r.
Qed.

Lemma keyword_terminator_is_suspicious s :
  Spec.keywordAndTerminator s = true -> Spec.suspicious s = true.
Proof.
  unfold Spec.keywordAndTerminator, Spec.suspicious.
  intros [Hk _]%andb_prop. now rewrite Hk.
Qed.

Lemma detector_rejects_leaf (c : Ctx) (leaf : list string * string) :
  forallb Spec.walkable (Sql.sources (req c)) = true ->
  In leaf (Spec.requestLeaves (req c)) ->
  Spec.suspicious (snd leaf) = true ->
  exists field, Sql.sqlInjectionProtection c = Send (json c 400 (Sql.rejection field)).
Proof.
  intros Hw Hin Hs. rewrite (detector_outcome c Hw). unfold Spec.firstOffender.
  destruct (find_some_exists Spec.offending _ leaf Hin Hs) as [y ->].
  now exists (Spec.dotted (fst y)).
Qed.

(** ** Running a stack of stages *)

Lemma run_app (s1 s2 : list App.Middleware) c w :
  App.run (s1 ++ s2) c w =
  match App.run s1 c w with
  | (Next c', w') => App.run s2 c' w'
  | stop => stop
  end.
Proof.
  revert c w. induction s1 as [|m s1 IH]; intros c w; simpl; [reflexivity|].
  destruct (m c w) as [[c'|resp|c' e] w']; [apply IH | reflexivity | reflexivity].
Qed.

Lemma run_stateless (stack : list App.Middleware) c w :
  Forall App.Stateless stack -> snd (App.run stack c w) = w.
Proof.
  intros Hall. revert c. induction Hall as [|m l Hm _ IH]; intros c; simpl.
  - reflexivity.
  - specialize (Hm c w). destruct (m c w) as [[c'|resp|c' e] w']; simpl in *; subst.
    + apply IH.
    + reflexivity.
    + reflexivity.
Qed.

Lemma pure_stateless f : App.Stateless (App.pure f).
Proof. intros c w. reflexivity. Qed.

Section Ahead.

Context `{Externals}.

Lemma ahead_stateless : Forall App.Stateless App.ahead.
Proof.
  unfold App.ahead, App.hardening, App.intake. simpl.
  repeat constructor; apply pure_stateless.
Qed.

Lemma ahead_keeps_world c w c' :
  fst (App.run App.ahead c w) = Next c' -> App.run App.ahead c w = (Next c', w).
Proof.
  intros Hrun. pose proof (run_stateless App.ahead c w ahead_stateless) as Hw.
  destruct (App.run App.ahead c w) as [step w']. simpl in *. now subst.
Qed.

(** The content sanitizer is the last of the stages ahead of the
    detector: what they let through is what the sanitizer has handed on. *)
Lemma ahead_hands_on c0 w c :
  fst (App.run App.ahead c0 w) = Next c ->
  forallb Spec.walkable (Sql.sources (req c)) = true.
Proof.
  change App.ahead
    with ((App.hardening ++ App.pure requestSizeLimiter
             :: [App.pure jsonParser; App.pure urlencodedParser; App.pure hpp;
                 App.pure mongoSanitize])
          ++ [App.pure Xss.xssProtection]).
  rewrite run_app.
  destruct (App.run _ c0 w) as [[c1|resp|c1 e] w1]; [|discriminate..].
  cbn [App.run]. unfold App.pure at 1.
  destruct (Xss.xssProtection c1) as [c2|resp|c2 e] eqn:Hx; [|discriminate..].
  cbn [fst]. intros [= <-]. exact (handed_on_walkable c1 c2 Hx).
Qed.

Lemma app_detector_rejects (r : Req) (w : App.World) (c : Ctx)
    (leaf : list string * string) :
  fst (App.run App.ahead (App.arrival r) w) = Next c ->
  In leaf (Spec.requestLeaves (req c)) ->
  Spec.suspicious (snd leaf) = true ->
  exists field,
    Sql.sqlInjectionProtection c = Send (json c 400 (Sql.rejection field))
    /\ App.app r w = (json c 400 (Sql.rejection field), w).
Proof.
  intros Hrun Hin Hs.
  destruct (detector_rejects_leaf c leaf (ahead_hands_on _ _ _ Hrun) Hin Hs)
    as [field Hd].
  exists field. split; [exact Hd|].
  unfold App.app, App.stages. rewrite run_app, (ahead_keeps_world _ _ _ Hrun).
  cbn [App.run]. unfold App.pure at 1. rewrite Hd. reflexivity.
Qed.

(** C3, as amended. A request that the stages ahead of the injection
    pattern detector let through, and in which some string field, as the
    content sanitizer has handed it on, matches a reserved keyword
    together with a statement terminator, is answered 400 with the
    detector's error before any store operation: the whole state, the
    users table with it, is what it was, and a table that had rows still
    has them. *)
Theorem injection_rejected_before_store (r : Req) (w : App.World)
    (c : Ctx) (leaf : list string * string) :
  fst (App.run App.ahead (App.arrival r) w) = Next c ->
  In leaf (Spec.requestLeaves (req c)) ->
  Spec.keywordAndTerminator (snd leaf) = true ->
  exists field,
    App.app r w =
      (json c 400 (VObj [("error", VStr "Potential SQL injection detected");
                         ("field", VStr field)]), w)
    /\ Store.journal (App.db (snd (App.app r w))) = Store.journal (App.db w)
    /\ Store.rows (App.db (snd (App.app r w))) = Store.rows (App.db w)
    /\ (Store.rows (App.db w) <> [] ->
        Store.rows (App.db (snd (App.app r w))) <> []).
Proof.
  intros Hrun Hin Hk.
  destruct (app_detector_rejects r w c leaf Hrun Hin
              (keyword_terminator_is_suspicious _ Hk)) as [field [_ Happ]].
  exists field. rewrite Happ. simpl. repeat split; auto.
Qed.

(** C9, as amended. The detector rejects every request that the stages
    ahead of it let through with a string leaf of body, query or params
    that, as the content sanitizer has handed it on, holds a single or
    double quote character anywhere: the quote pattern matches a bare
    quote. The answer is the detector's 400 and the state is untouched, so
    neither validation nor the store is reached; the name O'Brien is such
    a value. *)
Theorem quote_anywhere_rejected (r : Req) (w : App.World)
    (c : Ctx) (leaf : list string * string) :
  fst (App.run App.ahead (App.arrival r) w) = Next c ->
  In leaf (Spec.requestLeaves (req c)) ->
  Spec.hasQuote (snd leaf) = true ->
  (exists field,
     Sql.sqlInjectionProtection c =
       Send (json c 400 (VObj [("error", VStr "Potential SQL injection detected");
                               ("field", VStr field)]))
     /\ App.app r w =
          (json c 400 (VObj [("error", VStr "Potential SQL injection detected");
                             ("field", VStr field)]), w))
  /\ Sql.pattern_quote (snd leaf) = true
  /\ Sql.detectSQLInjection (VStr "O'Brien") = true.
Proof.
  intros Hrun Hin Hq. split; [|split].
  - exact (app_detector_rejects r w c leaf Hrun Hin (quote_is_suspicious _ Hq)).
  - exact Hq.
  - reflexivity.
Qed.

End Ahead.

Lemma injection_rejected_before_store_witness :
  let r := Sample.createUser 2000
             (Sample.person "'; DROP TABLE users; --" "dan@example.com") in
  let w := Sample.seeded in
  fst (App.run (App.ahead (H := Sample.externals)) (App.arrival r) w)
    = Next (Sample.reaching r w)
  /\ In (["name"], "'; DROP TABLE users; --")
        (Spec.requestLeaves (req (Sample.reaching r w)))
  /\ Spec.keywordAndTerminator "'; DROP TABLE users; --" = true
  /\ exists field,
       App.app (H := Sample.externals) r w =
         (json (Sample.reaching r w) 400
            (VObj [("error", VStr "Potential SQL injection detected");
                   ("field", VStr field)]), w)
       /\ Store.journal (App.db (snd (App.app (H := Sample.externals) r w)))
          = Store.journal (App.db w)
       /\ Store.rows (App.db (snd (App.app (H := Sample.externals) r w)))
          = Store.rows (App.db w)
       /\ (Store.rows (App.db w) <> [] ->
           Store.rows (App.db (snd (App.app (H := Sample.externals) r w))) <> []).
Proof.
  intros r w.
  assert (H1 : fst (App.run (App.ahead (H := Sample.externals)) (App.arrival r) w)
               = Next (Sample.reaching r w)) by (vm_compute; reflexivity).
  assert (H2 : In (["name"], "'; DROP TABLE users; --")
                  (Spec.requestLeaves (req (Sample.reaching r w))))
    by (vm_compute; left; reflexivity).
  assert (H3 : Spec.keywordAndTerminator "'; DROP TABLE users; --" = true)
    by (vm_compute; reflexivity).
  split; [exact H1|]. split; [exact H2|]. split; [exact H3|].
  exact (injection_rejected_before_store (H := Sample.externals) r w
           (Sample.reaching r w) (["name"], "'; DROP TABLE users; --") H1 H2 H3).
Defined.

(** A partial update whose note, as sent, matches a reserved keyword
    together with a statement terminator: the content sanitizer takes the
    note for a tag and removes it, the detector sees an empty note, and the
    update is answered 200 and written. A create with such a value in a
    body that has a key named hasOwnProperty is answered 500, not 400. *)
Lemma marked_update_is_written :
  (In (["note"], "<DROP TABLE users;>") (Spec.requestLeaves Sample.marked)
   /\ Spec.keywordAndTerminator "<DROP TABLE users;>" = true
   /\ status (fst (App.app (H := Sample.externals) Sample.marked Sample.seeded))
      = 200%nat
   /\ map (fun row => Store.column row "name") (Store.rows (App.db Sample.seeded))
      = [VStr "Dana Levi"]
   /\ map (fun row => Store.column row "name")
        (Store.rows
           (App.db (snd (App.app (H := Sample.externals) Sample.marked Sample.seeded))))
      = [VStr "Dana Levy"])
  /\ (In (["name"], "O'Brien; DROP TABLE users") (Spec.requestLeaves Sample.shadowing)
      /\ Spec.keywordAndTerminator "O'Brien; DROP TABLE users" = true
      /\ status (fst (App.app (H := Sample.externals) Sample.shadowing Sample.seeded))
         = 500%nat).
Proof. vm_compute. repeat split; auto. Qed.

Lemma quote_anywhere_rejected_witness :
  let r := Sample.createUser 2000 (Sample.person "O'Brien" "ob@example.com") in
  let w := Sample.seeded in
  fst (App.run (App.ahead (H := Sample.externals)) (App.arrival r) w)
    = Next (Sample.reaching r w)
  /\ In (["name"], "O'Brien") (Spec.requestLeaves (req (Sample.reaching r w)))
  /\ Spec.hasQuote "O'Brien" = true
  /\ (exists field,
        Sql.sqlInjectionProtection (Sample.reaching r w) =
          Send (json (Sample.reaching r w) 400
                  (VObj [("error", VStr "Potential SQL injection detected");
                         ("field", VStr field)]))
        /\ App.app (H := Sample.externals) r w =
             (json (Sample.reaching r w) 400
                (VObj [("error", VStr "Potential SQL injection detected");
                       ("field", VStr field)]), w)).
Proof.
  intros r w.
  assert (H1 : fst (App.run (App.ahead (H := Sample.externals)) (App.arrival r) w)
               = Next (Sample.reaching r w)) by (vm_compute; reflexivity).
  assert (H2 : In (["name"], "O'Brien")
                  (Spec.requestLeaves (req (Sample.reaching r w))))
    by (vm_compute; left; reflexivity).
  assert (H3 : Spec.hasQuote "O'Brien" = true) by (vm_compute; reflexivity).
  split; [exact H1|]. split; [exact H2|]. split; [exact H3|].
  exact (proj1 (quote_anywhere_rejected (H := Sample.externals) r w
                  (Sample.reaching r w) (["name"], "O'Brien") H1 H2 H3)).
Defined.

(** A create whose name, as sent, holds quotes inside a tag: the content
    sanitizer removes the tag, the detector sees no quote, and the user is
    created. A create with the name O'Brien in a body that has a key named
    hasOwnProperty is answered 500, not 400. *)
Lemma quoted_markup_is_stored :
  (In (["name"], "Noa <b title='x'>Peretz</b>") (Spec.requestLeaves Sample.quotedMarkup)
   /\ Spec.hasQuote "Noa <b title='x'>Peretz</b>" = true
   /\ status (fst (App.app (H := Sample.externals) Sample.quotedMarkup Sample.seeded))
      = 201%nat
   /\ map (fun row => Store.column row "name")
        (Store.rows
           (App.db (snd (App.app (H := Sample.externals) Sample.quotedMarkup
                           Sample.seeded))))
      = [VStr "Dana Levi"; VStr "Noa Peretz"])
  /\ (In (["name"], "O'Brien; DROP TABLE users") (Spec.requestLeaves Sample.shadowing)
      /\ Spec.hasQuote "O'Brien; DROP TABLE users" = true
      /\ status (fst (App.app (H := Sample.externals) Sample.shadowing Sample.seeded))
         = 500%nat).
Proof. vm_compute. repeat split; auto. Qed.
(** ** The size guard *)

Lemma parseInt_empty : Num.parseInt "" = None.
Proof. reflexivity. Qed.

Lemma exceeds_spec (n : option Z) (bound : Z) :
  exceeds n bound = true <-> exists k, n = Some k /\ (bound < k)%Z.
Proof.
  unfold exceeds. destruct n as [k|].
  - rewrite Z.ltb_lt. split; [eauto | intros (k' & [= ->] & Hk); exact Hk].
  - split; [discriminate | intros (k & Hk & _); discriminate].
Qed.

Lemma size_guard_decision (c : Ctx) :
  (requestSizeLimiter c = Send (json c 413 tooLarge)
   /\ exists h k, headers (req c) !! "content-length" = Some h
                  /\ Num.parseInt h = Some k /\ (maxSize < k)%Z)
  \/ (requestSizeLimiter c = Next c
      /\ ~ exists h k, headers (req c) !! "content-length" = Some h
                       /\ Num.parseInt h = Some k /\ (maxSize < k)%Z).
Proof.
  unfold requestSizeLimiter.
  destruct (headers (req c) !! "content-length") as [h|] eqn:Hh.
  - destruct (String.eqb h "") eqn:He; simpl.
    + apply String.eqb_eq in He. subst h. right. split; [reflexivity|].
      intros (h & k & [= <-] & Hp & _). rewrite parseInt_empty in Hp. discriminate.
    + destruct (exceeds (Num.parseInt h) maxSize) eqn:Hx.
      * left. split; [reflexivity|].
        apply exceeds_spec in Hx as (k & Hk & Hlt). eauto.
      * right. split; [reflexivity|].
        intros (h' & k & [= <-] & Hp & Hlt).
        assert (exceeds (Num.parseInt h) maxSize = true) as Hy
            by (apply exceeds_spec; eauto).
        congruence.
  - right. split; [reflexivity|]. intros (h & k & Hn & _). discriminate.
Qed.

Lemma hardening_keeps_world `{Externals} c w c' :
  fst (App.run App.hardening c w) = Next c' ->
  App.run App.hardening c w = (Next c', w).
Proof.
  intros Hrun.
  assert (Forall App.Stateless App.hardening) as Hs
      by (unfold App.hardening; repeat constructor; apply pure_stateless).
  pose proof (run_stateless App.hardening c w Hs) as Hw.
  destruct (App.run App.hardening c w) as [step w']. simpl in *. now subst.
Qed.

Lemma app_size_guard_rejects `{Externals} (r : Req) (w : App.World) (c : Ctx) resp :
  fst (App.run App.hardening (App.arrival r) w) = Next c ->
  requestSizeLimiter c = Send resp ->
  App.app r w = (resp, w).
Proof.
  intros Hrun Hg. unfold App.app, App.stages, App.ahead.
  rewrite <- app_assoc, run_app, (hardening_keeps_world _ _ _ Hrun).
  cbn [App.run app]. unfold App.pure at 1. rewrite Hg. reflexivity.
Qed.

(** C10. The size guard decides from the declared Content-Length header
    alone: it answers 413 exactly when the header is present and the
    integer [parseInt] reads from it exceeds 10 MB (10485760), and lets
    the request go on otherwise; two requests with the same header get
    the same decision whatever else they carry; a request without the
    header is never rejected by it; and a request it rejects leaves the
    whole state of the service unchanged. *)
Theorem size_guard_content_length_only `{Externals} (r : Req) (w : App.World)
    (c : Ctx) :
  maxSize = 10485760%Z
  /\ (requestSizeLimiter c = Send (json c 413 tooLarge) <->
      exists h k, headers (req c) !! "content-length" = Some h
                  /\ Num.parseInt h = Some k /\ (maxSize < k)%Z)
  /\ (requestSizeLimiter c = Next c <->
      ~ exists h k, headers (req c) !! "content-length" = Some h
                    /\ Num.parseInt h = Some k /\ (maxSize < k)%Z)
  /\ (forall c2 : Ctx,
        headers (req c2) !! "content-length" = headers (req c) !! "content-length" ->
        (requestSizeLimiter c2 = Next c2 <-> requestSizeLimiter c = Next c))
  /\ (headers (req c) !! "content-length" = None -> requestSizeLimiter c = Next c)
  /\ (fst (App.run App.hardening (App.arrival r) w) = Next c ->
      requestSizeLimiter c = Send (json c 413 tooLarge) ->
      App.app r w = (json c 413 tooLarge, w)).
Proof.
  assert (Hiff : forall x : Ctx,
            requestSizeLimiter x = Next x <->
            ~ exists h k, headers (req x) !! "content-length" = Some h
                          /\ Num.parseInt h = Some k /\ (maxSize < k)%Z).
  { intros x. destruct (size_guard_decision x) as [[Hs Hex]|[Hn Hnex]].
    - rewrite Hs. split; [discriminate | intros Hno; now elim Hno].
    - split; auto. }
  split; [reflexivity|].
  split.
  { destruct (size_guard_decision c) as [[Hs Hex]|[Hn Hnex]].
    - split; auto.
    - rewrite Hn. split; [discriminate | intros Hex; now elim Hnex]. }
  split; [apply Hiff|].
  split.
  { intros c2 Heq. rewrite (Hiff c2), (Hiff c), Heq. reflexivity. }
  split.
  { intros Hnone. apply Hiff. intros (h & k & Hh & _). congruence. }
  intros Hrun Hg. exact (app_size_guard_rejects r w c _ Hrun Hg).
Qed.

Lemma size_guard_content_length_only_witness :
  let r := Sample.upload 2000 "20971520" (VObj []) in
  let w := Sample.seeded in
  let c := Sample.hardened r w in
  fst (App.run (App.hardening (H := Sample.externals)) (App.arrival r) w) = Next c
  /\ requestSizeLimiter c = Send (json c 413 tooLarge)
  /\ App.app (H := Sample.externals) r w = (json c 413 tooLarge, w).
Proof.
  intros r w c.
  assert (H1 : fst (App.run (App.hardening (H := Sample.externals)) (App.arrival r) w)
               = Next c) by (vm_compute; reflexivity).
  assert (H2 : requestSizeLimiter c = Send (json c 413 tooLarge))
    by (vm_compute; reflexivity).
  split; [exact H1|]. split; [exact H2|].
  exact (proj2 (proj2 (proj2 (proj2 (proj2
           (size_guard_content_length_only (H := Sample.externals) r w c)))))
           H1 H2).
Defined.

(** ** The health route *)

Lemma run_preserves (P : App.World -> App.World -> Prop)
    (stack : list App.Middleware) :
  (forall w, P w w) ->
  (forall w1 w2 w3, P w1 w2 -> P w2 w3 -> P w1 w3) ->
  Forall (fun m => forall c w, P w (snd (m c w))) stack ->
  forall c w, P w (snd (App.run stack c w)).
Proof.
  intros Hrefl Htrans Hall. induction Hall as [|m l Hm _ IH]; intros c w; simpl.
  - apply Hrefl.
  - specialize (Hm c w). destruct (m c w) as [[c'|resp|c' e] w']; simpl in *.
    + eapply Htrans; [exact Hm | apply IH].
    + exact Hm.
    + exact Hm.
Qed.

Lemma global_stages_touch_general_only `{Externals} c w :
  App.same_but_general w
    (snd (App.run (App.ahead ++ [App.pure Sql.sqlInjectionProtection;
                                 App.limit App.General]) c w)).
Proof.
  apply run_preserves.
  - intros x. repeat split.
  - intros w1 w2 w3 (A1 & S1 & D1) (A2 & S2 & D2). repeat split; congruence.
  - apply Forall_app. split.
    + eapply Forall_impl; [exact ahead_stateless|].
      intros m Hm c0 w0. rewrite Hm. repeat split.
    + constructor; [|constructor; [|constructor]].
      * intros c0 w0. repeat split.
      * intros c0 w0. unfold App.limit.
        destruct (RateLimit.rateLimit _ _ _) as [step s]. repeat split.
Qed.

Lemma health_is_rate_limited :
  (status (fst (App.app (H := Sample.externals) (Sample.getHealth 2000) Sample.busy))
     = 429%nat
   /\ payload (fst (App.app (H := Sample.externals) (Sample.getHealth 2000) Sample.busy))
      = VObj [("error",
               VStr "Too many requests from this IP, please try again after 15 minutes")])
  /\ (status (fst (App.app (H := Sample.externals) (Sample.getHealthQuoted 2000)
                     Sample.fresh)) = 400%nat
      /\ payload (fst (App.app (H := Sample.externals) (Sample.getHealthQuoted 2000)
                         Sample.fresh))
         = VObj [("error", VStr "Potential SQL injection detected");
                 ("field", VStr "note")]).
Proof. vm_compute. repeat split; reflexivity. Qed.

(** C1, as amended. A GET /health request that the stages mounted ahead
    of its route let through is answered 200 with a body of [status],
    [timestamp] and [uptime]; the resource-API limiter, the sensitive
    limiter, the field validators and the store are not applied to it. *)
Theorem health_after_global_stages `{Externals} (r : Req) (w w' : App.World)
    (c : Ctx) :
  App.run (App.ahead ++ [App.pure Sql.sqlInjectionProtection; App.limit App.General])
          (App.arrival r) w = (Next c, w') ->
  method (req c) = GET ->
  path (req c) = ["health"] ->
  App.app r w =
    (json c 200 (VObj [("status", VStr "OK");
                       ("timestamp", VStr (toISOString (now (req c))));
                       ("uptime", uptime (now (req c)))]), w')
  /\ status (fst (App.app r w)) = 200%nat
  /\ App.api w' = App.api w
  /\ App.strict w' = App.strict w
  /\ App.db w' = App.db w.
Proof.
  intros Hrun Hm Hp.
  assert (Happ : App.app r w =
    (json c 200 (VObj [("status", VStr "OK");
                       ("timestamp", VStr (toISOString (now (req c))));
                       ("uptime", uptime (now (req c)))]), w')).
  { unfold App.app, App.stages, App.behind.
    change (App.ahead ++ App.pure Sql.sqlInjectionProtection
              :: [App.limit App.General; App.mountUsers; App.health; App.notFound])
      with (App.ahead ++ [App.pure Sql.sqlInjectionProtection; App.limit App.General]
              ++ [App.mountUsers; App.health; App.notFound]).
    rewrite app_assoc, run_app, Hrun.
    cbn [App.run]. unfold App.mountUsers at 1. rewrite Hp. cbn [App.mounted].
    unfold App.health at 1. rewrite Hp, Hm.
    change (App.atHealth ["health"]) with true. reflexivity. }
  split; [exact Happ|]. split; [now rewrite Happ|].
  pose proof (global_stages_touch_general_only (App.arrival r) w) as Hsame.
  rewrite Hrun in Hsame. exact Hsame.
Qed.

Lemma health_after_global_stages_witness :
  let r := Sample.getHealth 2000 in
  let w := Sample.seeded in
  let c := Sample.admitted r w in
  exists w',
    App.run (App.ahead (H := Sample.externals)
             ++ [App.pure Sql.sqlInjectionProtection; App.limit App.General])
            (App.arrival r) w = (Next c, w')
    /\ method (req c) = GET
    /\ path (req c) = ["health"]
    /\ status (fst (App.app (H := Sample.externals) r w)) = 200%nat
    /\ App.db w' = App.db w.
Proof.
  intros r w c.
  eexists.
  assert (H1 : App.run (App.ahead (H := Sample.externals)
                        ++ [App.pure Sql.sqlInjectionProtection; App.limit App.General])
                       (App.arrival r) w
               = (Next c, snd (App.run (App.ahead (H := Sample.externals)
                        ++ [App.pure Sql.sqlInjectionProtection; App.limit App.General])
                       (App.arrival r) w))) by (vm_compute; reflexivity).
  assert (H2 : method (req c) = GET) by (vm_compute; reflexivity).
  assert (H3 : path (req c) = ["health"]) by (vm_compute; reflexivity).
  split; [exact H1|]. split; [exact H2|]. split; [exact H3|].
  pose proof (health_after_global_stages (H := Sample.externals) r w _ c H1 H2 H3)
    as (_ & Hs & _ & _ & Hd).
  split; [exact Hs | exact Hd].
Defined.

(** ** The sensitive limiter *)

Lemma handler_keeps_strict h c w :
  App.strict (snd (App.handler h c w)) = App.strict w.
Proof. unfold App.handler. destruct (h c (App.db w)). reflexivity. Qed.

Lemma pure_keeps_strict f c w : App.strict (snd (App.pure f c w)) = App.strict w.
Proof. reflexivity. Qed.

Lemma run_keeps_strict (stack : list App.Middleware) :
  Forall (fun m => forall c w, App.strict (snd (m c w)) = App.strict w) stack ->
  forall c w, App.strict (snd (App.run stack c w)) = App.strict w.
Proof.
  intros Hall c w.
  apply (run_preserves (fun w1 w2 => App.strict w2 = App.strict w1)); auto.
  intros w1 w2 w3 H12 H23. congruence.
Qed.

Lemma pure_stack_keeps_strict (fs : list (Ctx -> Step)) :
  Forall (fun m => forall c w, App.strict (snd (m c w)) = App.strict w)
         (map App.pure fs).
Proof. induction fs; constructor; auto using pure_keeps_strict. Qed.

Local Ltac keeps_strict :=
  repeat (apply Forall_app; split);
  try apply pure_stack_keeps_strict;
  repeat constructor; auto using handler_keeps_strict.

(** A stack that ends in a handler answers or throws. *)
Lemma run_to_handler (stack : list App.Middleware) h :
  last stack = Some (App.handler h) ->
  forall c w c2 w2, App.run stack c w <> (Next c2, w2).
Proof.
  induction stack as [|m [|m' l] IH]; intros Hlast c w c2 w2; [discriminate| |].
  - injection Hlast as ->. cbn [App.run]. unfold App.handler.
    destruct (h c (App.db w)). discriminate.
  - cbn [App.run]. destruct (m c w) as [[c1|resp|c1 e] w1]; [|discriminate..].
    now apply IH.
Qed.

Lemma route_stack `{Externals} (m : Method) (below : list string) (c : Ctx)
    stack c' :
  App.route m below c = App.Matched stack c' ->
  ip (req c') = ip (req c) /\ now (req c') = now (req c)
  /\ res_headers c' = res_headers c
  /\ if Spec.sensitive m
     then exists rest h,
            stack = App.limit App.Strict :: rest
            /\ Forall (fun m => forall c w, App.strict (snd (m c w)) = App.strict w) rest
            /\ last rest = Some (App.handler h)
     else Forall (fun m => forall c w, App.strict (snd (m c w)) = App.strict w) stack.
Proof.
  unfold App.route.
  destruct (App.target below) as [[|segment]|]; [| |discriminate].
  - destruct m; intros [= <- <-]; simpl; repeat split;
      try (eexists _, _; split; [reflexivity|]; split; [|reflexivity]);
      unfold App.validateId, App.validateUser, App.validateUserUpdate;
      keeps_strict.
  - destruct (decodeParam segment) as [id|]; [|discriminate].
    destruct m; intros [= <- <-]; simpl; repeat split;
      try (eexists _, _; split; [reflexivity|]; split; [|reflexivity]);
      unfold App.validateId, App.validateUser, App.validateUserUpdate;
      keeps_strict.
Qed.

Lemma limit_strict_step c w :
  App.limit App.Strict c w =
  let e := RateLimit.increment RateLimit.strictLimiter (ip (req c)) (now (req c))
             (App.strict w) in
  let c' := RateLimit.quotaHeaders RateLimit.strictLimiter (now (req c)) e c in
  (if (5 <? RateLimit.totalHits e)%Z
   then Send (json c' 429
                (VObj [("error",
                        VStr "Too many attempts, please try again after 15 minutes")]))
   else Next c',
   App.with_hits App.Strict w (<[ip (req c) := e]> (App.strict w))).
Proof.
  unfold App.limit, RateLimit.rateLimit. simpl.
  destruct (5 <? _)%Z; reflexivity.
Qed.

Lemma quota_headers_same o t e c1 c2 :
  res_headers c1 = res_headers c2 ->
  res_headers (RateLimit.quotaHeaders o t e c1)
  = res_headers (RateLimit.quotaHeaders o t e c2).
Proof. intros Heq. unfold RateLimit.quotaHeaders, setHeader. simpl. now rewrite Heq. Qed.

Lemma remaining_header o t e c :
  In ("RateLimit-Remaining", pretty (RateLimit.remaining o e))
     (res_headers (RateLimit.quotaHeaders o t e c)).
Proof. unfold RateLimit.quotaHeaders, setHeader. simpl. right. left. reflexivity. Qed.

Section Sensitive.

Context `{Externals}.

Lemma snd_finish (out : Step * App.World) : snd (App.finish out) = snd out.
Proof. destruct out as [[c|resp|c e] w]; reflexivity. Qed.

Lemma routed_matched (below : list string) (c : Ctx) :
  Spec.routed below c = true ->
  exists stack c', App.route (method (req c)) below c = App.Matched stack c'.
Proof.
  unfold Spec.routed. destruct (App.route _ _ _) as [|e|stack c']; try discriminate.
  eauto.
Qed.

Lemma router_counts (below : list string) (c : Ctx) (w : App.World) :
  Spec.sensitive (method (req c)) = true ->
  Spec.routed below c = true ->
  App.strict (snd (App.usersRouter below c w))
  = <[ip (req c) := Spec.entryAfter c w]> (App.strict w).
Proof.
  intros Hs (stack & c0 & Hr)%routed_matched. unfold App.usersRouter. rewrite Hr.
  destruct (route_stack _ _ _ _ _ Hr) as (Hip & Hnow & _ & Hst).
  rewrite Hs in Hst. destruct Hst as (rest & h & -> & Hrest & _).
  cbn [App.run]. rewrite limit_strict_step. cbv zeta.
  rewrite Hip, Hnow. fold (Spec.entryAfter c w).
  destruct (5 <? RateLimit.totalHits (Spec.entryAfter c w))%Z; [reflexivity|].
  pose proof (run_keeps_strict rest Hrest
    (RateLimit.quotaHeaders RateLimit.strictLimiter (now (req c)) (Spec.entryAfter c w) c0)
    (App.with_hits App.Strict w (<[ip (req c) := Spec.entryAfter c w]> (App.strict w))))
    as Hk.
  destruct (App.run rest _ _) as [[c1|resp|c1 e] w1]; simpl in *; exact Hk.
Qed.

Lemma router_rejects (below : list string) (c : Ctx) (w : App.World) :
  Spec.sensitive (method (req c)) = true ->
  Spec.routed below c = true ->
  (5 < RateLimit.totalHits (Spec.entryAfter c w))%Z ->
  exists resp w',
    App.usersRouter below c w = (Send resp, w')
    /\ status resp = 429%nat
    /\ payload resp =
         VObj [("error", VStr "Too many attempts, please try again after 15 minutes")]
    /\ In ("RateLimit-Remaining",
           pretty (RateLimit.remaining RateLimit.strictLimiter (Spec.entryAfter c w)))
          (sent_headers resp)
    /\ App.db w' = App.db w.
Proof.
  intros Hs (stack & c0 & Hr)%routed_matched Hover. unfold App.usersRouter. rewrite Hr.
  destruct (route_stack _ _ _ _ _ Hr) as (Hip & Hnow & Hh & Hst).
  rewrite Hs in Hst. destruct Hst as (rest & h & -> & _).
  cbn [App.run]. rewrite limit_strict_step. cbv zeta.
  rewrite Hip, Hnow. fold (Spec.entryAfter c w).
  apply Z.ltb_lt in Hover. rewrite Hover.
  eexists _, _. split; [reflexivity|]. split; [reflexivity|]. split; [reflexivity|].
  split; [apply remaining_header | reflexivity].
Qed.

(** Within the quota the router hands the request to what stands behind
    the limiter in the stack of its route, and the answer is theirs. *)
Lemma router_admits (below : list string) (c : Ctx) (w : App.World) :
  Spec.sensitive (method (req c)) = true ->
  Spec.routed below c = true ->
  (RateLimit.totalHits (Spec.entryAfter c w) <= 5)%Z ->
  exists rest c' cl wl,
    App.route (method (req c)) below c
    = App.Matched (App.limit App.Strict :: rest) c'
    /\ App.limit App.Strict c' w = (Next cl, wl)
    /\ App.usersRouter below c w = App.run rest cl wl
    /\ forall c2 w2, App.run rest cl wl <> (Next c2, w2).
Proof.
  intros Hs (stack & c0 & Hr)%routed_matched Hle.
  destruct (route_stack _ _ _ _ _ Hr) as (Hip & Hnow & Hh & Hst).
  rewrite Hs in Hst. destruct Hst as (rest & h & -> & _ & Hlast).
  pose proof (limit_strict_step c0 w) as Hlimit. cbv zeta in Hlimit.
  rewrite Hip, Hnow in Hlimit. fold (Spec.entryAfter c w) in Hlimit.
  apply Z.ltb_ge in Hle. rewrite Hle in Hlimit.
  eexists rest, c0, _, _. split; [exact Hr|]. split; [exact Hlimit|].
  pose proof (run_to_handler rest h Hlast) as Hstop.
  split; [|apply Hstop].
  unfold App.usersRouter. rewrite Hr. cbn [App.run]. rewrite Hlimit.
  match goal with |- context [App.run rest ?x ?y] =>
    specialize (Hstop x y); destruct (App.run rest x y) as [[c1|resp|c1 e] w1] end;
    [now elim (Hstop c1 w1) | reflexivity | reflexivity].
Qed.

Lemma entry_in_window (c : Ctx) (w : App.World) (k deadline : Z) :
  App.strict w !! ip (req c) = Some (RateLimit.mkEntry k deadline) ->
  (now (req c) < deadline)%Z ->
  Spec.entryAfter c w = RateLimit.mkEntry (k + 1) deadline.
Proof.
  intros Hl Hlt. unfold Spec.entryAfter, RateLimit.increment. rewrite Hl. simpl.
  apply Z.ltb_lt in Hlt. now rewrite Hlt.
Qed.

Lemma entry_fresh (c : Ctx) (w : App.World) :
  App.strict w !! ip (req c) = None ->
  Spec.entryAfter c w
  = RateLimit.mkEntry 1 (now (req c) + RateLimit.windowMs RateLimit.strictLimiter).
Proof.
  intros Hl. unfold Spec.entryAfter, RateLimit.increment. now rewrite Hl.
Qed.

Lemma entry_same_counters (c : Ctx) (w1 w2 : App.World) :
  App.strict w1 = App.strict w2 -> Spec.entryAfter c w1 = Spec.entryAfter c w2.
Proof. unfold Spec.entryAfter. now intros ->. Qed.

Lemma limit_api_keeps (c : Ctx) (w : App.World) :
  App.strict (snd (App.limit App.Api c w)) = App.strict w
  /\ App.db (snd (App.limit App.Api c w)) = App.db w.
Proof.
  unfold App.limit. destruct (RateLimit.rateLimit _ _ _) as [step s]. now split.
Qed.

Lemma upstream_keeps (c : Ctx) (w : App.World) :
  App.strict (snd (App.run Spec.upstream c w)) = App.strict w
  /\ App.db (snd (App.run Spec.upstream c w)) = App.db w.
Proof.
  destruct (global_stages_touch_general_only c w) as (_ & Hs & Hd). now split.
Qed.

(** The stages a request passes on its way to the router leave the
    counters of the sensitive limiter and the table as they are. *)
Lemma reached_same (r : Req) (w0 : App.World) below c w1 :
  Spec.reached r w0 = Some (below, c, w1) ->
  App.strict w1 = App.strict w0 /\ App.db w1 = App.db w0.
Proof.
  unfold Spec.reached. pose proof (upstream_keeps (App.arrival r) w0) as [Hs Hd].
  destruct (App.run Spec.upstream _ _) as [[c1|resp|c1 e] wa]; try discriminate.
  destruct (App.mounted _) as [below'|]; [|discriminate].
  pose proof (limit_api_keeps c1 wa) as [Hs' Hd'].
  destruct (App.limit App.Api c1 wa) as [[c2|resp|c2 e] wb]; try discriminate.
  intros [= <- <- <-]. simpl in *. split; congruence.
Qed.

Lemma stages_split :
  App.stages = Spec.upstream ++ [App.mountUsers; App.health; App.notFound].
Proof.
  unfold App.stages, Spec.upstream, App.behind. now rewrite <- app_assoc.
Qed.

Lemma app_reached (r : Req) (w0 : App.World) below c w1 :
  Spec.reached r w0 = Some (below, c, w1) ->
  App.app r w0
  = App.finish (match App.usersRouter below c w1 with
                | (Next c2, w2) => App.run [App.health; App.notFound] c2 w2
                | stop => stop
                end).
Proof.
  unfold Spec.reached, App.app. rewrite stages_split, run_app.
  destruct (App.run Spec.upstream _ _) as [[c1|resp|c1 e] wa]; try discriminate.
  destruct (App.mounted (path (req c1))) as [below'|] eqn:Hm; [|discriminate].
  destruct (App.limit App.Api c1 wa) as [[c2|resp|c2 e] wb] eqn:Hl; try discriminate.
  intros [= <- <- <-]. cbn [App.run]. unfold App.mountUsers at 1. rewrite Hm.
  cbn [App.run]. rewrite Hl.
  destruct (App.usersRouter below' c2 wb) as [[c3|resp|c3 e] wc]; reflexivity.
Qed.

Lemma tail_stateless : Forall App.Stateless [App.health; App.notFound].
Proof.
  constructor; [|constructor; [|constructor]]; intros c w.
  - unfold App.health. now destruct (_ && _).
  - reflexivity.
Qed.

(** A request that does not get as far as the router is counted by no
    sensitive limiter and reaches no handler. *)
Lemma app_unreached (r : Req) (w0 : App.World) :
  Spec.reached r w0 = None ->
  App.strict (snd (App.app r w0)) = App.strict w0
  /\ App.db (snd (App.app r w0)) = App.db w0.
Proof.
  intros Hnot.
  enough (Hgoal : exists w', snd (App.app r w0) = w'
                             /\ App.strict w' = App.strict w0
                             /\ App.db w' = App.db w0)
    by (destruct Hgoal as (w' & -> & Hgoal); exact Hgoal).
  revert Hnot.
  unfold Spec.reached, App.app. rewrite snd_finish, stages_split, run_app.
  pose proof (upstream_keeps (App.arrival r) w0) as [Hs Hd].
  destruct (App.run Spec.upstream _ _) as [[c1|resp|c1 e] wa]; cbn [fst snd] in Hs, Hd;
    [|intros _; eexists; split; [reflexivity|]; now split..].
  cbn [App.run]. unfold App.mountUsers at 1.
  destruct (App.mounted (path (req c1))) as [below|].
  - cbn [App.run]. pose proof (limit_api_keeps c1 wa) as [Hs' Hd'].
    destruct (App.limit App.Api c1 wa) as [[c2|resp|c2 e] wb]; [discriminate|..];
      intros _; cbn [fst snd] in *; eexists; (split; [reflexivity|]);
      split; congruence.
  - intros _. pose proof (run_stateless _ c1 wa tail_stateless) as Ht.
    cbn [App.run] in Ht. rewrite Ht.
    eexists; split; [reflexivity|]; now split.
Qed.

Lemma app_counts (r : Req) (w0 : App.World) below c w1 :
  Spec.reached r w0 = Some (below, c, w1) ->
  Spec.sensitive (method (req c)) = true ->
  Spec.routed below c = true ->
  App.strict (snd (App.app r w0))
  = <[ip (req c) := Spec.entryAfter c w0]> (App.strict w0).
Proof.
  intros Hreach Hs Hr. rewrite (app_reached _ _ _ _ _ Hreach), snd_finish.
  destruct (reached_same _ _ _ _ _ Hreach) as [Hsame _].
  rewrite <- (entry_same_counters c w1 w0 Hsame), <- Hsame.
  rewrite <- (router_counts below c w1 Hs Hr).
  destruct (App.usersRouter below c w1) as [[c2|resp|c2 e] w2]; try reflexivity.
  now rewrite (run_stateless _ c2 w2 tail_stateless).
Qed.

Lemma handled_cons (r : Req) (l : list Req) (w : App.World) :
  Spec.handled (r :: l) w = Spec.handled l (snd (App.app r w)).
Proof. reflexivity. Qed.

(** Sensitive operations of one client within one window are counted one
    by one. *)
Lemma handled_counts (who : string) (start deadline : Z) (reqs : list Req) :
  (start + RateLimit.windowMs RateLimit.strictLimiter <= deadline)%Z ->
  forall (w : App.World) (n : Z),
    App.strict w !! who = Some (RateLimit.mkEntry n deadline) ->
    (forall k r, reqs !! k = Some r ->
       Spec.sensitiveAt who start r (Spec.handled (take k reqs) w)) ->
    App.strict (Spec.handled reqs w) !! who
    = Some (RateLimit.mkEntry (n + Z.of_nat (length reqs)) deadline).
Proof.
  intros Hd. induction reqs as [|r l IH]; intros w n Hl Hall.
  - simpl. now rewrite Z.add_0_r.
  - rewrite handled_cons.
    pose proof (Hall 0%nat r eq_refl) as H0. unfold Spec.sensitiveAt in H0.
    cbn [take Spec.handled fold_left] in H0.
    destruct (Spec.reached r w) as [[[below c] w1]|] eqn:Hreach; [|contradiction].
    destruct H0 as (Hs & Hr & Hip & Hnow).
    rewrite (IH _ (n + 1)%Z).
    + f_equal. f_equal. cbn [length]. lia.
    + rewrite (app_counts _ _ _ _ _ Hreach Hs Hr). subst who.
      rewrite lookup_insert_eq. f_equal. apply entry_in_window; [exact Hl | lia].
    + intros k r' Hk. exact (Hall (S k) r' Hk).
Qed.

End Sensitive.



(** ** The dynamic update builder *)

Lemma collect_spec (entries : list (string * value)) updateFields values paramCount :
  let kept := List.filter (fun kv => Users.includes Users.allowedFields (fst kv))
                          entries in
  Users.collect entries updateFields values paramCount =
  (updateFields ++ imap (fun i kv => Store.Assign (fst kv) (paramCount + i)) kept,
   values ++ map snd kept,
   (paramCount + length kept)%nat).
Proof.
  cbv zeta. revert updateFields values paramCount.
  induction entries as [|[key v] rest IH]; intros uf vals pc;
    cbn [Users.collect List.filter fst].
  - cbn. now rewrite !app_nil_r, Nat.add_0_r.
  - destruct (Users.includes Users.allowedFields key) eqn:Hk.
    + rewrite IH. cbn [imap map length fst snd]. rewrite <- !app_assoc. cbn [app].
      rewrite Nat.add_0_r.
      assert (Hi : imap (fun i (kv : string * value) => Store.Assign (fst kv) (S pc + i))
                     (List.filter (fun kv => Users.includes Users.allowedFields (fst kv)) rest)
                 = imap ((fun i (kv : string * value) => Store.Assign (fst kv) (pc + i)) ∘ S)
                     (List.filter (fun kv => Users.includes Users.allowedFields (fst kv)) rest)).
      { apply imap_ext. intros i x _. cbn. now rewrite Nat.add_succ_r. }
      rewrite Hi. f_equal. lia.
    + apply IH.
Qed.

Lemma includes_In (l : list string) (key : string) :
  Users.includes l key = true <-> In key l.
Proof.
  unfold Users.includes. rewrite existsb_exists. split.
  - intros (x & Hin & Heq). apply String.eqb_eq in Heq. now subst.
  - intros Hin. exists key. split; [exact Hin | apply String.eqb_refl].
Qed.

Lemma recognized_allowed (updates : value) (kv : string * value) :
  In kv (Spec.recognized updates) ->
  In (fst kv) Users.allowedFields /\ In kv (Js.own_entries updates).
Proof.
  unfold Spec.recognized. rewrite filter_In. intros [Hin Hk].
  split; [now apply includes_In | exact Hin].
Qed.

Lemma allowed_not_generated (column : string) :
  In column Users.allowedFields ->
  column <> "id" /\ column <> "created_at" /\ column <> "updated_at".
Proof.
  simpl. intros [<-|[<-|[<-|[<-|[<-|[<-|[]]]]]]]; repeat split; discriminate.
Qed.

Lemma buildUpdate_spec (updates id : value) :
  Users.buildUpdate updates id =
  match Spec.recognized updates with
  | [] => None
  | kept =>
      Some (imap (fun i kv => Store.Assign (fst kv) (S i)) kept ++ [Store.Stamp],
            S (length kept),
            map snd kept ++ [id])
  end.
Proof.
  unfold Users.buildUpdate.
  pose proof (collect_spec (Js.own_entries updates) [] [] 1) as Hc.
  cbv zeta in Hc. rewrite Hc. fold (Spec.recognized updates).
  destruct (Spec.recognized updates) as [|kv kept]; reflexivity.
Qed.

Lemma get_assign_other (r : Store.Row) (k k' : string) (v : value) :
  k <> k' -> Js.get (Chain.assign r k v) k' = Js.get r k'.
Proof.
  intros Hne. induction r as [|[k0 x] r IH]; simpl.
  - destruct (String.eqb k k') eqn:He; [apply String.eqb_eq in He; contradiction|].
    reflexivity.
  - destruct (String.eqb k0 k) eqn:He; simpl.
    + apply String.eqb_eq in He. subst k0.
      destruct (String.eqb k k') eqn:He'; [apply String.eqb_eq in He'; contradiction|].
      reflexivity.
    + destruct (String.eqb k0 k'); [reflexivity | exact IH].
Qed.

Lemma applyClauses_id (clauses : list Store.Clause) values t (r : Store.Row) :
  Forall Spec.spares_id clauses ->
  Store.column (Store.applyClauses clauses values t r) "id" = Store.column r "id".
Proof.
  unfold Store.applyClauses. intros Hall. revert r.
  induction Hall as [|cl l Hcl _ IH]; intros r; simpl; [reflexivity|].
  rewrite IH. destruct cl as [column p|]; simpl; unfold Store.column.
  - apply get_assign_other. intros ->. now apply Hcl.
  - apply get_assign_other. discriminate.
Qed.

Lemma runUpdate_ids (clauses : list Store.Clause) fp values t (d : Store.Db) :
  Forall Spec.spares_id clauses ->
  map (fun r => Store.column r "id") (snd (Store.runUpdate clauses fp values t d))
  = Spec.ids d.
Proof.
  intros Hall. unfold Store.runUpdate, Spec.ids.
  set (table := map _ (Store.rows d)).
  assert (Ht : map (fun r => Store.column r "id") table
               = map (fun r => Store.column r "id") (Store.rows d)).
  { unfold table. rewrite map_map. apply map_ext. intros r. unfold Store.update.
    destruct (Store.same _ _); [now apply applyClauses_id | reflexivity]. }
  destruct (existsb _ _); [reflexivity|].
  destruct (existsb _ _); [reflexivity | exact Ht].
Qed.

Lemma query_ids (s : Store.Statement) values t (d : Store.Db) :
  match s with
  | Store.UpdateFields clauses _ => Forall Spec.spares_id clauses
  | Store.InsertUser | Store.DeleteById => False
  | _ => True
  end ->
  Spec.ids (snd (Store.query s values t d)) = Spec.ids d.
Proof.
  intros Hs. unfold Store.query, Store.execute.
  destruct s; try contradiction; try reflexivity.
  - pose proof (runUpdate_ids Store.fullUpdate 7 values t d) as Hr.
    destruct (Store.runUpdate _ _ _ _ _) as [res table]. simpl in *.
    apply Hr. unfold Store.fullUpdate. repeat constructor; discriminate.
  - pose proof (runUpdate_ids clauses filter_param values t d Hs) as Hr.
    destruct (Store.runUpdate _ _ _ _ _) as [res table]. exact Hr.
Qed.

Lemma built_clauses_spare_id (updates id : value) clauses fp values :
  Users.buildUpdate updates id = Some (clauses, fp, values) ->
  Forall Spec.spares_id clauses.
Proof.
  rewrite buildUpdate_spec. intros Hb.
  assert (Hc : clauses = imap (fun i kv => Store.Assign (fst kv) (S i))
                           (Spec.recognized updates) ++ [Store.Stamp])
    by (destruct (Spec.recognized updates); [discriminate | now injection Hb as <- _ _]).
  subst clauses. apply Forall_app. split.
  - apply Forall_forall. intros cl Hin.
    apply list_elem_of_lookup in Hin as [i Hi].
    rewrite list_lookup_imap in Hi.
    destruct (Spec.recognized updates !! i) as [kv|] eqn:Hkv; [|discriminate].
    injection Hi as <-. unfold Spec.spares_id. simpl. intros [= Hid].
    assert (In kv (Spec.recognized updates)) as Hin
        by (apply list_elem_of_In, list_elem_of_lookup; eauto).
    apply recognized_allowed in Hin as [Hal _].
    apply allowed_not_generated in Hal as [Hne _]. contradiction.
  - repeat constructor. discriminate.
Qed.

Lemma patchBuild_ids (c : Ctx) (updates id : value) (d : Store.Db) :
  Spec.ids (snd (Users.patchBuild c updates id d)) = Spec.ids d.
Proof.
  unfold Users.patchBuild.
  destruct (Users.buildUpdate updates id) as [[[clauses fp] values]|] eqn:Hb;
    [|reflexivity].
  pose proof (query_ids (Store.UpdateFields clauses fp) values (now (req c)) d
                (built_clauses_spare_id _ _ _ _ _ Hb)) as Hq.
  destruct (Store.query _ _ _ _) as [[l|code] d1]; exact Hq.
Qed.

Lemma patch_ids (c : Ctx) (d : Store.Db) :
  Spec.ids (snd (Users.patch c d)) = Spec.ids d.
Proof.
  unfold Users.patch.
  pose proof (query_ids Store.SelectById [Users.paramId c] (now (req c)) d I) as H1.
  destruct (Store.query Store.SelectById _ _ d) as [[[|r l]|code] d1];
    simpl in H1; try exact H1.
  destruct (Users.prop (body (req c)) "email") as [email|]; [|exact H1].
  destruct (Js.truthy email).
  - pose proof (query_ids Store.SelectIdByEmailOther [email; Users.paramId c]
                  (now (req c)) d1 I) as H2.
    destruct (Store.query Store.SelectIdByEmailOther _ _ d1) as [[[|r2 l2]|code] d2];
      simpl in H2; try (simpl; congruence).
    rewrite patchBuild_ids. congruence.
  - rewrite patchBuild_ids. exact H1.
Qed.

(** C2. For every PATCH body the dynamic update builder assigns only
    columns of the whitelist name, email, phone, address, city, country:
    the assignments are the supplied entries with a whitelisted key, in
    order; every other supplied key, [id] and [created_at] among them, is
    passed over and assigned by no clause. The placeholders count up from
    $1 and the value bound to each is the value supplied for its column;
    the id of the filter clause is the last value and has the highest
    placeholder. A body that only carries [id] yields no statement, and no
    PATCH, whatever its body, changes the [id] of any row. *)
Theorem dynamic_update_whitelist (updates id : value)
    (clauses : list Store.Clause) (filter_param : nat) (values : list value) :
  Users.buildUpdate updates id = Some (clauses, filter_param, values) ->
  clauses = imap (fun i kv => Store.Assign (fst kv) (S i)) (Spec.recognized updates)
            ++ [Store.Stamp]
  /\ values = map snd (Spec.recognized updates) ++ [id]
  /\ filter_param = length values
  /\ Store.param values filter_param = id
  /\ (forall i key v,
        Spec.recognized updates !! i = Some (key, v) ->
        clauses !! i = Some (Store.Assign key (S i))
        /\ Store.param values (S i) = v
        /\ (S i < filter_param)%nat)
  /\ (forall column p,
        In (Store.Assign column p) clauses ->
        In column ["name"; "email"; "phone"; "address"; "city"; "country"]
        /\ column <> "id" /\ column <> "created_at")
  /\ (forall key p,
        ~ In key ["name"; "email"; "phone"; "address"; "city"; "country"] ->
        ~ In (Store.Assign key p) clauses)
  /\ Users.buildUpdate (VObj [("id", VNum 999)]) id = None
  /\ (forall (c : Ctx) (d : Store.Db), Spec.ids (snd (Users.patch c d)) = Spec.ids d).
Proof.
  intros Hb. pose proof Hb as Hspec. rewrite buildUpdate_spec in Hspec.
  destruct (Spec.recognized updates) as [|kv0 kept0] eqn:Hrec; [discriminate|].
  rewrite <- Hrec in Hspec. injection Hspec as <- <- <-.
  rewrite <- ?Hrec. clear kv0 kept0 Hrec.
  assert (Hassigned : forall column p,
            In (Store.Assign column p)
               (imap (fun i kv => Store.Assign (fst kv) (S i)) (Spec.recognized updates)
                ++ [Store.Stamp]) ->
            In column Users.allowedFields).
  { intros column p Hin. apply in_app_or in Hin as [Hin|[Hin|[]]]; [|discriminate].
    apply list_elem_of_In, list_elem_of_lookup in Hin as [i Hi].
    rewrite list_lookup_imap in Hi.
    destruct (Spec.recognized updates !! i) as [kv|] eqn:Hkv; [|discriminate].
    injection Hi as <- _.
    apply (recognized_allowed updates kv).
    apply list_elem_of_In, list_elem_of_lookup; eauto. }
  split; [reflexivity|]. split; [reflexivity|].
  split; [now rewrite length_app, length_map, Nat.add_1_r|].
  split.
  { unfold Store.param. rewrite Nat.sub_succ, Nat.sub_0_r.
    rewrite lookup_app_r by now rewrite length_map.
    now rewrite length_map, Nat.sub_diag. }
  split.
  { intros i key v Hi.
    assert (Hlt : (i < length (Spec.recognized updates))%nat)
      by (eapply lookup_lt_Some; eauto).
    split; [|split].
    - rewrite lookup_app_l by now rewrite length_imap.
      now rewrite list_lookup_imap, Hi.
    - unfold Store.param. rewrite Nat.sub_succ, Nat.sub_0_r.
      rewrite lookup_app_l by now rewrite length_map.
      now rewrite list_lookup_fmap, Hi.
    - lia. }
  split.
  { intros column p Hin. pose proof (Hassigned column p Hin) as Hal.
    split; [exact Hal|]. now apply allowed_not_generated in Hal as (? & ? & _). }
  split.
  { intros key p Hout Hin. apply Hout. exact (Hassigned key p Hin). }
  split; [reflexivity|].
  apply patch_ids.
Qed.

Lemma dynamic_update_whitelist_witness :
  let updates := VObj [("name", VStr "Valid Name");
                       ("invalidField", VStr "should be ignored");
                       ("id", VNum 999);
                       ("city", VStr "Akko")] in
  Users.buildUpdate updates (VNum 1)
  = Some ([Store.Assign "name" 1; Store.Assign "city" 2; Store.Stamp], 3%nat,
          [VStr "Valid Name"; VStr "Akko"; VNum 1])
  /\ Store.param [VStr "Valid Name"; VStr "Akko"; VNum 1] 3 = VNum 1
  /\ Spec.ids (snd (Users.patch (Sample.patchCtx 9000 1 updates)
                      (App.db Sample.seeded)))
     = Spec.ids (App.db Sample.seeded).
Proof.
  intros updates.
  assert (H1 : Users.buildUpdate updates (VNum 1)
               = Some ([Store.Assign "name" 1; Store.Assign "city" 2; Store.Stamp],
                       3%nat, [VStr "Valid Name"; VStr "Akko"; VNum 1]))
    by reflexivity.
  pose proof (dynamic_update_whitelist updates (VNum 1) _ _ _ H1)
    as (_ & _ & _ & Hp & _ & _ & _ & _ & Hids).
  split; [exact H1|]. split; [exact Hp | apply Hids].
Defined.

(** ** The field validator *)

Lemma link_grows (ch : Chain.t) (it : Chain.Item) v c v' c' :
  Chain.link ch it (v, c) = inr (v', c') -> found c `prefix_of` found c'.
Proof.
  destruct it as [test msg|test|f|f]; cbn [Chain.link].
  - intros [= <- <-]. simpl. now eexists.
  - destruct (test v (req c)); intros [= <- <-]; simpl; [now eexists | reflexivity].
  - intros [= _ <-]. reflexivity.
  - destruct (f v); [|discriminate]. intros [= _ <-]. reflexivity.
Qed.

Lemma links_grow (ch : Chain.t) (l : list Chain.Item) v c v' c' :
  Chain.links ch l (v, c) = inr (v', c') -> found c `prefix_of` found c'.
Proof.
  revert v c. induction l as [|it l IH]; intros v c; cbn [Chain.links].
  - intros [= <- <-]. reflexivity.
  - destruct (Chain.link ch it (v, c)) as [c1|[v1 c1]] eqn:Hl; [discriminate|].
    intros Hrest. etransitivity; [eapply link_grows; eauto | eapply IH; eauto].
Qed.

Lemma chain_grows (ch : Chain.t) c c' :
  Chain.run ch c = Next c' -> found c `prefix_of` found c'.
Proof.
  unfold Chain.run. destruct (_ && _); [intros [= <-]; reflexivity|].
  destruct (Chain.links ch (Chain.items ch) _) as [c1|[v1 c1]] eqn:Hl; [discriminate|].
  intros [= <-]. eapply links_grow; eauto.
Qed.

Lemma through_grows (chains : list Chain.t) c c' :
  Spec.through chains c = Some c' -> found c `prefix_of` found c'.
Proof.
  revert c. induction chains as [|ch l IH]; intros c; simpl.
  - intros [= <-]. reflexivity.
  - destruct (Chain.run ch c) as [c1| |] eqn:Hr; try discriminate.
    intros Hrest. etransitivity; [eapply chain_grows; eauto | eapply IH; eauto].
Qed.

Lemma through_split (chains : list Chain.t) (k : nat) c c_end :
  Spec.through chains c = Some c_end ->
  exists ck, Spec.through (take k chains) c = Some ck
             /\ Spec.through (drop k chains) ck = Some c_end.
Proof.
  revert k c. induction chains as [|ch l IH]; intros k c; simpl.
  - intros [= <-]. exists c. now rewrite take_nil, drop_nil.
  - destruct k as [|k]; simpl.
    + intros Hr. exists c. split; [reflexivity | exact Hr].
    + destruct (Chain.run ch c) as [c1| |]; try discriminate. apply IH.
Qed.

Lemma rules_run (chains : list Chain.t) c c_end (w : App.World) :
  Spec.through chains c = Some c_end ->
  App.run (Spec.ruleStack chains) c w = (Validators.validate c_end, w).
Proof.
  unfold Spec.ruleStack. revert c. induction chains as [|ch l IH]; intros c; simpl.
  - intros [= <-]. unfold App.pure. destruct (Validators.validate c); reflexivity.
  - unfold App.pure at 1. destruct (Chain.run ch c) as [c1| |]; try discriminate.
    apply IH.
Qed.

Lemma validate_reports (c : Ctx) :
  Validators.validate c =
  match found c with
  | [] => Next c
  | _ :: _ =>
      Send (json c 400
              (VObj [("error", VStr "Validation failed");
                     ("details", VArr (map Validators.detail (found c)))]))
  end.
Proof. unfold Validators.validate. destruct (found c); reflexivity. Qed.

Lemma rule_sets_are_stacks `{Externals} :
  App.validateId = Spec.ruleStack Validators.idChains
  /\ App.validateUser = Spec.ruleStack Validators.userChains
  /\ App.validateUserUpdate = Spec.ruleStack Validators.updateChains.
Proof.
  unfold App.validateId, App.validateUser, App.validateUserUpdate,
    Validators.validateId, Validators.validateUser, Validators.validateUserUpdate,
    Spec.ruleStack.
  rewrite !map_app, !map_map. repeat split; reflexivity.
Qed.

Lemma link_frame (ch : Chain.t) (it : Chain.Item) v c v' c' :
  Chain.link ch it (v, c) = inr (v', c') ->
  exists added,
    found c' = found c ++ added
    /\ forall earlier,
         Chain.link ch it (v, with_found c earlier)
         = inr (v', with_found c' (earlier ++ added)).
Proof.
  destruct it as [test msg|test|f|f]; cbn [Chain.link].
  - intros [= <- <-]. eexists. split; [reflexivity|]. intros earlier. reflexivity.
  - cbn [req with_found]. destruct (test v (req c)).
    + intros [= <- <-]. eexists. split; [reflexivity|]. intros earlier. reflexivity.
    + intros [= <- <-]. exists []. split; [now rewrite app_nil_r|].
      intros earlier. now rewrite app_nil_r.
  - intros [= <- <-]. exists []. split; [now rewrite app_nil_r|].
    intros earlier. now rewrite app_nil_r.
  - destruct (f v); [|discriminate]. intros [= <- <-].
    exists []. split; [now rewrite app_nil_r|].
    intros earlier. now rewrite app_nil_r.
Qed.

Lemma links_frame (ch : Chain.t) (l : list Chain.Item) v c v' c' :
  Chain.links ch l (v, c) = inr (v', c') ->
  exists added,
    found c' = found c ++ added
    /\ forall earlier,
         Chain.links ch l (v, with_found c earlier)
         = inr (v', with_found c' (earlier ++ added)).
Proof.
  revert v c. induction l as [|it l IH]; intros v c; cbn [Chain.links].
  - intros [= <- <-]. exists []. split; [now rewrite app_nil_r|].
    intros earlier. now rewrite app_nil_r.
  - destruct (Chain.link ch it (v, c)) as [c1|[v1 c1]] eqn:Hl; [discriminate|].
    intros Hrest.
    destruct (link_frame _ _ _ _ _ _ Hl) as (a1 & Hf1 & Hl1).
    destruct (IH _ _ Hrest) as (a2 & Hf2 & Hl2).
    exists (a1 ++ a2). split; [now rewrite Hf2, Hf1, app_assoc|].
    intros earlier. rewrite Hl1.
    specialize (Hl2 (earlier ++ a1)). cbn [with_found req res_headers] in Hl2 |- *.
    rewrite Hl2. now rewrite app_assoc.
Qed.

(** What a chain records does not depend on what has been recorded
    before it runs. *)
Lemma chain_frame (ch : Chain.t) c c' :
  Chain.run ch c = Next c' ->
  found c' = found c ++ Spec.ownFailures ch c
  /\ forall earlier,
       Chain.run ch (with_found c earlier)
       = Next (with_found c' (earlier ++ Spec.ownFailures ch c)).
Proof.
  intros Hrun.
  enough (Hadded : exists added,
            found c' = found c ++ added
            /\ forall earlier,
                 Chain.run ch (with_found c earlier)
                 = Next (with_found c' (earlier ++ added))).
  { destruct Hadded as (added & Hf & Hall).
    assert (Hown : Spec.ownFailures ch c = added).
    { unfold Spec.ownFailures. now rewrite (Hall []). }
    rewrite Hown. now split. }
  revert Hrun. unfold Chain.run. cbn [req with_found].
  destruct (_ && _).
  - intros [= <-]. exists []. split; [now rewrite app_nil_r|].
    intros earlier. now rewrite app_nil_r.
  - destruct (Chain.links ch (Chain.items ch) (_, c)) as [c1|[v1 c1]] eqn:Hl;
      [discriminate|].
    intros [= <-]. destruct (links_frame _ _ _ _ _ _ Hl) as (added & Hf & Hall).
    exists added. split; [exact Hf|]. intros earlier. now rewrite Hall.
Qed.

Lemma through_collects (chains : list Chain.t) c c_end :
  Spec.through chains c = Some c_end ->
  found c_end = found c ++ Spec.collected chains c
  /\ forall earlier,
       Spec.through chains (with_found c earlier)
       = Some (with_found c_end (earlier ++ Spec.collected chains c)).
Proof.
  revert c. induction chains as [|ch l IH]; intros c; cbn [Spec.through Spec.collected].
  - intros [= <-]. split; [now rewrite app_nil_r|].
    intros earlier. now rewrite app_nil_r.
  - destruct (Chain.run ch c) as [c1| |] eqn:Hr; try discriminate.
    intros Hrest. destruct (chain_frame _ _ _ Hr) as [Hf1 Hall1].
    destruct (IH _ Hrest) as [Hf2 Hall2].
    split; [now rewrite Hf2, Hf1, app_assoc|].
    intros earlier. rewrite Hall1.
    specialize (Hall2 (earlier ++ Spec.ownFailures ch c)).
    cbn [with_found req res_headers] in Hall2 |- *. rewrite Hall2.
    now rewrite app_assoc.
Qed.

Lemma collected_alone (chains : list Chain.t) c c_end earlier :
  Spec.through chains c = Some c_end ->
  Spec.collected chains (with_found c earlier) = Spec.collected chains c.
Proof.
  intros Hend. destruct (through_collects _ _ _ Hend) as [_ Hall].
  destruct (through_collects _ _ _ (Hall earlier)) as [Hf _].
  cbn [found with_found] in Hf. now apply app_inv_head in Hf.
Qed.

(** C7. A create whose name is too short and whose address is an array.
    The chain of the name records its failure; the custom sanitizer of the
    chain of the address, which calls the method replace of a string on
    the array, throws; the rule set stops there, the collector never runs,
    and the service answers 500 with the message of the exception. The
    failure recorded for the name is reported to nobody, and nothing is
    written. *)
Theorem thrown_sanitizer_loses_failures :
  let r := Sample.shortAndArray in
  let c := Sample.admitted r Sample.fresh in
  (option_map (fun ck => map Validators.detail (found ck))
     (Spec.through (take 3 (Validators.userChains (H := Sample.externals))) c)
   = Some [VObj [("field", VStr "name");
                 ("message", VStr "Name must be between 2 and 100 characters");
                 ("value", VStr "x")]]
   /\ Spec.through (Validators.userChains (H := Sample.externals)) c = None)
  /\ status (fst (App.app (H := Sample.externals) r Sample.fresh)) = 500%nat
  /\ payload (fst (App.app (H := Sample.externals) r Sample.fresh))
     = VObj [("error", VStr "value.replace is not a function");
             ("message", VStr "Something went wrong");
             ("stack", VUndefined)]
  /\ App.db (snd (App.app (H := Sample.externals) r Sample.fresh))
     = App.db Sample.fresh.
Proof. vm_compute. repeat split; reflexivity. Qed.

(** X23. Where no chain of a rule set throws, every chain runs, in order,
    on the request as the chains before it have left it, and records the
    failures it would record with nothing recorded before: the failures
    at the end are those at the start followed by the failures of each
    chain taken on its own, and what has been recorded before changes
    nothing of what the chains record. Every failure of every chain is
    among those the collector [validate] reports: when there is any it
    answers once, with status 400 and one entry per recorded failure, in
    order, each giving the field, the message and the rejected value. A
    failing check of a chain records exactly such an entry. The three rule
    sets of the source are stacks of this kind. *)
Theorem validation_collects_every_failure `{Externals} (chains : list Chain.t)
    (c c_end : Ctx) (w : App.World) :
  Spec.through chains c = Some c_end ->
  found c_end = found c ++ Spec.collected chains c
  /\ (forall earlier,
        Spec.collected chains (with_found c earlier) = Spec.collected chains c)
  /\ (forall k ch ck e,
        chains !! k = Some ch ->
        Spec.through (take k chains) c = Some ck ->
        In e (Spec.ownFailures ch ck) ->
        In e (found c_end))
  /\ App.run (Spec.ruleStack chains) c w =
       (match found c_end with
        | [] => Next c_end
        | _ :: _ =>
            Send (json c_end 400
                    (VObj [("error", VStr "Validation failed");
                           ("details", VArr (map Validators.detail (found c_end)))]))
        end, w)
  /\ (forall e,
        Validators.detail e =
        VObj [("field", VStr (err_path e)); ("message", VStr (err_msg e));
              ("value", err_value e)])
  /\ (forall ch test msg v ck,
        (forall items, v <> VArr items) ->
        test (Conv.toString v) = false ->
        Chain.link ch (Chain.Standard test msg) (v, ck) =
        inr (v, with_found ck
                  (found ck ++ [mkValidationError (Chain.field ch) msg v])))
  /\ (forall ch test msg v ck,
        test v (req ck) = Some msg ->
        Chain.link ch (Chain.Custom test) (v, ck) =
        inr (v, with_found ck
                  (found ck ++ [mkValidationError (Chain.field ch) msg v])))
  /\ (App.validateId = Spec.ruleStack Validators.idChains
      /\ App.validateUser = Spec.ruleStack Validators.userChains
      /\ App.validateUserUpdate = Spec.ruleStack Validators.updateChains).
Proof.
  intros Hend. split; [|split; [|split; [|split; [|split; [|split; [|split]]]]]].
  - exact (proj1 (through_collects chains c c_end Hend)).
  - intros earlier. exact (collected_alone chains c c_end earlier Hend).
  - intros k ch ck e Hk Htake Hin.
    destruct (through_split chains k c c_end Hend) as (ck0 & Ht & Hd).
    rewrite Htake in Ht. injection Ht as <-.
    rewrite (drop_S _ _ _ Hk) in Hd. cbn [Spec.through] in Hd.
    destruct (Chain.run ch ck) as [ck'| |] eqn:Hrun; try discriminate.
    destruct (chain_frame _ _ _ Hrun) as [Hf _].
    destruct (through_grows _ _ _ Hd) as [later Hlater].
    rewrite Hlater, Hf. apply in_or_app. left. apply in_or_app. now right.
  - rewrite (rules_run chains c c_end w Hend), validate_reports.
    destruct (found c_end); reflexivity.
  - reflexivity.
  - intros ch test msg v ck Hna Hfail. cbn [Chain.link].
    destruct v as [| | | | | |l|];
      try (cbn [Chain.each List.filter]; rewrite Hfail; reflexivity).
    now elim (Hna l).
  - intros ch test msg v ck Hfail. cbn [Chain.link]. now rewrite Hfail.
  - apply rule_sets_are_stacks.
Qed.

Lemma validation_collects_every_failure_witness :
  let chains := Validators.userChains (H := Sample.externals) in
  let c := Sample.threeBadFields in
  exists c_end,
    Spec.through chains c = Some c_end
    /\ map Validators.detail (found c_end)
       = [VObj [("field", VStr "name");
                ("message", VStr "Name must be between 2 and 100 characters");
                ("value", VStr "x")];
          VObj [("field", VStr "email");
                ("message", VStr "Must be a valid email address");
                ("value", VStr "dana.example.com")];
          VObj [("field", VStr "phone");
                ("message",
                 VStr "Must be a valid Israeli phone number (+9725xxxxxxxx)");
                ("value", VStr "12345")];
          VObj [("field", VStr "phone");
                ("message", VStr "Phone number must be exactly 13 characters");
                ("value", VStr "12345")]]
    /\ found c_end = found c ++ Spec.collected chains c
    /\ App.run (Spec.ruleStack chains) c Sample.fresh
       = (Send (json c_end 400
                  (VObj [("error", VStr "Validation failed");
                         ("details", VArr (map Validators.detail (found c_end)))])),
          Sample.fresh).
Proof.
  intros chains c. eexists.
  assert (H1 : Spec.through chains c
               = Some (default c (Spec.through chains c)))
    by (vm_compute; reflexivity).
  split; [exact H1|]. split; [vm_compute; reflexivity|].
  pose proof (validation_collects_every_failure (H := Sample.externals)
                chains c _ Sample.fresh H1) as (Hf & _ & _ & Hrun & _).
  split; [exact Hf | exact Hrun].
Defined.

(** C8. What the code does with a PATCH that supplies no recognized field,
    on a table that holds the user: the rule set of the route answers 400
    with the error Validation failed and the detail that at least one field
    must be provided, and the store is not touched; the answer carrying
    No valid fields to update is the handler's, which the request never
    reaches and which would come only after the handler has read the
    store. *)
Theorem patch_without_fields_answer :
  let empty := Sample.patchUser 2000 "1" (VObj []) in
  let unknown := Sample.patchUser 2000 "1"
                   (VObj [("nickname", VStr "dd"); ("id", VNum 999)]) in
  let failed (b : value) :=
    VObj [("error", VStr "Validation failed");
          ("details",
           VArr [VObj [("field", VStr "");
                       ("message",
                        VStr "At least one field must be provided for update");
                       ("value", b)]])] in
  (status (fst (App.app (H := Sample.externals) empty Sample.seeded)) = 400%nat
   /\ payload (fst (App.app (H := Sample.externals) empty Sample.seeded))
      = failed (VObj [])
   /\ App.db (snd (App.app (H := Sample.externals) empty Sample.seeded))
      = App.db Sample.seeded)
  /\ (status (fst (App.app (H := Sample.externals) unknown Sample.seeded)) = 400%nat
      /\ payload (fst (App.app (H := Sample.externals) unknown Sample.seeded))
         = failed (VObj [("nickname", VStr "dd"); ("id", VNum 999)])
      /\ App.db (snd (App.app (H := Sample.externals) unknown Sample.seeded))
         = App.db Sample.seeded)
  /\ (payload (fst (Users.patch (Sample.patchCtx 2000 1 (VObj []))
                      (App.db Sample.seeded)))
      = VObj [("error", VStr "No valid fields to update");
              ("message", VStr "Please provide at least one valid field to update")]
      /\ Store.journal (snd (Users.patch (Sample.patchCtx 2000 1 (VObj []))
                               (App.db Sample.seeded)))
         = Store.journal (App.db Sample.seeded) ++ [(Store.SelectById, [VNum 1])]).
Proof. vm_compute. repeat split; reflexivity. Qed.

(** ** The content sanitizer *)

Section Sanitizer.

Context `{Externals}.

(** What the sanitizer makes of an object when it completes. *)
Lemma sanitized_obj (props : list (string * value)) (v' : value) :
  Xss.sanitizeValue (VObj props) = Some v' ->
  exists props',
    v' = VObj props'
    /\ Forall2 (fun kv kv' => fst kv' = fst kv
                              /\ Xss.sanitizeValue (snd kv) = Some (snd kv'))
               props props'.
Proof.
  cbn [Xss.sanitizeValue]. destruct (Js.shadowed (VObj props)); [discriminate|].
  match goal with |- context [fmap VObj ?t] => destruct t as [l|] eqn:Hl end;
    [|discriminate].
  intros [= <-]. exists l. split; [reflexivity|]. revert l Hl.
  induction props as [|[k x] rest IH]; intros l.
  - intros [= <-]. constructor.
  - destruct (Xss.sanitizeValue x) as [x'|] eqn:Hx; [|discriminate].
    match goal with |- context [fmap (cons (k, x')) ?t] =>
      destruct t as [l'|] eqn:Hl' end; [|discriminate].
    intros [= <-]. constructor; [now split | now apply IH].
Qed.

Lemma sanitized_arr (items : list value) (v' : value) :
  Xss.sanitizeValue (VArr items) = Some v' ->
  exists items',
    v' = VArr items'
    /\ Forall2 (fun x x' => Xss.sanitizeValue x = Some x') items items'.
Proof.
  cbn [Xss.sanitizeValue].
  match goal with |- context [fmap VArr ?t] => destruct t as [l|] eqn:Hl end;
    [|discriminate].
  intros [= <-]. exists l. split; [reflexivity|]. revert l Hl.
  induction items as [|x rest IH]; intros l.
  - intros [= <-]. constructor.
  - destruct (Xss.sanitizeValue x) as [x'|] eqn:Hx; [|discriminate].
    match goal with |- context [fmap (cons x') ?t] =>
      destruct t as [l'|] eqn:Hl' end; [|discriminate].
    intros [= <-]. constructor; [assumption | now apply IH].
Qed.

Lemma entry_sanitized (key : string) (l l' : list (string * value)) :
  Forall2 (fun kv kv' => fst kv' = fst kv
                         /\ Xss.sanitizeValue (snd kv) = Some (snd kv')) l l' ->
  match Spec.entry key l with
  | Some x => exists x', Xss.sanitizeValue x = Some x' /\ Spec.entry key l' = Some x'
  | None => Spec.entry key l' = None
  end.
Proof.
  induction 1 as [|[k x] [k' x'] l l' [Hk Hx] _ IH]; [reflexivity|].
  cbn [fst snd] in Hk, Hx. subst k'. cbn [Spec.entry].
  destruct (String.eqb k key); [now exists x' | exact IH].
Qed.

Lemma indexed_sanitized (i : nat) (l l' : list value) :
  Forall2 (fun x x' => Xss.sanitizeValue x = Some x') l l' ->
  Forall2 (fun kv kv' => fst kv' = fst kv
                         /\ Xss.sanitizeValue (snd kv) = Some (snd kv'))
          (Js.indexed i l) (Js.indexed i l').
Proof.
  intros Hall. revert i. induction Hall as [|x x' l l' Hx _ IH]; intros i;
    cbn [Js.indexed]; constructor; [now split | apply IH].
Qed.

Lemma child_sanitized (v v' : value) (key : string) :
  Xss.sanitizeValue v = Some v' ->
  match Spec.child v key with
  | Some x => exists x', Xss.sanitizeValue x = Some x' /\ Spec.child v' key = Some x'
  | None => Spec.child v' key = None
  end.
Proof.
  destruct v as [| | b | n | | s | items | props];
    try (intros [= <-]; reflexivity).
  - intros (items' & -> & Hall)%sanitized_arr. cbn [Spec.child].
    apply entry_sanitized, indexed_sanitized, Hall.
  - intros (props' & -> & Hall)%sanitized_obj. cbn [Spec.child].
    apply entry_sanitized, Hall.
Qed.

(** Under every path the sanitized value holds the sanitized form of what
    the value held there. *)
Lemma at_path_sanitized (v v' : value) (p : list string) :
  Xss.sanitizeValue v = Some v' ->
  Spec.at_path v' p = Spec.at_path v p ≫= Xss.sanitizeValue.
Proof.
  revert v v'. induction p as [|key rest IH]; intros v v' Hv; cbn [Spec.at_path].
  - exact (eq_sym Hv).
  - pose proof (child_sanitized v v' key Hv) as Hc.
    destruct (Spec.child v key) as [x|].
    + destruct Hc as (x' & Hx & ->). now apply IH.
    + now rewrite Hc.
Qed.

(** The sanitizer completes on exactly the values none of whose objects
    has an own key named hasOwnProperty. *)
Lemma sanitize_defined (v : value) :
  Spec.walkable v = true <-> exists v', Xss.sanitizeValue v = Some v'.
Proof.
  induction v as [| | b | n | | s | items IH | props IH] using value_nested_ind;
    try (split; [intros _; eexists; reflexivity | reflexivity]).
  - cbn [Spec.walkable Xss.sanitizeValue].
    match goal with |- _ <-> exists v', fmap VArr ?t = Some v' =>
      remember t as walked eqn:Hwalked end.
    assert (Hex : (exists v', VArr <$> walked = Some v') <-> exists l, walked = Some l).
    { destruct walked; split; intros [? ?]; try discriminate; eauto. }
    rewrite Hex. subst walked. clear Hex.
    induction IH as [|x rest Hx _ IHl]; [split; eauto|].
    rewrite andb_true_iff, Hx, IHl. split.
    + intros [[x' ->] [l ->]]. eexists. reflexivity.
    + intros [l Hl]. destruct (Xss.sanitizeValue x) as [x'|]; [|discriminate].
      split; [eauto|].
      match type of Hl with fmap _ ?t = _ => destruct t as [l'|] end;
        [eauto | discriminate].
  - cbn [Spec.walkable Xss.sanitizeValue].
    destruct (Js.shadowed (VObj props)); cbn [negb andb];
      [split; [discriminate | intros [v' Hv]; discriminate]|].
    match goal with |- _ <-> exists v', fmap VObj ?t = Some v' =>
      remember t as walked eqn:Hwalked end.
    assert (Hex : (exists v', VObj <$> walked = Some v') <-> exists l, walked = Some l).
    { destruct walked; split; intros [? ?]; try discriminate; eauto. }
    rewrite Hex. subst walked. clear Hex.
    induction IH as [|[k x] rest Hx _ IHl]; [split; eauto|].
    cbn [snd] in Hx. rewrite andb_true_iff, Hx, IHl. split.
    + intros [[x' ->] [l ->]]. eexists. reflexivity.
    + intros [l Hl]. destruct (Xss.sanitizeValue x) as [x'|]; [|discriminate].
      split; [eauto|].
      match type of Hl with fmap _ ?t = _ => destruct t as [l'|] end;
        [eauto | discriminate].
Qed.

Lemma sanitizeValue_plain (x : value) : Spec.plain x -> Xss.sanitizeValue x = Some x.
Proof. destruct x; simpl; tauto. Qed.

Lemma sanitizeObject_container (obj : value) :
  Spec.container obj -> Xss.sanitizeObject obj = Xss.sanitizeValue obj.
Proof. destruct obj; simpl; tauto. Qed.

(** What the sanitizer hands on holds no opening angle bracket when what
    the library returns holds none. *)
Lemma sanitized_clean (v v' : value) :
  Spec.stripsMarkup purify ->
  Xss.sanitizeValue v = Some v' -> Spec.cleanValue v'.
Proof.
  intros Hstrip. revert v'.
  induction v as [| | b | n | | s | items IH | props IH] using value_nested_ind;
    intros v'; try (intros [= <-]; exact I).
  - intros [= <-]. apply Hstrip.
  - intros (items' & -> & Hall)%sanitized_arr. cbn [Spec.cleanValue].
    induction Hall as [|x x' l l' Hx _ IHl]; [exact I|].
    apply Forall_cons in IH as [IHx IHrest]. split; [now apply IHx | now apply IHl].
  - intros (props' & -> & Hall)%sanitized_obj. cbn [Spec.cleanValue].
    induction Hall as [|[k x] [k' x'] l l' [_ Hx] _ IHl]; [exact I|].
    apply Forall_cons in IH as [IHx IHrest]. split; [now apply IHx | now apply IHl].
Qed.

Lemma get_clean (props : list (string * value)) (name : string) :
  Spec.cleanValue (VObj props) -> Spec.cleanValue (Js.get props name).
Proof.
  induction props as [|[k x] l IH]; [intros _; exact I|].
  intros [Hx Hl]. cbn [Js.get]. destruct (String.eqb k name); [exact Hx | now apply IH].
Qed.

Lemma handed_on_clean (c0 c : Ctx) (name : string) :
  Spec.stripsMarkup purify ->
  Xss.xssProtection c0 = Next c -> Spec.cleanValue (Spec.bodyField c name).
Proof.
  intros Hstrip. unfold Xss.xssProtection.
  destruct (Xss.sanitizeSource (body (req c0))) as [b|] eqn:Hb; [|discriminate].
  destruct (Xss.sanitizeSource (query (req c0))) as [q|]; [|discriminate].
  destruct (Xss.sanitizeSource (params (req c0))) as [p|]; [|discriminate].
  intros [= <-]. unfold Spec.bodyField. cbn [req with_req body].
  destruct b as [| | | | | | |props]; try exact I.
  apply get_clean. unfold Xss.sanitizeSource, Xss.sanitizeObject in Hb.
  destruct (body (req c0)) as [| | | | | | items | props0];
    try (destruct (Js.truthy _); discriminate Hb); cbn [Js.truthy] in Hb.
  - apply sanitized_arr in Hb as (items' & Hb & _). discriminate Hb.
  - exact (sanitized_clean _ _ Hstrip Hb).
Qed.

Lemma ahead_hands_clean (c0 c : Ctx) (w : App.World) (name : string) :
  Spec.stripsMarkup purify ->
  fst (App.run App.ahead c0 w) = Next c -> Spec.cleanValue (Spec.bodyField c name).
Proof.
  intros Hstrip.
  change App.ahead
    with ((App.hardening ++ App.pure requestSizeLimiter
             :: [App.pure jsonParser; App.pure urlencodedParser; App.pure hpp;
                 App.pure mongoSanitize])
          ++ [App.pure Xss.xssProtection]).
  rewrite run_app.
  destruct (App.run _ c0 w) as [[c1|resp|c1 e] w1]; [|discriminate..].
  cbn [App.run]. unfold App.pure at 1.
  destruct (Xss.xssProtection c1) as [c2|resp|c2 e] eqn:Hx; [|discriminate..].
  cbn [fst]. intros [= <-]. exact (handed_on_clean c1 c2 name Hstrip Hx).
Qed.

End Sanitizer.

(** ** What the validators let through to the store *)

Lemma noBracket_checked (l : list ascii) :
  forallb (fun c => negb (Ascii.eqb c "<")) l = true -> Spec.noBracket l.
Proof.
  intros Hall Hin. rewrite forallb_forall in Hall. specialize (Hall _ Hin).
  discriminate Hall.
Qed.

Lemma noBracket_app (l1 l2 : list ascii) :
  Spec.noBracket l1 -> Spec.noBracket l2 -> Spec.noBracket (l1 ++ l2).
Proof. unfold Spec.noBracket. rewrite in_app_iff. tauto. Qed.

Lemma entity_clean (c : ascii) : Spec.noBracket (Rules.entity c).
Proof.
  unfold Spec.noBracket.
  destruct c as [[] [] [] [] [] [] [] []]; vm_compute; intros Hin;
    repeat (destruct Hin as [Hin|Hin]; [discriminate Hin|]); exact Hin.
Qed.

Lemma escape_clean (s : string) : Spec.cleanValue (Rules.escape s).
Proof.
  unfold Rules.escape. cbn [Spec.cleanValue]. rewrite chars_text.
  induction (Text.chars s) as [|c l IH]; cbn [flat_map]; [intros []|].
  apply noBracket_app; [apply entity_clean | exact IH].
Qed.

Lemma in_drop {A} (x : A) (n : nat) (l : list A) : In x (drop n l) -> In x l.
Proof.
  revert n. induction l as [|a l IH]; intros [|n]; simpl; auto.
  intros Hin. right. eapply IH; eauto.
Qed.

Lemma in_take {A} (x : A) (n : nat) (l : list A) : In x (take n l) -> In x l.
Proof.
  revert n. induction l as [|a l IH]; intros [|n]; simpl; auto.
  - tauto.
  - intros [ -> | Hin ]; [now left | right; eapply IH; eauto].
Qed.

Lemma skip_in (fuel : nat) (s : list ascii) (x : ascii) :
  In x (Space.skip fuel s) -> In x s.
Proof.
  revert s. induction fuel as [|fuel IH]; intros s; simpl; [auto|].
  destruct (Space.space_len s); [auto|].
  intros Hin. apply IH in Hin. eapply in_drop; eauto.
Qed.

Lemma keep_in (fuel : nat) (s : list ascii) (x : ascii) :
  In x (Space.keep fuel s) -> In x s.
Proof.
  revert s. induction fuel as [|fuel IH]; intros s; simpl; [tauto|].
  destruct (Space.trim_start s); [simpl; tauto|].
  destruct (Space.space_len s) as [|n].
  - destruct s as [|c rest]; simpl; [tauto|].
    intros [ -> | Hin ]; [now left | right; now apply IH].
  - rewrite in_app_iff. intros [Hin|Hin].
    + eapply in_take; eauto.
    + apply IH in Hin. eapply in_drop; eauto.
Qed.

Lemma trim_in (s : list ascii) (x : ascii) : In x (Space.trim s) -> In x s.
Proof.
  unfold Space.trim, Space.trim_end, Space.trim_start.
  intros Hin. apply keep_in in Hin. eapply skip_in; eauto.
Qed.

Lemma squeeze_in (fuel : nat) (b : bool) (s : list ascii) (x : ascii) :
  In x (Space.squeeze fuel b s) -> In x s \/ x = " "%char.
Proof.
  revert b s. induction fuel as [|fuel IH]; intros b s; simpl; [tauto|].
  destruct s as [|c rest]; [simpl; tauto|].
  destruct (Space.space_len (c :: rest)) as [|n] eqn:Hn.
  - intros [ -> | Hin ]; [left; now left|].
    apply IH in Hin as [ Hin | -> ]; [left; now right | now right].
  - rewrite in_app_iff. intros [Hin|Hin].
    + destruct b; simpl in Hin; [tauto|]. destruct Hin as [<-|[]]. now right.
    + apply IH in Hin as [ Hin | -> ]; [left; eapply in_drop; eauto | now right].
Qed.

Lemma trim_clean (s : string) :
  Spec.noBracket (Text.chars s) -> Spec.cleanValue (Rules.trim s).
Proof.
  intros Hs. unfold Rules.trim. cbn [Spec.cleanValue]. rewrite chars_text.
  intros Hin. apply trim_in in Hin. exact (Hs Hin).
Qed.

Lemma tidy_clean (v v' : value) :
  Spec.cleanValue v -> Validators.tidy v = Some v' -> Spec.cleanValue v'.
Proof.
  destruct v as [| | | | | s | |]; try discriminate.
  intros Hv [= <-]. cbn [Spec.cleanValue] in *. rewrite chars_text.
  intros Hin. apply trim_in in Hin. apply squeeze_in in Hin as [Hin|Hin].
  - exact (Hv Hin).
  - discriminate Hin.
Qed.

Lemma digitsAndPlus_clean (v v' : value) :
  Validators.digitsAndPlus v = Some v' -> Spec.cleanValue v'.
Proof.
  destruct v as [| | | | | s | |]; try discriminate.
  intros [= <-]. cbn [Spec.cleanValue]. rewrite chars_text.
  intros Hin. apply filter_In in Hin as [_ Hf]. discriminate Hf.
Qed.

Lemma falsy_clean (v : value) : Js.truthy v = false -> Spec.cleanValue v.
Proof.
  destruct v as [| | | | | s | |]; try (intros _; exact I); try discriminate.
  cbn [Js.truthy Spec.cleanValue]. intros Hf.
  apply negb_false_iff, String.eqb_eq in Hf. subst s. intros [].
Qed.

Lemma whenTruthy_keeps (f : value -> option value) :
  (forall v v', Spec.cleanValue v -> f v = Some v' -> Spec.cleanValue v') ->
  forall v v', Spec.cleanValue v -> Validators.whenTruthy f v = Some v' ->
               Spec.cleanValue v'.
Proof.
  intros Hf v v' Hv. unfold Validators.whenTruthy.
  destruct (Js.truthy v); [now apply Hf | now intros [= <-]].
Qed.

Lemma whenTruthy_cleans (f : value -> option value) :
  (forall v v', f v = Some v' -> Spec.cleanValue v') ->
  forall v v', Validators.whenTruthy f v = Some v' -> Spec.cleanValue v'.
Proof.
  intros Hf v v'. unfold Validators.whenTruthy.
  destruct (Js.truthy v) eqn:Ht; [apply Hf | intros [= <-]; now apply falsy_clean].
Qed.

Lemma get_assign_same (r : list (string * value)) (k : string) (v : value) :
  Js.get (Chain.assign r k v) k = v.
Proof.
  induction r as [|[k0 x] r IH]; simpl.
  - now rewrite String.eqb_refl.
  - destruct (String.eqb k0 k) eqn:He; simpl; rewrite ?He; [reflexivity | exact IH].
Qed.

Lemma assign_keys (props : list (string * value)) (k : string) (v : value) :
  (In k (map fst props) /\ map fst (Chain.assign props k v) = map fst props)
  \/ (~ In k (map fst props)
      /\ map fst (Chain.assign props k v) = map fst props ++ [k]).
Proof.
  induction props as [|[k0 x] l IH]; simpl.
  - right. split; [tauto | reflexivity].
  - destruct (String.eqb k0 k) eqn:He; simpl.
    + apply String.eqb_eq in He. subst. left. split; [now left | reflexivity].
    + apply String.eqb_neq in He.
      destruct IH as [[Hin Heq]|[Hnin Heq]]; rewrite Heq.
      * left. split; [now right | reflexivity].
      * right. split; [intros [?|?]; [contradiction | contradiction] | reflexivity].
Qed.

Lemma assign_distinct (props : list (string * value)) (k : string) (v : value) :
  NoDup (map fst props) -> NoDup (map fst (Chain.assign props k v)).
Proof.
  intros Hnd. destruct (assign_keys props k v) as [[_ ->]|[Hnin ->]]; [exact Hnd|].
  apply NoDup_app. split; [exact Hnd|]. split.
  - intros x Hx [ -> | []]%list_elem_of_In. apply Hnin. now apply list_elem_of_In.
  - apply NoDup_singleton.
Qed.

(** What one link may do to the body of the request. *)
Lemma link_body (ch : Chain.t) (it : Chain.Item) v c v' c' :
  Chain.link ch it (v, c) = inr (v', c') ->
  params (req c') = params (req c) /\ body (req c') = body (req c) /\ (Spec.isCheck it -> v' = v)
  \/ ~ Spec.isCheck it
     /\ (Chain.location ch = Chain.InParams /\ body (req c') = body (req c)
         \/ Chain.location ch = Chain.InBody /\ params (req c') = params (req c)
            /\ (Chain.field ch = "" /\ body (req c') = v'
                \/ Chain.field ch <> ""
                   /\ exists props, body (req c) = VObj props
                        /\ body (req c') = VObj (Chain.assign props (Chain.field ch) v'))).
Proof.
  assert (Hstore : forall w : value,
    let r' := Chain.store ch (req c) w in
    params r' = params (req c) /\ body r' = body (req c)
    \/ (Chain.location ch = Chain.InParams /\ body r' = body (req c)
        \/ Chain.location ch = Chain.InBody /\ params r' = params (req c)
           /\ (Chain.field ch = "" /\ body r' = w
               \/ Chain.field ch <> ""
                  /\ exists props, body (req c) = VObj props
                       /\ body r' = VObj (Chain.assign props (Chain.field ch) w)))).
  { intros w. unfold Chain.store, Chain.put, Chain.data.
    destruct (String.eqb (Chain.field ch) "") eqn:Hf.
    - apply String.eqb_eq in Hf. destruct (Chain.location ch); simpl.
      + right. right. split; [reflexivity|]. split; [reflexivity|]. left. now split.
      + right. left. now split.
    - apply String.eqb_neq in Hf. destruct (Chain.location ch); simpl.
      + destruct (body (req c)) as [| | | | | | |props] eqn:Hb;
          try (left; split; [reflexivity | now symmetry]).
        right. right. split; [reflexivity|]. split; [reflexivity|]. right.
        split; [exact Hf|]. now exists props.
      + right. left. split; [reflexivity|].
        destruct (params (req c)); reflexivity. }
  destruct it as [test msg|test|f|f]; cbn [Chain.link].
  - intros [= <- <-]. left. repeat split.
  - destruct (test v (req c)); intros [= <- <-]; left; repeat split.
  - intros [= <- <-]. simpl.
    match goal with |- context [Chain.store ch (req c) ?w] =>
      destruct (Hstore w) as [[Hp Hb]|Hw] end.
    + left. split; [exact Hp|]. split; [exact Hb|]. intros [].
    + right. split; [intros []|]. exact Hw.
  - destruct (f v) as [w|]; [|discriminate]. intros [= <- <-]. simpl.
    destruct (Hstore w) as [[Hp Hb]|Hw].
    + left. split; [exact Hp|]. split; [exact Hb|]. intros [].
    + right. split; [intros []|]. exact Hw.
Qed.

Lemma links_app (ch : Chain.t) (l1 l2 : list Chain.Item) st :
  Chain.links ch (l1 ++ l2) st =
  match Chain.links ch l1 st with
  | inr st' => Chain.links ch l2 st'
  | inl c => inl c
  end.
Proof.
  revert st. induction l1 as [|it l1 IH]; intros st; cbn [app Chain.links]; [reflexivity|].
  destruct (Chain.link ch it st); [reflexivity | apply IH].
Qed.

Lemma link_holds (name : string) (ch : Chain.t) (it : Chain.Item) v c v' c' :
  Chain.location ch = Chain.InBody -> Chain.field ch = name -> name <> "" ->
  Spec.holdsField name v c ->
  Chain.link ch it (v, c) = inr (v', c') ->
  Spec.holdsField name v' c'.
Proof.
  intros Hloc Hf Hne Hh.
  assert (Hstore : forall w, Spec.holdsField name w
                               (with_req c (Chain.store ch (req c) w))).
  { intros w props. unfold Chain.store, Chain.put, Chain.data.
    rewrite Hloc, Hf. apply String.eqb_neq in Hne. rewrite Hne. simpl.
    destruct (body (req c)) as [| | | | | | |props0] eqn:Hb; simpl;
      rewrite ?Hb; try discriminate.
    intros [= <-]. apply get_assign_same. }
  destruct it as [test msg|test|f|f]; cbn [Chain.link].
  - intros [= <- <-]. exact Hh.
  - destruct (test v (req c)); intros [= <- <-]; exact Hh.
  - intros [= <- <-]. apply Hstore.
  - destruct (f v) as [w|]; [|discriminate]. intros [= <- <-]. apply Hstore.
Qed.

Lemma links_hold (name : string) (ch : Chain.t) (l : list Chain.Item) v c v' c' :
  Chain.location ch = Chain.InBody -> Chain.field ch = name -> name <> "" ->
  Spec.holdsField name v c ->
  Chain.links ch l (v, c) = inr (v', c') ->
  Spec.holdsField name v' c'.
Proof.
  intros Hloc Hf Hne. revert v c.
  induction l as [|it l IH]; intros v c Hh; cbn [Chain.links].
  - now intros [= <- <-].
  - destruct (Chain.link ch it (v, c)) as [c1|[v1 c1]] eqn:Hl; [discriminate|].
    apply IH. exact (link_holds name ch it v c v1 c1 Hloc Hf Hne Hh Hl).
Qed.

Lemma pretty_N_char_digit (x : N) : Chars.is_digit (pretty_N_char x) = true.
Proof. unfold pretty_N_char. repeat case_match; reflexivity. Qed.

(** The decimal spelling of a number holds digits and a sign. *)
Lemma pretty_N_go_clean (x : N) (s : string) :
  Spec.noBracket (Text.chars s) -> Spec.noBracket (Text.chars (pretty_N_go x s)).
Proof.
  revert s. induction (N.lt_wf_0 x) as [x _ IH]. intros s Hs.
  destruct (decide (0 < x)%N) as [Hx|Hx].
  - rewrite pretty_N_go_step by exact Hx. apply IH; [now apply N.div_lt|].
    cbn [Text.chars String.list_ascii_of_string]. intros [Hc|Hin]; [|exact (Hs Hin)].
    pose proof (pretty_N_char_digit (x `mod` 10)) as Hd. rewrite Hc in Hd.
    discriminate Hd.
  - assert (x = 0%N) as -> by lia. now rewrite pretty_N_go_0.
Qed.

Lemma pretty_N_clean (n : N) : Spec.noBracket (Text.chars (pretty n)).
Proof.
  unfold pretty, pretty_N. destruct (decide (n = 0%N)).
  - now apply noBracket_checked.
  - apply pretty_N_go_clean. intros [].
Qed.

Lemma pretty_Z_clean (n : Z) : Spec.noBracket (Text.chars (pretty n)).
Proof.
  unfold pretty, pretty_Z. destruct n as [|p|p].
  - now apply noBracket_checked.
  - apply pretty_N_clean.
  - rewrite chars_app. apply noBracket_app; [now apply noBracket_checked|].
    apply pretty_N_clean.
Qed.

Lemma join_clean (sep : string) (l : list string) :
  Spec.noBracket (Text.chars sep) ->
  Forall (fun s => Spec.noBracket (Text.chars s)) l ->
  Spec.noBracket (Text.chars (Conv.join sep l)).
Proof.
  intros Hsep. induction 1 as [|s [|s' l] Hs Hl IH]; cbn [Conv.join].
  - intros [].
  - exact Hs.
  - rewrite !chars_app. repeat apply noBracket_app; assumption.
Qed.

(** The string JavaScript makes of a clean value is clean. *)
Lemma String_clean (v : value) :
  Spec.cleanValue v -> Spec.noBracket (Text.chars (Conv.String_ v)).
Proof.
  induction v as [| | b | n | | s | items IH | props IH] using value_nested_ind;
    intros Hv; cbn [Conv.String_];
    try (now apply noBracket_checked).
  - destruct b; now apply noBracket_checked.
  - apply pretty_Z_clean.
  - exact Hv.
  - apply join_clean; [now apply noBracket_checked|].
    cbn [Spec.cleanValue] in Hv.
    induction IH as [|x l Hx _ IHl]; [constructor|].
    destruct Hv as [Hvx Hvl]. constructor; [|now apply IHl].
    destruct x; try (now apply noBracket_checked); now apply Hx.
Qed.

Lemma shallow_clean (v : value) :
  Spec.cleanValue v -> Spec.noBracket (Text.chars (Conv.shallow v)).
Proof.
  intros Hv. destruct v; try (now apply noBracket_checked);
    now apply String_clean.
Qed.

Lemma toString_clean (v : value) :
  Spec.cleanValue v -> Spec.noBracket (Text.chars (Conv.toString v)).
Proof.
  intros Hv. destruct v as [| | | | | | [|x items] |];
    try (now apply shallow_clean).
  cbn [Conv.toString]. apply shallow_clean. exact (proj1 Hv).
Qed.

Lemma link_cleans (ch : Chain.t) (cl : Chain.Item) v c v' c' :
  Spec.cleans cl -> Chain.link ch cl (v, c) = inr (v', c') -> Spec.cleanValue v'.
Proof.
  destruct cl as [test msg|test|f|f]; cbn [Spec.cleans Chain.link]; try tauto.
  - intros Hf [= <- _]. destruct v as [| | | | | |items|]; try apply Hf.
    cbn [Spec.cleanValue]. induction items as [|x l IH]; [exact I|].
    split; [apply Hf | exact IH].
  - intros Hf. destruct (f v) as [w|] eqn:Hw; [|discriminate].
    intros [= <- _]. eapply Hf; eauto.
Qed.

Lemma link_keeps (ch : Chain.t) (it : Chain.Item) v c v' c' :
  Spec.keepsClean it -> Spec.cleanValue v ->
  Chain.link ch it (v, c) = inr (v', c') -> Spec.cleanValue v'.
Proof.
  destruct it as [test msg|test|f|f]; cbn [Spec.keepsClean Chain.link].
  - now intros _ Hv [= <- _].
  - intros _ Hv. destruct (test v (req c)); now intros [= <- _].
  - intros Hf Hv [= <- _].
    destruct v as [| | | | | |items|]; try (apply Hf; now apply toString_clean).
    cbn [Spec.cleanValue] in *. induction items as [|x l IH]; [exact I|].
    destruct Hv as [Hx Hl]. split; [apply Hf; now apply toString_clean | now apply IH].
  - intros Hf Hv. destruct (f v) as [w|] eqn:Hw; [|discriminate].
    intros [= <- _]. eapply Hf; eauto.
Qed.

Lemma links_keep (ch : Chain.t) (l : list Chain.Item) v c v' c' :
  Forall Spec.keepsClean l -> Spec.cleanValue v ->
  Chain.links ch l (v, c) = inr (v', c') -> Spec.cleanValue v'.
Proof.
  intros Hall. revert v c.
  induction Hall as [|it l Hit _ IH]; intros v c Hv; cbn [Chain.links].
  - now intros [= <- _].
  - destruct (Chain.link ch it (v, c)) as [c1|[v1 c1]] eqn:Hl; [discriminate|].
    apply IH. exact (link_keeps ch it v c v1 c1 Hit Hv Hl).
Qed.

Lemma select_holds (name : string) (ch : Chain.t) (c : Ctx) :
  Chain.location ch = Chain.InBody -> Chain.field ch = name -> name <> "" ->
  Spec.holdsField name (Chain.select ch (req c)) c.
Proof.
  intros Hloc Hf Hne props Hb. unfold Chain.select, Chain.data.
  rewrite Hloc, Hf, Hb. apply String.eqb_neq in Hne. now rewrite Hne.
Qed.

Lemma held_field_clean (name : string) (v : value) (c : Ctx) :
  Spec.holdsField name v c -> Spec.cleanValue v ->
  Spec.cleanValue (Spec.bodyField c name).
Proof.
  intros Hh Hv. unfold Spec.bodyField.
  destruct (body (req c)) as [| | | | | | |props] eqn:Hb; try exact I.
  now rewrite (Hh props Hb).
Qed.

Lemma chain_settles (name : string) (ch : Chain.t) (c c' : Ctx) :
  Spec.settles name ch -> Chain.run ch c = Next c' ->
  Spec.cleanValue (Spec.bodyField c' name).
Proof.
  intros (Hloc & Hf & Hne & pre & cl & post & Hitems & Hcl & Hpost).
  pose proof (select_holds name ch c Hloc Hf Hne) as Hsel.
  unfold Chain.run.
  destruct (Chain.optional ch && _) eqn:Hskip.
  - intros [= <-]. apply (held_field_clean name _ c Hsel).
    apply andb_prop in Hskip as [_ Hu].
    destruct (Chain.select ch (req c)); try discriminate. exact I.
  - rewrite Hitems, links_app.
    destruct (Chain.links ch pre _) as [c1|[v1 c1]] eqn:Hpre; [discriminate|].
    cbn [Chain.links].
    destruct (Chain.link ch cl (v1, c1)) as [c2|[v2 c2]] eqn:Hlink; [discriminate|].
    destruct (Chain.links ch post (v2, c2)) as [c3|[v3 c3]] eqn:Hrest; [discriminate|].
    intros [= <-].
    apply (held_field_clean name v3 c3).
    + apply (links_hold name ch post v2 c2 v3 c3 Hloc Hf Hne); [|exact Hrest].
      apply (link_holds name ch cl v1 c1 v2 c2 Hloc Hf Hne); [|exact Hlink].
      exact (links_hold name ch pre _ c v1 c1 Hloc Hf Hne Hsel Hpre).
    + apply (links_keep ch post v2 c2 v3 c3 Hpost); [|exact Hrest].
      exact (link_cleans ch cl v1 c1 v2 c2 Hcl Hlink).
Qed.

(** A chain whose links all keep clean leaves its field clean when it
    finds it clean. *)
Lemma chain_carries (name : string) (ch : Chain.t) (c c' : Ctx) :
  Spec.carries name ch -> Spec.cleanValue (Spec.bodyField c name) ->
  Chain.run ch c = Next c' ->
  Spec.cleanValue (Spec.bodyField c' name).
Proof.
  intros (Hloc & Hf & Hne & Hitems) Hclean.
  pose proof (select_holds name ch c Hloc Hf Hne) as Hsel.
  unfold Chain.run.
  destruct (Chain.optional ch && _); [now intros [= <-]|].
  destruct (Chain.links ch (Chain.items ch) _) as [c1|[v1 c1]] eqn:Hl; [discriminate|].
  intros [= <-].
  pose proof (links_hold name ch _ _ c v1 c1 Hloc Hf Hne Hsel Hl) as Hheld.
  apply (held_field_clean name v1 c1 Hheld).
  apply (links_keep ch _ (Chain.select ch (req c)) c v1 c1 Hitems); [|exact Hl].
  unfold Chain.select, Chain.data. rewrite Hloc, Hf.
  apply String.eqb_neq in Hne. rewrite Hne.
  unfold Spec.bodyField in Hclean. destruct (body (req c)); try exact I. exact Hclean.
Qed.

Lemma link_spares (name : string) (ch : Chain.t) (it : Chain.Item) v c v' c' :
  Chain.location ch = Chain.InParams \/ Spec.isCheck it
  \/ (Chain.field ch <> "" /\ Chain.field ch <> name) ->
  Chain.link ch it (v, c) = inr (v', c') ->
  Spec.bodyField c' name = Spec.bodyField c name.
Proof.
  intros Hcond Hl. unfold Spec.bodyField.
  destruct (link_body ch it v c v' c' Hl)
    as [(_ & -> & _)|(Hnc & [(_ & ->)|(Hloc & _ & [(Hf & _)|(Hf & props & Hb & ->)])])];
    try reflexivity.
  - destruct Hcond as [Hp|[Hc|[Hne _]]]; [congruence | contradiction | contradiction].
  - rewrite Hb. destruct Hcond as [Hp|[Hc|[_ Hne]]]; [congruence | contradiction|].
    now apply get_assign_other.
Qed.

Lemma link_keys (ch : Chain.t) (it : Chain.Item) v c v' c' :
  Chain.location ch = Chain.InParams \/ Spec.isCheck it \/ Chain.field ch <> "" ->
  Chain.link ch it (v, c) = inr (v', c') ->
  Spec.distinctKeys c -> Spec.distinctKeys c'.
Proof.
  intros Hcond Hl Hd. unfold Spec.distinctKeys in *.
  destruct (link_body ch it v c v' c' Hl)
    as [(_ & -> & _)|(Hnc & [(_ & ->)|(Hloc & _ & [(Hf & _)|(Hf & props & Hb & ->)])])];
    try exact Hd.
  - destruct Hcond as [Hp|[Hc|Hne]]; [congruence | contradiction | contradiction].
  - intros props' [= <-]. apply assign_distinct. now apply Hd.
Qed.

Lemma links_spare (name : string) (ch : Chain.t) (l : list Chain.Item) v c v' c' :
  Chain.location ch = Chain.InParams \/ Forall Spec.isCheck l
  \/ (Chain.field ch <> "" /\ Chain.field ch <> name) ->
  Chain.links ch l (v, c) = inr (v', c') ->
  Spec.bodyField c' name = Spec.bodyField c name.
Proof.
  revert v c. induction l as [|it l IH]; intros v c Hcond; cbn [Chain.links].
  - now intros [= _ <-].
  - destruct (Chain.link ch it (v, c)) as [c1|[v1 c1]] eqn:Hl; [discriminate|].
    intros Hrest. rewrite (IH v1 c1); [| |exact Hrest].
    + apply (link_spares name ch it v c v1 c1); [|exact Hl].
      destruct Hcond as [Hp|[Hc|Hf]]; [now left | right; left | now right; right].
      now inversion Hc.
    + destruct Hcond as [Hp|[Hc|Hf]]; [now left | right; left | now right; right].
      now inversion Hc.
Qed.

Lemma links_keys (ch : Chain.t) (l : list Chain.Item) v c v' c' :
  Chain.location ch = Chain.InParams \/ Forall Spec.isCheck l \/ Chain.field ch <> "" ->
  Chain.links ch l (v, c) = inr (v', c') ->
  Spec.distinctKeys c -> Spec.distinctKeys c'.
Proof.
  revert v c. induction l as [|it l IH]; intros v c Hcond; cbn [Chain.links].
  - now intros [= _ <-].
  - destruct (Chain.link ch it (v, c)) as [c1|[v1 c1]] eqn:Hl; [discriminate|].
    intros Hrest Hd. apply (IH v1 c1); [|exact Hrest|].
    + destruct Hcond as [Hp|[Hc|Hf]]; [now left | right; left | now right; right].
      now inversion Hc.
    + apply (link_keys ch it v c v1 c1); [|exact Hl|exact Hd].
      destruct Hcond as [Hp|[Hc|Hf]]; [now left | right; left | now right; right].
      now inversion Hc.
Qed.

Lemma chain_spares (name : string) (ch : Chain.t) (c c' : Ctx) :
  Spec.spares name ch -> Chain.run ch c = Next c' ->
  Spec.bodyField c' name = Spec.bodyField c name.
Proof.
  intros Hsp. unfold Chain.run. destruct (_ && _); [now intros [= <-]|].
  destruct (Chain.links ch (Chain.items ch) _) as [c1|[v1 c1]] eqn:Hl; [discriminate|].
  intros [= <-]. exact (links_spare name ch _ _ c v1 c1 Hsp Hl).
Qed.

Lemma chain_keys (ch : Chain.t) (c c' : Ctx) :
  Spec.tame ch -> Chain.run ch c = Next c' ->
  Spec.distinctKeys c -> Spec.distinctKeys c'.
Proof.
  intros Ht. unfold Chain.run. destruct (_ && _); [now intros [= <-]|].
  destruct (Chain.links ch (Chain.items ch) _) as [c1|[v1 c1]] eqn:Hl; [discriminate|].
  intros [= <-]. exact (links_keys ch _ _ c v1 c1 Ht Hl).
Qed.

Lemma through_settled (name : string) (chains : list Chain.t) (c c_end : Ctx) :
  Forall (fun ch => Spec.settles name ch \/ Spec.spares name ch) chains ->
  Spec.through chains c = Some c_end ->
  Spec.cleanValue (Spec.bodyField c name) \/ Exists (Spec.settles name) chains ->
  Spec.cleanValue (Spec.bodyField c_end name).
Proof.
  intros Hall. revert c.
  induction Hall as [|ch l Hch _ IH]; intros c; cbn [Spec.through].
  - intros [= <-] [Hc|Hex]; [exact Hc | inversion Hex].
  - destruct (Chain.run ch c) as [c1| |] eqn:Hr; try discriminate.
    intros Hrest Hor. apply (IH c1 Hrest).
    destruct Hch as [Hset|Hsp].
    + left. exact (chain_settles name ch c c1 Hset Hr).
    + destruct Hor as [Hc|Hex].
      * left. now rewrite (chain_spares name ch c c1 Hsp Hr).
      * apply Exists_cons in Hex as [Hset|Hex]; [|now right].
        left. exact (chain_settles name ch c c1 Hset Hr).
Qed.

Lemma through_carried (name : string) (chains : list Chain.t) (c c_end : Ctx) :
  Forall (fun ch => Spec.settles name ch \/ Spec.spares name ch
                    \/ Spec.carries name ch) chains ->
  Spec.through chains c = Some c_end ->
  Spec.cleanValue (Spec.bodyField c name) ->
  Spec.cleanValue (Spec.bodyField c_end name).
Proof.
  intros Hall. revert c.
  induction Hall as [|ch l Hch _ IH]; intros c; cbn [Spec.through].
  - now intros [= <-].
  - destruct (Chain.run ch c) as [c1| |] eqn:Hr; try discriminate.
    intros Hrest Hc. apply (IH c1 Hrest).
    destruct Hch as [Hset|[Hsp|Hca]].
    + exact (chain_settles name ch c c1 Hset Hr).
    + now rewrite (chain_spares name ch c c1 Hsp Hr).
    + exact (chain_carries name ch c c1 Hca Hc Hr).
Qed.

Lemma through_keys (chains : list Chain.t) (c c_end : Ctx) :
  Forall Spec.tame chains ->
  Spec.through chains c = Some c_end ->
  Spec.distinctKeys c -> Spec.distinctKeys c_end.
Proof.
  intros Hall. revert c.
  induction Hall as [|ch l Hch _ IH]; intros c; cbn [Spec.through].
  - now intros [= <-].
  - destruct (Chain.run ch c) as [c1| |] eqn:Hr; try discriminate.
    intros Hrest Hd. apply (IH c1 Hrest). exact (chain_keys ch c c1 Hch Hr Hd).
Qed.

Lemma through_spared (name : string) (chains : list Chain.t) (c c_end : Ctx) :
  Forall (Spec.spares name) chains ->
  Spec.through chains c = Some c_end ->
  Spec.bodyField c_end name = Spec.bodyField c name.
Proof.
  intros Hall. revert c.
  induction Hall as [|ch l Hch _ IH]; intros c; cbn [Spec.through].
  - now intros [= <-].
  - destruct (Chain.run ch c) as [c1| |] eqn:Hr; try discriminate.
    intros Hrest. rewrite (IH c1 Hrest). exact (chain_spares name ch c c1 Hch Hr).
Qed.

Lemma tidy_keeps : Spec.keepsClean (Chain.CustomSanitizer Validators.tidy).
Proof. exact tidy_clean. Qed.

Lemma tidy_when_keeps :
  Spec.keepsClean (Chain.CustomSanitizer (Validators.whenTruthy Validators.tidy)).
Proof. exact (whenTruthy_keeps _ tidy_clean). Qed.

Lemma textChain_settles (optional : bool) (field : string) (lo hi : nat)
    (lengthMsg : string) (charset : string -> bool) (charsetMsg : string)
    (clean : value -> option value) :
  field <> "" ->
  Spec.keepsClean (Chain.CustomSanitizer clean) ->
  Spec.settles field
    (Validators.textChain optional field lo hi lengthMsg charset charsetMsg clean).
Proof.
  intros Hne Hclean. split; [reflexivity|]. split; [reflexivity|]. split; [exact Hne|].
  eexists [_; _; _], _, [_]. split; [reflexivity|]. split.
  - exact escape_clean.
  - constructor; [exact Hclean | constructor].
Qed.

Local Ltac other_field := right; right; right; split; discriminate.
Local Ltac only_checks := right; right; left; repeat constructor.

Local Ltac text_settles :=
  left; apply textChain_settles; [discriminate | first [exact tidy_keeps | exact tidy_when_keeps]].

Lemma userChains_settle `{Externals} (name : string) :
  In name Spec.textColumns ->
  Forall (fun ch => Spec.settles name ch \/ Spec.spares name ch) Validators.userChains
  /\ Exists (Spec.settles name) Validators.userChains.
Proof.
  assert (Hphone : Spec.settles "phone"
            (Chain.mk Chain.InBody "phone" false
               [Chain.Sanitizer Rules.trim;
                Chain.Standard Rules.phonePattern Validators.phoneMsg;
                Chain.CustomSanitizer Validators.digitsAndPlus;
                Chain.Standard (Rules.isLength 13 13)
                  "Phone number must be exactly 13 characters"])).
  { split; [reflexivity|]. split; [reflexivity|]. split; [discriminate|].
    eexists [_; _], _, [_]. split; [reflexivity|]. split.
    - exact digitsAndPlus_clean.
    - repeat constructor. }
  unfold Validators.userChains, Validators.nameChain, Validators.addressChain,
    Validators.cityChain, Validators.countryChain.
  simpl. intros [<-|[<-|[<-|[<-|[<-|[]]]]]]; split.
  - repeat (apply Forall_cons; split);
      first [text_settles | other_field | only_checks | now apply Forall_nil].
  - apply Exists_cons_hd. apply textChain_settles; [discriminate | exact tidy_keeps].
  - repeat (apply Forall_cons; split);
      first [now left | other_field | only_checks | now apply Forall_nil].
  - apply Exists_cons_tl, Exists_cons_tl, Exists_cons_hd. exact Hphone.
  - repeat (apply Forall_cons; split);
      first [text_settles | other_field | only_checks | now apply Forall_nil].
  - do 3 apply Exists_cons_tl. apply Exists_cons_hd.
    apply textChain_settles; [discriminate | exact tidy_keeps].
  - repeat (apply Forall_cons; split);
      first [text_settles | other_field | only_checks | now apply Forall_nil].
  - do 4 apply Exists_cons_tl. apply Exists_cons_hd.
    apply textChain_settles; [discriminate | exact tidy_keeps].
  - repeat (apply Forall_cons; split);
      first [text_settles | other_field | only_checks | now apply Forall_nil].
  - do 5 apply Exists_cons_tl. apply Exists_cons_hd.
    apply textChain_settles; [discriminate | exact tidy_keeps].
Qed.

Lemma updateChains_settle `{Externals} (name : string) :
  In name Spec.textColumns ->
  Forall (fun ch => Spec.settles name ch \/ Spec.spares name ch) Validators.updateChains
  /\ Exists (Spec.settles name) Validators.updateChains.
Proof.
  assert (Hphone : Spec.settles "phone"
            (Chain.mk Chain.InBody "phone" true
               [Chain.Sanitizer Rules.trim;
                Chain.Standard Rules.phonePattern Validators.phoneMsg;
                Chain.CustomSanitizer
                  (Validators.whenTruthy Validators.digitsAndPlus)])).
  { split; [reflexivity|]. split; [reflexivity|]. split; [discriminate|].
    eexists [_; _], _, []. split; [reflexivity|]. split.
    - exact (whenTruthy_cleans _ digitsAndPlus_clean).
    - constructor. }
  unfold Validators.updateChains, Validators.nameChain, Validators.addressChain,
    Validators.cityChain, Validators.countryChain.
  simpl. intros [<-|[<-|[<-|[<-|[<-|[]]]]]]; split.
  - repeat (apply Forall_cons; split);
      first [text_settles | other_field | only_checks | now apply Forall_nil].
  - apply Exists_cons_hd. apply textChain_settles; [discriminate | exact tidy_when_keeps].
  - repeat (apply Forall_cons; split);
      first [now left | other_field | only_checks | now apply Forall_nil].
  - apply Exists_cons_tl, Exists_cons_tl, Exists_cons_hd. exact Hphone.
  - repeat (apply Forall_cons; split);
      first [text_settles | other_field | only_checks | now apply Forall_nil].
  - do 3 apply Exists_cons_tl. apply Exists_cons_hd.
    apply textChain_settles; [discriminate | exact tidy_when_keeps].
  - repeat (apply Forall_cons; split);
      first [text_settles | other_field | only_checks | now apply Forall_nil].
  - do 4 apply Exists_cons_tl. apply Exists_cons_hd.
    apply textChain_settles; [discriminate | exact tidy_when_keeps].
  - repeat (apply Forall_cons; split);
      first [text_settles | other_field | only_checks | now apply Forall_nil].
  - do 5 apply Exists_cons_tl. apply Exists_cons_hd.
    apply textChain_settles; [discriminate | exact tidy_when_keeps].
Qed.

Lemma rule_chains_tame `{Externals} :
  Forall Spec.tame Validators.idChains
  /\ Forall Spec.tame Validators.userChains
  /\ Forall Spec.tame Validators.updateChains.
Proof.
  unfold Validators.idChains, Validators.userChains, Validators.updateChains.
  repeat split;
    repeat (apply Forall_cons; split);
    first [ right; right; discriminate
          | right; left; repeat constructor
          | left; reflexivity
          | now apply Forall_nil ].
Qed.

Lemma idChains_spare `{Externals} (name : string) :
  Forall (Spec.spares name) Validators.idChains.
Proof. repeat constructor. Qed.

Lemma pretty_N_go_digit (x : N) (s : string) :
  (0 < x)%N ->
  exists c s', pretty_N_go x s = String c s' /\ Chars.is_digit c = true.
Proof.
  revert s. induction (N.lt_wf_0 x) as [x _ IH]. intros s Hx.
  rewrite pretty_N_go_step by exact Hx.
  destruct (decide (0 < x `div` 10)%N) as [Hd|Hd].
  - apply IH; [|exact Hd]. now apply N.div_lt.
  - apply N.nlt_ge, N.le_0_r in Hd. rewrite Hd, pretty_N_go_0. eexists _, _. split; [reflexivity|].
    apply pretty_N_char_digit.
Qed.

Lemma index_key_digit (i : nat) :
  exists c s', Js.index_key i = String c s' /\ Chars.is_digit c = true.
Proof.
  unfold Js.index_key, pretty, pretty_nat, pretty, pretty_N.
  destruct (decide (N.of_nat i = 0)%N) as [_|Hne].
  - eexists _, _. split; reflexivity.
  - apply pretty_N_go_digit. lia.
Qed.

Lemma indexed_keys_digit {A} (i : nat) (l : list A) (k : string) (x : A) :
  In (k, x) (Js.indexed i l) ->
  exists c s', k = String c s' /\ Chars.is_digit c = true.
Proof.
  revert i. induction l as [|a l IH]; intros i; simpl; [tauto|].
  intros [[= <- _]|Hin]; [apply index_key_digit | eapply IH; eauto].
Qed.

Lemma allowed_not_digit (k : string) :
  In k Users.allowedFields ->
  ~ exists c s', k = String c s' /\ Chars.is_digit c = true.
Proof.
  simpl. intros [<-|[<-|[<-|[<-|[<-|[<-|[]]]]]]] (c & s' & [= <- _] & Hd);
    discriminate Hd.
Qed.

Lemma get_of_distinct (props : list (string * value)) (k : string) (v : value) :
  NoDup (map fst props) -> In (k, v) props -> Js.get props k = v.
Proof.
  induction props as [|[k0 x] l IH]; simpl; [tauto|].
  intros Hnd [[= -> ->]|Hin].
  - now rewrite String.eqb_refl.
  - apply NoDup_cons in Hnd as [Hnin Hnd].
    destruct (String.eqb k0 k) eqn:He; [|now apply IH].
    apply String.eqb_eq in He. subst k0. elim Hnin.
    apply list_elem_of_In, in_map_iff. now exists (k, v).
Qed.

(** The recognized entries of a body with distinct keys are fields of it. *)
Lemma recognized_field (c : Ctx) (k : string) (v : value) :
  Spec.distinctKeys c ->
  In (k, v) (Spec.recognized (body (req c))) ->
  Spec.bodyField c k = v.
Proof.
  intros Hd Hin. apply recognized_allowed in Hin as [Hal Hin]. simpl in *.
  unfold Spec.bodyField.
  destruct (body (req c)) as [| | | | |s|items|props] eqn:Hb; simpl in Hin; try tauto.
  - elim (allowed_not_digit k Hal). eapply indexed_keys_digit; eauto.
  - elim (allowed_not_digit k Hal). eapply indexed_keys_digit; eauto.
  - apply get_of_distinct; [now apply Hd | exact Hin].
Qed.

Lemma email_chain_carries `{Externals} (optional : bool)
    (more : list Chain.Item) :
  Spec.addsNoMarkup normalizeEmail ->
  Forall Spec.isCheck more ->
  Spec.carries "email"
    (Chain.mk Chain.InBody "email" optional (Validators.emailItems ++ more)).
Proof.
  intros Hnorm Hmore. split; [reflexivity|]. split; [reflexivity|].
  split; [discriminate|]. apply Forall_app. split.
  - unfold Validators.emailItems. repeat constructor.
    + exact trim_clean.
    + exact Hnorm.
  - eapply Forall_impl; [exact Hmore|]. intros [test msg|test|f|f] []; exact I.
Qed.

Lemma userChains_carry `{Externals} :
  Spec.addsNoMarkup normalizeEmail ->
  Forall (fun ch => Spec.settles "email" ch \/ Spec.spares "email" ch
                    \/ Spec.carries "email" ch) Validators.userChains.
Proof.
  intros Hnorm.
  unfold Validators.userChains, Validators.nameChain, Validators.addressChain,
    Validators.cityChain, Validators.countryChain, Validators.textChain.
  repeat (apply Forall_cons; split);
    first [ right; right; apply email_chain_carries; [exact Hnorm | repeat constructor]
          | right; left; right; right; split; discriminate
          | right; left; right; left; repeat constructor
          | now apply Forall_nil ].
Qed.

Lemma updateChains_carry `{Externals} :
  Spec.addsNoMarkup normalizeEmail ->
  Forall (fun ch => Spec.settles "email" ch \/ Spec.spares "email" ch
                    \/ Spec.carries "email" ch) Validators.updateChains.
Proof.
  intros Hnorm.
  unfold Validators.updateChains, Validators.nameChain, Validators.addressChain,
    Validators.cityChain, Validators.countryChain, Validators.textChain.
  repeat (apply Forall_cons; split);
    first [ right; right;
            rewrite <- (app_nil_r Validators.emailItems);
            apply email_chain_carries; [exact Hnorm | constructor]
          | right; left; right; right; split; discriminate
          | right; left; right; left; repeat constructor
          | now apply Forall_nil ].
Qed.

Lemma query_journal (s : Store.Statement) values t (d : Store.Db) :
  Store.journal (snd (Store.query s values t d)) = Store.journal d ++ [(s, values)].
Proof.
  unfold Store.query. destruct (Store.execute s values t d) as [[res table] next].
  reflexivity.
Qed.


Lemma rules_then (chains : list Chain.t) (rest : list App.Middleware)
    (c : Ctx) (w : App.World) :
  (exists c_end,
     Spec.through chains c = Some c_end
     /\ App.run (Spec.ruleStack chains ++ rest) c w = App.run rest c_end w)
  \/ snd (App.run (Spec.ruleStack chains ++ rest) c w) = w.
Proof.
  unfold Spec.ruleStack. rewrite <- app_assoc. revert c.
  induction chains as [|ch l IH]; intros c; cbn [map app App.run Spec.through].
  - change (App.pure Validators.validate c w) with (Validators.validate c, w).
    rewrite validate_reports.
    destruct (found c); [left; now exists c | right; reflexivity].
  - change (App.pure (Chain.run ch) c w) with (Chain.run ch c, w).
    destruct (Chain.run ch c) as [c1|resp|c1 e]; [apply IH | now right | now right].
Qed.

Lemma distinctKeys_same (c c' : Ctx) :
  body (req c') = body (req c) -> Spec.distinctKeys c -> Spec.distinctKeys c'.
Proof. intros Hb Hd props Hp. apply Hd. now rewrite <- Hb. Qed.

Lemma run_keeps (I : Ctx -> Prop) (P : App.World -> App.World -> Prop)
    (stack : list App.Middleware) :
  (forall w, P w w) ->
  (forall w1 w2 w3, P w1 w2 -> P w2 w3 -> P w1 w3) ->
  Forall (fun m => forall c w, I c ->
                   P w (snd (m c w)) /\ forall c', fst (m c w) = Next c' -> I c') stack ->
  forall c w, I c ->
    P w (snd (App.run stack c w))
    /\ forall c', fst (App.run stack c w) = Next c' -> I c'.
Proof.
  intros Hrefl Htrans Hall.
  induction Hall as [|m l Hm _ IH]; intros c w Hc; cbn [App.run].
  - split; [apply Hrefl|]. intros c' [= <-]. exact Hc.
  - destruct (Hm c w Hc) as [Hp Hi].
    destruct (m c w) as [[c1|resp|c1 e] w1]; cbn [fst snd] in *.
    + destruct (IH c1 w1 (Hi c1 eq_refl)) as [Hp' Hi'].
      split; [exact (Htrans _ _ _ Hp Hp') | exact Hi'].
    + split; [exact Hp | intros c' Hn; discriminate Hn].
    + split; [exact Hp | intros c' Hn; discriminate Hn].
Qed.

Section Columns.

Context `{Externals}.

(** The columns looked at: the text columns alone, or the email with
    them, when normalizeEmail adds no markup. *)
Variable columns : list string.

Hypothesis known :
  forall name, In name columns ->
    In name Spec.textColumns \/ (name = "email" /\ Spec.addsNoMarkup normalizeEmail).

Lemma cleanWrites_refl (d : Store.Db) : Spec.cleanWrites columns d d.
Proof. exists []. split; [now rewrite app_nil_r | constructor]. Qed.

Lemma cleanWrites_trans (d1 d2 d3 : Store.Db) :
  Spec.cleanWrites columns d1 d2 -> Spec.cleanWrites columns d2 d3 ->
  Spec.cleanWrites columns d1 d3.
Proof.
  intros (n1 & H1 & F1) (n2 & H2 & F2). exists (n1 ++ n2). split.
  - now rewrite H2, H1, app_assoc.
  - now apply Forall_app.
Qed.

Lemma cleanWrites_query (s : Store.Statement) values t (d : Store.Db) :
  Spec.cleanEntry columns (s, values) ->
  Spec.cleanWrites columns d (snd (Store.query s values t d)).
Proof.
  intros He. exists [(s, values)]. split; [apply query_journal | now constructor].
Qed.

Local Ltac after_query H :=
  match goal with
  | |- context [Store.query ?s ?vs ?t ?d] =>
      pose proof (cleanWrites_query s vs t d) as H;
      destruct (Store.query s vs t d) as [[?l|?code] ?d]; cbn [snd] in H
  end.

Lemma getAll_clean (c : Ctx) (d : Store.Db) :
  Spec.cleanWrites columns d (snd (Users.getAll c d)).
Proof.
  unfold Users.getAll. after_query H0; cbn [snd]; now apply H0.
Qed.

Lemma getOne_clean (c : Ctx) (d : Store.Db) :
  Spec.cleanWrites columns d (snd (Users.getOne c d)).
Proof.
  unfold Users.getOne. after_query H0; [destruct l|]; cbn [snd]; now apply H0.
Qed.

Lemma remove_clean (c : Ctx) (d : Store.Db) :
  Spec.cleanWrites columns d (snd (Users.remove c d)).
Proof.
  unfold Users.remove. after_query H1; [destruct l|]; cbn [snd]; try now apply H1.
  after_query H2; cbn [snd];
    (eapply cleanWrites_trans; [now apply H1 | now apply H2]).
Qed.

Lemma fields_clean (c : Ctx) (vals : list value) (extra : list value) :
  Spec.textClean columns c ->
  Users.fields (body (req c)) = Some vals ->
  forall i column,
    Store.columns !! i = Some column -> In column columns ->
    Spec.cleanValue (Store.param (vals ++ extra) (S i)).
Proof.
  intros Hc Hf i column Hi Hin. specialize (Hc column Hin).
  unfold Spec.bodyField in Hc. unfold Users.fields in Hf.
  assert (Hval : forall b : value,
            (forall props, b = VObj props -> Spec.cleanValue (Js.get props column)) ->
            Spec.cleanValue
              (Store.param
                 (map (fun name => default VUndefined (Users.prop b name)) Store.columns
                  ++ extra) (S i))).
  { intros b Hb. unfold Store.param. rewrite Nat.sub_succ, Nat.sub_0_r.
    rewrite lookup_app_l by (rewrite length_map; eapply lookup_lt_Some; eauto).
    rewrite list_lookup_fmap, Hi. cbn [fmap option_map default].
    destruct b; try exact I. now apply Hb. }
  assert (Hvals : vals = map (fun name =>
                               default VUndefined (Users.prop (body (req c)) name))
                           Store.columns).
  { destruct (body (req c)); try discriminate; now injection Hf as <-. }
  subst vals. apply Hval. intros props Hb. now rewrite Hb in Hc.
Qed.

Lemma create_clean (c : Ctx) (d : Store.Db) :
  Spec.textClean columns c -> Spec.cleanWrites columns d (snd (Users.create c d)).
Proof.
  intros Hc. unfold Users.create.
  destruct (Users.fields (body (req c))) as [vals|] eqn:Hf; [|apply cleanWrites_refl].
  after_query H1; [destruct l|]; cbn [snd]; try now apply H1.
  pose proof (fields_clean c vals [] Hc Hf) as Hvals. rewrite app_nil_r in Hvals.
  after_query H2; cbn [snd].
  - eapply cleanWrites_trans; [now apply H1 | now apply H2].
  - destruct (String.eqb code "23505"); [|destruct (String.eqb code "23502")];
      cbn [snd]; (eapply cleanWrites_trans; [now apply H1 | now apply H2]).
Qed.

Lemma replace_clean (c : Ctx) (d : Store.Db) :
  Spec.textClean columns c -> Spec.cleanWrites columns d (snd (Users.replace c d)).
Proof.
  intros Hc. unfold Users.replace.
  destruct (Users.fields (body (req c))) as [vals|] eqn:Hf; [|apply cleanWrites_refl].
  after_query H1; [destruct l|]; cbn [snd]; try now apply H1.
  after_query H2; [destruct l0|]; cbn [snd];
    try (eapply cleanWrites_trans; [now apply H1 | now apply H2]).
  pose proof (fields_clean c vals [Users.paramId c] Hc Hf) as Hvals.
  after_query H3; cbn [snd];
    (eapply cleanWrites_trans;
       [eapply cleanWrites_trans; [now apply H1 | now apply H2] | now apply H3]).
Qed.

Lemma built_entry_clean (c : Ctx) (id : value) clauses fp values :
  Spec.textClean columns c -> Spec.distinctKeys c ->
  Users.buildUpdate (body (req c)) id = Some (clauses, fp, values) ->
  Spec.cleanEntry columns (Store.UpdateFields clauses fp, values).
Proof.
  intros Hc Hd Hb. rewrite buildUpdate_spec in Hb.
  destruct (Spec.recognized (body (req c))) as [|kv0 kept0] eqn:Hrec; [discriminate|].
  rewrite <- Hrec in Hb. injection Hb as <- <- <-.
  intros column p Hin Hcol. cbn [snd].
  apply in_app_or in Hin as [Hin|[Hin|[]]]; [|discriminate].
  apply list_elem_of_In, list_elem_of_lookup in Hin as [i Hi].
  rewrite list_lookup_imap in Hi.
  destruct (Spec.recognized (body (req c)) !! i) as [[k v]|] eqn:Hkv; [|discriminate].
  injection Hi as <- <-.
  assert (Hp : Store.param (map snd (Spec.recognized (body (req c))) ++ [id]) (S i) = v).
  { unfold Store.param. rewrite Nat.sub_succ, Nat.sub_0_r.
    rewrite lookup_app_l by (rewrite length_map; eapply lookup_lt_Some; eauto).
    now rewrite list_lookup_fmap, Hkv. }
  rewrite Hp. rewrite <- (recognized_field c k v Hd).
  - now apply Hc.
  - apply list_elem_of_In, list_elem_of_lookup. eauto.
Qed.

Lemma patchBuild_clean (c : Ctx) (id : value) (d : Store.Db) :
  Spec.textClean columns c -> Spec.distinctKeys c ->
  Spec.cleanWrites columns d (snd (Users.patchBuild c (body (req c)) id d)).
Proof.
  intros Hc Hd. unfold Users.patchBuild.
  destruct (Users.buildUpdate (body (req c)) id) as [[[clauses fp] values]|] eqn:Hb;
    [|apply cleanWrites_refl].
  pose proof (built_entry_clean c id clauses fp values Hc Hd Hb) as He.
  after_query H1; cbn [snd]; now apply H1.
Qed.

Lemma patch_clean (c : Ctx) (d : Store.Db) :
  Spec.textClean columns c -> Spec.distinctKeys c ->
  Spec.cleanWrites columns d (snd (Users.patch c d)).
Proof.
  intros Hc Hd. unfold Users.patch.
  after_query H1; [destruct l|]; cbn [snd]; try now apply H1.
  destruct (Users.prop (body (req c)) "email") as [email|]; [|now apply H1].
  destruct (Js.truthy email).
  - after_query H2; [destruct l0|]; cbn [snd];
      try (eapply cleanWrites_trans; [now apply H1 | now apply H2]).
    eapply cleanWrites_trans;
      [eapply cleanWrites_trans; [now apply H1 | now apply H2]
      | now apply patchBuild_clean].
  - eapply cleanWrites_trans; [now apply H1 | now apply patchBuild_clean].
Qed.

Lemma guarded_handler_clean (chains : list Chain.t)
    (h : Ctx -> Store.Db -> Response * Store.Db) (c : Ctx) (w : App.World) :
  (forall c_end d, Spec.through chains c = Some c_end ->
                   Spec.cleanWrites columns d (snd (h c_end d))) ->
  Spec.cleanWrites columns (App.db w)
    (App.db (snd (App.run (Spec.ruleStack chains ++ [App.handler h]) c w))).
Proof.
  intros Hh. destruct (rules_then chains [App.handler h] c w) as [(c_end & Ht & ->)| -> ];
    [|apply cleanWrites_refl].
  cbn [App.run]. unfold App.handler. specialize (Hh c_end (App.db w) Ht).
  destruct (h c_end (App.db w)) as [resp d']. exact Hh.
Qed.

Lemma guarded_twice_clean (first second : list Chain.t)
    (h : Ctx -> Store.Db -> Response * Store.Db) (c : Ctx) (w : App.World) :
  (forall c1 c_end d,
     Spec.through first c = Some c1 -> Spec.through second c1 = Some c_end ->
     Spec.cleanWrites columns d (snd (h c_end d))) ->
  Spec.cleanWrites columns (App.db w)
    (App.db (snd (App.run (Spec.ruleStack first ++ Spec.ruleStack second
                           ++ [App.handler h]) c w))).
Proof.
  intros Hh.
  destruct (rules_then first (Spec.ruleStack second ++ [App.handler h]) c w)
    as [(c1 & Ht & ->)| -> ]; [|apply cleanWrites_refl].
  apply guarded_handler_clean. intros c_end d. now apply Hh.
Qed.

Lemma limited_clean (l : App.Limiter) (stack : list App.Middleware)
    (c : Ctx) (w : App.World) :
  (forall c' w', req c' = req c -> found c' = found c -> App.db w' = App.db w ->
                 Spec.cleanWrites columns (App.db w')
                   (App.db (snd (App.run stack c' w')))) ->
  Spec.cleanWrites columns (App.db w)
    (App.db (snd (App.run (App.limit l :: stack) c w))).
Proof.
  intros Hs. cbn [App.run]. unfold App.limit, RateLimit.rateLimit.
  destruct (_ <? _)%Z; cbn [fst snd].
  - destruct l; apply cleanWrites_refl.
  - match goal with |- context [App.run stack ?c' ?w'] =>
      specialize (Hs c' w' eq_refl eq_refl) end.
    destruct l; apply Hs; reflexivity.
Qed.

(** What the router needs of a request for its writes to be clean: the
    keys of the body are distinct, and the email, which no rule escapes,
    is clean when it comes. *)
Lemma user_rules_clean (c c_end : Ctx) :
  (In "email" columns -> Spec.cleanValue (Spec.bodyField c "email")) ->
  Spec.through Validators.userChains c = Some c_end ->
  Spec.textClean columns c_end.
Proof.
  intros Hmail Ht name Hin. destruct (known name Hin) as [Htext|[-> Hnorm]].
  - destruct (userChains_settle name Htext) as [Hall Hex].
    apply (through_settled name _ c c_end Hall Ht). now right.
  - apply (through_carried "email" _ c c_end (userChains_carry Hnorm) Ht).
    exact (Hmail Hin).
Qed.

Lemma update_rules_clean (c c_end : Ctx) :
  (In "email" columns -> Spec.cleanValue (Spec.bodyField c "email")) ->
  Spec.through Validators.updateChains c = Some c_end ->
  Spec.textClean columns c_end.
Proof.
  intros Hmail Ht name Hin. destruct (known name Hin) as [Htext|[-> Hnorm]].
  - destruct (updateChains_settle name Htext) as [Hall Hex].
    apply (through_settled name _ c c_end Hall Ht). now right.
  - apply (through_carried "email" _ c c_end (updateChains_carry Hnorm) Ht).
    exact (Hmail Hin).
Qed.

(** What the stages behind the sanitizer keep of a request: the keys of
    the body are distinct, and the email is clean when it is among the
    columns looked at. *)
Lemma router_clean (below : list string) (c : Ctx) (w : App.World) :
  Spec.distinctKeys c ->
  (In "email" columns -> Spec.cleanValue (Spec.bodyField c "email")) ->
  Spec.cleanWrites columns (App.db w) (App.db (snd (App.usersRouter below c w))).
Proof.
  intros Hd Hmail.
  destruct rule_sets_are_stacks as (Hid & Huser & Hupd).
  destruct rule_chains_tame as (Tid & Tuser & Tupd).
  assert (Hwrap : forall stack c0,
            Spec.cleanWrites columns (App.db w) (App.db (snd (App.run stack c0 w))) ->
            Spec.cleanWrites columns (App.db w)
              (App.db (snd (match App.run stack c0 w with
                            | (Next _, w') => (Next c, w')
                            | stop => stop
                            end)))).
  { intros stack c0 Hc. destruct (App.run stack c0 w) as [[c1|resp|c1 e] w1]; exact Hc. }
  assert (Hbound : forall id c',
            req c' = req (App.bind_id c id) ->
            Spec.bodyField c' "email" = Spec.bodyField c "email"
            /\ Spec.distinctKeys c').
  { intros id c' Hr. split.
    - unfold Spec.bodyField. now rewrite Hr.
    - apply (distinctKeys_same c); [now rewrite Hr | exact Hd]. }
  assert (Hafter : forall c1 c2,
            Spec.through Validators.idChains c1 = Some c2 ->
            Spec.bodyField c2 "email" = Spec.bodyField c1 "email").
  { intros c1 c2. apply through_spared, idChains_spare. }
  unfold App.usersRouter, App.route.
  destruct (App.target below) as [[|segment]|]; [| |apply cleanWrites_refl].
  - destruct (method (req c)); cbn [App.collectionStack];
      try apply cleanWrites_refl; apply Hwrap.
    + (* GET / *)
      cbn [App.run]. unfold App.handler.
      pose proof (getAll_clean c (App.db w)) as Hc.
      destruct (Users.getAll c (App.db w)). exact Hc.
    + (* HEAD / *)
      cbn [App.run]. unfold App.handler.
      pose proof (getAll_clean c (App.db w)) as Hc.
      destruct (Users.getAll c (App.db w)). exact Hc.
    + (* POST / *)
      apply limited_clean. intros c' w' Hr Hf Hw. rewrite Huser.
      apply guarded_handler_clean. intros c_end d Ht.
      apply create_clean. apply (user_rules_clean c' c_end); [|exact Ht].
      intros Hin. unfold Spec.bodyField. rewrite Hr. exact (Hmail Hin).
  - destruct (decodeParam segment) as [id|]; [|apply cleanWrites_refl].
    destruct (method (req c)); cbn [App.itemStack];
      try apply cleanWrites_refl; apply Hwrap.
    + (* GET /:id *)
      rewrite Hid. apply guarded_handler_clean. intros c_end d _. apply getOne_clean.
    + (* HEAD /:id *)
      rewrite Hid. apply guarded_handler_clean. intros c_end d _. apply getOne_clean.
    + (* PUT /:id *)
      apply limited_clean. intros c' w' Hr Hf Hw. rewrite Hid, Huser.
      apply guarded_twice_clean. intros c1 c_end d Ht1 Ht.
      apply replace_clean. apply (user_rules_clean c1 c_end); [|exact Ht].
      intros Hin. rewrite (Hafter c' c1 Ht1), (proj1 (Hbound id c' Hr)).
      exact (Hmail Hin).
    + (* PATCH /:id *)
      apply limited_clean. intros c' w' Hr Hf Hw. rewrite Hid, Hupd.
      apply guarded_twice_clean. intros c1 c_end d Ht1 Ht2.
      apply patch_clean.
      * apply (update_rules_clean c1 c_end); [|exact Ht2].
        intros Hin. rewrite (Hafter c' c1 Ht1), (proj1 (Hbound id c' Hr)).
        exact (Hmail Hin).
      * apply (through_keys _ c1 c_end Tupd Ht2).
        apply (through_keys _ c' c1 Tid Ht1).
        exact (proj2 (Hbound id c' Hr)).
    + (* DELETE /:id *)
      apply limited_clean. intros c' w' Hr Hf Hw. rewrite Hid.
      apply guarded_handler_clean. intros c_end d _. apply remove_clean.
Qed.

Lemma limit_keeps (l : App.Limiter) (c : Ctx) (w : App.World) :
  Spec.cleanWrites columns (App.db w) (App.db (snd (App.limit l c w)))
  /\ forall c', fst (App.limit l c w) = Next c' -> req c' = req c.
Proof.
  unfold App.limit, RateLimit.rateLimit.
  destruct (_ <? _)%Z; cbn [fst snd].
  - split; [destruct l; apply cleanWrites_refl | intros c' Hn; discriminate Hn].
  - split; [destruct l; apply cleanWrites_refl|].
    now intros c' [= <-].
Qed.

Lemma router_keeps (below : list string) (c : Ctx) (w : App.World) :
  forall c', fst (App.usersRouter below c w) = Next c' -> c' = c.
Proof.
  unfold App.usersRouter.
  destruct (App.route (method (req c)) below c) as [|e|stack c0]; cbn [fst].
  - now intros c' [= <-].
  - intros c' Hn. discriminate Hn.
  - destruct (App.run stack c0 w) as [[c1|resp|c1 e] w1]; cbn [fst];
      intros c' Hn; [now injection Hn as <- | discriminate Hn | discriminate Hn].
Qed.

End Columns.

Lemma mountUsers_cases `{Externals} (c : Ctx) (w : App.World) :
  App.mountUsers c w = (Next c, w)
  \/ exists below,
       App.mountUsers c w = App.run [App.limit App.Api; App.usersRouter below] c w.
Proof.
  unfold App.mountUsers.
  destruct (App.mounted (path (req c))) as [below|]; [right; now exists below | now left].
Qed.

Lemma health_cases `{Externals} (c : Ctx) (w : App.World) :
  App.health c w = (Next c, w) \/ exists resp, App.health c w = (Send resp, w).
Proof.
  unfold App.health.
  destruct (_ && _); [right; eexists; reflexivity | now left].
Qed.

Section Service.

Context `{Externals}.

Variable columns : list string.

Hypothesis known :
  forall name, In name columns ->
    In name Spec.textColumns \/ (name = "email" /\ Spec.addsNoMarkup normalizeEmail).

Lemma behind_keeps :
  Forall (fun m : App.Middleware => forall c w,
            Spec.distinctKeys c
            /\ (In "email" columns -> Spec.cleanValue (Spec.bodyField c "email")) ->
            Spec.cleanWrites columns (App.db w) (App.db (snd (m c w)))
            /\ forall c', fst (m c w) = Next c' ->
                 Spec.distinctKeys c'
                 /\ (In "email" columns ->
                     Spec.cleanValue (Spec.bodyField c' "email")))
    (App.pure Sql.sqlInjectionProtection :: App.behind).
Proof.
  assert (Hsame : forall c c' : Ctx,
            req c' = req c ->
            Spec.distinctKeys c
            /\ (In "email" columns -> Spec.cleanValue (Spec.bodyField c "email")) ->
            Spec.distinctKeys c'
            /\ (In "email" columns -> Spec.cleanValue (Spec.bodyField c' "email"))).
  { intros c c' Hr [Hd Hmail]. split.
    - apply (distinctKeys_same c); [now rewrite Hr | exact Hd].
    - intros Hin. unfold Spec.bodyField. rewrite Hr. exact (Hmail Hin). }
  assert (Hstay : forall c w,
            Spec.distinctKeys c
            /\ (In "email" columns -> Spec.cleanValue (Spec.bodyField c "email")) ->
            Spec.cleanWrites columns (App.db w) (App.db (snd (Next c, w)))
            /\ forall c', fst (Next c, w) = Next c' ->
                 Spec.distinctKeys c'
                 /\ (In "email" columns ->
                     Spec.cleanValue (Spec.bodyField c' "email"))).
  { intros c w Hi. split; [apply cleanWrites_refl|]. now intros c' [= <-]. }
  assert (Hstop : forall (step : Step) w,
            (forall c', step <> Next c') ->
            Spec.cleanWrites columns (App.db w) (App.db (snd (step, w)))
            /\ forall c', fst (step, w) = Next c' ->
                 Spec.distinctKeys c'
                 /\ (In "email" columns ->
                     Spec.cleanValue (Spec.bodyField c' "email"))).
  { intros step w Hno. split; [apply cleanWrites_refl|].
    intros c' Hn. now elim (Hno c'). }
  unfold App.behind. repeat apply Forall_cons_2; [| | | | |apply Forall_nil_2].
  - intros c w Hi. change (App.pure Sql.sqlInjectionProtection c w)
      with (Sql.sqlInjectionProtection c, w). unfold Sql.sqlInjectionProtection.
    destruct (Sql.firstViolation _); [now apply Hstay | |];
      apply Hstop; intros c'; discriminate.
  - intros c w Hi. destruct (limit_keeps columns App.General c w) as [Hw Hr].
    split; [exact Hw|]. intros c' Hn. exact (Hsame c c' (Hr c' Hn) Hi).
  - intros c w Hi. destruct (mountUsers_cases c w) as [ -> |[below ->]];
      [now apply Hstay|].
    cbn [App.run]. destruct (limit_keeps columns App.Api c w) as [Hw Hr].
    destruct (App.limit App.Api c w) as [[c1|resp|c1 e] w1]; cbn [fst snd] in *;
      [|split; [exact Hw | intros c' Hn; discriminate Hn]..].
    destruct (Hsame c c1 (Hr c1 eq_refl) Hi) as [Hd1 Hmail1].
    pose proof (router_clean columns known below c1 w1 Hd1 Hmail1) as Hrc.
    pose proof (router_keeps below c1 w1) as Hrk.
    destruct (App.usersRouter below c1 w1) as [[c2|resp|c2 e] w2]; cbn [fst snd] in *.
    + split; [exact (cleanWrites_trans columns _ _ _ Hw Hrc)|].
      intros c' [= <-]. rewrite (Hrk c2 eq_refl). now split.
    + split; [exact (cleanWrites_trans columns _ _ _ Hw Hrc)|].
      intros c' Hn. discriminate Hn.
    + split; [exact (cleanWrites_trans columns _ _ _ Hw Hrc)|].
      intros c' Hn. discriminate Hn.
  - intros c w Hi. destruct (health_cases c w) as [ -> |[resp ->]];
      [now apply Hstay | apply Hstop; intros c'; discriminate].
  - intros c w Hi. unfold App.notFound. apply Hstop; intros c'; discriminate.
Qed.

Lemma app_clean (r : Req) (w : App.World) :
  (forall c, fst (App.run App.ahead (App.arrival r) w) = Next c ->
             Spec.distinctKeys c
             /\ (In "email" columns -> Spec.cleanValue (Spec.bodyField c "email"))) ->
  Spec.cleanWrites columns (App.db w) (App.db (snd (App.app r w))).
Proof.
  intros Hi. unfold App.app, App.stages. rewrite snd_finish, run_app.
  pose proof (run_stateless App.ahead (App.arrival r) w ahead_stateless) as Hw.
  destruct (App.run App.ahead (App.arrival r) w) as [[c|resp|c e] w0];
    cbn [fst snd] in *; subst w0; try apply cleanWrites_refl.
  exact (proj1 (run_keeps
           (fun c => Spec.distinctKeys c
                     /\ (In "email" columns ->
                         Spec.cleanValue (Spec.bodyField c "email")))
           (fun w1 w2 => Spec.cleanWrites columns (App.db w1) (App.db w2))
           (App.pure Sql.sqlInjectionProtection :: App.behind)
           (fun w0 => cleanWrites_refl columns (App.db w0))
           (fun w1 w2 w3 => cleanWrites_trans columns (App.db w1) (App.db w2) (App.db w3))
           behind_keeps c w (Hi c eq_refl))).
Qed.

End Service.

(** ** The stand-in of the sample runs *)

Lemma starts_head (p s : list ascii) (c : ascii) :
  Text.starts Ascii.eqb (c :: p) s = true -> exists s', s = c :: s'.
Proof.
  destruct s as [|b s]; simpl; [discriminate|].
  intros [Hb _]%andb_prop. apply Ascii.eqb_eq in Hb. subst. eauto.
Qed.

Lemma occurs_head (p s : list ascii) (c : ascii) :
  Text.occurs (c :: p) s = true -> In c s.
Proof.
  induction s as [|b s IH].
  - simpl. discriminate.
  - cbn [Text.occurs]. intros [Hs|Hr]%orb_prop.
    + apply starts_head in Hs as [s' [= -> _]]. now left.
    + right. now apply IH.
Qed.

Lemma noBracket_contains (p : string) (s : string) :
  Spec.noBracket (Text.chars s) -> Text.contains (String "<" p) s = false.
Proof.
  intros Hs. apply not_true_is_false. intros Hocc.
  unfold Text.contains in Hocc. cbn [Text.chars String.list_ascii_of_string] in Hocc.
  exact (Hs (occurs_head _ _ _ Hocc)).
Qed.

Lemma contains_noBracket (s : string) :
  Text.contains "<" s = false -> Spec.noBracket (Text.chars s).
Proof.
  unfold Text.contains, Spec.noBracket.
  change (Text.chars "<") with ["<"%char].
  induction (Text.chars s) as [|c l IH]; [intros _ []|].
  cbn [Text.occurs Text.starts]. rewrite andb_true_r.
  intros [Hc Hl]%orb_false_elim [Heq|Hin].
  - subst c. discriminate Hc.
  - exact (IH Hl Hin).
Qed.

Lemma strip_no_bracket (m : Sample.Mode) (s : list ascii) :
  Spec.noBracket (Sample.strip m s).
Proof.
  revert m. induction s as [|c s IH]; intros m; cbn [Sample.strip]; [intros []|].
  destruct m as [|script|].
  - destruct (Ascii.eqb c "<") eqn:Hc.
    + destruct (Sample.opens_tag s); [apply IH|].
      apply noBracket_app; [now apply noBracket_checked | apply IH].
    + destruct (Ascii.eqb c ">");
        [apply noBracket_app; [now apply noBracket_checked | apply IH]|].
      destruct (Ascii.eqb c "&");
        [apply noBracket_app; [now apply noBracket_checked | apply IH]|].
      intros [Heq|Hin]; [|exact (IH _ Hin)].
      subst c. discriminate Hc.
  - destruct (Ascii.eqb c ">"); apply IH.
  - destruct (Sample.closes_script _); apply IH.
Qed.

Lemma sample_strips : Spec.stripsMarkup Sample.sanitize.
Proof.
  intros s. unfold Sample.sanitize. destruct (Text.contains "<" s) eqn:Hc.
  - rewrite chars_text. apply strip_no_bracket.
  - now apply contains_noBracket.
Qed.

Lemma sample_keeps : Spec.keepsText Sample.sanitize.
Proof.
  intros s Hs. unfold Sample.sanitize.
  now rewrite (noBracket_contains "" s Hs).
Qed.


(** * Further properties of the code *)

(** ** The handlers of routes/users.js on the table *)

Lemma select_by_id (id : value) t (d : Store.Db) :
  Store.query Store.SelectById [id] t d
  = (Store.Rows (Table.lookup id d),
     {| Store.rows := Store.rows d; Store.next_id := Store.next_id d;
        Store.journal := Store.journal d ++ [(Store.SelectById, [id])] |}).
Proof. reflexivity. Qed.

Lemma lookup_same_rows (id : value) (d d' : Store.Db) :
  Store.rows d' = Store.rows d -> Table.lookup id d' = Table.lookup id d.
Proof. unfold Table.lookup. now intros ->. Qed.

(** X1. The handlers of the routes on one user, on a request that has
    come to them, the limiter and the rule sets of the route having let
    it through: when no row has the id of the request, the handlers of
    GET /:id, PATCH /:id and DELETE /:id answer 404 with the error
    [User not found] and the message [No user found with ID: <id>], and
    leave the rows as they are; the handler of PUT /:id does the same
    whenever the request has a body to read the fields from. *)
Theorem unknown_id_not_found (c : Ctx) (d : Store.Db) :
  Table.lookup (Users.paramId c) d = [] ->
  (fst (Users.getOne c d) = Users.notFound c (Users.paramId c)
   /\ Store.rows (snd (Users.getOne c d)) = Store.rows d)
  /\ (fst (Users.patch c d) = Users.notFound c (Users.paramId c)
      /\ Store.rows (snd (Users.patch c d)) = Store.rows d)
  /\ (fst (Users.remove c d) = Users.notFound c (Users.paramId c)
      /\ Store.rows (snd (Users.remove c d)) = Store.rows d)
  /\ (Store.nullish (body (req c)) = false ->
      fst (Users.replace c d) = Users.notFound c (Users.paramId c)
      /\ Store.rows (snd (Users.replace c d)) = Store.rows d)
  /\ status (Users.notFound c (Users.paramId c)) = 404%nat
  /\ payload (Users.notFound c (Users.paramId c))
     = VObj [("error", VStr "User not found");
             ("message", VStr ("No user found with ID: "
                               +:+ Conv.String_ (Users.paramId c)))].
Proof.
  intros Hno.
  split; [|split; [|split; [|split; [|split]]]]; try reflexivity.
  - unfold Users.getOne. rewrite select_by_id, Hno. split; reflexivity.
  - unfold Users.patch. rewrite select_by_id, Hno. split; reflexivity.
  - unfold Users.remove. rewrite select_by_id, Hno. split; reflexivity.
  - intros Hb. unfold Users.replace.
    assert (Hf : exists vals, Users.fields (body (req c)) = Some vals).
    { unfold Users.fields. destruct (body (req c)); try discriminate Hb; eauto. }
    destruct Hf as [vals ->]. rewrite select_by_id, Hno. split; reflexivity.
Qed.

Lemma unknown_id_not_found_witness :
  fst (Users.getOne (Examples.byId 7 VUndefined) Examples.one)
  = Users.notFound (Examples.byId 7 VUndefined) (VNum 7).
Proof.
  assert (H1 : Table.lookup (Users.paramId (Examples.byId 7 VUndefined)) Examples.one = [])
    by (vm_compute; reflexivity).
  exact (proj1 (proj1 (unknown_id_not_found _ _ H1))).
Defined.

Lemma lookup_after_delete (id : value) (l : list Store.Row) :
  List.filter (Table.hasId id)
    (List.filter (fun r => negb (Store.same (Store.column r "id") id)) l) = [].
Proof.
  induction l as [|r l IH]; [reflexivity|]. cbn [List.filter].
  destruct (Store.same (Store.column r "id") id) eqn:Hs; cbn [negb]; [exact IH|].
  cbn [List.filter]. unfold Table.hasId at 1. rewrite Hs. exact IH.
Qed.

Lemma remove_existing (c : Ctx) (d : Store.Db) :
  Table.lookup (Users.paramId c) d <> [] ->
  Users.remove c d
  = (Users.ok c (VObj [("success", VBool true);
                       ("message", VStr "User deleted successfully")]),
     {| Store.rows :=
          List.filter (fun r => negb (Store.same (Store.column r "id") (Users.paramId c)))
                      (Store.rows d);
        Store.next_id := Store.next_id d;
        Store.journal := (Store.journal d ++ [(Store.SelectById, [Users.paramId c])])
                         ++ [(Store.DeleteById, [Users.paramId c])] |}).
Proof.
  intros Hsome. unfold Users.remove. rewrite select_by_id.
  destruct (Table.lookup (Users.paramId c) d) as [|r0 l0]; [contradiction|].
  reflexivity.
Qed.

(** X2. The handler of DELETE /:id, on a request that has come to it
    with an id that a row has, answers 200 with
    [User deleted successfully]; the table afterwards holds exactly the rows
    with another id, in their order, the sequence of ids is not moved, no
    row has the id any more, and the handler of GET /:id, given the same
    id afterwards, answers [User not found]. *)
Theorem delete_removes_the_row (c : Ctx) (d : Store.Db) :
  Table.lookup (Users.paramId c) d <> [] ->
  fst (Users.remove c d)
  = Users.ok c (VObj [("success", VBool true);
                      ("message", VStr "User deleted successfully")])
  /\ Store.rows (snd (Users.remove c d))
     = List.filter (fun r => negb (Table.hasId (Users.paramId c) r)) (Store.rows d)
  /\ (forall r, In r (Store.rows d) -> Table.hasId (Users.paramId c) r = false ->
                In r (Store.rows (snd (Users.remove c d))))
  /\ Store.next_id (snd (Users.remove c d)) = Store.next_id d
  /\ Table.lookup (Users.paramId c) (snd (Users.remove c d)) = []
  /\ fst (Users.getOne c (snd (Users.remove c d)))
     = Users.notFound c (Users.paramId c).
Proof.
  intros Hsome. rewrite (remove_existing c d Hsome). cbn [fst snd Store.rows Store.next_id].
  assert (Hgone : forall j,
            Table.lookup (Users.paramId c)
              {| Store.rows :=
                   List.filter (fun r => negb (Store.same (Store.column r "id")
                                                 (Users.paramId c))) (Store.rows d);
                 Store.next_id := Store.next_id d; Store.journal := j |} = []).
  { intros j. unfold Table.lookup. cbn [Store.rows]. apply lookup_after_delete. }
  split; [reflexivity|]. split; [reflexivity|]. split.
  { intros r Hin Hr. apply filter_In. split; [exact Hin|].
    unfold Table.hasId in Hr. now rewrite Hr. }
  split; [reflexivity|]. split; [apply Hgone|].
  unfold Users.getOne. rewrite select_by_id, Hgone. reflexivity.
Qed.

Lemma delete_removes_the_row_witness :
  Table.lookup (VNum 1) (snd (Users.remove (Examples.byId 1 VUndefined) Examples.one)) = [].
Proof.
  assert (H1 : Table.lookup (Users.paramId (Examples.byId 1 VUndefined)) Examples.one <> [])
    by (vm_compute; discriminate).
  exact (proj1 (proj2 (proj2 (proj2 (proj2 (delete_removes_the_row _ _ H1)))))).
Defined.

Lemma fields_six (b : value) (vals : list value) :
  Users.fields b = Some vals ->
  vals = [Store.param vals 1; Store.param vals 2; Store.param vals 3;
          Store.param vals 4; Store.param vals 5; Store.param vals 6].
Proof.
  unfold Users.fields. destruct b; intros [= <-]; reflexivity.
Qed.

(** X3. The handler of POST /, on a request that has come to it with a
    body whose email a row already has, answers 409
    [Email already exists]; the rows and the sequence of ids are unchanged
    and the only statement sent to the database is the SELECT by email: no
    INSERT is tried. *)
Theorem create_duplicate_email (c : Ctx) (d : Store.Db) (vals : list value) :
  Users.fields (body (req c)) = Some vals ->
  existsb (fun r => Store.same (Store.column r "email") (Store.param vals 2))
          (Store.rows d) = true ->
  fst (Users.create c d)
  = json c 409 (VObj [("error", VStr "Email already exists");
                      ("message",
                       VStr "A user with this email address already exists")])
  /\ Store.rows (snd (Users.create c d)) = Store.rows d
  /\ Store.next_id (snd (Users.create c d)) = Store.next_id d
  /\ Store.journal (snd (Users.create c d))
     = Store.journal d ++ [(Store.SelectIdByEmail, [Store.param vals 2])].
Proof.
  intros Hf Htaken. unfold Users.create. rewrite Hf.
  cbn [Store.query Store.execute].
  change (Store.param [Store.param vals 2] 1) with (Store.param vals 2).
  apply existsb_exists in Htaken as (r & Hin & Hr).
  destruct (List.filter _ (Store.rows d)) as [|r0 l0] eqn:Hfil.
  - exfalso. assert (Hin' : In r []); [|destruct Hin'].
    rewrite <- Hfil. apply filter_In. now split.
  - cbn [map]. repeat split; reflexivity.
Qed.

Lemma create_duplicate_email_witness :
  status (fst (Users.create
                 (Examples.posted (Sample.person "Dan Cohen" "dana@example.com"))
                 Examples.one)) = 409%nat.
Proof.
  assert (H1 : Users.fields
                 (body (req (Examples.posted
                               (Sample.person "Dan Cohen" "dana@example.com"))))
               = Some (Examples.fieldsOf "Dan Cohen" "dana@example.com"))
    by reflexivity.
  assert (H2 : existsb (fun r => Store.same (Store.column r "email")
                                   (Store.param (Examples.fieldsOf "Dan Cohen"
                                                   "dana@example.com") 2))
                       (Store.rows Examples.one) = true)
    by (vm_compute; reflexivity).
  exact (f_equal status (proj1 (create_duplicate_email _ _ _ H1 H2))).
Defined.

Lemma same_numbers (a b : Z) : Store.same (VNum a) (VNum b) = bool_decide (a = b).
Proof.
  unfold Store.same. cbn [Store.nullish negb andb Conv.String_].
  destruct (String.eqb_spec (pretty a) (pretty b)) as [He|Hne].
  - apply (inj pretty) in He. subst. now rewrite bool_decide_eq_true_2.
  - rewrite bool_decide_eq_false_2; [reflexivity|]. intros ->. now apply Hne.
Qed.

Lemma lookup_fresh_id (d : Store.Db) :
  Table.keyed d ->
  List.filter (Table.hasId (VNum (Store.next_id d))) (Store.rows d) = [].
Proof.
  unfold Table.keyed. induction (Store.rows d) as [|r l IH]; intros Hk; [reflexivity|].
  cbn [List.filter]. destruct (Hk r (or_introl eq_refl)) as (k & Hid & Hlt).
  unfold Table.hasId at 1. rewrite Hid, same_numbers, bool_decide_eq_false_2 by lia.
  apply IH. intros r' Hin. apply Hk. now right.
Qed.

Lemma filter_app_list {A} (f : A -> bool) (l1 l2 : list A) :
  List.filter f (l1 ++ l2) = List.filter f l1 ++ List.filter f l2.
Proof.
  induction l1 as [|x l1 IH]; [reflexivity|]. cbn [app List.filter].
  destruct (f x); [cbn [app]; now rewrite IH | exact IH].
Qed.

(** X4. The handler of POST /, on a request that has come to it with a
    body whose six fields are present and whose email no row has, answers
    201 with the new row as [data]; the row is appended with the next id
    of the sequence, the sequence moves by one, and the handler of
    GET /:id, given that id afterwards, answers with the same row. *)
Theorem create_then_get (c : Ctx) (d : Store.Db) (vals : list value) :
  Table.keyed d ->
  Users.fields (body (req c)) = Some vals ->
  forallb (fun v => negb (Store.nullish v)) vals = true ->
  existsb (fun r => Store.same (Store.column r "email") (Store.param vals 2))
          (Store.rows d) = false ->
  fst (Users.create c d)
  = json c 201 (VObj [("success", VBool true);
                      ("message", VStr "User created successfully");
                      ("data", VObj (Store.newRow (Store.next_id d) (now (req c)) vals))])
  /\ Store.rows (snd (Users.create c d))
     = Store.rows d ++ [Store.newRow (Store.next_id d) (now (req c)) vals]
  /\ Store.next_id (snd (Users.create c d)) = Store.next_id d + 1
  /\ Table.keyed (snd (Users.create c d))
  /\ (forall g : Ctx,
        Users.paramId g = VNum (Store.next_id d) ->
        fst (Users.getOne g (snd (Users.create c d)))
        = Users.ok g (VObj [("success", VBool true);
                            ("data", VObj (Store.newRow (Store.next_id d)
                                             (now (req c)) vals))])).
Proof.
  intros Hkeyed Hf Hfull Hfree.
  assert (Hc : Users.create c d
               = (json c 201
                    (VObj [("success", VBool true);
                           ("message", VStr "User created successfully");
                           ("data", VObj (Store.newRow (Store.next_id d)
                                            (now (req c)) vals))]),
                  {| Store.rows := Store.rows d
                                   ++ [Store.newRow (Store.next_id d) (now (req c)) vals];
                     Store.next_id := Store.next_id d + 1;
                     Store.journal :=
                       (Store.journal d
                        ++ [(Store.SelectIdByEmail, [Store.param vals 2])])
                       ++ [(Store.InsertUser, vals)] |})).
  { unfold Users.create. rewrite Hf. cbn [Store.query Store.execute].
    change (Store.param [Store.param vals 2] 1) with (Store.param vals 2).
    assert (Hnone : List.filter
                      (fun r => Store.same (Store.column r "email") (Store.param vals 2))
                      (Store.rows d) = []).
    { revert Hfree. induction (Store.rows d) as [|r l IH]; [reflexivity|].
      cbn [existsb List.filter]. intros Hor. apply orb_false_iff in Hor as [Hr Hl].
      rewrite Hr. now apply IH. }
    rewrite Hnone. cbn [map]. unfold Store.query, Store.execute.
    cbn [Store.rows Store.next_id Store.journal].
    assert (Hpresent : existsb (fun i => Store.nullish (Store.param vals i)) (seq 1 6)
                       = false).
    { rewrite (fields_six _ _ Hf) in Hfull. cbn [forallb] in Hfull.
      repeat (apply andb_true_iff in Hfull as [?%negb_true_iff Hfull]).
      cbn [seq existsb]. repeat (apply orb_false_iff; split; [assumption|]).
      reflexivity. }
    rewrite Hpresent, Hfree. reflexivity. }
  rewrite Hc. cbn [fst snd Store.rows Store.next_id].
  split; [reflexivity|]. split; [reflexivity|]. split; [reflexivity|]. split.
  - intros r Hin. cbn [Store.rows Store.next_id] in *.
    apply in_app_or in Hin as [Hin|[<-|[]]].
    + destruct (Hkeyed r Hin) as (k & Hid & Hlt). exists k. split; [exact Hid | lia].
    + exists (Store.next_id d). split; [reflexivity | lia].
  - intros g Hg. unfold Users.getOne. rewrite select_by_id, Hg.
    unfold Table.lookup. cbn [Store.rows].
    rewrite filter_app_list, (lookup_fresh_id d Hkeyed). cbn [app List.filter].
    unfold Table.hasId, Store.newRow, Store.column. cbn [Js.get String.eqb Ascii.eqb Bool.eqb].
    rewrite same_numbers, bool_decide_eq_true_2 by reflexivity. reflexivity.
Qed.

Lemma keyed_one : Table.keyed Examples.one.
Proof.
  assert (Hall : forallb (fun r => match Store.column r "id" with
                                   | VNum k => k <? Store.next_id Examples.one
                                   | _ => false
                                   end) (Store.rows Examples.one) = true)
    by (vm_compute; reflexivity).
  intros r Hin. rewrite forallb_forall in Hall. specialize (Hall r Hin).
  destruct (Store.column r "id") as [| | |k| | | |]; try discriminate Hall.
  exists k. split; [reflexivity | now apply Z.ltb_lt].
Qed.

Lemma create_then_get_witness :
  Store.next_id (snd (Users.create
                        (Examples.posted (Sample.person "Noa Peretz" "noa@example.com"))
                        Examples.one)) = 3.
Proof.
  assert (H1 : Users.fields
                 (body (req (Examples.posted
                               (Sample.person "Noa Peretz" "noa@example.com"))))
               = Some (Examples.fieldsOf "Noa Peretz" "noa@example.com"))
    by reflexivity.
  assert (H2 : forallb (fun v => negb (Store.nullish v))
                 (Examples.fieldsOf "Noa Peretz" "noa@example.com") = true)
    by reflexivity.
  assert (H3 : existsb (fun r => Store.same (Store.column r "email")
                                   (Store.param (Examples.fieldsOf "Noa Peretz"
                                                   "noa@example.com") 2))
                       (Store.rows Examples.one) = false)
    by (vm_compute; reflexivity).
  exact (proj1 (proj2 (proj2 (create_then_get _ _ _ keyed_one H1 H2 H3)))).
Defined.

(** *** Updates *)

Lemma applyClauses_other (col : string) (clauses : list Store.Clause) values t
    (r : Store.Row) :
  col <> "updated_at" ->
  (forall p, ~ In (Store.Assign col p) clauses) ->
  Store.column (Store.applyClauses clauses values t r) col = Store.column r col.
Proof.
  unfold Store.applyClauses. intros Hstamp. revert r.
  induction clauses as [|cl l IH]; intros r Hno; cbn [fold_left]; [reflexivity|].
  rewrite IH by (intros p Hin; apply (Hno p); now right).
  destruct cl as [column p|]; cbn [Store.applyClause]; unfold Store.column;
    apply get_assign_other.
  - intros ->. apply (Hno p). now left.
  - intros Heq. now apply Hstamp.
Qed.

Section Addressed.

Variable id : value.
Variable protected : string -> Prop.

Lemma addressed_refl (d d' : Store.Db) :
  Store.rows d' = Store.rows d -> Store.next_id d' = Store.next_id d ->
  Table.addressed id protected d d'.
Proof.
  intros Hr Hn. split; [exact Hn|]. split; [now rewrite Hr|].
  intros i r Hi. exists r. rewrite Hr. repeat split; auto.
Qed.

Lemma addressed_trans (d1 d2 d3 : Store.Db) :
  Table.addressed id protected d1 d2 -> Table.addressed id protected d2 d3 ->
  Table.addressed id protected d1 d3.
Proof.
  intros (N1 & L1 & R1) (N2 & L2 & R2).
  split; [congruence|]. split; [congruence|].
  intros i r Hi. destruct (R1 i r Hi) as (r1 & Hi1 & P1 & E1).
  destruct (R2 i r1 Hi1) as (r2 & Hi2 & P2 & E2).
  exists r2. split; [exact Hi2|]. split.
  - intros col Hc. rewrite (P2 col Hc). now apply P1.
  - intros Hne. specialize (E1 Hne). subst r1. now apply E2.
Qed.

Lemma addressed_update (clauses : list Store.Clause) (fp : nat) values t
    (d : Store.Db) :
  Store.param values fp = id ->
  (forall col, protected col ->
               col <> "updated_at" /\ forall p, ~ In (Store.Assign col p) clauses) ->
  Table.addressed id protected d
    (snd (Store.query (Store.UpdateFields clauses fp) values t d)).
Proof.
  intros Hkey Hprot. unfold Store.query, Store.execute, Store.runUpdate.
  rewrite Hkey.
  set (table := map (Store.update clauses values t id) (Store.rows d)).
  assert (Ht : Table.addressed id protected d
                 {| Store.rows := table; Store.next_id := Store.next_id d;
                    Store.journal := Store.journal d
                                     ++ [(Store.UpdateFields clauses fp, values)] |}).
  { split; [reflexivity|]. split; [unfold table; cbn; now rewrite length_map|].
    intros i r Hi. exists (Store.update clauses values t id r). cbn [Store.rows].
    split; [unfold table; now rewrite list_lookup_fmap, Hi|].
    unfold Store.update. fold (Table.hasId id r).
    destruct (Table.hasId id r); split; try reflexivity; try discriminate.
    intros col Hc. destruct (Hprot col Hc). now apply applyClauses_other. }
  destruct (existsb _ _); [now apply addressed_refl|].
  destruct (existsb _ _); [now apply addressed_refl | exact Ht].
Qed.

Lemma addressed_full (values : list value) t (d : Store.Db) :
  Store.param values 7 = id ->
  (forall col, protected col -> ~ In col ("updated_at" :: Store.columns)) ->
  Table.addressed id protected d (snd (Store.query Store.UpdateUser values t d)).
Proof.
  intros Hkey Hprot.
  pose proof (addressed_update Store.fullUpdate 7 values t d Hkey) as Hu.
  unfold Store.query, Store.execute in *.
  destruct (Store.runUpdate _ _ _ _ _) as [res table]. apply Hu.
  intros col Hc. specialize (Hprot col Hc). split.
  - intros ->. apply Hprot. now left.
  - intros p Hin. apply Hprot. right. unfold Store.fullUpdate in Hin. cbn in Hin.
    unfold Store.columns. cbn.
    repeat (destruct Hin as [Hin|Hin]; [injection Hin as <- _; tauto|]).
    destruct Hin as [Hin|[]]. discriminate Hin.
Qed.

Lemma addressed_select (s : Store.Statement) values t (d : Store.Db) :
  match s with
  | Store.SelectAll | Store.SelectById | Store.SelectIdByEmail
  | Store.SelectIdByEmailOther => True
  | _ => False
  end ->
  Table.addressed id protected d (snd (Store.query s values t d)).
Proof. destruct s; intros []; now apply addressed_refl. Qed.

End Addressed.

Lemma built_update_key (updates id : value) clauses fp values :
  Users.buildUpdate updates id = Some (clauses, fp, values) ->
  Store.param values fp = id
  /\ forall col p, In (Store.Assign col p) clauses ->
                   In col (map fst (Spec.recognized updates)).
Proof.
  rewrite buildUpdate_spec. intros Hb.
  destruct (Spec.recognized updates) as [|kv0 kept0] eqn:Hrec; [discriminate|].
  rewrite <- Hrec in *. injection Hb as <- <- <-. split.
  - unfold Store.param. cbn [Nat.sub]. rewrite Nat.sub_0_r.
    rewrite lookup_app_r by now rewrite length_map.
    now rewrite length_map, Nat.sub_diag.
  - intros col p Hin. apply in_app_or in Hin as [Hin|[Hin|[]]]; [|discriminate].
    apply list_elem_of_In, list_elem_of_lookup in Hin as [i Hi].
    rewrite list_lookup_imap in Hi.
    destruct (Spec.recognized updates !! i) as [kv|] eqn:Hkv; [|discriminate].
    injection Hi as <- _. apply in_map, list_elem_of_In, list_elem_of_lookup. eauto.
Qed.

Section Updates.

Variable c : Ctx.

Lemma replace_addressed (d : Store.Db) :
  Table.addressed (Users.paramId c) (fun col => ~ In col ("updated_at" :: Store.columns))
    d (snd (Users.replace c d)).
Proof.
  set (P := fun col => ~ In col ("updated_at" :: Store.columns)).
  unfold Users.replace. set (id := Users.paramId c).
  destruct (Users.fields (body (req c))) as [vals|] eqn:Hf;
    [|now apply addressed_refl].
  pose proof (addressed_select id P Store.SelectById [id] (now (req c)) d I) as H1.
  destruct (Store.query Store.SelectById _ _ d) as [[[|r l]|code] d1];
    cbn [snd] in *; try exact H1.
  pose proof (addressed_select id P Store.SelectIdByEmailOther
                [Store.param vals 2; id] (now (req c)) d1 I) as H2.
  destruct (Store.query Store.SelectIdByEmailOther _ _ d1) as [[[|r2 l2]|code] d2];
    cbn [snd] in *; try exact (addressed_trans id P _ _ _ H1 H2).
  assert (Hkey : Store.param (vals ++ [id]) 7 = id)
    by (rewrite (fields_six _ _ Hf); reflexivity).
  pose proof (addressed_full id P (vals ++ [id]) (now (req c)) d2 Hkey
                (fun col Hc => Hc)) as H3.
  destruct (Store.query Store.UpdateUser _ _ d2) as [[l3|code] d3]; cbn [snd] in *;
    exact (addressed_trans id P _ _ _ (addressed_trans id P _ _ _ H1 H2) H3).
Qed.

Lemma patchBuild_addressed (d : Store.Db) :
  Table.addressed (Users.paramId c)
    (fun col => col <> "updated_at"
                /\ ~ In col (map fst (Spec.recognized (body (req c)))))
    d (snd (Users.patchBuild c (body (req c)) (Users.paramId c) d)).
Proof.
  set (id := Users.paramId c). unfold Users.patchBuild.
  destruct (Users.buildUpdate (body (req c)) id) as [[[clauses fp] values]|] eqn:Hb;
    [|now apply addressed_refl].
  destruct (built_update_key _ _ _ _ _ Hb) as [Hkey Hcols].
  pose proof (addressed_update id
                (fun col => col <> "updated_at"
                            /\ ~ In col (map fst (Spec.recognized (body (req c)))))
                clauses fp values (now (req c)) d Hkey) as Hu.
  destruct (Store.query _ _ _ d) as [[l|code] d1]; cbn [snd] in *; apply Hu;
    intros col [Hs Hno]; (split; [exact Hs|]); intros p Hin; apply Hno;
    exact (Hcols col p Hin).
Qed.

Lemma patch_addressed (d : Store.Db) :
  Table.addressed (Users.paramId c)
    (fun col => col <> "updated_at"
                /\ ~ In col (map fst (Spec.recognized (body (req c)))))
    d (snd (Users.patch c d)).
Proof.
  set (P := fun col => col <> "updated_at"
                       /\ ~ In col (map fst (Spec.recognized (body (req c))))).
  unfold Users.patch. set (id := Users.paramId c).
  pose proof (addressed_select id P Store.SelectById [id] (now (req c)) d I) as H1.
  destruct (Store.query Store.SelectById _ _ d) as [[[|r l]|code] d1];
    cbn [snd] in *; try exact H1.
  destruct (Users.prop (body (req c)) "email") as [email|]; [|exact H1].
  destruct (Js.truthy email).
  - pose proof (addressed_select id P Store.SelectIdByEmailOther
                  [email; id] (now (req c)) d1 I) as H2.
    destruct (Store.query Store.SelectIdByEmailOther _ _ d1) as [[[|r2 l2]|code] d2];
      cbn [snd] in *; try exact (addressed_trans id P _ _ _ H1 H2).
    exact (addressed_trans id P _ _ _ (addressed_trans id P _ _ _ H1 H2)
             (patchBuild_addressed d2)).
  - exact (addressed_trans id P _ _ _ H1 (patchBuild_addressed d1)).
Qed.

End Updates.

(** X5. Whatever PUT /:id and PATCH /:id answer, the sequence of ids
    and the number and order of the rows stay the same, a row with another
    id is untouched, and in no row [id] or [created_at] changes; PUT
    changes at most the six fields and [updated_at], PATCH at most the
    fields the body supplies and [updated_at]. *)
Theorem update_touches_one_row (c : Ctx) (d : Store.Db) :
  Table.addressed (Users.paramId c)
    (fun col => ~ In col ["updated_at"; "name"; "email"; "phone"; "address";
                          "city"; "country"])
    d (snd (Users.replace c d))
  /\ Table.addressed (Users.paramId c)
       (fun col => col <> "updated_at"
                   /\ ~ In col (map fst (Spec.recognized (body (req c)))))
       d (snd (Users.patch c d))
  /\ (forall d', d' = snd (Users.replace c d) \/ d' = snd (Users.patch c d) ->
      forall i r, Store.rows d !! i = Some r ->
        exists r', Store.rows d' !! i = Some r'
          /\ Store.column r' "id" = Store.column r "id"
          /\ Store.column r' "created_at" = Store.column r "created_at"
          /\ (Table.hasId (Users.paramId c) r = false -> r' = r)).
Proof.
  split; [apply replace_addressed|]. split; [apply patch_addressed|].
  intros d' [->| ->] i r Hi.
  - destruct (replace_addressed c d) as (_ & _ & Hrows).
    destruct (Hrows i r Hi) as (r' & Hi' & Hp & He). exists r'.
    split; [exact Hi'|]. split; [|split; [|exact He]]; apply Hp;
      cbn; intros Hin; repeat (destruct Hin as [Hin|Hin]; [discriminate Hin|]);
      exact Hin.
  - destruct (patch_addressed c d) as (_ & _ & Hrows).
    destruct (Hrows i r Hi) as (r' & Hi' & Hp & He). exists r'.
    split; [exact Hi'|].
    assert (Hgen : forall col, col = "id" \/ col = "created_at" ->
               col <> "updated_at"
               /\ ~ In col (map fst (Spec.recognized (body (req c))))).
    { intros col Hcol. split; [destruct Hcol as [->| ->]; discriminate|].
      intros Hin. apply in_map_iff in Hin as (kv & <- & Hkv).
      apply recognized_allowed in Hkv as [Hal _].
      apply allowed_not_generated in Hal as (N1 & N2 & _). tauto. }
    split; [|split; [|exact He]]; apply Hp, Hgen; auto.
Qed.

Lemma applyClause_target values t (r : Store.Row) (cl : Store.Clause) :
  Store.applyClause values t r cl
  = Chain.assign r (Table.target cl) (Table.written values t cl).
Proof. destruct cl; reflexivity. Qed.

Lemma applyClauses_untargeted (col : string) (clauses : list Store.Clause) values t
    (r : Store.Row) :
  ~ In col (map Table.target clauses) ->
  Store.column (Store.applyClauses clauses values t r) col = Store.column r col.
Proof.
  unfold Store.applyClauses. revert r.
  induction clauses as [|cl l IH]; intros r Hno; cbn [fold_left]; [reflexivity|].
  rewrite IH by (intros Hin; apply Hno; now right).
  rewrite applyClause_target. unfold Store.column. apply get_assign_other.
  intros Heq. apply Hno. now left.
Qed.

Lemma applyClauses_written (clauses : list Store.Clause) values t (r : Store.Row)
    (cl : Store.Clause) :
  NoDup (map Table.target clauses) ->
  In cl clauses ->
  Store.column (Store.applyClauses clauses values t r) (Table.target cl)
  = Table.written values t cl.
Proof.
  revert r. induction clauses as [|cl0 l IH]; intros r Hnd Hin; [destruct Hin|].
  cbn [map] in Hnd. apply NoDup_cons in Hnd as [Hfirst Hnd].
  change (Store.applyClauses (cl0 :: l) values t r)
    with (Store.applyClauses l values t (Store.applyClause values t r cl0)).
  destruct Hin as [->|Hin].
  - rewrite applyClauses_untargeted by (now rewrite <- list_elem_of_In).
    rewrite applyClause_target. unfold Store.column. apply get_assign_same.
  - now apply IH.
Qed.

Lemma runUpdate_done (clauses : list Store.Clause) (fp : nat) values t
    (d : Store.Db) (hit table : list Store.Row) :
  Store.runUpdate clauses fp values t d = (Store.Rows hit, table) ->
  table = map (Store.update clauses values t (Store.param values fp)) (Store.rows d)
  /\ hit = List.filter (Table.hasId (Store.param values fp)) table.
Proof.
  unfold Store.runUpdate.
  destruct (existsb _ _); [discriminate|].
  destruct (existsb _ _); [discriminate|].
  intros [= <- <-]. split; reflexivity.
Qed.

Lemma updated_row (clauses : list Store.Clause) values t (key : value)
    (l : list Store.Row) (r' : Store.Row) :
  In r' (map (Store.update clauses values t key) l) ->
  Table.hasId key r' = true ->
  exists r, In r l /\ Table.hasId key r = true
            /\ r' = Store.applyClauses clauses values t r.
Proof.
  intros Hin Hr'. apply in_map_iff in Hin as (r & <- & Hin). exists r.
  split; [exact Hin|]. unfold Store.update in *. fold (Table.hasId key r) in *.
  destruct (Table.hasId key r) eqn:Hr; [split; reflexivity|].
  rewrite Hr in Hr'. discriminate.
Qed.

Lemma query_update_done (clauses : list Store.Clause) (fp : nat) values t
    (d d' : Store.Db) (l : list Store.Row) :
  Store.query (Store.UpdateFields clauses fp) values t d = (Store.Rows l, d') ->
  Store.rows d'
  = map (Store.update clauses values t (Store.param values fp)) (Store.rows d)
  /\ l = Table.lookup (Store.param values fp) d'.
Proof.
  unfold Store.query, Store.execute.
  destruct (Store.runUpdate clauses fp values t d) as [res table] eqn:Hr.
  intros [= -> <-]. apply runUpdate_done in Hr as [-> ->]. split; reflexivity.
Qed.

Lemma query_full_done values t (d d' : Store.Db) (l : list Store.Row) :
  Store.query Store.UpdateUser values t d = (Store.Rows l, d') ->
  Store.rows d'
  = map (Store.update Store.fullUpdate values t (Store.param values 7)) (Store.rows d)
  /\ l = Table.lookup (Store.param values 7) d'.
Proof.
  unfold Store.query, Store.execute.
  destruct (Store.runUpdate Store.fullUpdate 7 values t d) as [res table] eqn:Hr.
  intros [= -> <-]. apply runUpdate_done in Hr as [-> ->]. split; reflexivity.
Qed.

Lemma updateFailure_status (c : Ctx) (code : string) :
  status (Users.updateFailure c code) <> 200%nat.
Proof. unfold Users.updateFailure. destruct (String.eqb code "23505"); discriminate. Qed.

(** X6. When PUT /:id is answered 200, the answer carries
    [User updated successfully] and the row with that id as [data], such a
    row exists, and every row with that id holds the six fields of the body
    and the time of the request as [updated_at]. *)
Theorem full_update_writes_body (c : Ctx) (d : Store.Db) (vals : list value) :
  Users.fields (body (req c)) = Some vals ->
  status (fst (Users.replace c d)) = 200%nat ->
  fst (Users.replace c d)
  = Users.ok c (VObj [("success", VBool true);
                      ("message", VStr "User updated successfully");
                      ("data", Users.first (Table.lookup (Users.paramId c)
                                              (snd (Users.replace c d))))])
  /\ Table.lookup (Users.paramId c) (snd (Users.replace c d)) <> []
  /\ forall r', In r' (Store.rows (snd (Users.replace c d))) ->
                Table.hasId (Users.paramId c) r' = true ->
                map (Store.column r') ["name"; "email"; "phone"; "address"; "city";
                                       "country"] = vals
                /\ Store.column r' "updated_at" = VNum (now (req c)).
Proof.
  intros Hf Hst. unfold Users.replace in *. rewrite Hf in *.
  rewrite select_by_id in *.
  destruct (Table.lookup (Users.paramId c) d) as [|r0 l0] eqn:Hl;
    [discriminate Hst|].
  destruct (Store.query Store.SelectIdByEmailOther _ _ _) as [[[|r2 l2]|code] d2] eqn:Hq2;
    [|discriminate Hst|now apply updateFailure_status in Hst].
  assert (Hrows2 : Store.rows d2 = Store.rows d) by (injection Hq2 as _ <-; reflexivity).
  destruct (Store.query Store.UpdateUser _ _ d2) as [[l3|code] d3] eqn:Hq3;
    [|now apply updateFailure_status in Hst].
  cbn [fst snd] in *.
  assert (Hkey : Store.param (vals ++ [Users.paramId c]) 7 = Users.paramId c)
    by (rewrite (fields_six _ _ Hf); reflexivity).
  apply query_full_done in Hq3 as [Hrows3 ->]. rewrite Hkey in *.
  split; [reflexivity|]. split.
  - unfold Table.lookup. rewrite Hrows3, Hrows2.
    assert (Hin : In r0 (Table.lookup (Users.paramId c) d)) by (rewrite Hl; now left).
    apply filter_In in Hin as [Hin Hr0].
    intros Hnil.
    assert (Hin' : In (Store.update Store.fullUpdate (vals ++ [Users.paramId c])
                         (now (req c)) (Users.paramId c) r0) []).
    { rewrite <- Hnil. apply filter_In. split; [now apply in_map|].
      unfold Store.update. fold (Table.hasId (Users.paramId c) r0). rewrite Hr0.
      unfold Table.hasId. rewrite applyClauses_untargeted; [exact Hr0|].
      cbn. intros H; repeat (destruct H as [H|H]; [discriminate H|]); exact H. }
    destruct Hin'.
  - intros r' Hin Hr'. rewrite Hrows3, Hrows2 in Hin.
    apply updated_row in Hin as (r & _ & _ & ->); [|exact Hr'].
    assert (Hnd : NoDup (map Table.target Store.fullUpdate)).
    { refine (bool_decide_unpack _ _). vm_compute. exact I. }
    assert (Hw : forall cl, In cl Store.fullUpdate ->
              Store.column (Store.applyClauses Store.fullUpdate
                              (vals ++ [Users.paramId c]) (now (req c)) r)
                           (Table.target cl)
              = Table.written (vals ++ [Users.paramId c]) (now (req c)) cl).
    { intros cl Hcl. now apply applyClauses_written. }
    split.
    + assert (Hcol : forall col p, In (Store.Assign col p) Store.fullUpdate ->
                Store.column (Store.applyClauses Store.fullUpdate
                                (vals ++ [Users.paramId c]) (now (req c)) r) col
                = Store.param (vals ++ [Users.paramId c]) p).
      { intros col p Hcl. exact (Hw (Store.Assign col p) Hcl). }
      cbn [map].
      rewrite (Hcol "name" 1%nat), (Hcol "email" 2%nat), (Hcol "phone" 3%nat),
        (Hcol "address" 4%nat), (Hcol "city" 5%nat), (Hcol "country" 6%nat)
        by (cbn; tauto).
      rewrite (fields_six _ _ Hf) at 7. rewrite (fields_six _ _ Hf). reflexivity.
    + apply (Hw Store.Stamp). cbn. tauto.
Qed.

Lemma full_update_writes_body_witness :
  let c := Examples.byId 1 (Sample.person "Dana Levi-Cohen" "dana@example.com") in
  fst (Users.replace c Examples.one)
  = Users.ok c (VObj [("success", VBool true);
                      ("message", VStr "User updated successfully");
                      ("data", Users.first (Table.lookup (Users.paramId c)
                                              (snd (Users.replace c Examples.one))))]).
Proof.
  assert (H1 : Users.fields
                 (body (req (Examples.byId 1
                               (Sample.person "Dana Levi-Cohen" "dana@example.com"))))
               = Some (Examples.fieldsOf "Dana Levi-Cohen" "dana@example.com"))
    by reflexivity.
  assert (H2 : status (fst (Users.replace
                              (Examples.byId 1
                                 (Sample.person "Dana Levi-Cohen" "dana@example.com"))
                              Examples.one)) = 200%nat)
    by (vm_compute; reflexivity).
  exact (proj1 (full_update_writes_body _ _ _ H1 H2)).
Defined.

Lemma nodup_filter_keys {A} (f : string * A -> bool) (l : list (string * A)) :
  NoDup (map fst l) -> NoDup (map fst (List.filter f l)).
Proof.
  induction l as [|x l IH]; cbn [map List.filter]; [intros _; apply NoDup_nil_2|].
  intros Hnd. apply NoDup_cons in Hnd as [Hx Hnd]. destruct (f x); [|now apply IH].
  cbn [map]. apply NoDup_cons_2; [|now apply IH].
  intros Hin. apply Hx. apply list_elem_of_In in Hin. apply list_elem_of_In.
  apply in_map_iff in Hin as (y & Hy & Hin). apply in_map_iff. exists y.
  split; [exact Hy|]. now apply filter_In in Hin as [Hin _].
Qed.

Lemma imap_targets (g : nat -> nat) (l : list (string * value)) :
  map Table.target (imap (fun i kv => Store.Assign (fst kv) (g i)) l) = map fst l.
Proof.
  revert g. induction l as [|kv l IH]; intros g; [reflexivity|].
  cbn [imap map Table.target]. f_equal. exact (IH (fun i => g (S i))).
Qed.

Lemma built_targets (updates id : value) clauses fp values :
  Users.buildUpdate updates id = Some (clauses, fp, values) ->
  map Table.target clauses = map fst (Spec.recognized updates) ++ ["updated_at"]
  /\ forall key v, In (key, v) (Spec.recognized updates) ->
       exists p, In (Store.Assign key p) clauses /\ Store.param values p = v.
Proof.
  rewrite buildUpdate_spec. intros Hb.
  destruct (Spec.recognized updates) as [|kv0 kept0] eqn:Hrec; [discriminate|].
  rewrite <- Hrec in *. injection Hb as <- <- <-. split.
  - rewrite map_app. f_equal. apply imap_targets.
  - intros key v Hin. apply list_elem_of_In, list_elem_of_lookup in Hin as [i Hi].
    exists (S i). split.
    + apply in_or_app. left. apply list_elem_of_In, list_elem_of_lookup. exists i.
      now rewrite list_lookup_imap, Hi.
    + unfold Store.param. cbn [Nat.sub]. rewrite Nat.sub_0_r.
      rewrite lookup_app_l by (rewrite length_map; now apply lookup_lt_Some in Hi).
      now rewrite list_lookup_fmap, Hi.
Qed.

Lemma patchBuild_done (c : Ctx) (updates id : value) (d : Store.Db) :
  status (fst (Users.patchBuild c updates id d)) = 200%nat ->
  exists clauses fp values,
    Users.buildUpdate updates id = Some (clauses, fp, values)
    /\ fst (Users.patchBuild c updates id d)
       = Users.updated c (Table.lookup id (snd (Users.patchBuild c updates id d)))
    /\ Store.rows (snd (Users.patchBuild c updates id d))
       = map (Store.update clauses values (now (req c)) id) (Store.rows d).
Proof.
  unfold Users.patchBuild. intros Hst.
  destruct (Users.buildUpdate updates id) as [[[clauses fp] values]|] eqn:Hb;
    [|discriminate Hst].
  destruct (built_update_key _ _ _ _ _ Hb) as [Hkey _].
  destruct (Store.query _ _ _ d) as [[l|code] d1] eqn:Hq;
    [|now apply updateFailure_status in Hst].
  apply query_update_done in Hq as [Hrows ->]. rewrite Hkey in *.
  exists clauses, fp, values. repeat split; assumption.
Qed.

(** X7. When PATCH /:id is answered 200 (the keys of the body being
    distinct), the body supplied at least one of the six fields, the answer
    carries the row with that id as [data], and every row with that id
    holds each supplied field with the value of the body and the time of
    the request as [updated_at]. *)
Theorem partial_update_writes_supplied (c : Ctx) (d : Store.Db) :
  NoDup (map fst (Js.own_entries (body (req c)))) ->
  status (fst (Users.patch c d)) = 200%nat ->
  fst (Users.patch c d)
  = Users.ok c (VObj [("success", VBool true);
                      ("message", VStr "User updated successfully");
                      ("data", Users.first (Table.lookup (Users.paramId c)
                                              (snd (Users.patch c d))))])
  /\ Spec.recognized (body (req c)) <> []
  /\ forall r', In r' (Store.rows (snd (Users.patch c d))) ->
                Table.hasId (Users.paramId c) r' = true ->
                (forall key v, In (key, v) (Spec.recognized (body (req c))) ->
                               Store.column r' key = v)
                /\ Store.column r' "updated_at" = VNum (now (req c)).
Proof.
  intros Hnd Hst.
  assert (Hmain : exists d0,
            Store.rows d0 = Store.rows d
            /\ Users.patch c d = Users.patchBuild c (body (req c)) (Users.paramId c) d0).
  { unfold Users.patch in *. rewrite select_by_id in *.
    destruct (Table.lookup (Users.paramId c) d) as [|r0 l0]; [discriminate Hst|].
    destruct (Users.prop (body (req c)) "email") as [email|]; [|discriminate Hst].
    destruct (Js.truthy email).
    - destruct (Store.query Store.SelectIdByEmailOther _ _ _) as [[[|r2 l2]|code] d2] eqn:Hq2;
        [|discriminate Hst|now apply updateFailure_status in Hst].
      exists d2. split; [injection Hq2 as _ <-|]; reflexivity.
    - eexists. split; [|reflexivity]. reflexivity. }
  destruct Hmain as (d0 & Hrows0 & Heq). rewrite Heq in *.
  destruct (patchBuild_done c _ _ d0 Hst) as (clauses & fp & values & Hb & Hresp & Hrows).
  split; [exact Hresp|]. split.
  { rewrite buildUpdate_spec in Hb. intros Hnil. rewrite Hnil in Hb. discriminate. }
  intros r' Hin Hr'. rewrite Hrows in Hin.
  apply updated_row in Hin as (r & _ & _ & ->); [|exact Hr'].
  destruct (built_targets _ _ _ _ _ Hb) as [Htargets Hsupplied].
  assert (Hdistinct : NoDup (map Table.target clauses)).
  { rewrite Htargets. apply NoDup_app. split; [|split].
    - now apply nodup_filter_keys.
    - intros key Hk [ <- |[]]%list_elem_of_In. apply list_elem_of_In in Hk.
      apply in_map_iff in Hk as (kv & Hkey & Hkv).
      apply recognized_allowed in Hkv as [Hal _]. rewrite Hkey in Hal.
      apply allowed_not_generated in Hal as (_ & _ & Hne). now apply Hne.
    - apply NoDup_singleton. }
  split.
  - intros key v Hkv. destruct (Hsupplied key v Hkv) as (p & Hcl & <-).
    exact (applyClauses_written clauses values (now (req c)) r _ Hdistinct Hcl).
  - apply (applyClauses_written clauses values (now (req c)) r Store.Stamp Hdistinct).
    assert (Hlast : In "updated_at" (map Table.target clauses))
      by (rewrite Htargets; apply in_or_app; right; now left).
    apply in_map_iff in Hlast as (cl & Hcl & Hin).
    destruct cl as [col p|]; [|exact Hin].
    exfalso. cbn in Hcl. subst col.
    destruct (built_update_key _ _ _ _ _ Hb) as [_ Hcols].
    specialize (Hcols _ _ Hin). apply in_map_iff in Hcols as (kv & Hkey & Hkv).
    apply recognized_allowed in Hkv as [Hal _]. rewrite Hkey in Hal.
    apply allowed_not_generated in Hal as (_ & _ & Hne). now apply Hne.
Qed.

Lemma partial_update_writes_supplied_witness :
  let c := Examples.byId 1 (VObj [("city", VStr "Akko")]) in
  fst (Users.patch c Examples.one)
  = Users.ok c (VObj [("success", VBool true);
                      ("message", VStr "User updated successfully");
                      ("data", Users.first (Table.lookup (Users.paramId c)
                                              (snd (Users.patch c Examples.one))))]).
Proof.
  assert (H1 : NoDup (map fst (Js.own_entries
                                 (body (req (Examples.byId 1
                                               (VObj [("city", VStr "Akko")])))))))
    by (refine (bool_decide_unpack _ _); vm_compute; exact I).
  assert (H2 : status (fst (Users.patch (Examples.byId 1 (VObj [("city", VStr "Akko")]))
                              Examples.one)) = 200%nat)
    by (vm_compute; reflexivity).
  exact (proj1 (partial_update_writes_supplied _ Examples.one H1 H2)).
Defined.

(** *** From the handlers to the router and the service *)

Lemma stack_db (pre : list App.Middleware)
    (h : Ctx -> Store.Db -> Response * Store.Db) (c : Ctx) (w : App.World) :
  Forall (fun m : App.Middleware => forall c0 w0, App.db (snd (m c0 w0)) = App.db w0) pre ->
  App.db (snd (App.run (pre ++ [App.handler h]) c w)) = App.db w
  \/ exists g, App.db (snd (App.run (pre ++ [App.handler h]) c w)) = snd (h g (App.db w)).
Proof.
  intros Hpre. revert c w. induction Hpre as [|m l Hm _ IH]; intros c w.
  - right. exists c. cbn [app App.run]. unfold App.handler.
    destruct (h c (App.db w)) as [resp d']. reflexivity.
  - cbn [app App.run]. specialize (Hm c w).
    destruct (m c w) as [[c1|resp|c1 e] w1]; cbn [snd] in *; [|now left|now left].
    rewrite <- Hm. apply IH.
Qed.

Lemma limit_db (l : App.Limiter) (c : Ctx) (w : App.World) :
  App.db (snd (App.limit l c w)) = App.db w.
Proof.
  unfold App.limit. destruct (RateLimit.rateLimit _ _ _) as [step s].
  destruct l; reflexivity.
Qed.

Lemma pure_stack_db (fs : list (Ctx -> Step)) :
  Forall (fun m : App.Middleware => forall c0 w0, App.db (snd (m c0 w0)) = App.db w0)
         (map App.pure fs).
Proof. induction fs; constructor; auto. Qed.

(** The store after the users router has served a request is the store
    before, or what the handler of the matching route leaves of it. *)
Lemma router_db `{Externals} (below : list string) (c : Ctx) (w : App.World) :
  App.db (snd (App.usersRouter below c w)) = App.db w
  \/ exists g,
       match method (req c), App.target below with
       | (GET | HEAD), Some App.Collection =>
           App.db (snd (App.usersRouter below c w)) = snd (Users.getAll g (App.db w))
       | POST, Some App.Collection =>
           App.db (snd (App.usersRouter below c w)) = snd (Users.create g (App.db w))
       | (GET | HEAD), Some (App.Item _) =>
           App.db (snd (App.usersRouter below c w)) = snd (Users.getOne g (App.db w))
       | PUT, Some (App.Item _) =>
           App.db (snd (App.usersRouter below c w)) = snd (Users.replace g (App.db w))
       | PATCH, Some (App.Item _) =>
           App.db (snd (App.usersRouter below c w)) = snd (Users.patch g (App.db w))
       | DELETE, Some (App.Item _) =>
           App.db (snd (App.usersRouter below c w)) = snd (Users.remove g (App.db w))
       | _, _ => False
       end.
Proof.
  assert (Hwrap : forall stack c0,
            App.db (snd (match App.run stack c0 w with
                         | (Next _, w') => (Next c, w')
                         | stop => stop
                         end)) = App.db (snd (App.run stack c0 w))).
  { intros stack c0. destruct (App.run stack c0 w) as [[c1|resp|c1 e] w1]; reflexivity. }
  assert (Hlim : forall (pre : list App.Middleware),
            Forall (fun m : App.Middleware =>
                      forall c0 w0, App.db (snd (m c0 w0)) = App.db w0) pre ->
            Forall (fun m : App.Middleware =>
                      forall c0 w0, App.db (snd (m c0 w0)) = App.db w0)
                   (App.limit App.Strict :: pre)).
  { intros pre Hp. constructor; [intros c0 w0; apply limit_db | exact Hp]. }
  unfold App.usersRouter, App.route.
  destruct (App.target below) as [[|segment]|]; [| |now left].
  - destruct (method (req c)); cbn [App.collectionStack];
      try (now left); rewrite Hwrap.
    + apply (stack_db [] Users.getAll). constructor.
    + apply (stack_db [] Users.getAll). constructor.
    + apply (stack_db (App.limit App.Strict :: App.validateUser) Users.create).
      apply Hlim, pure_stack_db.
  - destruct (decodeParam segment) as [id|]; [|now left].
    destruct (method (req c)); cbn [App.itemStack];
      try (now left); rewrite Hwrap.
    + apply (stack_db App.validateId Users.getOne), pure_stack_db.
    + apply (stack_db App.validateId Users.getOne), pure_stack_db.
    + rewrite app_assoc.
      apply (stack_db (App.limit App.Strict :: App.validateId ++ App.validateUser)
               Users.replace).
      apply Hlim, Forall_app; split; apply pure_stack_db.
    + rewrite app_assoc.
      apply (stack_db (App.limit App.Strict :: App.validateId ++ App.validateUserUpdate)
               Users.patch).
      apply Hlim, Forall_app; split; apply pure_stack_db.
    + apply (stack_db (App.limit App.Strict :: App.validateId) Users.remove).
      apply Hlim, pure_stack_db.
Qed.

Lemma app_lifts `{Externals} (R : Store.Db -> Store.Db -> Prop) :
  (forall d, R d d) ->
  (forall d1 d2 d3, R d1 d2 -> R d2 d3 -> R d1 d3) ->
  (forall h, In h [Users.getAll; Users.getOne; Users.create; Users.replace;
                   Users.patch; Users.remove] ->
             forall g d, R d (snd (h g d))) ->
  forall r w, R (App.db w) (App.db (snd (App.app r w))).
Proof.
  intros Hrefl Htrans Hh r w.
  assert (Hsame : forall w1 w2, App.db w2 = App.db w1 -> R (App.db w1) (App.db w2)).
  { intros w1 w2 ->. apply Hrefl. }
  assert (Hrouter : forall below c0 w0,
            R (App.db w0) (App.db (snd (App.usersRouter below c0 w0)))).
  { intros below c0 w0. destruct (router_db below c0 w0) as [->|[g Hg]]; [apply Hrefl|].
    destruct (method (req c0)), (App.target below) as [[|?]|]; try contradiction;
      rewrite Hg; apply Hh; cbn; tauto. }
  assert (Hstages : Forall (fun m : App.Middleware =>
                              forall c0 w0, R (App.db w0) (App.db (snd (m c0 w0))))
                           App.stages).
  { unfold App.stages. apply Forall_app. split.
    - eapply Forall_impl; [exact ahead_stateless|].
      intros m Hm c0 w0. rewrite Hm. apply Hrefl.
    - unfold App.behind. repeat apply Forall_cons_2; [| | | | |apply Forall_nil_2].
      + intros c0 w0. apply Hrefl.
      + intros c0 w0. apply Hsame, limit_db.
      + intros c0 w0. destruct (mountUsers_cases c0 w0) as [->|[below ->]];
          [apply Hrefl|].
        apply (run_preserves (fun w1 w2 => R (App.db w1) (App.db w2)));
          [intros w1; apply Hrefl | intros w1 w2 w3; apply Htrans|].
        repeat apply Forall_cons_2; [| |apply Forall_nil_2].
        * intros c1 w1. apply Hsame, limit_db.
        * intros c1 w1. apply Hrouter.
      + intros c0 w0. destruct (health_cases c0 w0) as [->|[resp ->]]; apply Hrefl.
      + intros c0 w0. apply Hrefl. }
  unfold App.app.
  pose proof (run_preserves (fun w1 w2 => R (App.db w1) (App.db w2)) App.stages
                (fun w0 => Hrefl (App.db w0))
                (fun w1 w2 w3 => Htrans (App.db w1) (App.db w2) (App.db w3))
                Hstages (App.arrival r) w) as Hrun.
  destruct (App.run App.stages (App.arrival r) w) as [[c1|resp|c1 e] w1]; exact Hrun.
Qed.

(** *** The ids of the table *)

Lemma sound_same (d d' : Store.Db) :
  Spec.ids d' = Spec.ids d -> (Store.next_id d <= Store.next_id d')%Z ->
  Table.sound d -> Table.sound d'.
Proof.
  unfold Table.sound, Table.keyed, Spec.ids. intros Hids Hn [Hk Hnd].
  split; [|now rewrite Hids].
  intros r' Hin.
  assert (Hin' : In (Store.column r' "id")
                    (map (fun r => Store.column r "id") (Store.rows d)))
    by (rewrite <- Hids; exact (in_map (fun r => Store.column r "id") _ _ Hin)).
  apply in_map_iff in Hin' as (r & Heq & Hr). destruct (Hk r Hr) as (k & Hid & Hlt).
  exists k. split; [congruence | lia].
Qed.

Lemma select_rows (s : Store.Statement) values t (d : Store.Db) :
  match s with
  | Store.SelectAll | Store.SelectById | Store.SelectIdByEmail
  | Store.SelectIdByEmailOther => True
  | _ => False
  end ->
  Store.rows (snd (Store.query s values t d)) = Store.rows d
  /\ Store.next_id (snd (Store.query s values t d)) = Store.next_id d.
Proof. destruct s; intros []; split; reflexivity. Qed.

Lemma getAll_rows (c : Ctx) (d : Store.Db) :
  Store.rows (snd (Users.getAll c d)) = Store.rows d
  /\ Store.next_id (snd (Users.getAll c d)) = Store.next_id d.
Proof. split; reflexivity. Qed.

Lemma getOne_rows (c : Ctx) (d : Store.Db) :
  Store.rows (snd (Users.getOne c d)) = Store.rows d
  /\ Store.next_id (snd (Users.getOne c d)) = Store.next_id d.
Proof.
  unfold Users.getOne. rewrite select_by_id.
  destruct (Table.lookup _ d); split; reflexivity.
Qed.

Lemma create_rows (c : Ctx) (d : Store.Db) :
  (Store.rows (snd (Users.create c d)) = Store.rows d
   /\ Store.next_id (snd (Users.create c d)) = Store.next_id d)
  \/ exists vals,
       Store.rows (snd (Users.create c d))
       = Store.rows d ++ [Store.newRow (Store.next_id d) (now (req c)) vals]
       /\ Store.next_id (snd (Users.create c d)) = (Store.next_id d + 1)%Z.
Proof.
  unfold Users.create. destruct (Users.fields (body (req c))) as [vals|]; [|now left].
  cbn [Store.query Store.execute].
  destruct (map _ (List.filter _ (Store.rows d))) as [|r0 l0]; [|now left].
  unfold Store.query, Store.execute. cbn [Store.rows Store.next_id].
  destruct (existsb _ (seq 1 6)); [now left|].
  destruct (existsb _ (Store.rows d)); [now left|].
  right. exists vals. split; reflexivity.
Qed.

Lemma remove_rows (c : Ctx) (d : Store.Db) :
  Store.next_id (snd (Users.remove c d)) = Store.next_id d
  /\ exists f, Store.rows (snd (Users.remove c d)) = List.filter f (Store.rows d).
Proof.
  destruct (Table.lookup (Users.paramId c) d) as [|r0 l0] eqn:Hl.
  - unfold Users.remove. rewrite select_by_id, Hl. split; [reflexivity|].
    exists (fun _ => true). cbn [snd Store.rows].
    induction (Store.rows d) as [|r l IH]; [reflexivity|]. cbn. now rewrite <- IH.
  - rewrite remove_existing by (rewrite Hl; discriminate). split; [reflexivity|].
    eexists. reflexivity.
Qed.

Lemma addressed_ids (id : value) (P : string -> Prop) (d d' : Store.Db) :
  P "id" -> Table.addressed id P d d' ->
  Spec.ids d' = Spec.ids d /\ Store.next_id d' = Store.next_id d.
Proof.
  intros Hid (Hn & Hlen & Hrows). split; [|exact Hn].
  unfold Spec.ids. apply list_eq. intros i. rewrite !list_lookup_fmap.
  destruct (Store.rows d !! i) as [r|] eqn:Hi.
  - destruct (Hrows i r Hi) as (r' & -> & Hp & _). cbn. f_equal. now apply Hp.
  - apply lookup_ge_None in Hi. rewrite <- Hlen in Hi. apply lookup_ge_None in Hi.
    now rewrite Hi.
Qed.

Lemma nodup_map_filter {A B} (g : A -> B) (f : A -> bool) (l : list A) :
  NoDup (map g l) -> NoDup (map g (List.filter f l)).
Proof.
  induction l as [|x l IH]; cbn [map List.filter]; [intros _; apply NoDup_nil_2|].
  intros Hnd. apply NoDup_cons in Hnd as [Hx Hnd]. destruct (f x); [|now apply IH].
  cbn [map]. apply NoDup_cons_2; [|now apply IH].
  intros Hin. apply Hx. apply list_elem_of_In in Hin. apply list_elem_of_In.
  apply in_map_iff in Hin as (y & Hy & Hin). apply in_map_iff. exists y.
  split; [exact Hy|]. now apply filter_In in Hin as [Hin _].
Qed.

(** X8. If the ids of the table are distinct numbers below the sequence
    of ids, they still are after the application has handled a request,
    whatever the request; the sequence never moves back. *)
Theorem ids_stay_distinct `{Externals} (r : Req) (w : App.World) :
  Table.sound (App.db w) ->
  Table.sound (App.db (snd (App.app r w)))
  /\ (Store.next_id (App.db w) <= Store.next_id (App.db (snd (App.app r w))))%Z.
Proof.
  intros Hsound.
  pose proof (app_lifts
                (fun d d' => (Table.sound d -> Table.sound d')
                             /\ (Store.next_id d <= Store.next_id d')%Z)) as Hl.
  destruct (Hl (fun d => conj (fun s => s) (Z.le_refl _))) with (r := r) (w := w)
    as [Hs Hn]; [| |split; [exact (Hs Hsound) | exact Hn]].
  - intros d1 d2 d3 [S1 N1] [S2 N2]. split; [auto | lia].
  - intros h Hh g d.
    assert (Hkeep : forall d',
              Spec.ids d' = Spec.ids d -> Store.next_id d' = Store.next_id d ->
              (Table.sound d -> Table.sound d')
              /\ (Store.next_id d <= Store.next_id d')%Z).
    { intros d' Hi Hn. split; [apply sound_same; [exact Hi | lia] | lia]. }
    cbn in Hh. destruct Hh as [<-|[<-|[<-|[<-|[<-|[<-|[]]]]]]].
    + destruct (getAll_rows g d) as [Hr Hn]. apply Hkeep; [|exact Hn].
      unfold Spec.ids. now rewrite Hr.
    + destruct (getOne_rows g d) as [Hr Hn]. apply Hkeep; [|exact Hn].
      unfold Spec.ids. now rewrite Hr.
    + destruct (create_rows g d) as [[Hr Hn]|(vals & Hr & Hn)].
      * apply Hkeep; [|exact Hn]. unfold Spec.ids. now rewrite Hr.
      * split; [|lia]. intros [Hk Hnd]. unfold Table.sound, Table.keyed.
        rewrite Hr, Hn. split.
        -- intros r0 Hin. apply in_app_or in Hin as [Hin|[<-|[]]].
           ++ destruct (Hk r0 Hin) as (k & Hid & Hlt). exists k. split; [exact Hid|lia].
           ++ exists (Store.next_id d). split; [reflexivity | lia].
        -- rewrite map_app. apply NoDup_app. split; [exact Hnd|]. split.
           ++ intros v Hv [ <- |[]]%list_elem_of_In. apply list_elem_of_In in Hv.
              apply in_map_iff in Hv as (r0 & Hid & Hin).
              destruct (Hk r0 Hin) as (k & Hid' & Hlt).
              rewrite Hid' in Hid. cbn in Hid. injection Hid as ->. lia.
           ++ apply NoDup_singleton.
    + destruct (addressed_ids _ _ _ _
                  (fun Hin : In "id" ("updated_at" :: Store.columns) =>
                     ltac:(cbn in Hin;
                           repeat (destruct Hin as [Hin|Hin]; [discriminate Hin|]);
                           exact Hin))
                  (replace_addressed g d)) as [Hi Hn].
      now apply Hkeep.
    + apply Hkeep; [apply patch_ids|].
      now destruct (patch_addressed g d) as (Hn & _).
    + destruct (remove_rows g d) as [Hn [f Hr]]. split; [|lia].
      intros [Hk Hnd]. unfold Table.sound, Table.keyed. rewrite Hr, Hn. split.
      * intros r0 Hin. apply filter_In in Hin as [Hin _]. now apply Hk.
      * now apply nodup_map_filter.
Qed.

Lemma sound_one : Table.sound Examples.one.
Proof.
  split; [exact keyed_one|].
  assert (Hids : map (fun r => Store.column r "id") (Store.rows Examples.one) = [VNum 1])
    by (vm_compute; reflexivity).
  rewrite Hids. apply NoDup_singleton.
Qed.

Lemma ids_stay_distinct_witness :
  Table.sound
    (App.db (snd (App.app (H := Sample.externals)
                    (Sample.createUser 2000 (Sample.person "Noa Peretz" "noa@example.com"))
                    Sample.seeded))).
Proof.
  exact (proj1 (ids_stay_distinct (H := Sample.externals)
                  (Sample.createUser 2000 (Sample.person "Noa Peretz" "noa@example.com"))
                  Sample.seeded sound_one)).
Defined.

(** X9. A GET under /api/users changes neither the rows nor the
    sequence of ids, and the only statements it sends to the database are
    the SELECT of all rows and the SELECT by id. *)
Theorem reads_keep_the_table `{Externals} (below : list string) (c : Ctx)
    (w : App.World) :
  App.is_read (method (req c)) = true ->
  Store.rows (App.db (snd (App.usersRouter below c w))) = Store.rows (App.db w)
  /\ Store.next_id (App.db (snd (App.usersRouter below c w)))
     = Store.next_id (App.db w)
  /\ forall e, In e (Store.journal (App.db (snd (App.usersRouter below c w)))) ->
               In e (Store.journal (App.db w))
               \/ fst e = Store.SelectAll \/ fst e = Store.SelectById.
Proof.
  intros Hread.
  destruct (router_db below c w) as [->|[g Hg]]; [repeat split; auto|].
  destruct (method (req c)); try discriminate Hread;
    destruct (App.target below) as [[|?]|]; try contradiction; rewrite Hg.
  - split; [reflexivity|]. split; [reflexivity|]. intros e. cbn.
    intros [Hin|[<-|[]]]%in_app_or; auto.
  - unfold Users.getOne. rewrite select_by_id.
    destruct (Table.lookup _ _); (split; [reflexivity|]); (split; [reflexivity|]);
      intros e; cbn; intros [Hin|[<-|[]]]%in_app_or; auto.
  - split; [reflexivity|]. split; [reflexivity|]. intros e. cbn.
    intros [Hin|[<-|[]]]%in_app_or; auto.
  - unfold Users.getOne. rewrite select_by_id.
    destruct (Table.lookup _ _); (split; [reflexivity|]); (split; [reflexivity|]);
      intros e; cbn; intros [Hin|[<-|[]]]%in_app_or; auto.
Qed.

Lemma reads_keep_the_table_witness :
  Store.rows (App.db (snd (App.usersRouter (H := Sample.externals) ["1"]
                             (App.arrival (Sample.request GET "/api/users/1"
                                             ["api"; "users"; "1"] 5000 VUndefined))
                             Sample.seeded)))
  = Store.rows (App.db Sample.seeded).
Proof.
  assert (H1 : App.is_read
                 (method (req (App.arrival (Sample.request GET "/api/users/1"
                                              ["api"; "users"; "1"] 5000 VUndefined))))
               = true) by reflexivity.
  exact (proj1 (reads_keep_the_table (H := Sample.externals) ["1"] _ Sample.seeded H1)).
Defined.

Lemma other_email_found (email id : value) t (d : Store.Db) :
  existsb (fun r => Store.same (Store.column r "email") email
                    && negb (Table.hasId id r)) (Store.rows d) = true ->
  exists r0 l0 d',
    Store.query Store.SelectIdByEmailOther [email; id] t d = (Store.Rows (r0 :: l0), d')
    /\ Store.rows d' = Store.rows d.
Proof.
  intros Htaken. cbn [Store.query Store.execute].
  change (Store.param [email; id] 1) with email.
  change (Store.param [email; id] 2) with id.
  apply existsb_exists in Htaken as (r & Hin & Hr).
  destruct (List.filter _ (Store.rows d)) as [|r0 l0] eqn:Hfil.
  - exfalso. assert (Hin' : In r []); [|destruct Hin'].
    rewrite <- Hfil. apply filter_In. now split.
  - cbn [map]. eexists _, _, _. split; reflexivity.
Qed.

(** X10. The handler of PUT /:id, on a request that has come to it with
    the id of a row and an email that a row with another id has, answers
    409 [Email already exists] with the message
    [Another user with this email address already exists] and leaves the
    rows unchanged; the handler of PATCH /:id answers the same when the
    email of the body is truthy. *)
Theorem update_duplicate_email (c : Ctx) (d : Store.Db) (props : list (string * value)) :
  body (req c) = VObj props ->
  Table.lookup (Users.paramId c) d <> [] ->
  existsb (fun r => Store.same (Store.column r "email") (Js.get props "email")
                    && negb (Table.hasId (Users.paramId c) r)) (Store.rows d) = true ->
  (fst (Users.replace c d)
   = json c 409 (VObj [("error", VStr "Email already exists");
                       ("message",
                        VStr "Another user with this email address already exists")])
   /\ Store.rows (snd (Users.replace c d)) = Store.rows d)
  /\ (Js.truthy (Js.get props "email") = true ->
      fst (Users.patch c d) = fst (Users.replace c d)
      /\ Store.rows (snd (Users.patch c d)) = Store.rows d).
Proof.
  intros Hb Hsome Htaken.
  destruct (Table.lookup (Users.paramId c) d) as [|r1 l1] eqn:Hl; [contradiction|].
  destruct (other_email_found (Js.get props "email") (Users.paramId c) (now (req c))
              {| Store.rows := Store.rows d; Store.next_id := Store.next_id d;
                 Store.journal := Store.journal d
                                  ++ [(Store.SelectById, [Users.paramId c])] |} Htaken)
    as (r0 & l0 & d' & Hq & Hrows).
  assert (Hreplace : Users.replace c d
                     = (Users.emailExists c Users.otherEmail, d')).
  { unfold Users.replace. rewrite Hb. cbn [Users.fields]. rewrite select_by_id, Hl.
    change (Store.param (map _ Store.columns) 2) with (Js.get props "email").
    now rewrite Hq. }
  rewrite Hreplace. cbn [fst snd]. split; [split; [reflexivity | exact Hrows]|].
  intros Htruthy. unfold Users.patch. rewrite select_by_id, Hl, Hb.
  cbn [Users.prop]. rewrite Htruthy, Hq. split; [reflexivity | exact Hrows].
Qed.

Lemma update_duplicate_email_witness :
  Store.rows (snd (Users.replace
                     (Examples.byId 2 (Sample.person "Noa Peretz" "dana@example.com"))
                     Examples.two))
  = Store.rows Examples.two.
Proof.
  assert (H1 : body (req (Examples.byId 2 (Sample.person "Noa Peretz" "dana@example.com")))
               = VObj [("name", VStr "Noa Peretz"); ("email", VStr "dana@example.com");
                       ("phone", VStr "+972501234567"); ("address", VStr "12 Herzl St");
                       ("city", VStr "Haifa"); ("country", VStr "Israel")])
    by reflexivity.
  assert (H2 : Table.lookup
                 (Users.paramId (Examples.byId 2
                                   (Sample.person "Noa Peretz" "dana@example.com")))
                 Examples.two <> [])
    by (vm_compute; discriminate).
  assert (H3 : existsb
                 (fun r => Store.same (Store.column r "email")
                             (Js.get [("name", VStr "Noa Peretz");
                                      ("email", VStr "dana@example.com");
                                      ("phone", VStr "+972501234567");
                                      ("address", VStr "12 Herzl St");
                                      ("city", VStr "Haifa"); ("country", VStr "Israel")]
                                     "email")
                           && negb (Table.hasId
                                      (Users.paramId
                                         (Examples.byId 2
                                            (Sample.person "Noa Peretz" "dana@example.com")))
                                      r))
                 (Store.rows Examples.two) = true)
    by (vm_compute; reflexivity).
  exact (proj2 (proj1 (update_duplicate_email _ _ _ H1 H2 H3))).
Defined.

(** ** Decimal numerals *)

Lemma digit_value_pretty (d : N) :
  (d < 10)%N -> Num.digit_value 10 (pretty_N_char d) = Some (Z.of_N d).
Proof.
  intros Hd. unfold pretty_N_char.
  destruct d as [|p]; [reflexivity|].
  do 4 (destruct p as [p|p|]; try reflexivity; try lia).
Qed.

Lemma digits_app (acc : option Z) (l1 l2 : list ascii) :
  Forall (fun c => is_Some (Num.digit_value 10 c)) l1 ->
  Num.digits 10 acc (l1 ++ l2)
  = Num.digits 10 (match l1 with [] => acc | _ => Num.digits 10 acc l1 end) l2.
Proof.
  intros Hall. revert acc. induction Hall as [|c l [d Hd] _ IH]; intros acc;
    [reflexivity|].
  cbn [app Num.digits]. rewrite Hd, IH. destruct l; reflexivity.
Qed.

Lemma chars_pretty_go (x : N) (s : string) :
  Text.chars (pretty_N_go x s) = Text.chars (pretty_N_go x "") ++ Text.chars s.
Proof.
  revert s. induction (N.lt_wf_0 x) as [x _ IH]. intros s.
  destruct (decide (0 < x)%N) as [Hx|Hx].
  - assert (Hdiv : (x `div` 10 < x)%N) by (now apply N.div_lt).
    rewrite !(pretty_N_go_step x) by exact Hx.
    rewrite (IH _ Hdiv (String _ s)), (IH _ Hdiv (String _ "")).
    rewrite <- app_assoc. reflexivity.
  - assert (x = 0%N) as -> by lia. now rewrite !pretty_N_go_0.
Qed.

Lemma pretty_go_digits (x : N) :
  Forall (fun c => is_Some (Num.digit_value 10 c)) (Text.chars (pretty_N_go x ""))
  /\ ((0 < x)%N ->
      Num.digits 10 None (Text.chars (pretty_N_go x "")) = Some (Z.of_N x)).
Proof.
  induction (N.lt_wf_0 x) as [x _ IH].
  destruct (decide (0 < x)%N) as [Hx|Hx].
  - rewrite (pretty_N_go_step x) by exact Hx. rewrite chars_pretty_go.
    destruct (IH (x `div` 10)%N) as [Hall Hval]; [now apply N.div_lt|].
    assert (Hlast : Num.digit_value 10 (pretty_N_char (x `mod` 10))
                    = Some (Z.of_N (x `mod` 10)))
      by (apply digit_value_pretty; now apply N.mod_lt).
    split.
    + apply Forall_app. split; [exact Hall|].
      apply Forall_cons_2; [rewrite Hlast; eauto | apply Forall_nil_2].
    + intros _. rewrite digits_app by exact Hall.
      change (Text.chars (String (pretty_N_char (x `mod` 10)) ""))
        with [pretty_N_char (x `mod` 10)].
      cbn [Num.digits]. rewrite Hlast.
      destruct (decide (0 < x `div` 10)%N) as [Hd|Hd].
      * rewrite (Hval Hd).
        destruct (Text.chars (pretty_N_go (x `div` 10) "")) eqn:Hempty.
        -- rewrite (pretty_N_go_step (x `div` 10)) in Hempty by exact Hd.
           rewrite chars_pretty_go in Hempty.
           apply (f_equal length) in Hempty. rewrite length_app in Hempty.
           cbn in Hempty. lia.
        -- cbn [default]. f_equal.
           pose proof (N.div_mod x 10 ltac:(lia)) as Hdm. unfold id.
           generalize dependent (x `div` 10)%N. generalize (x `mod` 10)%N.
           intros; lia.
      * assert (x `div` 10 = 0)%N as Hz by (now apply N.nlt_ge, N.le_0_r in Hd).
        rewrite Hz, pretty_N_go_0.
        cbn [Text.chars String.list_ascii_of_string default]. f_equal.
        pose proof (N.div_mod x 10 ltac:(lia)) as Hdm. rewrite Hz in Hdm.
        unfold id. generalize dependent (x `mod` 10)%N. intros; lia.
  - assert (x = 0%N) as -> by lia. rewrite pretty_N_go_0. split; [constructor | lia].
Qed.

Lemma chars_pretty_N (n : N) :
  Forall (fun c => is_Some (Num.digit_value 10 c)) (Text.chars (pretty n))
  /\ Text.chars (pretty n) <> []
  /\ Num.digits 10 None (Text.chars (pretty n)) = Some (Z.of_N n).
Proof.
  unfold pretty, pretty_N. destruct (decide (n = 0%N)) as [->|Hn].
  - split; [repeat constructor; eauto|]. split; [discriminate | reflexivity].
  - destruct (pretty_go_digits n) as [Hall Hval]. split; [exact Hall|].
    split; [|apply Hval; lia].
    destruct (pretty_N_go_digit n "" ltac:(lia)) as (c & s' & -> & _). discriminate.
Qed.

(** ** White space *)

Lemma space_len_plain (c : ascii) (rest : list ascii) :
  (Chars.code c < 128)%nat -> Chars.is_space c = false ->
  Space.space_len (c :: rest) = 0%nat.
Proof.
  intros Hc Hs. unfold Space.space_len. rewrite Hs.
  assert (Hb : forall n, (128 <= n)%nat -> Space.byte_is n c = false).
  { intros n Hn. unfold Space.byte_is. apply Nat.eqb_neq. lia. }
  destruct rest as [|c1 [|c2 rest2]]; [reflexivity| |];
    rewrite ?(Hb 194%nat), ?(Hb 225%nat), ?(Hb 226%nat), ?(Hb 227%nat),
      ?(Hb 239%nat) by lia; reflexivity.
Qed.

Lemma skip_plain (fuel : nat) (c : ascii) (rest : list ascii) :
  (Chars.code c < 128)%nat -> Chars.is_space c = false ->
  Space.skip fuel (c :: rest) = c :: rest.
Proof.
  intros Hc Hs. destruct fuel; [reflexivity|]. cbn [Space.skip].
  now rewrite space_len_plain.
Qed.

Lemma trim_start_plain (l : list ascii) :
  match l with
  | c :: _ => (Chars.code c < 128)%nat /\ Chars.is_space c = false
  | [] => True
  end ->
  Space.trim_start l = l.
Proof.
  unfold Space.trim_start. destruct l as [|c rest]; [reflexivity|].
  intros [Hc Hs]. now apply skip_plain.
Qed.

Lemma keep_plain (fuel : nat) (l : list ascii) :
  Forall (fun c => (Chars.code c < 128)%nat /\ Chars.is_space c = false) l ->
  (length l <= fuel)%nat ->
  Space.keep fuel l = l.
Proof.
  intros Hall. revert fuel. induction Hall as [|c l [Hc Hs] Hall IH]; intros fuel Hf.
  - destruct fuel; reflexivity.
  - destruct fuel as [|fuel]; [cbn in Hf; lia|]. cbn [Space.keep].
    rewrite trim_start_plain by (split; assumption).
    rewrite space_len_plain by assumption. f_equal. apply IH. cbn in Hf. lia.
Qed.

Lemma trim_plain (l : list ascii) :
  Forall (fun c => (Chars.code c < 128)%nat /\ Chars.is_space c = false) l ->
  Space.trim l = l.
Proof.
  intros Hall. unfold Space.trim, Space.trim_end.
  rewrite trim_start_plain by (destruct Hall; auto).
  now apply keep_plain.
Qed.

Lemma digit_plain (c : ascii) :
  Chars.is_digit c = true ->
  (Chars.code c < 128)%nat /\ Chars.is_space c = false.
Proof.
  unfold Chars.is_digit, Chars.is_space, Chars.in_range. intros Hd.
  apply andb_true_iff in Hd as [Hlo Hhi].
  apply Nat.leb_le in Hlo. apply Nat.leb_le in Hhi. split; [lia|].
  apply orb_false_iff. split.
  - apply andb_false_iff. right. apply Nat.leb_gt. lia.
  - apply Ascii.eqb_neq. intros ->. change (Chars.code " ") with 32%nat in Hlo. lia.
Qed.

Lemma digit_value_digit (c : ascii) :
  is_Some (Num.digit_value 10 c) <-> Chars.is_digit c = true.
Proof.
  unfold Num.digit_value. destruct (Chars.is_digit c) eqn:Hd.
  - split; [reflexivity|]. intros _.
    unfold Chars.is_digit, Chars.in_range in Hd.
    apply andb_true_iff in Hd as [Hlo Hhi].
    apply Nat.leb_le in Hlo. apply Nat.leb_le in Hhi.
    destruct (Z.ltb_spec (Z.of_nat (Chars.code c) - 48) 10); [eauto | lia].
  - split; [|discriminate]. intros [d Hv].
    destruct (Chars.in_range 97 122 c) eqn:Hl.
    + unfold Chars.in_range in Hl. apply andb_true_iff in Hl as [Hlo _].
      apply Nat.leb_le in Hlo.
      destruct (Z.ltb_spec (Z.of_nat (Chars.code c) - 87) 10); [lia | discriminate].
    + destruct (Chars.in_range 65 90 c) eqn:Hu; [|discriminate].
      unfold Chars.in_range in Hu. apply andb_true_iff in Hu as [Hlo _].
      apply Nat.leb_le in Hlo.
      destruct (Z.ltb_spec (Z.of_nat (Chars.code c) - 55) 10); [lia | discriminate].
Qed.

(** The decimal spelling of a natural number is read back by
    [parseInt], with or without the radix. *)
Lemma parseInt_pretty (radix : option Z) (n : N) :
  radix = None \/ radix = Some 10 ->
  Num.parseInt_radix radix (pretty n) = Some (Z.of_N n).
Proof.
  intros Hradix. destruct (chars_pretty_N n) as (Hall & Hne & Hval).
  unfold Num.parseInt_radix.
  destruct (Text.chars (pretty n)) as [|c rest] eqn:Hc; [contradiction|].
  assert (Hd : Chars.is_digit c = true)
    by (apply digit_value_digit; now apply Forall_cons in Hall as [? _]).
  destruct (digit_plain c Hd) as [Hcode Hspace].
  rewrite trim_start_plain by (split; assumption).
  assert (Hsign : Num.signed (c :: rest) = (1, c :: rest)).
  { unfold Num.signed.
    destruct (Ascii.eqb_spec c "-") as [->|_]; [discriminate Hd|].
    destruct (Ascii.eqb_spec c "+") as [->|_]; [discriminate Hd | reflexivity]. }
  rewrite Hsign.
  assert (Hhex : Num.hex_prefix (c :: rest) = None).
  { unfold Num.hex_prefix. destruct rest as [|c1 rest1]; [reflexivity|].
    destruct (Ascii.eqb c "0"); [|reflexivity]. cbn [andb].
    assert (Hd1 : Chars.is_digit c1 = true).
    { apply digit_value_digit. apply Forall_cons in Hall as [_ Hall].
      now apply Forall_cons in Hall as [? _]. }
    destruct (Ascii.eqb_spec c1 "x") as [->|_]; [discriminate Hd1|].
    destruct (Ascii.eqb_spec c1 "X") as [->|_]; [discriminate Hd1 | reflexivity]. }
  destruct Hradix as [-> | ->]; rewrite ?Hhex, Hval; f_equal; lia.
Qed.

(** X11. When the Content-Length header is the decimal writing of a
    natural number n, the size guard answers 413 exactly when n is greater
    than 10485760 (10 MiB); a length of exactly 10485760 passes. For n up
    to 2^53, the integers a JavaScript number holds exactly, [parseInt]
    reads n itself. *)
Theorem size_guard_on_decimal_length (c : Ctx) (n : N) :
  headers (req c) !! "content-length" = Some (pretty n) ->
  ((n <= 2 ^ 53)%N -> Num.parseInt (pretty n) = Some (Z.of_N n))
  /\ requestSizeLimiter c
     = if bool_decide (10485760 < n)%N then Send (json c 413 tooLarge) else Next c.
Proof.
  intros Hh.
  assert (Hp : Num.parseInt (pretty n) = Some (Z.of_N n))
    by (apply parseInt_pretty; now left).
  split; [intros _; exact Hp|].
  unfold requestSizeLimiter. rewrite Hh, Hp.
  assert (Hne : String.eqb (pretty n) "" = false).
  { apply String.eqb_neq. intros He.
    destruct (chars_pretty_N n) as (_ & Hne & _). apply Hne. now rewrite He. }
  rewrite Hne. cbn [negb andb exceeds]. unfold maxSize.
  destruct (Z.ltb_spec (10 * 1024 * 1024) (Z.of_N n)).
  - rewrite bool_decide_eq_true_2 by lia. reflexivity.
  - rewrite bool_decide_eq_false_2 by lia. reflexivity.
Qed.

Lemma size_guard_on_decimal_length_witness :
  Num.parseInt "20971520" = Some 20971520
  /\ requestSizeLimiter (App.arrival (Sample.upload 2000 "20971520" (VObj [])))
     = Send (json (App.arrival (Sample.upload 2000 "20971520" (VObj []))) 413 tooLarge).
Proof.
  assert (H1 : headers (req (App.arrival (Sample.upload 2000 "20971520" (VObj []))))
               !! "content-length" = Some (pretty 20971520%N))
    by (vm_compute; reflexivity).
  assert (H2 : (20971520 <= 2 ^ 53)%N) by (vm_compute; discriminate).
  destruct (size_guard_on_decimal_length _ 20971520%N H1) as [Hread Hguard].
  split; [exact (Hread H2) | exact Hguard].
Defined.

(** ** The id rule *)

Lemma forallb_digits (ds : list ascii) :
  forallb Chars.is_digit ds = true ->
  Forall (fun c => is_Some (Num.digit_value 10 c)) ds.
Proof.
  intros Hall. apply Forall_forall. intros c Hin. apply digit_value_digit.
  rewrite forallb_forall in Hall. apply Hall. now apply list_elem_of_In.
Qed.

Lemma sign_plain (c : ascii) :
  c = "-"%char \/ c = "+"%char \/ Chars.is_digit c = true ->
  (Chars.code c < 128)%nat /\ Chars.is_space c = false.
Proof.
  intros [->|[->|Hd]]; [| |now apply digit_plain].
  - change (Chars.code "-") with 45%nat. split; [lia | reflexivity].
  - change (Chars.code "+") with 43%nat. split; [lia | reflexivity].
Qed.

Lemma isInt_toInt (lo hi : Z) (s : string) :
  Rules.isInt lo hi s = true ->
  exists k, lo <= k <= hi /\ Rules.toInt s = VNum k.
Proof.
  unfold Rules.isInt, Rules.toInt, Num.parseInt_radix.
  destruct (Num.signed (Text.chars s)) as [sign ds] eqn:Hsign.
  destruct ds as [|d ds]; [discriminate|].
  intros Hok. apply andb_true_iff in Hok as [Hdig Hok].
  destruct (Num.digits 10 None (d :: ds)) as [n|] eqn:Hn; [|discriminate].
  apply andb_true_iff in Hok as [Hlo Hhi].
  apply Z.leb_le in Hlo. apply Z.leb_le in Hhi.
  exists (sign * n). split; [lia|].
  assert (Hd : Chars.is_digit d = true) by (cbn in Hdig; now apply andb_true_iff in Hdig).
  assert (Hfirst : match Text.chars s with
                   | c :: _ => (Chars.code c < 128)%nat /\ Chars.is_space c = false
                   | [] => True
                   end).
  { unfold Num.signed in Hsign. destruct (Text.chars s) as [|c rest]; [exact I|].
    apply sign_plain.
    destruct (Ascii.eqb_spec c "-") as [->|_]; [now left|].
    destruct (Ascii.eqb_spec c "+") as [->|_]; [right; now left|].
    injection Hsign as _ -> _. right. now right. }
  rewrite (trim_start_plain _ Hfirst), Hsign, Hn. reflexivity.
Qed.

Lemma isInt_pretty (lo hi : Z) (n : N) :
  Rules.isInt lo hi (pretty n) = (lo <=? Z.of_N n) && (Z.of_N n <=? hi)
  /\ Rules.toInt (pretty n) = VNum (Z.of_N n).
Proof.
  split.
  - destruct (chars_pretty_N n) as (Hall & Hne & Hval). unfold Rules.isInt.
    destruct (Text.chars (pretty n)) as [|c rest] eqn:Hc; [contradiction|].
    assert (Hd : Chars.is_digit c = true)
      by (apply digit_value_digit; now apply Forall_cons in Hall as [? _]).
    assert (Hsign : Num.signed (c :: rest) = (1, c :: rest)).
    { unfold Num.signed.
      destruct (Ascii.eqb_spec c "-") as [->|_]; [discriminate Hd|].
      destruct (Ascii.eqb_spec c "+") as [->|_]; [discriminate Hd | reflexivity]. }
    rewrite Hsign, Hval.
    assert (Hdig : forallb Chars.is_digit (c :: rest) = true).
    { apply forallb_forall. intros x Hx. apply digit_value_digit.
      rewrite Forall_forall in Hall. apply Hall. now apply list_elem_of_In. }
    rewrite Hdig. cbn [andb]. now rewrite Z.mul_1_l.
  - unfold Rules.toInt. rewrite parseInt_pretty by (now right). reflexivity.
Qed.

Lemma digit_not_forbidden (c : ascii) :
  Chars.is_digit c = true -> Rules.forbiddenInId c = false.
Proof.
  destruct c as [[] [] [] [] [] [] [] []]; vm_compute; intros Hd;
    first [reflexivity | discriminate Hd].
Qed.

Lemma positive_id_characters (k : Z) (r : Req) :
  1 <= k -> Validators.idCharacters (VNum k) r = None.
Proof.
  intros Hk. unfold Validators.idCharacters. cbn [Conv.String_].
  destruct k as [|p|p]; try lia.
  change (pretty (Z.pos p)) with (pretty (N.pos p)).
  destruct (chars_pretty_N (N.pos p)) as (Hall & _ & _).
  assert (Hno : Text.has_char Rules.forbiddenInId (pretty (N.pos p)) = false).
  { unfold Text.has_char. apply not_true_iff_false. intros Hex.
    apply existsb_exists in Hex as (c & Hin & Hc).
    rewrite Forall_forall in Hall. apply list_elem_of_In in Hin.
    specialize (Hall c Hin). apply digit_value_digit in Hall.
    rewrite (digit_not_forbidden c Hall) in Hc. discriminate Hc. }
  now rewrite Hno.
Qed.

Lemma id_chain_run (c0 : Ctx) (segment : string) :
  exists c',
    Chain.run Validators.validateIdChain (App.bind_id c0 segment) = Next c'
    /\ body (req c') = body (req c0)
    /\ res_headers c' = res_headers c0
    /\ Users.paramId c' = Rules.toInt segment
    /\ (if Rules.isInt 1 2147483647 segment
        then found c' = found c0
        else exists rest,
               found c'
               = found c0
                 ++ {| err_path := "id";
                       err_msg := "ID must be a positive integer within valid range";
                       err_value := VStr segment |} :: rest).
Proof.
  unfold Chain.run, Validators.validateIdChain.
  cbn [Chain.optional andb Chain.items Chain.select Chain.field Chain.location
       Chain.data App.bind_id with_req with_params req params String.eqb Ascii.eqb
       Bool.eqb Js.get Chain.links Chain.link Chain.each List.filter Conv.toString
       Conv.shallow Conv.String_ negb found Chain.store Chain.put Chain.assign map].
  destruct (Rules.isInt 1 2147483647 segment) eqn:Hint.
  - destruct (isInt_toInt _ _ _ Hint) as (k & [Hlo _] & Hk). rewrite Hk.
    cbn [negb map Conv.toString Conv.shallow Conv.String_ req with_found with_req].
    rewrite positive_id_characters by exact Hlo.
    eexists. split; [reflexivity|].
    cbn. rewrite app_nil_r. repeat split; reflexivity.
  - cbn [negb map]. 
    destruct (Rules.toInt segment) as [| | | | | | |] eqn:Hto;
      match goal with
      | |- context [Validators.idCharacters ?v ?r] =>
          destruct (Validators.idCharacters v r)
      end;
      (eexists; split; [reflexivity|]; cbn;
       split; [reflexivity|]; split; [reflexivity|]; split; [reflexivity|];
       rewrite <- ?app_assoc; eexists; reflexivity).
Qed.

(** X12. The id rule of the by-id routes: a path segment that is an
    integer between 1 and 2147483647 reaches the handler as a number in that
    range, the body untouched; any other segment is answered 400
    [Validation failed] with, first, the detail
    [ID must be a positive integer within valid range] on the field [id].
    For the decimal writing of n the rule accepts exactly 1 <= n <=
    2147483647; for n up to 2^53, the integers a JavaScript number holds
    exactly, the conversion yields n itself. *)
Theorem id_rule_converts_or_rejects `{Externals} (c0 : Ctx) (segment : string)
    (w : App.World) :
  found c0 = [] ->
  (Rules.isInt 1 2147483647 segment = true ->
   exists k c',
     1 <= k <= 2147483647
     /\ App.run App.validateId (App.bind_id c0 segment) w = (Next c', w)
     /\ Users.paramId c' = VNum k
     /\ body (req c') = body (req c0))
  /\ (Rules.isInt 1 2147483647 segment = false ->
      exists details,
        App.run App.validateId (App.bind_id c0 segment) w
        = (Send (json (App.bind_id c0 segment) 400
                   (VObj [("error", VStr "Validation failed");
                          ("details",
                           VArr (VObj [("field", VStr "id");
                                       ("message",
                                        VStr "ID must be a positive integer within valid range");
                                       ("value", VStr segment)] :: details))])), w))
  /\ (forall n : N,
        Rules.isInt 1 2147483647 (pretty n)
        = bool_decide (1 <= n <= 2147483647)%N
        /\ ((n <= 2 ^ 53)%N -> Rules.toInt (pretty n) = VNum (Z.of_N n))).
Proof.
  intros Hfound.
  destruct rule_sets_are_stacks as (Hid & _ & _).
  destruct (id_chain_run c0 segment) as (c' & Hrun & Hbody & Hheads & Hparam & Hcase).
  assert (Hstack : App.run App.validateId (App.bind_id c0 segment) w
                   = (Validators.validate c', w)).
  { rewrite Hid. apply rules_run. cbn [Validators.idChains Spec.through].
    now rewrite Hrun. }
  split; [|split].
  - intros Hint. rewrite Hint in Hcase.
    destruct (isInt_toInt _ _ _ Hint) as (k & Hk & Hto).
    exists k, c'. split; [exact Hk|]. rewrite Hstack, validate_reports, Hcase, Hfound.
    split; [reflexivity|]. split; [congruence | exact Hbody].
  - intros Hint. rewrite Hint in Hcase. destruct Hcase as [rest Hrest].
    rewrite Hstack, validate_reports, Hrest, Hfound. cbn [app map Validators.detail].
    exists (map Validators.detail rest). cbn [err_path err_msg err_value].
    unfold json. now rewrite Hheads.
  - intros n. destruct (isInt_pretty 1 2147483647 n) as [-> ->].
    split; [|intros _; reflexivity].
    destruct (Z.leb_spec 1 (Z.of_N n)), (Z.leb_spec (Z.of_N n) 2147483647); cbn [andb];
      [rewrite bool_decide_eq_true_2 by lia | rewrite bool_decide_eq_false_2 by lia..];
      reflexivity.
Qed.

Lemma id_rule_converts_or_rejects_witness :
  let c0 := App.arrival (Sample.deleteUser 5000 "7") in
  found c0 = []
  /\ Rules.isInt 1 2147483647 "7" = true
  /\ (exists k c',
        1 <= k <= 2147483647
        /\ App.run App.validateId (App.bind_id c0 "7")
             Sample.fresh = (Next c', Sample.fresh)
        /\ Users.paramId c' = VNum k
        /\ body (req c') = body (req c0))
  /\ Rules.toInt (pretty 7%N) = VNum 7.
Proof.
  intros c0.
  assert (H1 : found c0 = []) by reflexivity.
  assert (H2 : Rules.isInt 1 2147483647 "7" = true) by (vm_compute; reflexivity).
  assert (H3 : (7 <= 2 ^ 53)%N) by (vm_compute; discriminate).
  destruct (id_rule_converts_or_rejects (H := Sample.externals) c0 "7" Sample.fresh H1)
    as (Hok & _ & Hn).
  split; [exact H1|]. split; [exact H2|]. split; [exact (Hok H2)|].
  exact (proj2 (Hn 7%N) H3).
Defined.
(** ** The header hardener *)

Lemma get_without_same (name : string) (h : list (string * string)) :
  Headers.get name (without name h) = None.
Proof.
  unfold without. induction h as [|[k v] h IH]; [reflexivity|]. cbn [List.filter fst].
  destruct (String.eqb k name) eqn:He; cbn [negb]; [exact IH|].
  cbn [Headers.get]. rewrite He. exact IH.
Qed.

Lemma get_without_other (name other : string) (h : list (string * string)) :
  other <> name ->
  Headers.get name (without other h) = Headers.get name h.
Proof.
  unfold without. intros Hne. induction h as [|[k v] h IH]; [reflexivity|].
  cbn [List.filter fst Headers.get].
  destruct (String.eqb_spec k other) as [->|Hk]; cbn [negb].
  - destruct (String.eqb_spec other name) as [->|_]; [contradiction | exact IH].
  - cbn [Headers.get]. destruct (String.eqb k name); [reflexivity | exact IH].
Qed.

Lemma get_setHeader (name other v : string) (c : Ctx) :
  Headers.get name (res_headers (setHeader other v c))
  = if String.eqb other name then Some v else Headers.get name (res_headers c).
Proof.
  unfold setHeader. cbn [with_headers res_headers Headers.get].
  destruct (String.eqb_spec other name) as [->|Hne]; [reflexivity|].
  now apply get_without_other.
Qed.

Lemma count_without_same (name : string) (h : list (string * string)) :
  Headers.count name (without name h) = 0%nat.
Proof.
  unfold Headers.count, without. induction h as [|[k v] h IH]; [reflexivity|].
  cbn [List.filter fst].
  destruct (String.eqb k name) eqn:He; cbn [negb]; [exact IH|].
  cbn [List.filter fst]. rewrite He. exact IH.
Qed.

Lemma count_without_other (name other : string) (h : list (string * string)) :
  other <> name ->
  Headers.count name (without other h) = Headers.count name h.
Proof.
  unfold Headers.count, without. intros Hne.
  induction h as [|[k v] h IH]; [reflexivity|].
  cbn [List.filter fst].
  destruct (String.eqb_spec k other) as [->|Hk]; cbn [negb].
  - destruct (String.eqb_spec other name) as [->|_]; [contradiction | exact IH].
  - cbn [List.filter fst]. destruct (String.eqb k name); cbn [length]; now rewrite IH.
Qed.

Lemma count_setHeader (name other v : string) (c : Ctx) :
  Headers.count name (res_headers (setHeader other v c))
  = if String.eqb other name then 1%nat else Headers.count name (res_headers c).
Proof.
  unfold setHeader. cbn [with_headers res_headers].
  unfold Headers.count at 1. cbn [List.filter fst].
  destruct (String.eqb_spec other name) as [->|Hne].
  - cbn [length]. f_equal. apply count_without_same.
  - now apply count_without_other.
Qed.

(** X13. [securityHeaders] always calls next, leaves the request and the
    validation errors alone, removes X-Powered-By, sets each of its five
    headers to its fixed value exactly once whatever the response held
    before, and leaves every header whose name differs from these six,
    letter case apart, as it was. *)
Theorem security_headers_pinned (c : Ctx) :
  exists c',
    securityHeaders c = Next c'
    /\ req c' = req c /\ found c' = found c
    /\ Headers.get "X-Powered-By" (res_headers c') = None
    /\ (forall name v, In (name, v) Headers.pinned ->
          Headers.get name (res_headers c') = Some v
          /\ Headers.count name (res_headers c') = 1%nat)
    /\ (forall name,
          (forall touched, In touched ("X-Powered-By" :: map fst Headers.pinned) ->
                           map Chars.upcase (Text.chars name)
                           <> map Chars.upcase (Text.chars touched)) ->
          Headers.get name (res_headers c') = Headers.get name (res_headers c)
          /\ Headers.count name (res_headers c') = Headers.count name (res_headers c)).
Proof.
  eexists. split; [reflexivity|]. split; [reflexivity|]. split; [reflexivity|].
  split; [|split].
  - rewrite !get_setHeader. cbn [String.eqb Ascii.eqb Bool.eqb].
    unfold removeHeader. cbn [with_headers res_headers]. apply get_without_same.
  - intros name v Hin. cbn in Hin.
    repeat (destruct Hin as [[= <- <-]|Hin];
            [rewrite !get_setHeader, !count_setHeader; split; reflexivity|]).
    destruct Hin.
  - intros name Hcase.
    assert (Hother : forall touched,
              In touched ("X-Powered-By" :: map fst Headers.pinned) -> name <> touched)
      by (intros touched Hin ->; now apply (Hcase touched Hin)).
    assert (Hx : name <> "X-Powered-By") by (apply Hother; now left).
    assert (Hpinned : ~ In name (map fst Headers.pinned))
      by (intros Hin; now apply (Hother name (or_intror Hin))).
    cbn in Hpinned.
    rewrite !get_setHeader, !count_setHeader.
    repeat match goal with
           | |- context [String.eqb ?k name] =>
               destruct (String.eqb_spec k name) as [Heq|_]; [exfalso; tauto|]
           end.
    unfold removeHeader. cbn [with_headers res_headers].
    split; [apply get_without_other | apply count_without_other]; congruence.
Qed.

(** ** The injection patterns on a single word *)

Lemma starts_chars (p s : list ascii) :
  Text.starts Ascii.eqb p s = true -> forall c, In c p -> In c s.
Proof.
  revert s. induction p as [|a p IH]; intros s Hs c Hin; [destruct Hin|].
  destruct s as [|b s]; [discriminate Hs|]. cbn [Text.starts] in Hs.
  apply andb_true_iff in Hs as [Hab Hrest]. apply Ascii.eqb_eq in Hab. subst b.
  destruct Hin as [->|Hin]; [now left | right; now apply (IH s)].
Qed.

Lemma occurs_chars (p s : list ascii) :
  Text.occurs p s = true -> forall c, In c p -> In c s.
Proof.
  induction s as [|b s IH]; cbn [Text.occurs]; intros Ho c Hin.
  - rewrite orb_false_r in Ho. exact (starts_chars p [] Ho c Hin).
  - apply orb_true_iff in Ho as [Hs|Ho]; [exact (starts_chars p _ Hs c Hin)|].
    right. now apply IH.
Qed.

Lemma contains_foreign (p s : string) (c : ascii) :
  In c (Text.chars p) -> ~ In c (Text.chars s) -> Text.contains p s = false.
Proof.
  intros Hp Hs. apply not_true_iff_false. intros Ho. apply Hs.
  exact (occurs_chars _ _ Ho c Hp).
Qed.

Lemma drop_prefix_rest (p s rest : list ascii) :
  forallb Chars.is_word s = true ->
  Text.drop_prefix Chars.eqb_ci p s = Some rest ->
  forallb Chars.is_word rest = true
  /\ (rest = [] <-> map Chars.upcase p = map Chars.upcase s).
Proof.
  revert s. induction p as [|a p IH]; intros l Hword; cbn [Text.drop_prefix].
  - intros [= <-]. split; [exact Hword|]. destruct l; cbn; split; congruence.
  - destruct l as [|b l]; [discriminate|].
    destruct (Chars.eqb_ci a b) eqn:Hab; [|discriminate].
    apply Ascii.eqb_eq in Hab. intros Hrest.
    cbn [forallb] in Hword. apply andb_true_iff in Hword as [_ Hword].
    destruct (IH l Hword Hrest) as [Hw Hiff]. cbn [map]. rewrite Hab.
    split; [exact Hw|]. rewrite Hiff. split; [now intros ->|now intros [= ->]].
Qed.

Lemma drop_prefix_full (p s : list ascii) :
  map Chars.upcase p = map Chars.upcase s ->
  Text.drop_prefix Chars.eqb_ci p s = Some [].
Proof.
  revert s. induction p as [|a p IH]; intros [|b l]; cbn [map Text.drop_prefix];
    try discriminate; [reflexivity|].
  intros [= Hab Hrest]. unfold Chars.eqb_ci. rewrite Hab, Ascii.eqb_refl. now apply IH.
Qed.

Lemma word_end_word (rest : list ascii) :
  forallb Chars.is_word rest = true ->
  Sql.word_end rest = match rest with [] => true | _ => false end.
Proof.
  destruct rest as [|c rest]; [reflexivity|]. cbn [forallb Sql.word_end].
  intros [-> _]%andb_true_iff. reflexivity.
Qed.

Lemma word_search_inside (words : list string) (tail : list ascii -> bool)
    (s : list ascii) :
  forallb Chars.is_word s = true -> Sql.word_search words tail true s = false.
Proof.
  induction s as [|c s IH]; [reflexivity|]. cbn [forallb Sql.word_search negb andb orb].
  intros [-> Hs]%andb_true_iff. now apply IH.
Qed.

Lemma word_search_word (words : list string) (tail : list ascii -> bool)
    (s : list ascii) :
  forallb Chars.is_word s = true ->
  Forall (fun w => w <> "") words ->
  Sql.word_search words tail false s
  = existsb (fun w => bool_decide (map Chars.upcase (Text.chars w)
                                   = map Chars.upcase s) && tail []) words.
Proof.
  intros Hword Hwords.
  assert (Hhere : Sql.word_here words tail s
                  = existsb (fun w => bool_decide (map Chars.upcase (Text.chars w)
                                                   = map Chars.upcase s) && tail [])
                            words).
  { unfold Sql.word_here. clear Hwords. induction words as [|w words IH]; [reflexivity|].
    cbn [existsb]. rewrite IH. f_equal.
    destruct (Text.drop_prefix Chars.eqb_ci (Text.chars w) s) as [rest|] eqn:Hd.
    - destruct (drop_prefix_rest _ _ _ Hword Hd) as [Hw Hiff].
      rewrite (word_end_word rest Hw). destruct rest as [|c rest].
      + rewrite bool_decide_eq_true_2 by (now apply Hiff). reflexivity.
      + rewrite bool_decide_eq_false_2; [reflexivity|].
        intros He. apply Hiff in He. discriminate He.
    - rewrite bool_decide_eq_false_2; [reflexivity|].
      intros He. apply drop_prefix_full in He. congruence. }
  destruct s as [|c s].
  - cbn [Sql.word_search]. symmetry. apply not_true_iff_false. intros Hex.
    apply existsb_exists in Hex as (w & Hin & Hw).
    apply andb_true_iff in Hw as [Hw _]. apply bool_decide_eq_true in Hw.
    rewrite Forall_forall in Hwords. apply list_elem_of_In in Hin.
    apply (Hwords w Hin). destruct w; [reflexivity | discriminate Hw].
  - cbn [Sql.word_search negb andb]. rewrite Hhere.
    cbn [forallb] in Hword. apply andb_true_iff in Hword as [-> Hs].
    rewrite word_search_inside by exact Hs. apply orb_false_r.
Qed.

(** X14. For a value made of word characters only (letters, digits and
    the underscore), the SQL detector fires exactly when the value, letter
    case apart, is one of the ten keywords SELECT, INSERT, UPDATE, DELETE,
    DROP, CREATE, ALTER, EXEC, UNION and SCRIPT: a keyword inside a longer
    word is not reported. *)
Theorem keyword_only_as_whole_word (s : string) :
  forallb Chars.is_word (Text.chars s) = true ->
  Sql.detectSQLInjection (VStr s) = true
  <-> In (map Chars.upcase (Text.chars s))
         (map Text.chars ["SELECT"; "INSERT"; "UPDATE"; "DELETE"; "DROP"; "CREATE";
                          "ALTER"; "EXEC"; "UNION"; "SCRIPT"]).
Proof.
  intros Hword.
  assert (Hno : forall c, Chars.is_word c = false -> ~ In c (Text.chars s)).
  { intros c Hc Hin. rewrite forallb_forall in Hword. rewrite (Hword c Hin) in Hc.
    discriminate Hc. }
  assert (Hsyntax : Sql.pattern_syntax s = false).
  { unfold Sql.pattern_syntax.
    rewrite (contains_foreign ";" s ";"), (contains_foreign "--" s "-"),
      (contains_foreign "/*" s "/"), (contains_foreign "*/" s "/");
      try reflexivity; try (apply Hno; reflexivity); cbn; tauto. }
  assert (Hconstant : Sql.pattern_constant s = false).
  { unfold Sql.pattern_constant.
    rewrite (contains_foreign "1=1" s "="), (contains_foreign "1=0" s "=");
      try reflexivity; try (apply Hno; reflexivity); cbn; tauto. }
  assert (Hquote : Sql.pattern_quote s = false).
  { unfold Sql.pattern_quote, Text.has_char. apply not_true_iff_false. intros Hex.
    apply existsb_exists in Hex as (c & Hin & Hc). apply (Hno c); [|exact Hin].
    unfold Sql.is_quote in Hc. apply orb_true_iff in Hc as [Hc|Hc];
      apply Ascii.eqb_eq in Hc; subst c; reflexivity. }
  assert (Htautology : Sql.pattern_tautology s = false).
  { unfold Sql.pattern_tautology. rewrite word_search_word; [|exact Hword|].
    - cbn [existsb Sql.connectives Sql.eq_on_line]. now rewrite !andb_false_r.
    - unfold Sql.connectives. repeat constructor; discriminate. }
  assert (Hupper : forall w, In w Sql.keywords ->
            map Chars.upcase (Text.chars w) = Text.chars w).
  { intros w Hin. cbn in Hin.
    repeat (destruct Hin as [<-|Hin]; [reflexivity|]). destruct Hin. }
  cbn [Sql.detectSQLInjection Sql.sqlPatterns existsb].
  rewrite Hsyntax, Hconstant, Hquote, Htautology, !orb_false_r.
  unfold Sql.pattern_keyword. rewrite word_search_word;
    [|exact Hword|unfold Sql.keywords; repeat constructor; discriminate].
  fold Sql.keywords. rewrite existsb_exists. split.
  - intros (w & Hin & Hw). apply andb_true_iff in Hw as [Hw _].
    apply bool_decide_eq_true in Hw. rewrite <- Hw, (Hupper w Hin).
    now apply in_map.
  - intros Hin. apply in_map_iff in Hin as (w & Hw & Hin). exists w.
    split; [exact Hin|]. rewrite andb_true_r. apply bool_decide_eq_true.
    rewrite <- Hw. now apply Hupper.
Qed.

Lemma keyword_only_as_whole_word_witness :
  Sql.detectSQLInjection (VStr "Selection") = false
  /\ Sql.detectSQLInjection (VStr "Union") = true.
Proof.
  assert (H1 : forallb Chars.is_word (Text.chars "Selection") = true) by reflexivity.
  assert (H2 : forallb Chars.is_word (Text.chars "Union") = true) by reflexivity.
  split.
  - apply not_true_iff_false. intros Hd.
    apply (proj1 (keyword_only_as_whole_word "Selection" H1)) in Hd.
    cbn in Hd. repeat (destruct Hd as [Hd|Hd]; [discriminate Hd|]). exact Hd.
  - apply (proj2 (keyword_only_as_whole_word "Union" H2)). cbn. tauto.
Defined.

(** ** The phone numbers of the seed script *)

Lemma drop_prefix_app (p rest : list ascii) :
  Text.drop_prefix Ascii.eqb p (p ++ rest) = Some rest.
Proof.
  induction p as [|a p IH]; [reflexivity|]. cbn [app Text.drop_prefix].
  now rewrite Ascii.eqb_refl.
Qed.

Lemma generated_phone_pattern (randomDigits : string) :
  Rules.phonePattern (Seed.generateIsraeliPhoneNumber randomDigits)
  = (length (Text.chars randomDigits) =? 8)%nat
    && forallb Chars.is_digit (Text.chars randomDigits).
Proof.
  unfold Rules.phonePattern, Seed.generateIsraeliPhoneNumber.
  now rewrite chars_app, drop_prefix_app.
Qed.

Lemma generated_phone_plain (randomDigits : string) :
  forallb Chars.is_digit (Text.chars randomDigits) = true ->
  Rules.trim (Seed.generateIsraeliPhoneNumber randomDigits)
  = VStr (Seed.generateIsraeliPhoneNumber randomDigits).
Proof.
  intros Hd. unfold Rules.trim. f_equal. rewrite trim_plain; [apply text_chars|].
  unfold Seed.generateIsraeliPhoneNumber. rewrite chars_app. apply Forall_app. split.
  - repeat (apply Forall_cons_2; [split; [vm_compute; lia | reflexivity]|]).
    apply Forall_nil_2.
  - apply Forall_forall. intros c Hin. apply digit_plain.
    rewrite forallb_forall in Hd. apply Hd. now apply list_elem_of_In.
Qed.

(** X15. A phone number as [generateIsraeliPhoneNumber] of db/seed.js and
    of the test helpers builds it (+9725 and seven digits) does not match
    the pattern of the phone rule, which asks for eight digits: a create
    with such a phone collects the phone error and is answered 400. *)
Theorem seeded_phone_fails_the_phone_rule `{Externals} (randomDigits : string)
    (c c_end : Ctx) (w : App.World) :
  length (Text.chars randomDigits) = 7%nat ->
  forallb Chars.is_digit (Text.chars randomDigits) = true ->
  Spec.bodyField c "phone" = VStr (Seed.generateIsraeliPhoneNumber randomDigits) ->
  Spec.through Validators.userChains c = Some c_end ->
  Rules.phonePattern (Seed.generateIsraeliPhoneNumber randomDigits) = false
  /\ In {| err_path := "phone";
           err_msg := "Must be a valid Israeli phone number (+9725xxxxxxxx)";
           err_value := VStr (Seed.generateIsraeliPhoneNumber randomDigits) |}
        (found c_end)
  /\ exists resp, App.run App.validateUser c w = (Send resp, w)
                  /\ status resp = 400%nat.
Proof.
  intros Hlen Hdigits Hphone Hthrough.
  assert (Hpattern : Rules.phonePattern (Seed.generateIsraeliPhoneNumber randomDigits)
                     = false)
    by (now rewrite generated_phone_pattern, Hlen).
  assert (Hin : In {| err_path := "phone";
                      err_msg := "Must be a valid Israeli phone number (+9725xxxxxxxx)";
                      err_value := VStr (Seed.generateIsraeliPhoneNumber randomDigits) |}
                   (found c_end)).
  { destruct (through_split _ 2 c c_end Hthrough) as (c2 & Hfirst & Hrest).
    assert (Hphone2 : Spec.bodyField c2 "phone"
                      = VStr (Seed.generateIsraeliPhoneNumber randomDigits)).
    { rewrite <- Hphone.
      apply (through_spared "phone" (take 2 Validators.userChains) c c2);
        [|exact Hfirst].
      unfold Validators.userChains. cbn [take].
      repeat (apply Forall_cons_2; [right; right; split; discriminate|]).
      apply Forall_nil_2. }
    unfold Validators.userChains in Hrest. cbn [drop] in Hrest.
    match type of Hrest with
    | Spec.through (?ch :: ?l) _ = _ =>
        change (match Chain.run ch c2 with
                | Next c' => Spec.through l c'
                | _ => None
                end = Some c_end) in Hrest
    end.
    destruct (Chain.run _ c2) as [c3| |] eqn:Hrun; try discriminate Hrest.
    apply through_grows in Hrest. destruct Hrest as [more ->].
    apply in_or_app. left.
    unfold Chain.run in Hrun.
    cbn [Chain.optional andb Chain.items Chain.select Chain.field Chain.location
         Chain.data String.eqb Ascii.eqb Bool.eqb] in Hrun.
    fold (Spec.bodyField c2 "phone") in Hrun. rewrite Hphone2 in Hrun.
    cbn [Chain.links Chain.link Conv.toString Conv.shallow Conv.String_] in Hrun.
    rewrite (generated_phone_plain _ Hdigits) in Hrun.
    cbn [Chain.each List.filter Conv.toString Conv.shallow Conv.String_] in Hrun.
    rewrite Hpattern in Hrun. cbn [negb map] in Hrun.
    cbn [Validators.digitsAndPlus] in Hrun. injection Hrun as <-.
    cbn [found with_found with_req]. apply in_or_app. left.
    apply in_or_app. right. now left. }
  split; [exact Hpattern|]. split; [exact Hin|].
  destruct rule_sets_are_stacks as (_ & Huser & _).
  rewrite Huser, (rules_run _ c c_end w Hthrough), validate_reports.
  destruct (found c_end) as [|e errs]; [destruct Hin|].
  eexists. split; reflexivity.
Qed.

Lemma seeded_phone_fails_the_phone_rule_witness :
  Rules.phonePattern (Seed.generateIsraeliPhoneNumber "1234567") = false.
Proof.
  assert (H1 : length (Text.chars "1234567") = 7%nat) by reflexivity.
  assert (H2 : forallb Chars.is_digit (Text.chars "1234567") = true) by reflexivity.
  assert (H3 : Spec.bodyField (Examples.posted Examples.seededUser) "phone"
               = VStr (Seed.generateIsraeliPhoneNumber "1234567")) by reflexivity.
  assert (H4 : Spec.through (Validators.userChains (H := Sample.externals))
                 (Examples.posted Examples.seededUser)
               = Some (Examples.after (Validators.userChains (H := Sample.externals))
                         (Examples.posted Examples.seededUser)))
    by (vm_compute; reflexivity).
  exact (proj1 (seeded_phone_fails_the_phone_rule (H := Sample.externals)
                  "1234567" _ _ Sample.fresh H1 H2 H3 H4)).
Defined.

(** ** A text field that is an array *)

Lemma name_chain_throws (optional : bool) (clean : value -> option value)
    (c : Ctx) (items : list value) :
  (forall l, clean (VArr l) = None) ->
  Spec.bodyField c "name" = VArr items ->
  exists c', Chain.run (Validators.nameChain optional clean) c
             = Throw c' Chain.typeError
             /\ res_headers c' = res_headers c.
Proof.
  intros Hclean Hname. unfold Chain.run, Validators.nameChain, Validators.textChain.
  cbn [Chain.optional Chain.items Chain.select Chain.field Chain.location
       Chain.data String.eqb Ascii.eqb Bool.eqb].
  fold (Spec.bodyField c "name"). rewrite Hname, andb_false_r.
  cbn [Chain.links Chain.link]. rewrite Hclean.
  eexists. split; reflexivity.
Qed.

(** X16. When the [name] of the body is an array, the custom sanitizer of
    the name rule throws a TypeError, in [validateUser] and in
    [validateUserUpdate] alike: no later middleware or handler runs, nothing
    is written, and the error handler answers 500 with the error
    [value.replace is not a function]. *)
Theorem array_name_is_answered_500 `{Externals} (c : Ctx) (items : list value)
    (w : App.World) (rest : list App.Middleware) :
  Spec.bodyField c "name" = VArr items ->
  (forall stack,
     stack = App.validateUser \/ stack = App.validateUserUpdate ->
     exists c',
       App.run (stack ++ rest) c w = (Throw c' Chain.typeError, w)
       /\ App.finish (App.run (stack ++ rest) c w)
          = (App.errorHandler c' Chain.typeError, w))
  /\ forall c', status (App.errorHandler c' Chain.typeError) = 500%nat
                /\ Js.get (Js.own_entries (payload (App.errorHandler c' Chain.typeError)))
                          "error"
                   = VStr "value.replace is not a function".
Proof.
  intros Hname. split.
  - destruct rule_sets_are_stacks as (_ & Huser & Hupdate).
    intros stack [->| ->].
    + destruct (name_chain_throws false Validators.tidy c items) as (c' & Hrun & _);
        [reflexivity | exact Hname|].
      exists c'.
      assert (Heq : App.run (App.validateUser ++ rest) c w
                    = (Throw c' Chain.typeError, w)).
      { rewrite Huser. unfold Spec.ruleStack, Validators.userChains.
        cbn [map app App.run]. unfold App.pure at 1. now rewrite Hrun. }
      rewrite Heq. split; reflexivity.
    + destruct (name_chain_throws true (Validators.whenTruthy Validators.tidy) c items)
        as (c' & Hrun & _); [reflexivity | exact Hname|].
      exists c'.
      assert (Heq : App.run (App.validateUserUpdate ++ rest) c w
                    = (Throw c' Chain.typeError, w)).
      { rewrite Hupdate. unfold Spec.ruleStack, Validators.updateChains.
        cbn [map app App.run]. unfold App.pure at 1. now rewrite Hrun. }
      rewrite Heq. split; reflexivity.
  - intros c'. unfold App.errorHandler, Chain.typeError.
    cbn [e_status e_name e_code e_message].
    rewrite bool_decide_eq_false_2 by discriminate.
    cbn [String.eqb Ascii.eqb Bool.eqb].
    rewrite bool_decide_eq_false_2 by discriminate. split; reflexivity.
Qed.

Lemma array_name_is_answered_500_witness :
  status (App.errorHandler (H := Sample.externals)
            (Examples.posted (VObj [("name", VArr [VStr "Noa"; VStr "Peretz"])]))
            Chain.typeError) = 500%nat.
Proof.
  assert (H1 : Spec.bodyField
                 (Examples.posted (VObj [("name", VArr [VStr "Noa"; VStr "Peretz"])]))
                 "name" = VArr [VStr "Noa"; VStr "Peretz"]) by reflexivity.
  exact (proj1 (proj2 (array_name_is_answered_500 (H := Sample.externals)
                         _ _ Sample.fresh [] H1) _)).
Defined.

(** ** Requests no route takes *)

Lemma same_ci_length (a b : list ascii) :
  Text.same_ci a b = true -> length a = length b.
Proof.
  revert b. induction a as [|x a IH]; intros [|y b]; cbn [Text.same_ci length];
    try discriminate; [reflexivity|].
  intros [_ Hrest]%andb_prop. f_equal. now apply IH.
Qed.

(** A path at or below the mount point is not the path of the health
    route. *)
Lemma mounted_not_health (p below : list string) :
  App.mounted p = Some below -> App.atHealth p = false.
Proof.
  unfold App.mounted, App.atHealth, App.named, Text.equal_ci.
  destruct p as [|first [|second rest]]; try discriminate.
  destruct (Text.same_ci (Text.chars "api") (Text.chars first)) eqn:Hapi;
    [|discriminate].
  intros _. apply andb_false_intro1, not_true_is_false. intros Hhealth.
  apply same_ci_length in Hapi. apply same_ci_length in Hhealth.
  rewrite <- Hapi in Hhealth. discriminate Hhealth.
Qed.

(** X17. A request whose path lies neither at or below /api/users nor at
    /health, or lies at /health with a method other than GET and HEAD, is
    answered 404 [Not Found] with the message [Cannot <METHOD> <url>] and
    changes nothing; a request under /api/users that no route of the
    router takes gets the same answer after the API limiter has counted
    it. The router takes no path of two or more segments, no PUT, PATCH or
    DELETE of the collection and no POST to an id; a parameter that cannot
    be decoded is an error whatever the method. Paths are matched without
    regard to the case of their letters and with or without a slash at
    their end. *)
Theorem unmatched_request_is_404 `{Externals} (c : Ctx) (w : App.World) :
  (App.mounted (path (req c)) = None ->
   App.atHealth (path (req c)) && App.is_read (method (req c)) = false ->
   App.run [App.mountUsers; App.health; App.notFound] c w
   = (Send (json c 404
              (VObj [("error", VStr "Not Found");
                     ("message", VStr ("Cannot " +:+ App.methodName (method (req c))
                                       +:+ " " +:+ originalUrl (req c)))])), w))
  /\ (forall below c1,
        App.mounted (path (req c)) = Some below ->
        App.route (method (req c)) below c1 = App.NoRoute ->
        fst (App.limit App.Api c w) = Next c1 ->
        App.run [App.mountUsers; App.health; App.notFound] c w
        = (Send (json c1 404
                   (VObj [("error", VStr "Not Found");
                          ("message", VStr ("Cannot " +:+ App.methodName (method (req c))
                                            +:+ " " +:+ originalUrl (req c)))])),
           snd (App.limit App.Api c w)))
  /\ (forall m below c1,
        App.route m below c1 = App.NoRoute
        <-> App.target below = None
            \/ (App.target below = Some App.Collection /\ In m [PUT; PATCH; DELETE])
            \/ (exists segment id,
                  App.target below = Some (App.Item segment)
                  /\ decodeParam segment = Some id /\ m = POST))
  /\ (forall m below segment c1,
        App.target below = Some (App.Item segment) ->
        decodeParam segment = None ->
        App.route m below c1 = App.Undecoded (App.decodeError segment)
        /\ e_status (App.decodeError segment) = Some 400%nat)
  /\ (forall below,
        match App.target below with
        | Some App.Collection => below = [] \/ below = [""]
        | Some (App.Item segment) =>
            segment <> "" /\ (below = [segment] \/ below = [segment; ""])
        | None => True
        end)
  /\ (App.mounted ["API"; "Users"; "7"] = Some ["7"]
      /\ App.mounted ["api"; "users"; ""] = Some []
      /\ App.mounted ["api"; "users"; ""; "7"] = Some ["7"]
      /\ App.mounted ["api"; "user"; "7"] = None
      /\ App.atHealth ["HEALTH"] = true
      /\ App.atHealth ["health"; ""] = true
      /\ App.atHealth ["health"; "live"] = false
      /\ App.target ["7"; "posts"] = None).
Proof.
  split; [|split; [|split; [|split; [|split]]]].
  - intros Husers Hhealth. cbn [App.run].
    unfold App.mountUsers at 1. rewrite Husers.
    unfold App.health at 1. rewrite Hhealth. reflexivity.
  - intros below c1 Hp Hroute Hlimit. cbn [App.run].
    unfold App.mountUsers at 1. rewrite Hp. cbn [App.run].
    destruct (App.limit App.Api c w) as [step w1] eqn:Hl. cbn [fst snd] in *. subst step.
    assert (Hreq : req c1 = req c).
    { unfold App.limit, RateLimit.rateLimit in Hl.
      destruct (_ <? _); inversion Hl; reflexivity. }
    unfold App.usersRouter. rewrite Hreq, Hroute.
    unfold App.health at 1. rewrite Hreq, (mounted_not_health _ _ Hp).
    cbn [andb]. unfold App.notFound. now rewrite Hreq.
  - intros m below c1. unfold App.route.
    destruct (App.target below) as [[|segment]|].
    + destruct m; cbn [App.collectionStack In]; split; intros Hx;
        try discriminate Hx; try reflexivity;
        try (right; left; split; [reflexivity | tauto]);
        exfalso; destruct Hx as [Hx|[[_ Hx]|(s & i & Hx & _)]];
        try discriminate Hx;
        repeat (destruct Hx as [Hx|Hx]; try discriminate Hx); try tauto.
    + destruct (decodeParam segment) as [id|] eqn:Hdec.
      * destruct m; cbn [App.itemStack]; split; intros Hx;
          try discriminate Hx; try reflexivity;
          try (right; right; exists segment, id; repeat split; assumption);
          exfalso; destruct Hx as [Hx|[[Hx _]|(s & i & _ & _ & Hx)]];
          discriminate Hx.
      * split; [discriminate|].
        intros [Hx|[[Hx _]|(s & i & [= <-] & Hx & _)]]; try discriminate Hx.
        congruence.
    + split; [now left | reflexivity].
  - intros m below segment c1 Ht Hdec. unfold App.route. rewrite Ht, Hdec.
    now split.
  - intros below. unfold App.target.
    destruct below as [|s1 [|s2 [|s3 rest]]]; cbn [App.ends].
    + now left.
    + destruct (String.eqb_spec s1 ""); cbn [negb andb];
        [subst; now right | split; [assumption | now left]].
    + destruct (String.eqb_spec s1 ""), (String.eqb_spec s2 ""); cbn [negb andb];
        subst; try exact I. split; [assumption | now right].
    + destruct (String.eqb s1 ""); cbn [negb andb]; exact I.
  - vm_compute. repeat split; reflexivity.
Qed.
(** ** The three limiters on one request *)

Lemma limit_step (l : App.Limiter) (c : Ctx) (w : App.World) :
  App.limit l c w =
  let e := RateLimit.increment (App.options l) (ip (req c)) (now (req c))
             (App.hits l w) in
  let c' := RateLimit.quotaHeaders (App.options l) (now (req c)) e c in
  (if RateLimit.max (App.options l) <? RateLimit.totalHits e
   then Send (json c' 429 (VObj [("error", VStr (RateLimit.message (App.options l)))]))
   else Next c',
   App.with_hits l w (<[ip (req c) := e]> (App.hits l w))).
Proof.
  unfold App.limit, RateLimit.rateLimit. cbv zeta.
  destruct (_ <? _); reflexivity.
Qed.

Lemma stack_keeps_counters (stack : list App.Middleware) :
  Forall (fun m : App.Middleware =>
            forall c w, App.general (snd (m c w)) = App.general w
                        /\ App.api (snd (m c w)) = App.api w) stack ->
  forall c w, App.general (snd (App.run stack c w)) = App.general w
              /\ App.api (snd (App.run stack c w)) = App.api w.
Proof.
  intros Hall c w.
  apply (run_preserves (fun w1 w2 => App.general w2 = App.general w1
                                     /\ App.api w2 = App.api w1));
    [now split | intros w1 w2 w3 [G1 A1] [G2 A2]; split; congruence | exact Hall].
Qed.

Lemma pure_stack_counters (fs : list (Ctx -> Step)) :
  Forall (fun m : App.Middleware =>
            forall c w, App.general (snd (m c w)) = App.general w
                        /\ App.api (snd (m c w)) = App.api w) (map App.pure fs).
Proof. induction fs; constructor; [intros c w; now split | assumption]. Qed.

Lemma router_keeps_counters `{Externals} (below : list string) (c : Ctx)
    (w : App.World) :
  App.general (snd (App.usersRouter below c w)) = App.general w
  /\ App.api (snd (App.usersRouter below c w)) = App.api w.
Proof.
  assert (Hwrap : forall stack c0,
            snd (match App.run stack c0 w with
                 | (Next _, w') => (Next c, w')
                 | stop => stop
                 end) = snd (App.run stack c0 w)).
  { intros stack c0. destruct (App.run stack c0 w) as [[c1|resp|c1 e] w1]; reflexivity. }
  assert (Hhandler : forall h, forall c0 w0,
            App.general (snd (App.handler h c0 w0)) = App.general w0
            /\ App.api (snd (App.handler h c0 w0)) = App.api w0).
  { intros h c0 w0. unfold App.handler. destruct (h c0 (App.db w0)). now split. }
  assert (Hstrict : forall c0 w0,
            App.general (snd (App.limit App.Strict c0 w0)) = App.general w0
            /\ App.api (snd (App.limit App.Strict c0 w0)) = App.api w0).
  { intros c0 w0. rewrite limit_step. now split. }
  unfold App.usersRouter, App.route.
  destruct (App.target below) as [[|segment]|]; [| |now split].
  - destruct (method (req c)); cbn [App.collectionStack];
      try (now split); rewrite Hwrap; apply stack_keeps_counters;
      unfold App.validateId, App.validateUser, App.validateUserUpdate;
      repeat first [ apply Forall_cons_2; [first [apply Hstrict | apply Hhandler]|]
                   | apply Forall_app; split
                   | apply pure_stack_counters
                   | apply Forall_nil_2 ].
  - destruct (decodeParam segment) as [id|]; [|now split].
    destruct (method (req c)); cbn [App.itemStack];
      try (now split); rewrite Hwrap; apply stack_keeps_counters;
      unfold App.validateId, App.validateUser, App.validateUserUpdate;
      repeat first [ apply Forall_cons_2; [first [apply Hstrict | apply Hhandler]|]
                   | apply Forall_app; split
                   | apply pure_stack_counters
                   | apply Forall_nil_2 ].
Qed.

(** The three limiters on a request that has come to the general
    limiter, under /api/users. *)
Lemma behind_counts `{Externals} (c : Ctx) (w : App.World) (below : list string) :
  App.mounted (path (req c)) = Some below ->
  let who := ip (req c) in
  let t := now (req c) in
  let g := RateLimit.increment RateLimit.generalLimiter who t (App.general w) in
  let a := RateLimit.increment RateLimit.apiLimiter who t (App.api w) in
  let s := RateLimit.increment RateLimit.strictLimiter who t (App.strict w) in
  let out := App.run App.behind c w in
  App.general (snd out) = <[who := g]> (App.general w)
  /\ (100 < RateLimit.totalHits g ->
      (exists resp, fst out = Send resp /\ status resp = 429%nat
         /\ payload resp
            = VObj [("error",
                     VStr "Too many requests from this IP, please try again after 15 minutes")])
      /\ App.api (snd out) = App.api w /\ App.strict (snd out) = App.strict w
      /\ App.db (snd out) = App.db w)
  /\ (RateLimit.totalHits g <= 100 ->
      App.api (snd out) = <[who := a]> (App.api w)
      /\ (1000 < RateLimit.totalHits a ->
          (exists resp, fst out = Send resp /\ status resp = 429%nat
             /\ payload resp
                = VObj [("error",
                         VStr "API rate limit exceeded, please try again after an hour")])
          /\ App.strict (snd out) = App.strict w /\ App.db (snd out) = App.db w)
      /\ (RateLimit.totalHits a <= 1000 ->
          Spec.sensitive (method (req c)) = true ->
          Spec.routed below c = true ->
          App.strict (snd out) = <[who := s]> (App.strict w))).
Proof.
  intros Hp who t g a s out. subst out g a s who t.
  unfold App.behind. cbn [App.run].
  rewrite (limit_step App.General). cbv zeta.
  cbn [App.options App.hits App.with_hits].
  remember (RateLimit.increment RateLimit.generalLimiter (ip (req c)) (now (req c))
              (App.general w)) as g eqn:Eg.
  remember (RateLimit.increment RateLimit.apiLimiter (ip (req c)) (now (req c))
              (App.api w)) as a eqn:Ea.
  change (RateLimit.max RateLimit.generalLimiter) with 100.
  destruct (Z.ltb_spec 100 (RateLimit.totalHits g)) as [Hg|Hg].
  { cbn [fst snd App.general App.api App.strict App.db].
    split; [reflexivity|]. split; [|intros Hle; lia].
    intros _. split; [eexists; repeat split; reflexivity|]. repeat split. }
  remember (RateLimit.quotaHeaders RateLimit.generalLimiter (now (req c)) g c)
    as c1 eqn:Ec1.
  remember (App.mkWorld (<[ip (req c):=g]> (App.general w)) (App.api w) (App.strict w)
              (App.db w)) as w1 eqn:Ew1.
  assert (Hreq1 : req c1 = req c) by (subst c1; reflexivity).
  assert (Hmount : App.mountUsers c1 w1
                   = App.run [App.limit App.Api; App.usersRouter below] c1 w1)
    by (unfold App.mountUsers; now rewrite Hreq1, Hp).
  rewrite Hmount.
  cbn [App.run]. rewrite (limit_step App.Api). cbv zeta. rewrite Hreq1.
  cbn [App.options App.hits App.with_hits].
  assert (Hapi1 : App.api w1 = App.api w) by (subst w1; reflexivity).
  assert (Hgen1 : App.general w1 = <[ip (req c):=g]> (App.general w))
    by (subst w1; reflexivity).
  assert (Hstrict1 : App.strict w1 = App.strict w) by (subst w1; reflexivity).
  assert (Hdb1 : App.db w1 = App.db w) by (subst w1; reflexivity).
  rewrite Hapi1, <- Ea.
  change (RateLimit.max RateLimit.apiLimiter) with 1000.
  destruct (Z.ltb_spec 1000 (RateLimit.totalHits a)) as [Ha|Ha].
  { cbn [fst snd App.general App.api App.strict App.db].
    split; [exact Hgen1|]. split; [intros Hgt; lia|]. intros _.
    split; [reflexivity|]. split; [|intros Hle; lia].
    intros _. split; [eexists; repeat split; reflexivity|]. now split. }
  remember (RateLimit.quotaHeaders RateLimit.apiLimiter (now (req c)) a c1)
    as c2 eqn:Ec2.
  remember (App.mkWorld (App.general w1) (<[ip (req c):=a]> (App.api w)) (App.strict w1)
              (App.db w1)) as w2 eqn:Ew2.
  assert (Hreq2 : req c2 = req c) by (subst c2; exact Hreq1).
  destruct (router_keeps_counters below c2 w2) as [Hgen Hapi].
  assert (Hgen2 : App.general w2 = <[ip (req c):=g]> (App.general w))
    by (subst w2; exact Hgen1).
  assert (Hapi2 : App.api w2 = <[ip (req c):=a]> (App.api w))
    by (subst w2; reflexivity).
  assert (Hstrict2 : App.strict w2 = App.strict w) by (subst w2; exact Hstrict1).
  rewrite Hgen2 in Hgen. rewrite Hapi2 in Hapi.
  assert (Hstrict : Spec.sensitive (method (req c)) = true ->
                    Spec.routed below c = true ->
                    App.strict (snd (App.usersRouter below c2 w2))
                    = <[ip (req c) :=
                          RateLimit.increment RateLimit.strictLimiter (ip (req c))
                            (now (req c)) (App.strict w)]> (App.strict w)).
  { intros Hs Hr. rewrite router_counts.
    - unfold Spec.entryAfter. now rewrite Hreq2, Hstrict2.
    - now rewrite Hreq2.
    - revert Hr. unfold Spec.routed, App.route. rewrite Hreq2.
      destruct (App.target below) as [[|segment]|]; try discriminate.
      + now destruct (App.collectionStack _).
      + destruct (decodeParam segment); [|discriminate].
        now destruct (App.itemStack _). }
  assert (Hrest : forall c3 w3,
            snd (App.run [App.health; App.notFound] c3 w3) = w3).
  { intros c3 w3. cbn [App.run].
    destruct (health_cases c3 w3) as [->|[resp ->]]; reflexivity. }
  destruct (App.usersRouter below c2 w2) as [[c3|resp|c3 e] w3] eqn:Hrouter;
    cbn [fst snd] in *;
    [specialize (Hrest c3 w3); cbn [App.run] in Hrest; rewrite !Hrest|..];
    (split; [exact Hgen|]); (split; [intros Hgt; lia|]); intros _;
    (split; [exact Hapi|]); (split; [intros Hgt; lia|]); intros _; exact Hstrict.
Qed.

(** Whatever its path, a request that has come to the general limiter is
    counted by it. *)
Lemma behind_counts_general `{Externals} (c : Ctx) (w : App.World) :
  App.general (snd (App.run App.behind c w))
  = <[ip (req c) := RateLimit.increment RateLimit.generalLimiter (ip (req c))
                      (now (req c)) (App.general w)]> (App.general w).
Proof.
  destruct (App.mounted (path (req c))) as [below|] eqn:Hm;
    [exact (proj1 (behind_counts c w below Hm))|].
  unfold App.behind. cbn [App.run].
  rewrite (limit_step App.General). cbv zeta.
  cbn [App.options App.hits App.with_hits].
  destruct (_ <? _); [reflexivity|].
  match goal with |- context [App.mountUsers ?x ?y] =>
    assert (Hmount : App.mountUsers x y = (Next x, y))
      by (unfold App.mountUsers; change (req x) with (req c); now rewrite Hm);
    rewrite Hmount
  end.
  match goal with |- context [App.health ?x ?y] =>
    destruct (health_cases x y) as [->|[resp ->]] end; reflexivity.
Qed.

Section Gate.

Context `{Externals}.

Lemma gate_stateless :
  Forall App.Stateless (App.ahead ++ [App.pure Sql.sqlInjectionProtection]).
Proof.
  apply Forall_app. split; [exact ahead_stateless|].
  constructor; [apply pure_stateless | constructor].
Qed.

Lemma app_after_gate (r : Req) (w : App.World) :
  App.app r w
  = App.finish
      (match App.run (App.ahead ++ [App.pure Sql.sqlInjectionProtection])
               (App.arrival r) w with
       | (Next c, _) => App.run App.behind c w
       | (stop, _) => (stop, w)
       end).
Proof.
  unfold App.app, App.stages.
  change (App.ahead ++ App.pure Sql.sqlInjectionProtection :: App.behind)
    with (App.ahead ++ [App.pure Sql.sqlInjectionProtection] ++ App.behind).
  rewrite app_assoc, run_app.
  pose proof (run_stateless _ (App.arrival r) w gate_stateless) as Hw.
  destruct (App.run (App.ahead ++ [App.pure Sql.sqlInjectionProtection])
              (App.arrival r) w) as [[c|resp|c e] w0]; cbn [snd] in Hw; subst w0;
    reflexivity.
Qed.

End Gate.

(** X18. A request that the size guard, the content sanitizer or the
    injection pattern detector answers, or on which one of the stages
    ahead of the limiters throws, is counted by no limiter and leaves the
    whole state as it was. A request these stages let through is counted
    by the general limiter, whatever its path. When its path lies at or
    below /api/users, in any spelling of the letters: above 100 hits the
    general limiter answers 429 and neither the API limiter nor the strict
    limiter nor the database is touched; otherwise the API limiter counts
    the client, and above 1000 hits it answers 429 and the strict limiter
    and the database are not touched; otherwise a POST, PUT, PATCH or
    DELETE that a route takes is counted by the strict limiter. *)
Theorem limiters_count_in_order `{Externals} (r : Req) (w : App.World) :
  let gate := App.run (App.ahead ++ [App.pure Sql.sqlInjectionProtection])
                (App.arrival r) w in
  let answer := fst (App.app r w) in
  let after := snd (App.app r w) in
  ((forall c, fst gate <> Next c) -> after = w)
  /\ (forall c,
        fst gate = Next c ->
        App.general after
        = <[ip (req c) := RateLimit.increment RateLimit.generalLimiter (ip (req c))
                            (now (req c)) (App.general w)]> (App.general w))
  /\ (forall c below,
        fst gate = Next c ->
        App.mounted (path (req c)) = Some below ->
        let who := ip (req c) in
        let t := now (req c) in
        let g := RateLimit.increment RateLimit.generalLimiter who t (App.general w) in
        let a := RateLimit.increment RateLimit.apiLimiter who t (App.api w) in
        let s := RateLimit.increment RateLimit.strictLimiter who t (App.strict w) in
        (100 < RateLimit.totalHits g ->
         (status answer = 429%nat
          /\ payload answer
             = VObj [("error",
                      VStr "Too many requests from this IP, please try again after 15 minutes")])
         /\ App.api after = App.api w /\ App.strict after = App.strict w
         /\ App.db after = App.db w)
        /\ (RateLimit.totalHits g <= 100 ->
            App.api after = <[who := a]> (App.api w)
            /\ (1000 < RateLimit.totalHits a ->
                (status answer = 429%nat
                 /\ payload answer
                    = VObj [("error",
                             VStr "API rate limit exceeded, please try again after an hour")])
                /\ App.strict after = App.strict w /\ App.db after = App.db w)
            /\ (RateLimit.totalHits a <= 1000 ->
                Spec.sensitive (method (req c)) = true ->
                Spec.routed below c = true ->
                App.strict after = <[who := s]> (App.strict w)))).
Proof.
  intros gate answer after. subst gate answer after.
  rewrite !app_after_gate.
  destruct (App.run (App.ahead ++ [App.pure Sql.sqlInjectionProtection])
              (App.arrival r) w) as [[c0|resp|c0 e] w0] eqn:Hgate; cbn [fst].
  - split; [intros Hno; now elim (Hno c0)|].
    rewrite !snd_finish. split.
    + intros c [= <-]. apply behind_counts_general.
    + intros c below [= <-] Hm.
      destruct (behind_counts c0 w below Hm) as (_ & Hover & Hunder).
      cbv zeta in *. split.
      * intros Hg. destruct (Hover Hg) as ((resp & Hsend & Hst & Hpay) & Hrest).
        split; [|exact Hrest].
        destruct (App.run App.behind c0 w) as [step w1]. cbn [fst] in Hsend.
        subst step. cbn [App.finish fst]. now split.
      * intros Hg. destruct (Hunder Hg) as (Hapi & Hover2 & Hunder2).
        split; [exact Hapi|]. split; [|exact Hunder2].
        intros Ha. destruct (Hover2 Ha) as ((resp & Hsend & Hst & Hpay) & Hrest).
        split; [|exact Hrest].
        destruct (App.run App.behind c0 w) as [step w1]. cbn [fst] in Hsend.
        subst step. cbn [App.finish fst]. now split.
  - split; [intros _; reflexivity|]. split; [intros c Hc; discriminate Hc|].
    intros c below Hc. discriminate Hc.
  - split; [intros _; reflexivity|]. split; [intros c Hc; discriminate Hc|].
    intros c below Hc. discriminate Hc.
Qed.

Lemma limiters_count_in_order_witness :
  let r := Sample.createUser 5000 (Sample.person "Noa Peretz" "noa@example.com") in
  let quoted := Sample.createUser 5000 (Sample.person "O'Brien" "ob@example.com") in
  App.general (snd (App.app (H := Sample.externals) r Sample.fresh))
  = <[Sample.client :=
        RateLimit.increment RateLimit.generalLimiter Sample.client 5000
          (App.general Sample.fresh)]> (App.general Sample.fresh)
  /\ snd (App.app (H := Sample.externals) quoted Sample.fresh) = Sample.fresh.
Proof.
  intros r quoted.
  assert (H1 : fst (App.run (App.ahead (H := Sample.externals)
                             ++ [App.pure Sql.sqlInjectionProtection])
                      (App.arrival r) Sample.fresh)
               = Next (Sample.reaching r Sample.fresh)) by (vm_compute; reflexivity).
  assert (H2 : forall c,
             fst (App.run (App.ahead (H := Sample.externals)
                           ++ [App.pure Sql.sqlInjectionProtection])
                    (App.arrival quoted) Sample.fresh) <> Next c).
  { intros c.
    assert (Hq : fst (App.run (App.ahead (H := Sample.externals)
                               ++ [App.pure Sql.sqlInjectionProtection])
                        (App.arrival quoted) Sample.fresh)
                 = Send (json (Sample.reaching quoted Sample.fresh) 400
                           (Sql.rejection "name"))) by (vm_compute; reflexivity).
    rewrite Hq. discriminate. }
  split.
  - exact (proj1 (proj2 (limiters_count_in_order (H := Sample.externals) r Sample.fresh))
             _ H1).
  - exact (proj1 (limiters_count_in_order (H := Sample.externals) quoted Sample.fresh)
             H2).
Defined.
(** ** Values the field rules accept *)

Lemma space_len_bytes (s : list ascii) :
  Forall (fun c => Chars.is_space c = true \/ (128 <= Chars.code c)%nat)
         (take (Space.space_len s) s).
Proof.
  assert (Hb : forall n c, (128 <= n)%nat -> Space.byte_is n c = true ->
                           (128 <= Chars.code c)%nat).
  { intros n c Hn Hc. unfold Space.byte_is in Hc. apply Nat.eqb_eq in Hc. lia. }
  assert (Hr : forall lo hi c, (128 <= lo)%nat -> Chars.in_range lo hi c = true ->
                               (128 <= Chars.code c)%nat).
  { intros lo hi c Hlo Hc. unfold Chars.in_range in Hc.
    apply andb_true_iff in Hc as [Hc _]. apply Nat.leb_le in Hc. lia. }
  unfold Space.space_len.
  destruct s as [|c0 [|c1 [|c2 rest2]]];
    repeat match goal with
           | |- context [if ?b then _ else _] =>
               let E := fresh "E" in destruct b eqn:E
           end;
    cbn [take]; try apply Forall_nil_2;
    repeat match goal with
           | E : (_ && _) = true |- _ => apply andb_true_iff in E as [? ?]
           end;
    try (apply Forall_cons_2; [now left | apply Forall_nil_2]);
    repeat (apply Forall_cons_2; [right|]); try apply Forall_nil_2;
    try (eapply Hb; [|eassumption]; lia).
  all: match goal with
       | E : (_ || _) = true |- _ =>
           apply orb_true_iff in E as [E|E];
           [apply orb_true_iff in E as [E|E]|];
           first [eapply Hr; [|exact E]; lia | eapply Hb; [|exact E]; lia]
       end.
Qed.

Lemma entity_plain (c : ascii) :
  Chars.is_upper c || Chars.is_lower c || Chars.is_digit c || Chars.is_space c
  || Ascii.eqb c "." || Ascii.eqb c "-" || Ascii.eqb c "," || Ascii.eqb c "+"
  || (128 <=? Chars.code c)%nat = true ->
  Rules.entity c = [c].
Proof.
  destruct c as [[] [] [] [] [] [] [] []]; vm_compute; intros Hc;
    first [reflexivity | discriminate Hc].
Qed.

Lemma class_len_bytes (extra : ascii -> bool) (s : list ascii) :
  (forall c, extra c = true -> Rules.entity c = [c]) ->
  Forall (fun c => Rules.entity c = [c]) (take (Rules.class_len extra s) s).
Proof.
  intros Hextra. unfold Rules.class_len.
  destruct s as [|c0 rest]; [constructor|].
  destruct (_ || extra c0) eqn:Hfirst.
  { cbn [take]. apply Forall_cons_2; [|apply Forall_nil_2].
    apply orb_true_iff in Hfirst as [Hfirst|Hx]; [|now apply Hextra].
    apply entity_plain.
    repeat (apply orb_true_iff in Hfirst as [Hfirst|Hfirst]);
      rewrite Hfirst, ?orb_true_r; reflexivity. }
  destruct (Space.space_len (c0 :: rest)) as [|n] eqn:Hn.
  - destruct rest as [|c1 rest1]; [constructor|].
    destruct (Rules.script_letter c0 c1) eqn:Hsl; [|constructor].
    cbn [take]. unfold Rules.script_letter, Space.byte_is, Chars.in_range in Hsl.
    assert (H0 : (128 <= Chars.code c0)%nat /\ (128 <= Chars.code c1)%nat).
    { apply orb_true_iff in Hsl as [Hsl|Hsl];
        apply andb_true_iff in Hsl as [A B];
        apply andb_true_iff in B as [B _]; apply Nat.leb_le in B.
      - apply Nat.eqb_eq in A. lia.
      - apply andb_true_iff in A as [A _]. apply Nat.leb_le in A. lia. }
    destruct H0 as [A B].
    repeat (apply Forall_cons_2;
            [apply entity_plain;
             match goal with
             | |- context [(128 <=? ?x)%nat] =>
                 replace (128 <=? x)%nat with true by (symmetry; apply Nat.leb_le; lia)
             end; now rewrite !orb_true_r|]).
    apply Forall_nil_2.
  - rewrite <- Hn. eapply Forall_impl; [apply space_len_bytes|].
    intros c [Hc|Hc]; apply entity_plain.
    + rewrite Hc, ?orb_true_r. reflexivity.
    + replace (128 <=? Chars.code c)%nat with true by (symmetry; now apply Nat.leb_le).
      now rewrite !orb_true_r.
Qed.

Lemma all_class_bytes (extra : ascii -> bool) (fuel : nat) (s : list ascii) :
  (forall c, extra c = true -> Rules.entity c = [c]) ->
  Rules.all_class fuel extra s = true ->
  Forall (fun c => Rules.entity c = [c]) s.
Proof.
  intros Hextra. revert s. induction fuel as [|fuel IH]; intros s; cbn [Rules.all_class].
  - destruct s; [constructor | discriminate].
  - destruct s as [|c0 rest]; [constructor|].
    destruct (Rules.class_len extra (c0 :: rest)) as [|n] eqn:Hn; [discriminate|].
    intros Hrest. rewrite <- (take_drop (S n) (c0 :: rest)). apply Forall_app. split.
    + rewrite <- Hn. now apply class_len_bytes.
    + now apply IH.
Qed.

Lemma flat_map_plain (l : list ascii) :
  Forall (fun c => Rules.entity c = [c]) l -> flat_map Rules.entity l = l.
Proof.
  induction 1 as [|c l Hc _ IH]; [reflexivity|]. cbn [flat_map]. now rewrite Hc, IH.
Qed.

Lemma in_class_escape (extra : ascii -> bool) (s : string) :
  (forall c, extra c = true -> Rules.entity c = [c]) ->
  Rules.in_class extra s = true -> Rules.escape s = VStr s.
Proof.
  intros Hextra Hin. unfold Rules.in_class in Hin. unfold Rules.escape.
  destruct (Text.chars s) as [|c l] eqn:Hc; [discriminate|].
  rewrite flat_map_plain by (eapply all_class_bytes; eassumption).
  now rewrite <- Hc, text_chars.
Qed.

Lemma drop_prefix_eq (p s rest : list ascii) :
  Text.drop_prefix Ascii.eqb p s = Some rest -> s = p ++ rest.
Proof.
  revert s. induction p as [|a p IH]; intros s; cbn [Text.drop_prefix].
  - now intros [= <-].
  - destruct s as [|b s]; [discriminate|].
    destruct (Ascii.eqb_spec a b) as [->|_]; [|discriminate].
    intros Hrest. cbn [app]. f_equal. now apply IH.
Qed.

Lemma selectors_ascii (l : list ascii) :
  Forall (fun c => (Chars.code c < 128)%nat) l -> Rules.selectors l = 0%nat.
Proof.
  induction 1 as [|c l Hc _ IH]; [reflexivity|]. cbn [Rules.selectors]. rewrite IH.
  assert (Hb : Space.byte_is 239 c = false)
    by (unfold Space.byte_is; apply Nat.eqb_neq; lia).
  destruct l as [|c1 [|c2 l2]]; rewrite ?Hb; reflexivity.
Qed.

Lemma filter_all {A} (f : A -> bool) (l : list A) :
  Forall (fun x => f x = true) l -> List.filter f l = l.
Proof.
  induction 1 as [|x l Hx _ IH]; [reflexivity|]. cbn [List.filter]. now rewrite Hx, IH.
Qed.

Lemma phone_shape (s : string) :
  Rules.phonePattern s = true ->
  exists rest, Text.chars s = Text.chars "+9725" ++ rest
               /\ length rest = 8%nat
               /\ Forall (fun c => Chars.is_digit c = true) rest.
Proof.
  unfold Rules.phonePattern.
  destruct (Text.drop_prefix Ascii.eqb _ _) as [rest|] eqn:Hd; [|discriminate].
  intros Hok. apply andb_true_iff in Hok as [Hlen Hdig]. exists rest.
  split; [now apply drop_prefix_eq|]. split; [now apply Nat.eqb_eq|].
  apply Forall_forall. intros c Hin. rewrite forallb_forall in Hdig.
  apply Hdig. now apply list_elem_of_In.
Qed.

Lemma phone_accepted (s : string) :
  Rules.phonePattern s = true ->
  Rules.trim s = VStr s
  /\ Validators.digitsAndPlus (VStr s) = Some (VStr s)
  /\ Rules.isLength 13 13 s = true.
Proof.
  intros Hp. destruct (phone_shape s Hp) as (rest & Hs & Hlen & Hdig).
  assert (Hplain : Forall (fun c => (Chars.code c < 128)%nat
                                    /\ Chars.is_space c = false)
                          (Text.chars s)).
  { rewrite Hs. apply Forall_app. split.
    - repeat (apply Forall_cons_2; [split; [vm_compute; lia | reflexivity]|]).
      apply Forall_nil_2.
    - eapply Forall_impl; [exact Hdig|]. intros c Hc. now apply digit_plain. }
  split; [|split].
  - unfold Rules.trim. now rewrite trim_plain, text_chars.
  - unfold Validators.digitsAndPlus. rewrite filter_all; [now rewrite text_chars|].
    rewrite Hs. apply Forall_app. split.
    + repeat (apply Forall_cons_2; [reflexivity|]). apply Forall_nil_2.
    + eapply Forall_impl; [exact Hdig|]. intros c Hc. cbn. now rewrite Hc.
  - unfold Rules.isLength, Rules.char_count.
    rewrite selectors_ascii
      by (eapply Forall_impl; [exact Hplain|]; intros c [Hc _]; exact Hc).
    rewrite filter_all.
    + rewrite Hs, length_app, Hlen. reflexivity.
    + eapply Forall_impl; [exact Hplain|]. intros c [Hc _].
      unfold Rules.continuation, Chars.in_range. apply negb_true_iff.
      apply andb_false_iff. left. apply Nat.leb_gt. lia.
Qed.

Lemma letters_escape (s : string) : Rules.lettersOnly s = true -> Rules.escape s = VStr s.
Proof. apply in_class_escape. discriminate. Qed.

Lemma address_escape (s : string) : Rules.addressChars s = true -> Rules.escape s = VStr s.
Proof.
  apply in_class_escape. intros c Hc. apply entity_plain.
  apply orb_true_iff in Hc as [Hc|Hc]; rewrite Hc, ?orb_true_r; reflexivity.
Qed.

(** X19. A value that the letters pattern or the address pattern accepts
    has no character that [escape] rewrites, so escaping leaves it as it is;
    a value that the phone pattern accepts is left as it is by [trim] and by
    the digits-and-plus sanitizer, and has exactly 13 characters, so the
    length rule that follows never fails. *)
Theorem accepted_values_need_no_cleaning (s : string) :
  (Rules.lettersOnly s = true -> Rules.escape s = VStr s)
  /\ (Rules.addressChars s = true -> Rules.escape s = VStr s)
  /\ (Rules.phonePattern s = true ->
      Rules.trim s = VStr s
      /\ Validators.digitsAndPlus (VStr s) = Some (VStr s)
      /\ Rules.isLength 13 13 s = true).
Proof.
  split; [apply letters_escape|]. split; [apply address_escape | apply phone_accepted].
Qed.

(** ** The keys of the body under the update rules *)

Lemma get_absent (props : list (string * value)) (k : string) :
  ~ In k (map fst props) -> Js.get props k = VUndefined.
Proof.
  induction props as [|[k0 x] l IH]; cbn [map fst Js.get]; [reflexivity|].
  intros Hno. destruct (String.eqb_spec k0 k) as [->|_].
  - exfalso. apply Hno. now left.
  - apply IH. intros Hin. apply Hno. now right.
Qed.

Lemma links_same_keys (ch : Chain.t) (l : list Chain.Item) v c v' c'
    (props : list (string * value)) :
  Chain.location ch = Chain.InBody -> Chain.field ch <> "" ->
  body (req c) = VObj props -> In (Chain.field ch) (map fst props) ->
  Chain.links ch l (v, c) = inr (v', c') ->
  exists props', body (req c') = VObj props' /\ map fst props' = map fst props.
Proof.
  intros Hloc Hf. revert v c props.
  induction l as [|it l IH]; intros v c props Hb Hin; cbn [Chain.links].
  - intros [= _ <-]. now exists props.
  - destruct (Chain.link ch it (v, c)) as [c1|[v1 c1]] eqn:Hl; [discriminate|].
    intros Hrest.
    destruct (link_body ch it v c v1 c1 Hl)
      as [(_ & Hb1 & _)|(_ & [(Hp & _)|(_ & _ & [(Hf0 & _)|(_ & props0 & Hb0 & Hb1)])])].
    + apply (IH v1 c1 props); [congruence | exact Hin | exact Hrest].
    + congruence.
    + contradiction.
    + assert (props0 = props) as -> by congruence.
      destruct (assign_keys props (Chain.field ch) v1) as [[_ Hk]|[Hno _]];
        [|contradiction].
      destruct (IH v1 c1 _ Hb1 ltac:(now rewrite Hk) Hrest) as (props' & Hb' & Hk').
      exists props'. split; [exact Hb'|]. congruence.
Qed.

Lemma optional_chain_keys (ch : Chain.t) (c c' : Ctx) (props : list (string * value)) :
  Chain.location ch = Chain.InBody -> Chain.field ch <> "" ->
  Chain.optional ch = true ->
  body (req c) = VObj props ->
  Chain.run ch c = Next c' ->
  exists props', body (req c') = VObj props' /\ map fst props' = map fst props.
Proof.
  intros Hloc Hf Hopt Hb. unfold Chain.run. rewrite Hopt. cbn [andb].
  assert (Hsel : Chain.select ch (req c) = Js.get props (Chain.field ch)).
  { unfold Chain.select, Chain.data. rewrite Hloc, Hb.
    apply String.eqb_neq in Hf. now rewrite Hf. }
  rewrite Hsel.
  destruct (in_dec String.string_dec (Chain.field ch) (map fst props)) as [Hin|Hno].
  - destruct (Js.get props (Chain.field ch)) eqn:Hg;
      try (intros [= <-]; now exists props);
      (destruct (Chain.links ch (Chain.items ch) _) as [c1|[v1 c1]] eqn:Hl;
       [discriminate|]; intros [= <-];
       exact (links_same_keys ch _ _ c v1 c1 props Hloc Hf Hb Hin Hl)).
  - rewrite (get_absent props _ Hno). intros [= <-]. now exists props.
Qed.

(** X20. The rules of [validateUserUpdate] may rewrite the values of the
    body and never its keys: after them the body has the same keys in the
    same order, and the same fields count as supplied for the UPDATE that
    PATCH builds. *)
Theorem update_rules_keep_the_keys `{Externals} (c c_end : Ctx)
    (props : list (string * value)) :
  body (req c) = VObj props ->
  Spec.through Validators.updateChains c = Some c_end ->
  exists props',
    body (req c_end) = VObj props'
    /\ map fst props' = map fst props
    /\ map fst (Spec.recognized (body (req c_end)))
       = map fst (Spec.recognized (body (req c))).
Proof.
  intros Hb Hthrough.
  assert (Hkeys : exists props', body (req c_end) = VObj props'
                                 /\ map fst props' = map fst props).
  { unfold Validators.updateChains in Hthrough.
    repeat match type of Hthrough with
           | Spec.through (?ch :: ?l) ?c0 = _ =>
               change (match Chain.run ch c0 with
                       | Next c' => Spec.through l c'
                       | _ => None
                       end = Some c_end) in Hthrough;
               let c1 := fresh "c" in
               let Hrun := fresh "Hrun" in
               destruct (Chain.run ch c0) as [c1| |] eqn:Hrun;
               try discriminate Hthrough
           end.
    cbn [Spec.through] in Hthrough. injection Hthrough as <-.
    repeat match goal with
           | Hrun : Chain.run ?ch ?c0 = Next ?c1, Hb0 : body (req ?c0) = VObj ?p |- _ =>
               lazymatch goal with
               | _ : body (req c1) = VObj _ |- _ => fail
               | _ => idtac
               end;
               first
                 [ let p' := fresh "p" in
                   let Hb' := fresh "Hb" in
                   let Hk' := fresh "Hk" in
                   destruct (optional_chain_keys ch c0 c1 p eq_refl
                               ltac:(discriminate) eq_refl Hb0 Hrun)
                     as (p' & Hb' & Hk')
                 | let Hb' := fresh "Hb" in
                   assert (Hb' : body (req c1) = VObj p);
                   [ unfold Chain.run in Hrun;
                     cbn [Chain.optional andb Chain.items Chain.links Chain.link] in Hrun;
                     match type of Hrun with
                     | context [Validators.atLeastOneField ?v ?r] =>
                         destruct (Validators.atLeastOneField v r)
                     end; injection Hrun as <-; exact Hb0 |] ]
           end.
    eexists. split; [eassumption|]. congruence. }
  destruct Hkeys as (props' & Hb' & Hk'). exists props'.
  split; [exact Hb'|]. split; [exact Hk'|].
  rewrite Hb, Hb'. unfold Spec.recognized. cbn [Js.own_entries].
  clear -Hk'. revert props' Hk'.
  induction props as [|[k x] l IH]; intros [|[k' x'] l']; cbn [map fst];
    try discriminate; [reflexivity|].
  intros [= -> Hl]. cbn [List.filter fst].
  destruct (Users.includes Users.allowedFields k); cbn [map fst];
    [f_equal|]; now apply IH.
Qed.

Lemma update_rules_keep_the_keys_witness :
  exists props',
    body (req (Examples.after (Validators.updateChains (H := Sample.externals))
                 (Examples.byId 1 (VObj [("city", VStr " Akko ")]))))
    = VObj props'
    /\ map fst props' = ["city"].
Proof.
  assert (H1 : body (req (Examples.byId 1 (VObj [("city", VStr " Akko ")])))
               = VObj [("city", VStr " Akko ")]) by reflexivity.
  assert (H2 : Spec.through (Validators.updateChains (H := Sample.externals))
                 (Examples.byId 1 (VObj [("city", VStr " Akko ")]))
               = Some (Examples.after (Validators.updateChains (H := Sample.externals))
                         (Examples.byId 1 (VObj [("city", VStr " Akko ")]))))
    by (vm_compute; reflexivity).
  destruct (update_rules_keep_the_keys (H := Sample.externals) _ _ _ H1 H2)
    as (props' & Hb & Hk & _).
  exists props'. split; [exact Hb | exact Hk].
Defined.

(** ** What a create that passes validation carries to its handler *)

Lemma bodyField_object (c : Ctx) (f : string) (v : value) :
  Spec.bodyField c f = v -> v <> VUndefined ->
  exists props, body (req c) = VObj props /\ Js.get props f = v
                /\ In f (map fst props).
Proof.
  unfold Spec.bodyField. intros Hv Hne.
  destruct (body (req c)) as [| | | | | | |props]; try congruence. exists props.
  split; [reflexivity|]. split; [exact Hv|].
  destruct (in_dec String.string_dec f (map fst props)) as [Hin|Hno]; [exact Hin|].
  rewrite (get_absent props f Hno) in Hv. congruence.
Qed.

Lemma sanitizer_link (ch : Chain.t) (g : string -> value) (x : string) (c : Ctx)
    v' c' :
  Chain.link ch (Chain.Sanitizer g) (VStr x, c) = inr (v', c') ->
  v' = g x /\ found c' = found c.
Proof. cbn [Chain.link]. intros [= <- <-]. split; reflexivity. Qed.

Lemma standard_link (ch : Chain.t) (test : string -> bool) (msg x : string)
    (c : Ctx) v' c' :
  Chain.link ch (Chain.Standard test msg) (VStr x, c) = inr (v', c') ->
  v' = VStr x
  /\ found c' = found c ++ (if test x then [] else [Chain.failure ch msg (VStr x)]).
Proof.
  cbn [Chain.link Chain.each List.filter Conv.toString Conv.shallow Conv.String_].
  intros [= <- <-]. split; [reflexivity|]. cbn [found with_found].
  destruct (test x); reflexivity.
Qed.

Lemma custom_sanitizer_link (ch : Chain.t) (g : value -> option value) (v : value)
    (c : Ctx) v' c' :
  Chain.link ch (Chain.CustomSanitizer g) (v, c) = inr (v', c') ->
  g v = Some v' /\ found c' = found c.
Proof.
  cbn [Chain.link]. destruct (g v) as [w|]; [|discriminate].
  intros [= <- <-]. split; reflexivity.
Qed.

Lemma chain_field_value (ch : Chain.t) (c c' : Ctx) (v v' : value) :
  Chain.location ch = Chain.InBody -> Chain.field ch <> "" ->
  Spec.bodyField c (Chain.field ch) = v -> v <> VUndefined ->
  Chain.links ch (Chain.items ch) (v, c) = inr (v', c') ->
  Spec.bodyField c' (Chain.field ch) = v'.
Proof.
  intros Hloc Hf Hv Hne Hl.
  destruct (bodyField_object c _ v Hv Hne) as (props & Hb & Hg & Hin).
  destruct (links_same_keys ch _ _ c v' c' props Hloc Hf Hb Hin Hl) as (props' & Hb' & _).
  unfold Spec.bodyField. rewrite Hb'.
  apply (links_hold (Chain.field ch) ch (Chain.items ch) v c v' c' Hloc eq_refl Hf);
    [|exact Hl|exact Hb'].
  intros p Hp. congruence.
Qed.

Lemma app_same_nil {A} (l m : list A) : l ++ m = l -> m = [].
Proof.
  intros He. apply (f_equal length) in He. rewrite length_app in He.
  destruct m; [reflexivity | cbn in He; lia].
Qed.

Section TextChain.

Variables (f : string) (lo hi : nat) (lengthMsg charsetMsg : string)
          (charset : string -> bool).
Hypothesis named : f <> "".
Hypothesis plain : forall s, charset s = true -> Rules.escape s = VStr s.

Lemma text_chain_accepts (c c' : Ctx) (s : string) :
  Spec.bodyField c f = VStr s ->
  Chain.run (Validators.textChain false f lo hi lengthMsg charset charsetMsg
               Validators.tidy) c = Next c' ->
  found c' = found c ->
  Spec.bodyField c' f = VStr (Accepted.text s)
  /\ Rules.isLength lo hi (Accepted.phone s) = true
  /\ charset (Accepted.phone s) = true.
Proof.
  intros Hs Hrun Hfound.
  set (ch := Validators.textChain false f lo hi lengthMsg charset charsetMsg
               Validators.tidy) in *.
  assert (Hsel : Chain.select ch (req c) = VStr s).
  { destruct (bodyField_object c f _ Hs ltac:(discriminate)) as (props & Hb & Hg & _).
    unfold Chain.select, ch, Validators.textChain.
    cbn [Chain.field Chain.location Chain.data].
    apply String.eqb_neq in named. now rewrite named, Hb. }
  unfold Chain.run in Hrun. rewrite Hsel in Hrun.
  change (Chain.optional ch) with false in Hrun. cbn [andb] in Hrun.
  destruct (Chain.links ch (Chain.items ch) (VStr s, c)) as [c0|[v5 c5]] eqn:Hlinks;
    [discriminate Hrun|]. injection Hrun as <-.
  pose proof (chain_field_value ch c c5 (VStr s) v5 eq_refl named Hs
                ltac:(discriminate) Hlinks) as Hend.
  change (Chain.field ch) with f in Hend. rewrite Hend.
  change (Chain.items ch)
    with [Chain.Sanitizer Rules.trim;
          Chain.Standard (Rules.isLength lo hi) lengthMsg;
          Chain.Standard charset charsetMsg;
          Chain.Sanitizer Rules.escape;
          Chain.CustomSanitizer Validators.tidy] in Hlinks.
  cbn [Chain.links] in Hlinks.
  destruct (Chain.link ch _ (VStr s, c)) as [?|[v1 c1]] eqn:L1; [discriminate|].
  apply sanitizer_link in L1 as [-> F1].
  change (Rules.trim s) with (VStr (Accepted.phone s)) in Hlinks.
  destruct (Chain.link ch _ (VStr (Accepted.phone s), c1)) as [?|[v2 c2]] eqn:L2;
    [discriminate|].
  apply standard_link in L2 as [-> F2].
  destruct (Chain.link ch _ (VStr (Accepted.phone s), c2)) as [?|[v3 c3]] eqn:L3;
    [discriminate|].
  apply standard_link in L3 as [-> F3].
  destruct (Chain.link ch _ (VStr (Accepted.phone s), c3)) as [?|[v4 c4]] eqn:L4;
    [discriminate|].
  apply sanitizer_link in L4 as [-> F4].
  destruct (Chain.link ch _ (Rules.escape (Accepted.phone s), c4)) as [?|[v5' c5']] eqn:L5;
    [discriminate|].
  apply custom_sanitizer_link in L5 as [Htidy F5]. injection Hlinks as <- <-.
  rewrite F5, F4, F3, F2, F1, <- app_assoc in Hfound.
  apply app_same_nil in Hfound. apply app_eq_nil in Hfound as [E2 E3].
  destruct (Rules.isLength lo hi (Accepted.phone s)); [|discriminate E2].
  destruct (charset (Accepted.phone s)) eqn:Hset; [|discriminate E3].
  rewrite (plain _ Hset) in Htidy. cbn [Validators.tidy] in Htidy.
  injection Htidy as <-. split; [|split; reflexivity].
  unfold Accepted.text, Accepted.phone. now rewrite chars_text.
Qed.

End TextChain.

Lemma phone_chain_accepts (c c' : Ctx) (s : string) :
  Spec.bodyField c "phone" = VStr s ->
  Chain.run (Chain.mk Chain.InBody "phone" false
               [Chain.Sanitizer Rules.trim;
                Chain.Standard Rules.phonePattern Validators.phoneMsg;
                Chain.CustomSanitizer Validators.digitsAndPlus;
                Chain.Standard (Rules.isLength 13 13)
                  "Phone number must be exactly 13 characters"]) c = Next c' ->
  found c' = found c ->
  Spec.bodyField c' "phone" = VStr (Accepted.phone s)
  /\ Rules.phonePattern (Accepted.phone s) = true.
Proof.
  intros Hs Hrun Hfound.
  match type of Hrun with Chain.run ?x _ = _ => set (ch := x) in * end.
  assert (Hsel : Chain.select ch (req c) = VStr s).
  { destruct (bodyField_object c "phone" _ Hs ltac:(discriminate))
      as (props & Hb & Hg & _).
    unfold Chain.select, ch. cbn [Chain.field Chain.location Chain.data String.eqb].
    now rewrite Hb. }
  unfold Chain.run in Hrun. rewrite Hsel in Hrun.
  change (Chain.optional ch) with false in Hrun. cbn [andb] in Hrun.
  destruct (Chain.links ch (Chain.items ch) (VStr s, c)) as [c0|[v5 c5]] eqn:Hlinks;
    [discriminate Hrun|]. injection Hrun as <-.
  pose proof (chain_field_value ch c c5 (VStr s) v5 eq_refl ltac:(discriminate) Hs
                ltac:(discriminate) Hlinks) as Hend.
  change (Chain.field ch) with "phone" in Hend. rewrite Hend.
  unfold ch in Hlinks. cbn [Chain.items Chain.links] in Hlinks. fold ch in Hlinks.
  destruct (Chain.link ch _ (VStr s, c)) as [?|[v1 c1]] eqn:L1; [discriminate|].
  apply sanitizer_link in L1 as [-> F1].
  change (Rules.trim s) with (VStr (Accepted.phone s)) in Hlinks.
  destruct (Chain.link ch _ (VStr (Accepted.phone s), c1)) as [?|[v2 c2]] eqn:L2;
    [discriminate|].
  apply standard_link in L2 as [-> F2].
  destruct (Chain.link ch _ (VStr (Accepted.phone s), c2)) as [?|[v3 c3]] eqn:L3;
    [discriminate|].
  apply custom_sanitizer_link in L3 as [Hfilter F3].
  assert (Hpattern : Rules.phonePattern (Accepted.phone s) = true).
  { destruct (Rules.phonePattern (Accepted.phone s)); [reflexivity|]. exfalso.
    destruct (Chain.link ch _ (v3, c3)) as [?|[v4 c4]] eqn:L4; [discriminate|].
    injection Hlinks as <- <-.
    assert (Hgrow : found c3 `prefix_of` found c4) by (eapply link_grows; eauto).
    destruct Hgrow as [more Hmore].
    rewrite Hmore, F3, F2, F1, <- app_assoc in Hfound.
    apply app_same_nil in Hfound. discriminate Hfound. }
  destruct (phone_accepted _ Hpattern) as (_ & Hsame & _).
  rewrite Hsame in Hfilter. injection Hfilter as <-.
  destruct (Chain.link ch _ (VStr (Accepted.phone s), c3)) as [?|[v4 c4]] eqn:L4;
    [discriminate|].
  apply standard_link in L4 as [-> F4]. injection Hlinks as <- <-.
  split; [reflexivity | exact Hpattern].
Qed.

Lemma prefix_of_nil {A} (l : list A) : l `prefix_of` [] -> l = [].
Proof. intros [m Hm]. symmetry in Hm. now apply app_eq_nil in Hm as [-> _]. Qed.

Local Ltac spared :=
  first [ right; right; split; discriminate
        | right; left; repeat constructor ].

(* The chain of [Hrun] leaves the field [name] of the body as it is. *)
Local Ltac spare name Hrun :=
  match type of Hrun with
  | Chain.run ?ch ?a = Next ?b =>
      let Hs := fresh "Hsame" in
      assert (Hs : Spec.bodyField b name = Spec.bodyField a name)
        by (apply (chain_spares name ch a b); [spared | exact Hrun])
  end.

Lemma accepted_create_fields `{Externals} (c c_end : Ctx) :
  found c = [] ->
  Spec.through Validators.userChains c = Some c_end ->
  found c_end = [] ->
  (forall f s, In f ["name"; "address"; "city"; "country"] ->
               Spec.bodyField c f = VStr s ->
               Spec.bodyField c_end f = VStr (Accepted.text s))
  /\ (forall s, Spec.bodyField c "phone" = VStr s ->
                Spec.bodyField c_end "phone" = VStr (Accepted.phone s)
                /\ Rules.phonePattern (Accepted.phone s) = true)
  /\ (forall s, Spec.bodyField c "name" = VStr s ->
                Rules.isLength 2 100 (Accepted.phone s) = true
                /\ Rules.lettersOnly (Accepted.phone s) = true).
Proof.
  intros Hstart Hthrough Hend.
  unfold Validators.userChains in Hthrough.
  repeat match type of Hthrough with
         | Spec.through (?ch :: ?l) ?c0 = _ =>
             change (match Chain.run ch c0 with
                     | Next c' => Spec.through l c'
                     | _ => None
                     end = Some c_end) in Hthrough;
             let c1 := fresh "c" in
             let Hrun := fresh "Hrun" in
             destruct (Chain.run ch c0) as [c1| |] eqn:Hrun;
             try discriminate Hthrough
         end.
  cbn [Spec.through] in Hthrough. injection Hthrough as <-.
  repeat match goal with
         | Hrun : Chain.run _ ?a = Next ?b, Hb : found ?b = [] |- _ =>
             lazymatch goal with
             | _ : found a = [] |- _ => fail
             | _ => idtac
             end;
             let Ha := fresh "Hf" in
             assert (Ha : found a = [])
               by (apply prefix_of_nil; rewrite <- Hb; exact (chain_grows _ _ _ Hrun))
         end.
  assert (Hname : forall s, Spec.bodyField c "name" = VStr s ->
            Spec.bodyField c0 "name" = VStr (Accepted.text s)
            /\ Rules.isLength 2 100 (Accepted.phone s) = true
            /\ Rules.lettersOnly (Accepted.phone s) = true).
  { intros s Hs.
    apply (text_chain_accepts "name" 2 100 _ _ Rules.lettersOnly ltac:(discriminate)
             letters_escape c c0 s Hs Hrun). congruence. }
  split; [|split].
  - intros f s Hin Hs. cbn in Hin.
    destruct Hin as [<-|[<-|[<-|[<-|[]]]]].
    + spare "name" Hrun0; spare "name" Hrun1; spare "name" Hrun2;
        spare "name" Hrun3; spare "name" Hrun4; spare "name" Hrun5.
      destruct (Hname s Hs) as (Hv & _). congruence.
    + spare "address" Hrun; spare "address" Hrun0; spare "address" Hrun1;
        spare "address" Hrun3; spare "address" Hrun4; spare "address" Hrun5.
      assert (Hk : Spec.bodyField c2 "address" = VStr s) by congruence.
      destruct (text_chain_accepts "address" 5 255 _ _ Rules.addressChars
                  ltac:(discriminate) address_escape c2 c3 s Hk Hrun2) as (Hv & _);
        congruence.
    + spare "city" Hrun; spare "city" Hrun0; spare "city" Hrun1;
        spare "city" Hrun2; spare "city" Hrun4; spare "city" Hrun5.
      assert (Hk : Spec.bodyField c3 "city" = VStr s) by congruence.
      destruct (text_chain_accepts "city" 2 100 _ _ Rules.lettersOnly
                  ltac:(discriminate) letters_escape c3 c4 s Hk Hrun3) as (Hv & _);
        congruence.
    + spare "country" Hrun; spare "country" Hrun0; spare "country" Hrun1;
        spare "country" Hrun2; spare "country" Hrun3; spare "country" Hrun5.
      assert (Hk : Spec.bodyField c4 "country" = VStr s) by congruence.
      destruct (text_chain_accepts "country" 2 100 _ _ Rules.lettersOnly
                  ltac:(discriminate) letters_escape c4 c5 s Hk Hrun4) as (Hv & _);
        congruence.
  - intros s Hs.
    spare "phone" Hrun; spare "phone" Hrun0; spare "phone" Hrun2;
      spare "phone" Hrun3; spare "phone" Hrun4; spare "phone" Hrun5.
    assert (Hk : Spec.bodyField c1 "phone" = VStr s) by congruence.
    destruct (phone_chain_accepts c1 c2 s Hk Hrun1) as (Hv & Hp); [congruence|].
    split; [congruence | exact Hp].
  - intros s Hs. now destruct (Hname s Hs) as (_ & ? & ?).
Qed.

(** X21. When the rules of [validateUser] end without an error on a body
    whose fields are strings, the handler sees name, address, city and
    country with the outer white space removed and every run of white space
    made one space, and nothing else changed; it sees the phone with the
    outer white space removed, and that value matches the phone pattern; the
    name without its outer white space is 2 to 100 characters of the letters
    pattern. *)
Theorem accepted_create_is_tidied `{Externals} (c c_end : Ctx) :
  found c = [] ->
  Spec.through Validators.userChains c = Some c_end ->
  found c_end = [] ->
  (forall f s, In f ["name"; "address"; "city"; "country"] ->
               Spec.bodyField c f = VStr s ->
               Spec.bodyField c_end f = VStr (Accepted.text s))
  /\ (forall s, Spec.bodyField c "phone" = VStr s ->
                Spec.bodyField c_end "phone" = VStr (Accepted.phone s)
                /\ Rules.phonePattern (Accepted.phone s) = true)
  /\ (forall s, Spec.bodyField c "name" = VStr s ->
                Rules.isLength 2 100 (Accepted.phone s) = true
                /\ Rules.lettersOnly (Accepted.phone s) = true).
Proof.
  intros Hstart Hthrough Hend.
  exact (accepted_create_fields c c_end Hstart Hthrough Hend).
Qed.

Lemma accepted_create_is_tidied_witness :
  let c := Examples.posted (Sample.person "  Noa   Peretz " "noa@example.com") in
  Spec.bodyField (Examples.after (Validators.userChains (H := Sample.externals)) c) "name"
  = VStr "Noa Peretz".
Proof.
  intro c.
  assert (H1 : found c = []) by reflexivity.
  assert (H2 : Spec.through (Validators.userChains (H := Sample.externals)) c
               = Some (Examples.after (Validators.userChains (H := Sample.externals)) c))
    by (vm_compute; reflexivity).
  assert (H3 : found (Examples.after (Validators.userChains (H := Sample.externals)) c) = [])
    by (vm_compute; reflexivity).
  exact (proj1 (accepted_create_is_tidied (H := Sample.externals) c _ H1 H2 H3)
           "name" "  Noa   Peretz " (or_introl eq_refl) eq_refl).
Defined.

Lemma create_done (c : Ctx) (d : Store.Db) :
  status (fst (Users.create c d)) = 201%nat ->
  exists vals,
    Users.fields (body (req c)) = Some vals
    /\ Store.rows (snd (Users.create c d))
       = Store.rows d ++ [Store.newRow (Store.next_id d) (now (req c)) vals].
Proof.
  unfold Users.create.
  destruct (Users.fields (body (req c))) as [vals|]; [|discriminate].
  cbn [Store.query Store.execute].
  destruct (map _ (List.filter _ (Store.rows d))) as [|r0 l0]; [|discriminate].
  unfold Store.query, Store.execute. cbn [Store.rows Store.next_id].
  destruct (existsb _ (seq 1 6)); [discriminate|].
  destruct (existsb _ (Store.rows d)); [discriminate|].
  intros _. exists vals. split; reflexivity.
Qed.

Lemma new_row_columns (c : Ctx) (id t : Z) (vals : list value) (f : string) :
  Users.fields (body (req c)) = Some vals ->
  In f Store.columns ->
  Spec.bodyField c f <> VUndefined ->
  Store.column (Store.newRow id t vals) f = Spec.bodyField c f.
Proof.
  intros Hf Hin Hdef.
  destruct (bodyField_object c f _ eq_refl Hdef) as (props & Hb & _ & _).
  unfold Spec.bodyField in *. rewrite Hb in *. cbn [Users.fields] in Hf.
  injection Hf as <-. cbn in Hin.
  repeat (destruct Hin as [<-|Hin]; [reflexivity|]). destruct Hin.
Qed.

(** X22. From [validateUser] to the row: when the rules end without an
    error and the create is answered 201, the stack [validateUser] followed
    by the handler sends the answer of the handler on the validated
    request, and the row appended to the table holds name, address, city and
    country of the body with the white space tidied and the phone with the
    outer white space removed. *)
Theorem valid_create_stores_tidied_text `{Externals} (c c_end : Ctx) (w : App.World) :
  found c = [] ->
  Spec.through Validators.userChains c = Some c_end ->
  found c_end = [] ->
  status (fst (Users.create c_end (App.db w))) = 201%nat ->
  App.run (App.validateUser ++ [App.handler Users.create]) c w
  = (Send (fst (Users.create c_end (App.db w))),
     App.mkWorld (App.general w) (App.api w) (App.strict w)
       (snd (Users.create c_end (App.db w))))
  /\ exists row,
       Store.rows (snd (Users.create c_end (App.db w))) = Store.rows (App.db w) ++ [row]
       /\ (forall f s, In f ["name"; "address"; "city"; "country"] ->
                       Spec.bodyField c f = VStr s ->
                       Store.column row f = VStr (Accepted.text s))
       /\ (forall s, Spec.bodyField c "phone" = VStr s ->
                     Store.column row "phone" = VStr (Accepted.phone s)).
Proof.
  intros Hstart Hthrough Hend Hst.
  destruct rule_sets_are_stacks as (_ & Huser & _).
  split.
  - rewrite run_app, Huser, (rules_run _ c c_end w Hthrough), validate_reports, Hend.
    cbn [App.run]. unfold App.handler.
    destruct (Users.create c_end (App.db w)) as [resp d']. reflexivity.
  - destruct (create_done c_end (App.db w) Hst) as (vals & Hf & Hrows).
    destruct (accepted_create_fields c c_end Hstart Hthrough Hend) as (Htext & Hphone & _).
    eexists. split; [exact Hrows|]. split.
    + intros f s Hin Hs. rewrite <- (Htext f s Hin Hs).
      apply (new_row_columns c_end _ _ vals f Hf).
      * cbn in Hin. unfold Store.columns. cbn. tauto.
      * rewrite (Htext f s Hin Hs). discriminate.
    + intros s Hs. destruct (Hphone s Hs) as [Hv _]. rewrite <- Hv.
      apply (new_row_columns c_end _ _ vals "phone" Hf).
      * unfold Store.columns. cbn. tauto.
      * rewrite Hv. discriminate.
Qed.

Lemma valid_create_stores_tidied_text_witness :
  let c := Examples.posted (Sample.person "  Noa   Peretz " "noa@example.com") in
  let c_end := Examples.after (Validators.userChains (H := Sample.externals)) c in
  App.run (App.validateUser (H := Sample.externals) ++ [App.handler Users.create])
    c Sample.seeded
  = (Send (fst (Users.create c_end Examples.one)),
     App.mkWorld (App.general Sample.seeded) (App.api Sample.seeded)
       (App.strict Sample.seeded) (snd (Users.create c_end Examples.one))).
Proof.
  intros c c_end.
  assert (H1 : found c = []) by reflexivity.
  assert (H2 : Spec.through (Validators.userChains (H := Sample.externals)) c = Some c_end)
    by (vm_compute; reflexivity).
  assert (H3 : found c_end = []) by (vm_compute; reflexivity).
  assert (H4 : status (fst (Users.create c_end (App.db Sample.seeded))) = 201%nat)
    by (vm_compute; reflexivity).
  exact (proj1 (valid_create_stores_tidied_text (H := Sample.externals)
                  c c_end Sample.seeded H1 H2 H3 H4)).
Defined.

(** ** A key named hasOwnProperty *)

Section Guard.

Context `{Externals}.

Lemma sanitizeSource_defined (data : value) :
  Spec.walkable data = true <-> exists data', Xss.sanitizeSource data = Some data'.
Proof.
  unfold Xss.sanitizeSource, Xss.sanitizeObject.
  destruct data as [| | b | n | | s | items | props];
    try (split; [intros _; destruct (Js.truthy _); eexists; reflexivity
                |intros _; reflexivity]);
    cbn [Js.truthy]; apply sanitize_defined.
Qed.

Lemma sanitizer_throws (c : Ctx) :
  forallb Spec.walkable (Sql.sources (req c)) = false ->
  Xss.xssProtection c = Throw c guardError.
Proof.
  unfold Sql.sources, Xss.xssProtection. cbn [forallb]. rewrite andb_true_r.
  intros Hw.
  destruct (Xss.sanitizeSource (body (req c))) as [b|] eqn:Hb; [|reflexivity].
  destruct (Xss.sanitizeSource (query (req c))) as [q|] eqn:Hq; [|reflexivity].
  destruct (Xss.sanitizeSource (params (req c))) as [p|] eqn:Hp; [|reflexivity].
  exfalso.
  rewrite (proj2 (sanitizeSource_defined _) (ex_intro _ b Hb)) in Hw.
  rewrite (proj2 (sanitizeSource_defined _) (ex_intro _ q Hq)) in Hw.
  rewrite (proj2 (sanitizeSource_defined _) (ex_intro _ p Hp)) in Hw.
  discriminate Hw.
Qed.

Lemma sanitizer_hands_on (c : Ctx) :
  forallb Spec.walkable (Sql.sources (req c)) = true ->
  exists c', Xss.xssProtection c = Next c'.
Proof.
  unfold Sql.sources, Xss.xssProtection. cbn [forallb]. rewrite andb_true_r.
  intros [Hb [Hq Hp]%andb_prop]%andb_prop.
  apply sanitizeSource_defined in Hb as [b ->].
  apply sanitizeSource_defined in Hq as [q ->].
  apply sanitizeSource_defined in Hp as [p ->].
  eexists. reflexivity.
Qed.

Lemma ahead_split : App.ahead = Spec.beforeSanitizer ++ [App.pure Xss.xssProtection].
Proof.
  unfold App.ahead, Spec.beforeSanitizer, App.intake. now rewrite <- app_assoc.
Qed.

Lemma beforeSanitizer_stateless : Forall App.Stateless Spec.beforeSanitizer.
Proof.
  pose proof ahead_stateless as Hall. rewrite ahead_split in Hall.
  now apply Forall_app in Hall as [Hall _].
Qed.

(** X24. The loop of the content sanitizer calls [hasOwnProperty] as a
    method of the object it walks. On a request that comes to the
    sanitizer with an object, at any depth of body, query or params, that
    has a key of that name, the call throws a TypeError; on every other
    request the sanitizer goes on. When it throws, no later stage runs:
    the service answers through its error handler with status 500 and the
    message of the exception as [error], and leaves the whole state as it
    was, whatever the method and the path of the request. *)
Theorem shadowed_request_is_answered_500 (r : Req) (w : App.World) (c : Ctx) :
  (Xss.xssProtection c = Throw c guardError
   <-> forallb Spec.walkable (Sql.sources (req c)) = false)
  /\ ((exists c', Xss.xssProtection c = Next c')
      <-> forallb Spec.walkable (Sql.sources (req c)) = true)
  /\ (fst (App.run Spec.beforeSanitizer (App.arrival r) w) = Next c ->
      forallb Spec.walkable (Sql.sources (req c)) = false ->
      App.app r w = (App.errorHandler c guardError, w))
  /\ (status (App.errorHandler c guardError) = 500%nat
      /\ exists more,
           payload (App.errorHandler c guardError)
           = VObj (("error", VStr "obj.hasOwnProperty is not a function") :: more)).
Proof.
  split; [|split; [|split]].
  - split; [|apply sanitizer_throws].
    intros Hthrow. apply not_true_is_false. intros Hw.
    destruct (sanitizer_hands_on c Hw) as [c' Hc']. congruence.
  - split; [|apply sanitizer_hands_on].
    intros [c' Hc']. apply not_false_is_true. intros Hw.
    rewrite (sanitizer_throws c Hw) in Hc'. discriminate Hc'.
  - intros Hrun Hw. unfold App.app, App.stages.
    rewrite ahead_split, <- !app_assoc, run_app.
    pose proof (run_stateless _ (App.arrival r) w beforeSanitizer_stateless) as Hsame.
    destruct (App.run Spec.beforeSanitizer (App.arrival r) w) as [step w0].
    cbn [fst snd] in *. subst step w0.
    cbn [app App.run]. unfold App.pure at 1. rewrite (sanitizer_throws c Hw).
    reflexivity.
  - split; [reflexivity|]. eexists. reflexivity.
Qed.

End Guard.

Lemma shadowed_request_is_answered_500_witness :
  let r := Sample.shadowing in
  let c := Sample.parsed r Sample.seeded in
  fst (App.run (Spec.beforeSanitizer (H := Sample.externals)) (App.arrival r)
         Sample.seeded) = Next c
  /\ forallb Spec.walkable (Sql.sources (req c)) = false
  /\ App.app (H := Sample.externals) r Sample.seeded
     = (json c 500
          (VObj [("error", VStr "obj.hasOwnProperty is not a function");
                 ("message", VStr "Something went wrong");
                 ("stack", VUndefined)]), Sample.seeded).
Proof.
  intros r c.
  assert (H1 : fst (App.run (Spec.beforeSanitizer (H := Sample.externals))
                      (App.arrival r) Sample.seeded) = Next c)
    by (vm_compute; reflexivity).
  assert (H2 : forallb Spec.walkable (Sql.sources (req c)) = false)
    by (vm_compute; reflexivity).
  split; [exact H1|]. split; [exact H2|].
  exact (proj1 (proj2 (proj2 (shadowed_request_is_answered_500 (H := Sample.externals)
                                r Sample.seeded c))) H1 H2).
Defined.
